(* ===== verification/_CoqProject ===== *)
-Q . S2P
Prelude.v
Sha256.v
Base64.v
Text.v
Model.v
Json.v
Ddmin.v
Compare.v
AuditLog.v
Jobs.v
Manager.v
Paths.v
Fs.v
Observe.v
Config.v
Store.v
Workspace.v
Scan.v
Oracle.v
Runner.v
Wait.v
StableRead.v
Tracer.v
Engine.v
Report.v
Bundle.v
Capturer.v
Authorize.v
Service.v
Certificate.v
Diagnostic.v
Api.v
Flags.v
Cli.v
Daemon.v
HubConfig.v
HubStore.v
HubAudit.v
HubOidc.v
HubServer.v
Net.v
AtomicFile.v
HubMain.v
