(* ===== verification/Prelude.v ===== *)
(** * WorldBisect: a verification development

    WorldBisect runs a command that passes in one world and fails in another,
    and finds the differences between the two worlds that make it fail.  This
    library models the Go programs of the repository - the command line program
    [worldbisect], the local daemon [worldbisectd] and the team hub
    [worldbisect-hub] - as executable Rocq definitions translated from the
    source, and proves what makes each part correct.


    ** The program and its parts

    A _capture_ records one run of a command: the workspace before and after it
    as a manifest of digests with the contents in a blob store, the environment
    with its secret values replaced by fingerprints, the result, and evidence
    about the host.  _Comparing_ a good and a bad capture gives candidate
    _factors_, the variables and files that differ.  The _engine_ runs the
    command again in rebuilt workspaces with some of the factors changed,
    minimises the set that matters by delta debugging, and stores an _analysis_
    whose verdict is PROVEN, SUPPORTED or UNPROVEN.  Captures and analyses leave
    the store as bundles, as signed certificates and as redacted handoffs.  The
    daemon takes capture and analysis requests over HTTP, checks that the
    command is an allowed one, and queues them as jobs for its workers.  The
    team hub collects summaries of analyses from people and from CI jobs that
    identify themselves with GitHub's tokens.  Every store keeps a hash-chained
    audit log.

    How the models are put together follows the calls of the code: [Cli] and
    [Service] call [Capturer] and [Engine], which call [Workspace] and [Scan] on
    the file system of [Fs], [Runner], [Oracle] and the store ([Store], [Jobs],
    [AuditLog]); [Api] calls [Service], whose queue is the state of [Manager];
    [Daemon] puts them together.  [HubMain] runs [HubServer], which uses
    [HubConfig], [HubOidc], [HubStore] and [HubAudit].


    ** The files, and what they model under src/

    - shared: [Sha256] (SHA-256, HMAC and hexadecimal, written out), [Base64],
      [Text], [Net], [Flags] (what is used of the standard library), [Json] (the
      interface to encoding/json), [Model] (internal/model);
    - local store: [Store] (internal/store/store.go, experiment_cache.go),
      [Jobs] (the job operations of store.go), [AuditLog] (store/audit.go),
      [AtomicFile] (the four functions that replace a file, call by call);
    - workers: [Manager] (internal/jobs/manager.go);
    - files: [Paths] (path names and their checks), [Fs] (the calls of package
      os), [Workspace] and [Scan] (internal/workspace: scanning and rebuilding,
      by name and below a descriptor), [StableRead] (reading files that others
      change);
    - running: [Runner] (internal/runner/runner.go), [Wait] (its untraced wait),
      [Tracer] (tracer_linux_amd64.go), [Oracle] (internal/oracle and
      internal/redact), [Observe] (internal/observe, internal/id, doctor);
    - analysis: [Compare] and [Ddmin] (internal/experiment/compare.go and
      ddmin.go), [Engine] (engine.go, cache.go), [Report] (internal/report);
    - capture: [Capturer] (internal/capture);
    - artifacts: [Bundle], [Certificate], [Diagnostic] (internal/artifact);
    - daemon: [Config] (internal/config, internal/auth), [Authorize] and
      [Service] (internal/service), [Api] (internal/api), [Daemon]
      (cmd/worldbisectd);
    - command line: [Cli] (cmd/worldbisect);
    - hub: [HubConfig], [HubStore], [HubAudit], [HubOidc], [HubServer]
      (internal/hub), [HubMain] (cmd/worldbisect-hub).

    Each file says at its top how its state corresponds to the code.  Definitions
    have the names of the code; a struct is a record whose fields carry its name
    as a prefix.  The prelude below has errors and results, the notations [let?]
    and [fail?] for early returns, integers of a fixed width, decimal numbers,
    and the lemmas, hints and tactics that the components share.


    ** How the code is modelled

    - A function that returns a value and an error is a function into [result];
      one that changes state takes the state and gives it back, also when it
      fails.  Errors keep their identity where callers compare them, and
      otherwise their text, without the quoting of [%q] and mostly without the
      other arguments that fmt puts in, since nothing depends on either.
    - Everything the program cannot know is an argument: clock readings, random
      identifiers, what the kernel and other processes do, and the outcome of
      each file operation.  A theorem quantifies over all of them.
    - Operations that hold the mutex of a store are one step.  What runs
      concurrently is a state machine whose steps interleave in any order: the
      workers of [Manager], the requests of [HubServer], the loop of [HubMain],
      the tracees of [Tracer], the processes of [Wait], the files of
      [StableRead], the file operations and power failures of [AtomicFile].
    - Encodings and ciphers that the source imports are type classes with the
      documented facts the code relies on: [Json], gzip and tar, regular
      expressions, Ed25519, RSA, URLs, flag texts.  Every theorem that uses one
      has a witness over a concrete instance.
    - No theorem assumes that SHA-256 has no collisions; where one depends on
      it, its conclusion offers a collision as the alternative.
    - Symbolic links, permission bits and the identity of files are modelled in
      [Fs].  Rebuilding a workspace checks the bits, for a user with or without
      the privileges of root; the readers of the program do not, and open what
      their user can read.


    ** What the theorems show

    - Analysis: what a verdict means in terms of runs that were made
      ([Engine.PROVEN_has_evidence], [Engine.Analyze_verdicts]), that the
      minimised set is 1-minimal ([Ddmin.DDMin_one_minimal]), that no difference
      is overlooked ([Compare.Compare_complete]).
    - Jobs: the queue with its leases refines an abstract one, under failures,
      any schedule and crashes ([Jobs.runs_refine_queue],
      [Manager.manager_refines_queue]); a job is run at most the allowed number of
      times and is not starved ([Manager.executions_bounded],
      [Manager.claimable_jobs_finish]).
    - Execution: only authorised programs run, and as authorised
      ([Service.capture_job_runs_authorised], [Authorize.authorizeExecution_iff],
      [Config.Validate_canonical]); a run with a time limit ends
      ([Wait.startAndWait_returns]); what the tracer reports
      ([Tracer.runTraced_accounts]).
    - Requests: what is answered to whom ([Api.ServeHTTP_authorised],
      [Service.EnqueueCapture_answers], [Daemon.init_serves],
      [Cli.handoff_confirmed]).
    - Confidentiality, as the equality of two runs that differ in the secrets:
      [Capturer.capture_hides_secrets], [Diagnostic.diagnostic_hides_values],
      [Report.report_hides_values].
    - Files: rebuilding gives what was recorded
      ([Workspace.Materialize_faithful], [Capturer.capture_rebuilds]), reading is
      stable ([StableRead.stable_read]), replacing is atomic
      ([AtomicFile.writers_atomic]).
    - Logs: [AuditLog.append_audit_ends], [AuditLog.VerifyAudit_tamper_evident],
      [HubAudit.audit_reopens], [HubAudit.Append_atomic].
    - Artifacts: imports verify what they store and exports can be imported
      ([Bundle.ImportBundle_verifies], [Bundle.Export_Import],
      [Diagnostic.ImportDiagnostic_verifies], [Diagnostic.ExportDiagnostic_imports],
      [Certificate.certificate_binds]).
    - Hub: roles bound credentials ([HubConfig.principal_within_role]), every
      change is authorised and audited ([HubServer.changes_are_authorized]), a
      CI token is sound and is used once ([HubOidc.verify_sound],
      [HubServer.ci_token_published_once]), workspaces are isolated
      ([HubStore.store_isolation]), limits hold
      ([HubServer.requests_in_progress_bounded]), and the program only takes the
      steps of this model ([HubMain.serve_refines_hub]).

    Where the code does not do what it means to do, an [Example] next to the
    definition shows a run of it, for instance [Engine.PROVEN_without_forward_run],
    [Workspace.Materialize_readonly], [Wait.daemon_blocks] and
    [Manager.torn_log_fails_jobs].


    ** Bounds and fuel

    Loops that are not structural run with fuel, and a theorem or lemma says that
    it is enough: [ddmin_fuel], a square of the number of factors
    ([Ddmin.DDMin_terminates]); two rounds for the three schema versions
    ([Store.initialize_migrates]); the elements of a path and two for the parents
    of a path ([Observe.writableParent]); the size of a file for reading it in
    pieces ([StableRead.stable_read]); two turns for every claimable job and one
    more ([Manager.claimable_jobs_finish]); the length of the text for decimal
    numbers, IP addresses and SHA-256 blocks.  [max_links], 40, is the limit of
    the kernel for links, [max_eval_links], 255, that of filepath.EvalSymlinks,
    [root_max_links], 8, that of os.Root; exceeding one is the error of the code.
    [path_words], 512 words of 8 bytes, is the buffer of the tracer for a path.


    ** What is not modelled

    The listeners, signals and shutdown of the HTTP servers, the transport of
    HTTP, and the embedded web pages; lock files, which keep a second process
    out; package pkg/contracts, which renames types; trace spans, logging and the
    recovery from panics; the help texts of the programs and the helpers that no
    command calls; the build variants of other platforms; the pipes and
    goroutines that copy the output of a process.  Blobs that a failing scan
    stored before it failed are not recorded.  Temporary names are assumed to be
    free, as their random part makes them. *)

From Stdlib Require Export Ascii ZArith Lia.
From stdpp Require Export base tactics decidable gmap strings list sorting.

(** ** Errors and results

    A Go function that returns [(T, error)] is modelled by [result T]; the
    error value keeps what callers can observe of it: its identity for the
    sentinel errors that are compared with [errors.Is], its message
    otherwise. *)

Inductive error :=
  | ErrMsg (message : string)
  | ErrNotExist
  | ErrIdempotencyConflict
  | ErrNotFound
  | ErrQuota
  | ErrCanceled
  | ErrDeadlineExceeded
  | ErrNotDiagnosticBundle.

#[export] Instance error_eq_dec : EqDecision error.
Proof. solve_decision. Defined.

(** [err.Error()] *)
Definition error_text (e : error) : string :=
  match e with
  | ErrMsg message => message
  | ErrNotExist => "file does not exist"
  | ErrIdempotencyConflict => "idempotency conflict"
  | ErrNotFound => "report not found"
  | ErrQuota =>
      "workspace report quota reached; delete an older report or wait for retention expiry"
  | ErrCanceled => "context canceled"
  | ErrDeadlineExceeded => "context deadline exceeded"
  | ErrNotDiagnosticBundle => "not a diagnostic bundle"
  end.

Inductive result (A : Type) :=
  | Ok (value : A)
  | Err (err : error).
Arguments Ok {A} value.
Arguments Err {A} err.

#[export] Instance result_eq_dec `{EqDecision A} : EqDecision (result A).
Proof. solve_decision. Defined.

Definition is_Ok {A} (r : result A) : Prop := ∃ a, r = Ok a.
Lemma is_Ok_Ok {A} (a : A) : is_Ok (Ok a).
Proof. by exists a. Qed.
#[export] Hint Resolve is_Ok_Ok : core.

Declare Scope go_scope.
Delimit Scope go_scope with go.
Open Scope go_scope.

Definition rbind {A B} (r : result A) (k : A → result B) : result B :=
  match r with Ok a => k a | Err e => Err e end.

(** [let? x := c in k] is Go's [x, err := c; if err != nil { return err }]. *)
Notation "'let?' x ':=' c 'in' k" := (rbind c (fun x => k))
  (at level 10, x pattern, c at level 100, k at level 200) : go_scope.

(** [fail? c with e in k] is an early return: [if c { return e }; k]. *)
Notation "'fail?' c 'with' e 'in' k" := (if (c : bool) then Err e else k)
  (at level 10, c at level 100, e at level 100, k at level 200) : go_scope.

(** The tactics below take apart a run of such code.  [step_ok H] removes
    one statement from the front of [H : code = Ok x]: the early return was
    not taken, the called function succeeded.  [step_all H] removes all. *)
Ltac step_ok H :=
  match type of H with
  | rbind ?r _ = Ok _ =>
      let x := fresh "x" in let E := fresh "E" in
      destruct r as [x|?] eqn:E; cbn [rbind] in H; [|discriminate H]
  | (if ?b then Err _ else _) = Ok _ =>
      let E := fresh "E" in destruct b eqn:E; [discriminate H|]
  | (if ?b then _ else Err _) = Ok _ =>
      let E := fresh "E" in destruct b eqn:E; [|discriminate H]
  end.
Ltac step_all H := repeat step_ok H.

(** Boolean guards as propositions: [bool_prop] rewrites every hypothesis
    with the reflection lemmas of the hint database [go_bool]. *)
Create HintDb go_bool.
#[export] Hint Rewrite negb_true_iff negb_false_iff andb_true_iff andb_false_iff orb_true_iff orb_false_iff
  bool_decide_eq_true bool_decide_eq_false Z.ltb_lt Z.ltb_ge Z.leb_le Z.leb_gt Z.eqb_eq Z.eqb_neq
  Nat.ltb_lt Nat.ltb_ge Nat.leb_le Nat.leb_gt Nat.eqb_eq Nat.eqb_neq : go_bool.
Ltac bool_prop := autorewrite with go_bool in *; destruct_and?.

(** ** Time

    A [time.Time] is the number of nanoseconds since Go's zero time, so
    [IsZero] is a test against 0. *)

Abbreviation time := Z (only parsing).
Definition IsZero (t : time) : bool := bool_decide (t = 0%Z).
Definition After (t u : time) : bool := bool_decide (u < t)%Z.
Definition Before (t u : time) : bool := bool_decide (t < u)%Z.
Definition Second : Z := 1000000000.
Definition Minute : Z := 60 * Second.
Definition Hour : Z := 60 * Minute.

(** ** Machine integers *)

Definition wrap_uint64 (z : Z) : Z := z mod 2 ^ 64.
Definition wrap_int64 (z : Z) : Z := (z + 2 ^ 63) mod 2 ^ 64 - 2 ^ 63.
Definition max_int64 : Z := 2 ^ 63 - 1.

(** ** Strings

    A Go string is a byte string; [string] lists bytes as [ascii]. *)

Definition NUL : string := String "000"%char EmptyString.
Definition NL : string := String "010"%char EmptyString.

Definition has_prefix (s p : string) : bool := String.prefix p s.

Fixpoint string_drop (n : nat) (s : string) : string :=
  match n, s with
  | O, _ => s
  | S _, EmptyString => EmptyString
  | S n, String _ s => string_drop n s
  end.

(** strings.TrimPrefix *)
Definition trim_prefix (s p : string) : string :=
  if has_prefix s p then string_drop (String.length p) s else s.

Fixpoint string_rev_acc (s acc : string) : string :=
  match s with
  | EmptyString => acc
  | String c s => string_rev_acc s (String c acc)
  end.
Definition string_reverse (s : string) : string := string_rev_acc s EmptyString.

Definition has_suffix (s p : string) : bool :=
  has_prefix (string_reverse s) (string_reverse p).

Fixpoint string_take (n : nat) (s : string) : string :=
  match n, s with
  | O, _ | _, EmptyString => EmptyString
  | S n, String c s => String c (string_take n s)
  end.

(** strings.TrimSuffix *)
Definition trim_suffix (s p : string) : string :=
  if has_suffix s p then string_take (String.length s - String.length p) s else s.

(** strings.Contains *)
Fixpoint contains (s sub : string) : bool :=
  has_prefix s sub ||
  match s with EmptyString => false | String _ s => contains s sub end.

Fixpoint string_forallb (f : ascii → bool) (s : string) : bool :=
  match s with EmptyString => true | String c s => f c && string_forallb f s end.

Definition string_existsb (f : ascii → bool) (s : string) : bool :=
  negb (string_forallb (λ c, negb (f c)) s).

(** strings.ContainsAny with the cut set given as a string *)
Fixpoint char_in (c : ascii) (set : string) : bool :=
  match set with
  | EmptyString => false
  | String d set => bool_decide (c = d) || char_in c set
  end.
Definition contains_any (s set : string) : bool := string_existsb (λ c, char_in c set) s.

(** strings.Cut: the text before the first [sep], the text after it. *)
Fixpoint cut (s sep : string) : option (string * string) :=
  if has_prefix s sep then Some (EmptyString, string_drop (String.length sep) s)
  else match s with
       | EmptyString => None
       | String c s =>
           match cut s sep with
           | Some (before, after) => Some (String c before, after)
           | None => None
           end
       end.

(** strings.Split by a single byte *)
Fixpoint split_byte (sep : ascii) (s : string) : list string :=
  match s with
  | EmptyString => [EmptyString]
  | String c s =>
      if bool_decide (c = sep) then EmptyString :: split_byte sep s
      else match split_byte sep s with
           | [] => [String c EmptyString]
           | w :: ws => String c w :: ws
           end
  end.

(** strings.Join *)
Fixpoint join (sep : string) (ws : list string) : string :=
  match ws with
  | [] => EmptyString
  | [w] => w
  | w :: ws => w +:+ sep +:+ join sep ws
  end.

Fixpoint count_byte (c : ascii) (s : string) : nat :=
  match s with
  | EmptyString => 0
  | String d s => (if bool_decide (c = d) then 1 else 0) + count_byte c s
  end.

Definition in_range (lo hi c : ascii) : bool :=
  (Ascii.N_of_ascii lo <=? Ascii.N_of_ascii c)%N && (Ascii.N_of_ascii c <=? Ascii.N_of_ascii hi)%N.
Definition is_digit : ascii → bool := in_range "0" "9".
Definition is_lower : ascii → bool := in_range "a" "z".
Definition is_upper : ascii → bool := in_range "A" "Z".
Definition is_alnum (c : ascii) : bool := is_lower c || is_upper c || is_digit c.
Definition is_lower_hex (c : ascii) : bool := is_digit c || in_range "a" "f" c.
Definition is_hex (c : ascii) : bool := is_lower_hex c || in_range "A" "F" c.

(** fmt's %d *)
Fixpoint digits_aux (fuel : nat) (n : nat) (acc : string) : string :=
  match fuel with
  | O => acc
  | S fuel =>
      let acc' := String (Ascii.ascii_of_nat (48 + n mod 10)) acc in
      match n / 10 with O => acc' | q => digits_aux fuel q acc' end
  end.
Definition show_nat (n : nat) : string := digits_aux (S n) n EmptyString.
Definition show_bool (b : bool) : string := if b then "true" else "false".

Fixpoint zdigits_aux (fuel : nat) (n : Z) (acc : string) : string :=
  match fuel with
  | O => acc
  | S fuel =>
      let acc' := String (Ascii.ascii_of_nat (48 + Z.to_nat (n mod 10))) acc in
      if (n / 10 =? 0)%Z then acc' else zdigits_aux fuel (n / 10) acc'
  end.
Definition show_Z (n : Z) : string :=
  let fuel := S (Z.to_nat (Z.log2 (Z.abs n))) in
  if (n <? 0)%Z then "-" +:+ zdigits_aux fuel (- n) EmptyString
  else zdigits_aux fuel n EmptyString.

(** ** Sorting by a string key

    [sort.Strings], and [sort.Slice] with a comparison of string keys.  The
    slices sorted this way either hold strings or records with distinct keys,
    so the instability of [sort.Slice] is not observable. *)

Definition key_le {A} (key : A → string) (x y : A) : Prop := String.le (key x) (key y).

#[export] Instance key_le_dec {A} (key : A → string) (x y : A) : Decision (key_le key x y).
Proof. unfold key_le. apply _. Defined.

Definition sort_by {A} (key : A → string) (l : list A) : list A := merge_sort (key_le key) l.
Definition sort_strings : list string → list string := sort_by id.

#[export] Instance key_le_total {A} (key : A → string) : Total (key_le key).
Proof. intros x y. unfold key_le. apply (total String.le). Qed.
#[export] Instance key_le_trans {A} (key : A → string) : Transitive (key_le key).
Proof. intros x y z. unfold key_le. apply transitivity. Qed.

(** ** Lemmas on sorting *)

Section sort_by.
Context {A : Type} (key : A → string).
Implicit Types l : list A.

Lemma sort_by_perm l : sort_by key l ≡ₚ l.
Proof. apply merge_sort_Permutation. Qed.

Lemma sort_by_sorted l : StronglySorted (key_le key) (sort_by key l).
Proof. apply (StronglySorted_merge_sort _ _). Qed.

Lemma elem_of_sort_by l x : x ∈ sort_by key l ↔ x ∈ l.
Proof. by rewrite sort_by_perm. Qed.

Lemma length_sort_by l : length (sort_by key l) = length l.
Proof. by rewrite sort_by_perm. Qed.

Lemma NoDup_sort_by l : NoDup (sort_by key l) ↔ NoDup l.
Proof. by rewrite sort_by_perm. Qed.

Lemma StronglySorted_reverse l :
  StronglySorted (key_le key) l → StronglySorted (λ a b, key_le key b a) (reverse l).
Proof.
  induction 1 as [|x l Hs IH Hx]; [constructor|].
  rewrite reverse_cons. apply StronglySorted_app. split_and!; [|done|by repeat constructor].
  intros a b Ha ->%list_elem_of_singleton. rewrite Forall_forall in Hx.
  rewrite elem_of_reverse in Ha. auto.
Qed.

(** A list sorted by pairwise distinct keys is determined by its elements. *)
Lemma sorted_by_unique l1 l2 :
  NoDup (key <$> l1) → StronglySorted (key_le key) l1 →
  StronglySorted (key_le key) l2 → l1 ≡ₚ l2 → l1 = l2.
Proof.
  intros Hnd H1 H2 Hp. eapply (StronglySorted_unique_strong (key_le key)); eauto.
  intros x y Hx Hy Hxy Hyx.
  assert (key x = key y) as Hk by (by apply (anti_symm String.le)).
  apply list_elem_of_lookup in Hx as [i Hi].
  rewrite <-Hp in Hy. apply list_elem_of_lookup in Hy as [j Hj].
  assert (i = j) as ->.
  { eapply (NoDup_lookup (key <$> l1) i j (key x)); [done|..].
    - by rewrite list_lookup_fmap, Hi.
    - by rewrite list_lookup_fmap, Hj, Hk. }
  congruence.
Qed.

Lemma sort_by_id l :
  NoDup (key <$> l) → StronglySorted (key_le key) l → sort_by key l = l.
Proof.
  intros Hnd Hs. symmetry. apply sorted_by_unique; auto using sort_by_sorted.
  by rewrite sort_by_perm.
Qed.
End sort_by.

Lemma sort_strings_perm l : sort_strings l ≡ₚ l.
Proof. apply sort_by_perm. Qed.
Lemma elem_of_sort_strings x l : x ∈ sort_strings l ↔ x ∈ l.
Proof. apply elem_of_sort_by. Qed.

Lemma sort_strings_idemp l : sort_strings (sort_strings l) = sort_strings l.
Proof.
  apply (StronglySorted_unique (key_le id)); try apply sort_by_sorted.
  - apply sort_by_perm.
Qed.

(** ** Lemmas on strings *)

Lemma string_app_assoc (a b c : string) : (a +:+ b) +:+ c = a +:+ b +:+ c.
Proof. induction a as [|x a IH]; [done|]. change (String x ((a +:+ b) +:+ c) = String x (a +:+ b +:+ c)). by f_equal. Qed.

(** ** Lemmas on lists *)

Lemma sublist_full {A} (d c : list A) : d `sublist_of` c → length c ≤ length d → d = c.
Proof.
  induction 1 as [|x d c H IH|x d c H IH]; cbn; intros Hlen; [done|f_equal; apply IH; lia|].
  apply sublist_length in H. lia.
Qed.

(** A proper subsequence of a list without repetition misses an element. *)
Lemma sublist_proper_missing {A} `{EqDecision A} (d c : list A) :
  NoDup c → d `sublist_of` c → d ≠ c → ∃ x, x ∈ c ∧ x ∉ d.
Proof.
  intros Hnd Hsub Hne.
  destruct (decide (Forall (λ x, x ∈ d) c)) as [Hall|Hex].
  - destruct Hne. apply sublist_full; [done|].
    apply submseteq_length, NoDup_submseteq; [done|]. intros x Hx.
    rewrite Forall_forall in Hall. by apply Hall.
  - apply not_Forall_Exists in Hex; [|apply _]. apply Exists_exists in Hex as (x & ? & ?). eauto.
Qed.

(** ** Collecting items in a loop

    [collected out0 keys g Q out]: a loop over [keys] that started with the
    list [out0] has appended [g k] for the keys [k] that satisfy [Q]. *)

Definition collected {A K} (out0 : list A) (keys : list K) (g : K → A) (Q : K → Prop)
    (out : list A) : Prop :=
  ∀ x, x ∈ out ↔ x ∈ out0 ∨ ∃ k, k ∈ keys ∧ x = g k ∧ Q k.

Section collected.
Context {A K : Type} (g : K → A) (Q : K → Prop).

Lemma collected_nil out : collected out [] g Q out.
Proof. intros x. split; [by left|]. intros [|(k & Hk%elem_of_nil & _)]; done. Qed.

Lemma collected_skip out0 k keys out :
  ¬ Q k → collected out0 keys g Q out → collected out0 (k :: keys) g Q out.
Proof.
  intros Hk Hc x. rewrite (Hc x). split; (intros [?|(k' & Hin & -> & Hq)]; [by left|right]).
  - exists k'. split; [by right|done].
  - apply elem_of_cons in Hin as [->|]; [done|]. by exists k'.
Qed.

Lemma collected_take out0 k keys out :
  Q k → collected (out0 ++ [g k]) keys g Q out → collected out0 (k :: keys) g Q out.
Proof.
  intros Hk Hc x. rewrite (Hc x), elem_of_app, list_elem_of_singleton. split.
  - intros [[?| ->]|(k' & Hin & -> & Hq)]; [by left| |]; right;
      [exists k; split; [by left|done]|exists k'; split; [by right|done]].
  - intros [?|(k' & [->|?]%elem_of_cons & -> & Hq)]; [by left; left|by left; right|right; by exists k'].
Qed.
End collected.

(** ** Building a map in a [range] loop *)

Section foldl_insert.
Context {A B : Type} (key : A → string) (val : A → B).
Implicit Types (l : list A) (m : gmap string B).

Lemma foldl_insert_notin l : ∀ m k,
  k ∉ key <$> l → foldl (λ m x, <[key x := val x]> m) m l !! k = m !! k.
Proof.
  induction l as [|x l IH]; intros m k Hk; [done|]. cbn in *.
  rewrite IH by set_solver. rewrite lookup_insert_ne; [done|set_solver].
Qed.

Lemma foldl_insert_in l : ∀ m x,
  NoDup (key <$> l) → x ∈ l →
  foldl (λ m x, <[key x := val x]> m) m l !! key x = Some (val x).
Proof.
  induction l as [|y l IH]; intros m x Hnd Hx; [set_solver|].
  cbn in *. apply NoDup_cons in Hnd as [Hy Hnd].
  apply elem_of_cons in Hx as [->|Hx]; [|by apply IH].
  rewrite foldl_insert_notin by done. by rewrite lookup_insert_eq.
Qed.

Lemma foldl_insert_Some l : ∀ m k b,
  foldl (λ m x, <[key x := val x]> m) m l !! k = Some b →
  m !! k = Some b ∨ ∃ x, x ∈ l ∧ key x = k ∧ val x = b.
Proof.
  induction l as [|y l IH]; intros m k b Hk; [by left|]. cbn in Hk.
  apply IH in Hk as [Hk|(x & ? & ? & ?)]; [|right; exists x; set_solver].
  destruct (decide (key y = k)) as [<-|].
  - rewrite lookup_insert_eq in Hk. simplify_eq. right. exists y. set_solver.
  - rewrite lookup_insert_ne in Hk by done. by left.
Qed.
End foldl_insert.

Lemma wrap_int64_id z : (- 2 ^ 63 ≤ z < 2 ^ 63)%Z → wrap_int64 z = z.
Proof. intros Hz. unfold wrap_int64. rewrite Z.mod_small; lia. Qed.

(** ** More lemmas on strings *)

Lemma string_app_cons c p s : String c p +:+ s = String c (p +:+ s).
Proof. done. Qed.

Lemma string_app_nil_r s : s +:+ "" = s.
Proof. induction s as [|c s IH]; [done|]. by rewrite string_app_cons, IH. Qed.

Lemma string_length_append s t : String.length (s +:+ t) = String.length s + String.length t.
Proof. induction s as [|c s IH]; [done|]. rewrite string_app_cons. cbn. by rewrite IH. Qed.

Lemma string_take_ge n s : String.length s ≤ n → string_take n s = s.
Proof.
  revert s. induction n as [|n IH]; intros [|c s]; cbn; intros; try done; [lia|].
  f_equal. apply IH. lia.
Qed.

Lemma string_length_take n s : String.length (string_take n s) = Nat.min n (String.length s).
Proof. revert s. induction n as [|n IH]; intros [|c s]; cbn; try done. by rewrite IH. Qed.

Lemma string_take_app n s t :
  string_take n (s +:+ t) = string_take n s +:+ string_take (n - String.length s) t.
Proof.
  revert s. induction n as [|n IH]; intros [|c s]; cbn [string_take]; try done.
  rewrite !string_app_cons. cbn. by rewrite IH.
Qed.

Lemma string_take_0 s : string_take 0 s = "".
Proof. by destruct s. Qed.

Lemma string_drop_nil n : string_drop n "" = "".
Proof. by destruct n. Qed.

Lemma string_drop_drop m n s : string_drop m (string_drop n s) = string_drop (n + m) s.
Proof.
  revert s. induction n as [|n IH]; intros s; [by destruct s|].
  destruct s as [|c s]; cbn; [apply string_drop_nil|apply IH].
Qed.

Lemma string_take_drop n m s : string_take n s +:+ string_take m (string_drop n s) = string_take (n + m) s.
Proof.
  revert s. induction n as [|n IH]; intros s; [by destruct s|].
  destruct s as [|c s]; cbn [string_take string_drop Nat.add]; [by destruct m|]. by rewrite string_app_cons, IH.
Qed.

Lemma count_byte_app c s1 s2 : count_byte c (s1 +:+ s2) = count_byte c s1 + count_byte c s2.
Proof. induction s1 as [|x s1 IH]; [done|]. rewrite string_app_cons. cbn. rewrite IH. lia. Qed.

Lemma has_prefix_app p s : has_prefix (p +:+ s) p = true.
Proof.
  unfold has_prefix. induction p as [|c p IH]; [by destruct s|].
  rewrite string_app_cons. cbn. by destruct (ascii_dec c c).
Qed.

Lemma has_prefix_true s p : has_prefix s p = true → ∃ t, s = p +:+ t.
Proof.
  unfold has_prefix. revert s. induction p as [|c p IH]; intros s Hp; [by exists s|].
  destruct s as [|d s]; cbn in Hp; [done|]. destruct (ascii_dec c d) as [->|]; [|done].
  apply IH in Hp as [t ->]. by exists t.
Qed.

Lemma string_drop_app p s : string_drop (String.length p) (p +:+ s) = s.
Proof. induction p as [|c p IH]; [by destruct s|done]. Qed.

Lemma trim_prefix_app p s : trim_prefix (p +:+ s) p = s.
Proof. unfold trim_prefix. by rewrite has_prefix_app, string_drop_app. Qed.

(** [strings.Cut] at the first occurrence of a one-byte separator *)
Lemma cut_byte_app c before after :
  string_existsb (λ d, bool_decide (d = c)) before = false →
  cut (before +:+ String c after) (String c EmptyString) = Some (before, after).
Proof.
  unfold string_existsb. intros Hb%negb_false_iff. revert Hb.
  induction before as [|d before IH]; rewrite ?string_app_cons; cbn.
  - intros _. change (EmptyString +:+ String c after) with (String c after). cbn. unfold has_prefix. cbn. destruct (ascii_dec c c); [|done].
    by destruct after.
  - intros [Hd Hb]%andb_prop. unfold has_prefix. cbn.
    destruct (ascii_dec c d) as [->|].
    { by rewrite bool_decide_eq_true_2 in Hd. }
    by rewrite IH.
Qed.
