(* ===== verification/Sha256.v ===== *)
(** * Sha256: the digests the code relies on

    The source hashes with Go's [crypto/sha256], [crypto/hmac] and
    [encoding/hex].  These are standard-library functions, written out here
    from FIPS 180-4 and FIPS 198-1 so that factor identifiers, blob digests,
    cache keys and hash chains are all computed, not assumed.  No theorem of
    the development assumes that SHA-256 has no collision: the statements that
    depend on it conclude with an explicit pair of colliding inputs. *)

From S2P Require Import Prelude.

(** ** 32-bit words *)

Definition w32 (z : Z) : Z := Z.land z 4294967295.
Definition add32 (a b : Z) : Z := w32 (a + b).
Definition rotr (n x : Z) : Z := w32 (Z.lor (Z.shiftr x n) (Z.shiftl x (32 - n))).
Definition not32 (x : Z) : Z := Z.lxor x 4294967295.

Definition Ch (x y z : Z) : Z := Z.lxor (Z.land x y) (Z.land (not32 x) z).
Definition Maj (x y z : Z) : Z := Z.lxor (Z.lxor (Z.land x y) (Z.land x z)) (Z.land y z).
Definition Sigma0 (x : Z) : Z := Z.lxor (Z.lxor (rotr 2 x) (rotr 13 x)) (rotr 22 x).
Definition Sigma1 (x : Z) : Z := Z.lxor (Z.lxor (rotr 6 x) (rotr 11 x)) (rotr 25 x).
Definition sigma0 (x : Z) : Z := Z.lxor (Z.lxor (rotr 7 x) (rotr 18 x)) (Z.shiftr x 3).
Definition sigma1 (x : Z) : Z := Z.lxor (Z.lxor (rotr 17 x) (rotr 19 x)) (Z.shiftr x 10).

(** The constants of the standard are the first 32 bits of the fractional
    parts of the cube roots (rounds) and square roots (initial state) of the
    first primes; they are computed here. *)

Definition is_prime (n : nat) : bool :=
  forallb (λ d, negb (Nat.eqb (n mod d) 0)) (seq 2 (n - 2)).
Definition primes : list Z := Z.of_nat <$> filter (λ n, is_prime n = true) (seq 2 310).

(** Integer cube root, bit by bit from the top *)
Fixpoint cube_root (bits : nat) (n acc : Z) : Z :=
  match bits with
  | O => acc
  | S bits =>
      let acc' := (acc + 2 ^ Z.of_nat bits)%Z in
      cube_root bits n (if (acc' ^ 3 <=? n)%Z then acc' else acc)
  end.

Definition round_constants : list Z :=
  Eval vm_compute in (λ p, w32 (cube_root 36 (p * 2 ^ 96) 0)) <$> primes.

Definition initial_words : list Z :=
  Eval vm_compute in (λ p, w32 (Z.sqrt (p * 2 ^ 64))) <$> take 8 primes.

(** ** The compression function *)

Record hash_state := mk_hash_state { ha : Z; hb : Z; hc : Z; hd : Z; he : Z; hf : Z; hg : Z; hh : Z }.

Definition word_at (ws : list Z) (i : nat) : Z := default 0%Z (ws !! i).

Definition initial_state : hash_state :=
  let w := word_at initial_words in
  mk_hash_state (w 0) (w 1) (w 2) (w 3) (w 4) (w 5) (w 6) (w 7).

(** The message schedule; [ws] holds the words so far, the latest first. *)
Fixpoint schedule (n : nat) (ws : list Z) : list Z :=
  match n with
  | O => reverse ws
  | S n =>
      let w := w32 (sigma1 (word_at ws 1) + word_at ws 6 +
                    sigma0 (word_at ws 14) + word_at ws 15) in
      schedule n (w :: ws)
  end.

Definition round (st : hash_state) (kw : Z * Z) : hash_state :=
  let '(mk_hash_state a b c d e f g h) := st in
  let t1 := w32 (h + Sigma1 e + Ch e f g + kw.1 + kw.2) in
  let t2 := w32 (Sigma0 a + Maj a b c) in
  mk_hash_state (add32 t1 t2) a b c (add32 d t1) e f g.

Definition compress (st : hash_state) (block : list Z) : hash_state :=
  let out := foldl round st (zip round_constants (schedule 48 (reverse block))) in
  mk_hash_state (add32 (ha st) (ha out)) (add32 (hb st) (hb out)) (add32 (hc st) (hc out))
    (add32 (hd st) (hd out)) (add32 (he st) (he out)) (add32 (hf st) (hf out))
    (add32 (hg st) (hg out)) (add32 (hh st) (hh out)).

(** ** Padding and blocks *)

Fixpoint bytes_of_string (s : string) : list Z :=
  match s with
  | EmptyString => []
  | String c s => Z.of_N (Ascii.N_of_ascii c) :: bytes_of_string s
  end.

Fixpoint string_of_bytes (bs : list Z) : string :=
  match bs with
  | [] => EmptyString
  | b :: bs => String (Ascii.ascii_of_N (Z.to_N b)) (string_of_bytes bs)
  end.

Fixpoint big_endian (n : nat) (z : Z) : list Z :=
  match n with
  | O => []
  | S n => big_endian n (z / 256) ++ [(z mod 256)%Z]
  end.

Definition pad (bs : list Z) : list Z :=
  let zeros := Z.to_nat ((55 - Z.of_nat (length bs)) mod 64) in
  bs ++ [0x80%Z] ++ replicate zeros 0%Z ++ big_endian 8 (8 * Z.of_nat (length bs)).

Fixpoint words (bs : list Z) : list Z :=
  match bs with
  | a :: b :: c :: d :: bs => (((a * 256 + b) * 256 + c) * 256 + d)%Z :: words bs
  | _ => []
  end.

Fixpoint digest_blocks (fuel : nat) (st : hash_state) (ws : list Z) : hash_state :=
  match fuel, ws with
  | S fuel, _ :: _ => digest_blocks fuel (compress st (take 16 ws)) (drop 16 ws)
  | _, _ => st
  end.

Definition sha256_state (s : string) : hash_state :=
  let ws := words (pad (bytes_of_string s)) in
  digest_blocks (length ws) initial_state ws.

Definition state_bytes (st : hash_state) : list Z :=
  big_endian 4 (ha st) ++ big_endian 4 (hb st) ++ big_endian 4 (hc st) ++ big_endian 4 (hd st) ++
  big_endian 4 (he st) ++ big_endian 4 (hf st) ++ big_endian 4 (hg st) ++ big_endian 4 (hh st).

(** sha256.Sum256: the 32 bytes of the digest *)
Definition Sum256 (s : string) : list Z := state_bytes (sha256_state s).

(** ** encoding/hex *)

Definition hex_digit (d : Z) : ascii :=
  Ascii.ascii_of_N (Z.to_N (if (d <? 10)%Z then 48 + d else 87 + d)%Z).

Fixpoint EncodeToString (bs : list Z) : string :=
  match bs with
  | [] => EmptyString
  | b :: bs => String (hex_digit (b / 16)) (String (hex_digit (b mod 16)) (EncodeToString bs))
  end.

(** [hex.DecodeString] succeeds on strings of even length made of hex digits
    of either case. *)
Definition hex_decodable (s : string) : bool :=
  bool_decide (String.length s mod 2 = 0) && string_forallb is_hex s.

(** The idiom [hex.EncodeToString(sum[:])] *)
Definition sha256_hex (s : string) : string := EncodeToString (Sum256 s).

(** ** crypto/hmac over SHA-256 *)

Definition hmac_block (key : string) : list Z :=
  let k := if decide (64 < String.length key) then Sum256 key else bytes_of_string key in
  k ++ replicate (64 - length k) 0%Z.

Definition hmac_sha256 (key msg : string) : list Z :=
  let k := hmac_block key in
  let inner := Sum256 (string_of_bytes (Z.lxor 0x36 <$> k) +:+ msg) in
  Sum256 (string_of_bytes (Z.lxor 0x5c <$> k) +:+ string_of_bytes inner).

Arguments sha256_hex : simpl never.
Arguments Sum256 : simpl never.
Arguments hmac_sha256 : simpl never.

(** Published test vectors *)
Example sha256_abc :
  sha256_hex "abc" = "ba7816bf8f01cfea414140de5dae2223b00361a396177a9cb410ff61f20015ad".
Proof. vm_compute. reflexivity. Qed.
Example sha256_two_blocks :
  sha256_hex "abcdbcdecdefdefgefghfghighijhijkijkljklmklmnlmnomnopnopq" =
  "248d6a61d20638b8e5c026930c3e6039a33ce45964ff2167f6ecedd419db06c1".
Proof. vm_compute. reflexivity. Qed.
Example hmac_rfc4231_case2 :
  EncodeToString (hmac_sha256 "Jefe" "what do ya want for nothing?") =
  "5bdcc146bf60754e6a042426089575c75a003f089d2739839dec58b964ec3843".
Proof. vm_compute. reflexivity. Qed.

(** ** Lemmas *)

Lemma length_big_endian n : ∀ z, length (big_endian n z) = n.
Proof. induction n as [|n IH]; intros z; cbn; [done|]. rewrite length_app, IH. cbn. lia. Qed.

Lemma big_endian_bytes n : ∀ z, Forall (λ b, 0 ≤ b < 256)%Z (big_endian n z).
Proof.
  induction n as [|n IH]; intros z; cbn; [constructor|].
  apply Forall_app. split; [apply IH|]. repeat constructor; apply Z.mod_pos_bound; lia.
Qed.

Lemma length_Sum256 s : length (Sum256 s) = 32.
Proof. unfold Sum256, state_bytes. by rewrite !length_app, !length_big_endian. Qed.

Lemma Sum256_bytes s : Forall (λ b, 0 ≤ b < 256)%Z (Sum256 s).
Proof. unfold Sum256, state_bytes. rewrite !Forall_app. auto 10 using big_endian_bytes. Qed.

Lemma length_EncodeToString bs : String.length (EncodeToString bs) = 2 * length bs.
Proof. induction bs as [|b bs IH]; cbn in *; [done|]. rewrite IH. lia. Qed.

Lemma hex_digit_lower d : (0 ≤ d < 16)%Z → is_lower_hex (hex_digit d) = true.
Proof.
  intros Hd. assert (d ∈ seqZ 0 16) as Hin by (apply elem_of_seqZ; lia). revert Hin.
  change (seqZ 0 16) with [0; 1; 2; 3; 4; 5; 6; 7; 8; 9; 10; 11; 12; 13; 14; 15]%Z.
  rewrite !elem_of_cons, elem_of_nil. intros Hin.
  repeat destruct Hin as [->|Hin]; done.
Qed.

Lemma EncodeToString_lower bs :
  Forall (λ b, 0 ≤ b < 256)%Z bs → string_forallb is_lower_hex (EncodeToString bs) = true.
Proof.
  induction 1 as [|b bs Hb _ IH]; [done|]. cbn in *.
  rewrite !hex_digit_lower, IH; [done|apply Z.mod_pos_bound; lia|].
  split; [apply Z.div_pos; lia|apply Z.div_lt_upper_bound; lia].
Qed.

Lemma string_forallb_impl (f g : ascii → bool) s :
  (∀ c, f c = true → g c = true) → string_forallb f s = true → string_forallb g s = true.
Proof.
  intros Hfg. induction s as [|c s IH]; cbn; [done|].
  intros [Hc Hs]%andb_prop. by rewrite Hfg, IH.
Qed.

Lemma sha256_hex_length s : String.length (sha256_hex s) = 64.
Proof. unfold sha256_hex. by rewrite length_EncodeToString, length_Sum256. Qed.

Lemma sha256_hex_lower s : string_forallb is_lower_hex (sha256_hex s) = true.
Proof. apply EncodeToString_lower, Sum256_bytes. Qed.

Lemma sha256_hex_decodable s : hex_decodable (sha256_hex s) = true.
Proof.
  unfold hex_decodable. rewrite sha256_hex_length. cbn.
  eapply string_forallb_impl; [|apply sha256_hex_lower].
  intros c Hc. unfold is_hex. by rewrite Hc.
Qed.

(** Two different texts with the same SHA-256 digest *)
Definition collision : Prop := ∃ x y : string, x ≠ y ∧ sha256_hex x = sha256_hex y.
