(* ===== verification/Base64.v ===== *)
(** * Base64: encoding/base64 without padding

    The standard library's [RawStdEncoding] and [RawURLEncoding], the latter
    also with [Strict]: the alphabet is given by its last two characters, and
    the strict decoder insists that the unused bits of the last character are
    zero.  Carriage returns and newlines in the input are skipped. *)

From S2P Require Import Prelude Sha256.

Definition base64_value (c62 c63 c : ascii) : option Z :=
  let n := Z.of_N (N_of_ascii c) in
  if is_upper c then Some (n - 65)%Z
  else if is_lower c then Some (n - 71)%Z
  else if is_digit c then Some (n + 4)%Z
  else if bool_decide (c = c62) then Some 62%Z
  else if bool_decide (c = c63) then Some 63%Z
  else None.

Definition base64_char (c62 c63 : ascii) (v : Z) : ascii :=
  if (v <? 26)%Z then ascii_of_N (Z.to_N (v + 65))
  else if (v <? 52)%Z then ascii_of_N (Z.to_N (v + 71))
  else if (v <? 62)%Z then ascii_of_N (Z.to_N (v - 4))
  else if (v =? 62)%Z then c62 else c63.

Section base64.
Context (c62 c63 : ascii).

Fixpoint base64_groups (strict : bool) (s : string) : option (list Z) :=
  match s with
  | EmptyString => Some []
  | String _ EmptyString => None
  | String a (String b EmptyString) =>
      a ← base64_value c62 c63 a; b ← base64_value c62 c63 b;
      if strict && negb (b mod 16 =? 0)%Z then None else Some [a * 4 + b / 16]%Z
  | String a (String b (String c EmptyString)) =>
      a ← base64_value c62 c63 a; b ← base64_value c62 c63 b; c ← base64_value c62 c63 c;
      if strict && negb (c mod 4 =? 0)%Z then None else Some [a * 4 + b / 16; b mod 16 * 16 + c / 4]%Z
  | String a (String b (String c (String d s))) =>
      a ← base64_value c62 c63 a; b ← base64_value c62 c63 b;
      c ← base64_value c62 c63 c; d ← base64_value c62 c63 d;
      bytes ← base64_groups strict s;
      Some ([a * 4 + b / 16; b mod 16 * 16 + c / 4; c mod 4 * 64 + d] ++ bytes)%Z
  end.

Fixpoint base64_chars (bytes : list Z) : string :=
  let char := base64_char c62 c63 in
  match bytes with
  | [] => EmptyString
  | [x] => String (char (x / 4)%Z) (String (char (x mod 4 * 16)%Z) EmptyString)
  | [x; y] =>
      String (char (x / 4)%Z) (String (char (x mod 4 * 16 + y / 16)%Z)
        (String (char (y mod 16 * 4)%Z) EmptyString))
  | x :: y :: z :: bytes =>
      String (char (x / 4)%Z) (String (char (x mod 4 * 16 + y / 16)%Z)
        (String (char (y mod 16 * 4 + z / 64)%Z) (String (char (z mod 64)%Z) (base64_chars bytes))))
  end.
End base64.

Fixpoint without_newlines (s : string) : string :=
  match s with
  | EmptyString => EmptyString
  | String c s => if bool_decide (c = "010"%char) || bool_decide (c = "013"%char) then without_newlines s
                  else String c (without_newlines s)
  end.

(** [base64.RawURLEncoding.Strict().DecodeString] *)
Definition base64_decode (s : string) : option (list Z) :=
  base64_groups "-" "_" true (without_newlines s).

(** [base64.RawStdEncoding], on byte strings *)
Definition RawStd_EncodeToString (s : string) : string := base64_chars "+" "/" (bytes_of_string s).
Definition RawStd_DecodeString (s : string) : option string :=
  string_of_bytes <$> base64_groups "+" "/" false (without_newlines s).

Example base64_examples :
  string_of_bytes <$> base64_decode "eyBhOjEgfQ" = Some "{ a:1 }" ∧ base64_decode "AQAB" = Some [1; 0; 1]%Z ∧
  base64_decode "AQA" = Some [1; 0]%Z ∧ base64_decode "AQB" = None ∧ base64_decode "A" = None ∧
  base64_decode "AQAB=" = None ∧ base64_decode "_-8" = Some [255; 239]%Z ∧
  RawStd_EncodeToString "any carnal pleas" = "YW55IGNhcm5hbCBwbGVhcw" ∧
  RawStd_DecodeString "AQB" = Some (string_of_bytes [1; 0]%Z) ∧ RawStd_DecodeString "_-8" = None.
Proof. by vm_compute. Qed.

(** ** Lemmas *)

Lemma base64_value_nonneg c62 c63 c v : base64_value c62 c63 c = Some v → (0 ≤ v)%Z.
Proof.
  unfold base64_value, is_upper, is_lower, is_digit, in_range. change (N_of_ascii "A") with 65%N.
  change (N_of_ascii "a") with 97%N. change (N_of_ascii "0") with 48%N.
  repeat case_match; intros [= <-]; bool_prop; try lia.
  all: rewrite ?andb_true_iff in *; destruct_and?; rewrite ?N.leb_le in *; lia.
Qed.

Lemma base64_groups_nonneg c62 c63 strict n : ∀ s bytes, String.length s ≤ n →
  base64_groups c62 c63 strict s = Some bytes → Forall (λ b, 0 ≤ b)%Z bytes.
Proof.
  assert (∀ a b, 0 ≤ a → 0 ≤ b → 0 ≤ a * 4 + b / 16)%Z as H1.
  { intros a b ? ?. pose proof (Z.div_pos b 16). lia. }
  assert (∀ b c, 0 ≤ b → 0 ≤ c → 0 ≤ b mod 16 * 16 + c / 4)%Z as H2.
  { intros b c ? ?. pose proof (Z.div_pos c 4). pose proof (Z.mod_pos_bound b 16). lia. }
  assert (∀ c d, 0 ≤ c → 0 ≤ d → 0 ≤ c mod 4 * 64 + d)%Z as H3.
  { intros c d ? ?. pose proof (Z.mod_pos_bound c 4). lia. }
  induction n as [|n IH]; intros s bytes Hlen Hs.
  { destruct s; [by simplify_eq/=|cbn in Hlen; lia]. }
  destruct s as [|a [|b [|c [|d s]]]]; cbn [base64_groups] in Hs; [by simplify_eq/=|done|..];
    repeat match goal with
    | H : _ ≫= _ = Some _ |- _ =>
        let v := fresh "v" in let E := fresh "E" in let H' := fresh "H" in
        apply bind_Some in H as (v & E & H'); try (apply base64_value_nonneg in E)
    end.
  - destruct (_ && _); [done|]. simplify_eq. repeat constructor; auto.
  - destruct (_ && _); [done|]. simplify_eq. repeat constructor; auto.
  - simplify_eq. repeat (constructor; [by auto|]). eapply IH; [|eassumption]. cbn in Hlen. lia.
Qed.

(** What the encoder writes, the decoder reads. *)

(** The 64 characters of an alphabet are read back, and none is skipped. *)
Definition alphabet_ok (c62 c63 : ascii) : bool :=
  forallb (λ n, let c := base64_char c62 c63 (Z.of_nat n) in
    bool_decide (base64_value c62 c63 c = Some (Z.of_nat n)) &&
    negb (bool_decide (c = "010"%char) || bool_decide (c = "013"%char))) (seq 0 64).

Section roundtrip.
Context (c62 c63 : ascii) (Halphabet : alphabet_ok c62 c63 = true).

Lemma base64_char_ok v : (0 ≤ v < 64)%Z →
  base64_value c62 c63 (base64_char c62 c63 v) = Some v ∧
  bool_decide (base64_char c62 c63 v = "010"%char) || bool_decide (base64_char c62 c63 v = "013"%char) = false.
Proof.
  intros Hv. unfold alphabet_ok in Halphabet. rewrite forallb_forall in Halphabet.
  specialize (Halphabet (Z.to_nat v)). rewrite in_seq, Z2Nat.id in Halphabet by lia.
  specialize (Halphabet ltac:(lia)). apply andb_prop in Halphabet as [H1 H2%negb_true_iff].
  split; [|done]. by apply bool_decide_eq_true in H1.
Qed.

Definition is_byte (b : Z) : Prop := (0 ≤ b < 256)%Z.

(** The six-bit values of a group, and the bytes they make *)
Lemma sixbits x y z : is_byte x → is_byte y → is_byte z →
  (0 ≤ x / 4 < 64 ∧ 0 ≤ x mod 4 * 16 + y / 16 < 64 ∧ 0 ≤ y mod 16 * 4 + z / 64 < 64 ∧ 0 ≤ z mod 64 < 64)%Z.
Proof. unfold is_byte. intros. Z.to_euclidean_division_equations; lia. Qed.
Lemma first_byte x y : is_byte x → is_byte y → (x / 4 * 4 + (x mod 4 * 16 + y / 16) / 16 = x)%Z.
Proof. unfold is_byte. intros. Z.to_euclidean_division_equations; lia. Qed.
Lemma second_byte x y z : is_byte y → is_byte z →
  ((x mod 4 * 16 + y / 16) mod 16 * 16 + (y mod 16 * 4 + z / 64) / 4 = y)%Z.
Proof. unfold is_byte. intros. Z.to_euclidean_division_equations; lia. Qed.
Lemma third_byte y z : is_byte y → is_byte z → ((y mod 16 * 4 + z / 64) mod 4 * 64 + z mod 64 = z)%Z.
Proof. unfold is_byte. intros. Z.to_euclidean_division_equations; lia. Qed.

Lemma base64_roundtrip strict n : ∀ bytes, length bytes ≤ n → Forall is_byte bytes →
  without_newlines (base64_chars c62 c63 bytes) = base64_chars c62 c63 bytes ∧
  base64_groups c62 c63 strict (base64_chars c62 c63 bytes) = Some bytes.
Proof.
  induction n as [|n IH]; intros bytes Hlen Hb; [by destruct bytes; [|cbn in Hlen; lia]|].
  assert (is_byte 0) as H0 by (unfold is_byte; lia).
  destruct bytes as [|x [|y [|z bytes]]]; [done|..]; repeat apply Forall_cons in Hb as [? Hb].
  - pose proof (sixbits x 0 0) as (R1 & R2 & _); [done..|]. pose proof (first_byte x 0) as B1.
    rewrite Z.div_0_l, Z.add_0_r in R2, B1 by lia.
    destruct (base64_char_ok _ R1) as [V1 N1], (base64_char_ok _ R2) as [V2 N2].
    cbn [base64_chars without_newlines base64_groups]. rewrite N1, N2, V1, V2. split; [done|]. cbn.
    rewrite B1, Z.mod_mul by done. by rewrite andb_false_r.
  - pose proof (sixbits x y 0) as (R1 & R2 & R3 & _); [done..|]. pose proof (first_byte x y) as B1.
    pose proof (second_byte x y 0) as B2. rewrite Z.div_0_l, Z.add_0_r in R3, B2 by lia.
    destruct (base64_char_ok _ R1) as [V1 N1], (base64_char_ok _ R2) as [V2 N2], (base64_char_ok _ R3) as [V3 N3].
    cbn [base64_chars without_newlines base64_groups]. rewrite N1, N2, N3, V1, V2, V3. split; [done|]. cbn.
    rewrite B1, B2, Z.mod_mul by done. by rewrite andb_false_r.
  - pose proof (sixbits x y z) as (R1 & R2 & R3 & R4); [done..|].
    destruct (base64_char_ok _ R1) as [V1 N1], (base64_char_ok _ R2) as [V2 N2], (base64_char_ok _ R3) as [V3 N3],
      (base64_char_ok _ R4) as [V4 N4].
    destruct (IH bytes) as [N V]; [cbn in Hlen; lia|done|].
    cbn [base64_chars without_newlines base64_groups]. rewrite N1, N2, N3, N4, V1, V2, V3, V4, N. split; [done|].
    cbn. rewrite V. cbn. by rewrite first_byte, second_byte, third_byte.
Qed.
End roundtrip.

(** what [RawStdEncoding] encodes, it decodes: every byte string. *)
Theorem RawStd_roundtrip s : RawStd_DecodeString (RawStd_EncodeToString s) = Some s.
Proof.
  assert (∀ s, string_of_bytes (bytes_of_string s) = s) as Hback.
  { induction s0 as [|c s0 IH]; [done|]. cbn. by rewrite IH, N2Z.id, ascii_N_embedding. }
  assert (Forall is_byte (bytes_of_string s)) as Hbytes.
  { induction s as [|c s IH]; constructor; [|done]. unfold is_byte. pose proof (N_ascii_bounded c). lia. }
  unfold RawStd_DecodeString, RawStd_EncodeToString.
  destruct (base64_roundtrip "+" "/" ltac:(vm_compute; reflexivity) false _ _ (le_n _) Hbytes) as [-> ->].
  cbn. by rewrite Hback.
Qed.
