(* ===== verification/Text.v ===== *)
(** * Text: checks on byte strings shared by the hub and the service

    What the code uses of [encoding/hex], [unicode/utf8], [unicode] and
    [net/url], and the anchored regular expressions of
    [src/internal/hub/config.go], [report.go] and [oidc.go] as boolean
    functions. *)

From S2P Require Import Prelude Sha256.

(** [len(s) > limit] *)
Definition longer (s : string) (limit : Z) : bool := bool_decide (limit < Z.of_nat (String.length s))%Z.

(** ** Decimal numbers *)

(** The number written by decimal digits, as [strconv] accumulates it *)
Fixpoint digits_value (acc : Z) (s : string) : option Z :=
  match s with
  | EmptyString => Some acc
  | String c s =>
      if is_digit c then digits_value (acc * 10 + (Z.of_N (N_of_ascii c) - 48)) s else None
  end.

(** ** hex.DecodeString *)

Definition hex_value (c : ascii) : option Z :=
  let n := Z.of_N (N_of_ascii c) in
  if is_digit c then Some (n - 48)%Z
  else if in_range "a" "f" c then Some (n - 87)%Z
  else if in_range "A" "F" c then Some (n - 55)%Z
  else None.

Fixpoint DecodeString (s : string) : option (list Z) :=
  match s with
  | EmptyString => Some []
  | String _ EmptyString => None
  | String c (String d s) =>
      hi ← hex_value c; lo ← hex_value d; bytes ← DecodeString s; Some ((16 * hi + lo)%Z :: bytes)
  end.

(** [h] is the lowercase hexadecimal form of a SHA-256 digest:
    [digest, err := hex.DecodeString(h)] and the three checks on it. *)
Definition digest_text (h : string) : bool :=
  match DecodeString h with
  | Some digest => bool_decide (length digest = 32) && bool_decide (h = EncodeToString digest)
  | None => false
  end.

(** ** UTF-8

    [range] over a string: the code point of every well-formed sequence,
    [None] for a byte that does not start one (Go yields U+FFFD). *)

Definition byte (c : ascii) : Z := Z.of_N (N_of_ascii c).
Definition between (lo hi x : Z) : bool := ((lo <=? x) && (x <=? hi))%Z.

Definition second_of_three (a b : Z) : bool :=
  if (a =? 224)%Z then between 160 191 b else if (a =? 237)%Z then between 128 159 b
  else between 225 239 a && between 128 191 b.
Definition second_of_four (a b : Z) : bool :=
  if (a =? 240)%Z then between 144 191 b else if (a =? 244)%Z then between 128 143 b
  else between 241 243 a && between 128 191 b.

Fixpoint runes (s : string) : list (option Z) :=
  match s with
  | EmptyString => []
  | String a s1 =>
      let a := byte a in
      if (a <? 128)%Z then Some a :: runes s1 else
      match s1 with
      | EmptyString => [None]
      | String b s2 =>
          let b := byte b in
          if between 194 223 a && between 128 191 b
          then Some ((a - 192) * 64 + (b - 128))%Z :: runes s2 else
          match s2 with
          | EmptyString => None :: runes s1
          | String c s3 =>
              let c := byte c in
              if second_of_three a b && between 128 191 c
              then Some ((a - 224) * 4096 + (b - 128) * 64 + (c - 128))%Z :: runes s3 else
              match s3 with
              | EmptyString => None :: runes s1
              | String d s4 =>
                  let d := byte d in
                  if second_of_four a b && between 128 191 c && between 128 191 d
                  then Some ((a - 240) * 262144 + (b - 128) * 4096 + (c - 128) * 64 + (d - 128))%Z :: runes s4
                  else None :: runes s1
              end
          end
      end
  end.

Definition ValidString (s : string) : bool := forallb (λ r, bool_decide (r ≠ None)) (runes s).

(** unicode.IsControl *)
Definition IsControl (r : option Z) : bool :=
  match r with Some r => between 0 31 r || between 127 159 r | None => false end.

(** unicode.IsSpace *)
Definition IsSpace (r : option Z) : bool :=
  match r with
  | Some r => between 9 13 r || bool_decide (r ∈ [32; 133; 160; 5760; 8232; 8233; 8239; 8287; 12288]%Z) ||
              between 8192 8202 r
  | None => false
  end.

(** [strings.TrimSpace(s) == ""] *)
Definition blank (s : string) : bool := forallb IsSpace (runes s).

Example runes_examples :
  runes "aé€😀" = [Some 97; Some 233; Some 8364; Some 128512]%Z ∧
  ValidString (String "255" "") = false ∧ ValidString (String "192" (String "128" "")) = false ∧
  blank "	  " = true ∧ blank " x" = false.
Proof. by vm_compute. Qed.

(** ** Anchored patterns *)

Definition char_of (extra : string) (c : ascii) : bool := is_alnum c || char_in c extra.

(** [^[a-zA-Z0-9][a-zA-Z0-9<extra>]{0,max}$] *)
Definition name_pattern (extra : string) (max : nat) (s : string) : bool :=
  match s with
  | EmptyString => false
  | String c rest => is_alnum c && string_forallb (char_of extra) rest &&
                     bool_decide (String.length rest ≤ max)
  end.

Definition workspacePattern : string → bool := name_pattern "_-" 63.

Definition repositoryPattern (s : string) : bool :=
  match split_byte "/" s with
  | [owner; name] => name_pattern "_.-" 99 owner && name_pattern "_.-" 99 name
  | _ => false
  end.

Definition commitPattern (s : string) : bool :=
  string_forallb is_hex s && (bool_decide (String.length s = 40) || bool_decide (String.length s = 64)).

Definition idPattern (s : string) : bool :=
  string_forallb is_lower_hex s && bool_decide (String.length s = 32).

Definition runIDPattern (s : string) : bool :=
  string_forallb is_digit s && bool_decide (1 ≤ String.length s ≤ 20).

Definition decimalID (s : string) : bool :=
  match s with
  | EmptyString => false
  | String c rest => in_range "1" "9" c && string_forallb is_digit rest &&
                     bool_decide (String.length rest ≤ 19)
  end.

Definition branchRef (s : string) : bool :=
  has_prefix s "refs/heads/" &&
  let branch := trim_prefix s "refs/heads/" in
  string_forallb (char_of "_./-") branch && bool_decide (1 ≤ String.length branch ≤ 200).

(** [^[A-Za-z0-9_.-]+\.ya?ml$] *)
Definition workflowFile (s : string) : bool :=
  let stem suffix := has_suffix s suffix && string_forallb (char_of "_.-") (trim_suffix s suffix) &&
                     bool_decide (1 ≤ String.length (trim_suffix s suffix)) in
  stem ".yml" || stem ".yaml".

Example pattern_examples :
  workspacePattern "team-a_1" = true ∧ workspacePattern "-x" = false ∧ workspacePattern "" = false ∧
  repositoryPattern "o/r.x" = true ∧ repositoryPattern "o/r/x" = false ∧ repositoryPattern "o" = false ∧
  branchRef "refs/heads/main" = true ∧ branchRef "refs/heads/" = false ∧
  workflowFile "ci.yml" = true ∧ workflowFile ".yaml" = false ∧ workflowFile "a/b.yml" = false ∧
  decimalID "0" = false ∧ decimalID "10" = true.
Proof. by vm_compute. Qed.

(** ** net/url

    The fields of a parsed URL that the code looks at.  [url.Parse] is a
    parameter: nothing proved here depends on how it parses. *)

Record URL := mkURL {
  URL_Scheme : string;
  URL_Host : string;
  URL_HasUser : bool;
  URL_Path : string;
  URL_RawPath : string;
  URL_ForceQuery : bool;
  URL_RawQuery : string;
  URL_Fragment : string;
}.

Class Urls := { url_Parse : string → result URL }.

(** A parser for [https://host/path] without user, port or escapes, for the
    witnesses *)
Definition simple_urls : Urls := {|
  url_Parse s :=
    match cut s "://" with
    | None => Err (ErrMsg "missing protocol scheme")
    | Some (scheme, rest) =>
        let '(host, path) := match cut rest "/" with
                             | Some (host, path) => (host, "/" +:+ path)
                             | None => (rest, "") end in
        Ok (mkURL scheme host false path "" false "" "")
    end |}.

(** ** Lemmas *)

Lemma hex_digit_value d : (0 ≤ d < 16)%Z → hex_value (hex_digit d) = Some d.
Proof.
  intros Hd. assert (d ∈ [0;1;2;3;4;5;6;7;8;9;10;11;12;13;14;15]%Z) as Hin by (set_unfold; lia).
  repeat (apply elem_of_cons in Hin as [->|Hin]; [by vm_compute|]). by apply elem_of_nil in Hin.
Qed.

Lemma DecodeString_EncodeToString bs :
  Forall (λ b, 0 ≤ b < 256)%Z bs → DecodeString (EncodeToString bs) = Some bs.
Proof.
  induction 1 as [|b bs Hb _ IH]; [done|]. cbn [EncodeToString DecodeString].
  rewrite !hex_digit_value, IH.
  - cbn. do 2 f_equal. rewrite (Z.div_mod b 16) at 3 by lia. lia.
  - split; [apply Z.div_pos; lia|]. apply Z.div_lt_upper_bound; lia.
  - by apply Z.mod_pos_bound.
Qed.

Lemma digest_text_sha256 s : digest_text (sha256_hex s) = true.
Proof.
  unfold digest_text, sha256_hex. rewrite DecodeString_EncodeToString by apply Sum256_bytes.
  rewrite length_Sum256, !bool_decide_eq_true_2; done.
Qed.

(** ** Suffixes *)

Lemma string_rev_acc_app s : ∀ acc, string_rev_acc s acc = string_reverse s +:+ acc.
Proof.
  unfold string_reverse. induction s as [|c s IH]; intros acc; [done|]. cbn [string_rev_acc].
  rewrite IH, (IH (String c "")), string_app_assoc. done.
Qed.

Lemma string_reverse_cons c s : string_reverse (String c s) = string_reverse s +:+ String c "".
Proof. unfold string_reverse at 1. cbn [string_rev_acc]. apply string_rev_acc_app. Qed.

Lemma string_app_nil (s : string) : s +:+ "" = s.
Proof. induction s as [|c s IH]; [done|]. by rewrite string_app_cons, IH. Qed.

Lemma string_reverse_app s t : string_reverse (s +:+ t) = string_reverse t +:+ string_reverse s.
Proof.
  induction s as [|c s IH]; [by rewrite string_app_nil|].
  by rewrite string_app_cons, !string_reverse_cons, IH, string_app_assoc.
Qed.

Lemma string_reverse_involutive s : string_reverse (string_reverse s) = s.
Proof. induction s as [|c s IH]; [done|]. by rewrite string_reverse_cons, string_reverse_app, IH. Qed.

Lemma has_suffix_true s p : has_suffix s p = true → ∃ t, s = t +:+ p.
Proof.
  intros [t Ht]%has_prefix_true. exists (string_reverse t).
  by rewrite <-(string_reverse_involutive s), Ht, string_reverse_app, string_reverse_involutive.
Qed.

Lemma has_suffix_app t p : has_suffix (t +:+ p) p = true.
Proof. unfold has_suffix. rewrite string_reverse_app. apply has_prefix_app. Qed.

Lemma string_take_append t p : string_take (String.length t) (t +:+ p) = t.
Proof.
  induction t as [|c t IH]; [by destruct p|]. rewrite string_app_cons. cbn. by rewrite IH.
Qed.

Lemma trim_suffix_exact t p : trim_suffix (t +:+ p) p = t.
Proof.
  unfold trim_suffix. rewrite has_suffix_app, string_length_append.
  by rewrite Nat.add_sub, string_take_append.
Qed.

Lemma trim_suffix_app s p : has_suffix s p = true → trim_suffix s p +:+ p = s.
Proof. intros [t ->]%has_suffix_true. by rewrite trim_suffix_exact. Qed.

(** ** Decimal numbers *)

Definition digit_char (d : Z) : ascii := Ascii.ascii_of_nat (48 + Z.to_nat d).

Lemma digit_char_spec d : (0 ≤ d < 10)%Z →
  is_digit (digit_char d) = true ∧ (Z.of_N (N_of_ascii (digit_char d)) - 48 = d)%Z.
Proof.
  intros Hd. assert (d ∈ [0;1;2;3;4;5;6;7;8;9]%Z) as Hin.
  { set_unfold. lia. }
  repeat (apply elem_of_cons in Hin as [->|Hin]; [by vm_compute|]). by apply elem_of_nil in Hin.
Qed.

Lemma zdigits_value fuel : ∀ n acc, (0 ≤ n < 10 ^ Z.of_nat fuel)%Z →
  ∃ k, ∀ a, digits_value a (zdigits_aux fuel n acc) = digits_value (a * k + n) acc.
Proof.
  induction fuel as [|fuel IH]; intros n acc Hn.
  { exists 1%Z. intros a. cbn in *. f_equal. lia. }
  cbn [zdigits_aux]. fold (digit_char (n mod 10)).
  destruct (digit_char_spec (n mod 10)) as [Hdig Hval]; [by apply Z.mod_pos_bound|].
  assert (∀ b, digits_value b (String (digit_char (n mod 10)) acc) =
               digits_value (b * 10 + n mod 10)%Z acc) as Hstep.
  { intros b. cbn [digits_value]. by rewrite Hdig, Hval. }
  pose proof (Z.div_mod n 10 ltac:(lia)) as Hdm.
  destruct (Z.eqb_spec (n / 10) 0) as [Hz|Hz].
  - exists 10%Z. intros a. rewrite Hstep. f_equal. lia.
  - destruct (IH (n / 10)%Z (String (digit_char (n mod 10)) acc)) as [k Hk].
    { split; [apply Z.div_pos; lia|]. apply Z.div_lt_upper_bound; [lia|].
      rewrite Nat2Z.inj_succ, Z.pow_succ_r in Hn by lia. lia. }
    exists (k * 10)%Z. intros a. rewrite Hk, Hstep. f_equal. lia.
Qed.

Lemma zdigits_digits fuel : ∀ n acc, string_forallb is_digit acc = true →
  string_forallb is_digit (zdigits_aux fuel n acc) = true.
Proof.
  induction fuel as [|fuel IH]; intros n acc Hacc; [done|]. cbn [zdigits_aux].
  assert (string_forallb is_digit (String (digit_char (n mod 10)) acc) = true) as Hd.
  { cbn. rewrite Hacc, andb_true_r. apply digit_char_spec. by apply Z.mod_pos_bound. }
  destruct (_ =? 0)%Z; [done|]. by apply IH.
Qed.

Lemma show_Z_value n : (0 ≤ n)%Z →
  digits_value 0 (show_Z n) = Some n ∧ string_forallb is_digit (show_Z n) = true.
Proof.
  intros Hn. unfold show_Z. destruct (Z.ltb_spec n 0) as [?|_]; [lia|]. split; [|by apply zdigits_digits].
  edestruct zdigits_value as [k Hk]; [|by rewrite Hk].
  split; [done|]. rewrite Z.abs_eq, Nat2Z.inj_succ, Z2Nat.id by (try apply Z.log2_nonneg; lia).
  destruct (decide (n = 0)%Z) as [->|]; [cbn; lia|].
  destruct (Z.log2_spec n) as [_ Hlt]; [lia|].
  eapply Z.lt_le_trans; [done|]. apply Z.pow_le_mono_l. lia.
Qed.

