(* ===== verification/Model.v ===== *)
(** * Model: the data shared by all components

    Models [src/internal/model/model.go] (the structs, as records whose fields
    carry the struct's name as a prefix) and [src/internal/model/helpers.go].
    A Go map with string keys is a [gmap string]; an [omitempty] pointer is an
    [option]; an [int], [int64] or [uint32] is a [Z]; [time.Time] is [time]. *)

From S2P Require Import Prelude Sha256.

(** ** Enumerations

    The Go types are named strings, and values read back from JSON are not
    checked, so each enumeration keeps a constructor for any other string. *)

Inductive ProofStatus :=
  | StatusProven | StatusSupported | StatusCorrelated | StatusUnproven
  | StatusOther (s : string).

Inductive JobState :=
  | JobQueued | JobRunning | JobSucceeded | JobFailed
  | JobOther (s : string).

Inductive FactorType :=
  | FactorEnvironment | FactorWorkspace
  | FactorOther (s : string).

#[export] Instance ProofStatus_eq_dec : EqDecision ProofStatus.
Proof. solve_decision. Defined.
#[export] Instance JobState_eq_dec : EqDecision JobState.
Proof. solve_decision. Defined.
#[export] Instance FactorType_eq_dec : EqDecision FactorType.
Proof. solve_decision. Defined.

(** [string(status)] *)
Definition show_status (s : ProofStatus) : string :=
  match s with
  | StatusProven => "PROVEN" | StatusSupported => "SUPPORTED"
  | StatusCorrelated => "CORRELATED" | StatusUnproven => "UNPROVEN"
  | StatusOther s => s
  end.

Definition show_job_state (s : JobState) : string :=
  match s with
  | JobQueued => "queued" | JobRunning => "running"
  | JobSucceeded => "succeeded" | JobFailed => "failed"
  | JobOther s => s
  end.

Definition show_factor_type (t : FactorType) : string :=
  match t with
  | FactorEnvironment => "environment" | FactorWorkspace => "workspace"
  | FactorOther s => s
  end.

(** ** Structs *)

Record CommandSpec := mkCommandSpec {
  CommandSpec_Arguments : list string;
  CommandSpec_Directory : string;
  CommandSpec_Environment : gmap string string;
  CommandSpec_TimeoutMS : Z;
}.

Record Oracle := mkOracle {
  Oracle_Kind : string;
  Oracle_ExpectedExitCode : option Z;
  Oracle_Pattern : string;
  Oracle_File : string;
  Oracle_Digest : string;
}.

Record OracleResult := mkOracleResult {
  OracleResult_Passed : bool;
  OracleResult_Detail : string;
}.

Record ProcessResult := mkProcessResult {
  ProcessResult_ExitCode : Z;
  ProcessResult_Signal : string;
  ProcessResult_TimedOut : bool;
  ProcessResult_StartedAt : time;
  ProcessResult_FinishedAt : time;
  ProcessResult_DurationMS : Z;
  ProcessResult_Stdout : string;
  ProcessResult_Stderr : string;
  ProcessResult_OutputTruncated : bool;
  ProcessResult_ConsultedPaths : list string;
  ProcessResult_Boundaries : list string;
}.

Record WorkspaceEntry := mkWorkspaceEntry {
  Entry_Path : string;
  Entry_Type : string;
  Entry_Mode : Z;
  Entry_Size : Z;
  Entry_Digest : string;
  Entry_BlobDigest : string;
  Entry_LinkTarget : string;
}.

Record WorkspaceManifest := mkWorkspaceManifest {
  Manifest_Root : string;
  Manifest_Entries : list WorkspaceEntry;
  Manifest_TotalFiles : Z;
  Manifest_TotalBytes : Z;
  Manifest_Digest : string;
}.

Record HostEvidence := mkHostEvidence {
  Host_OS : string;
  Host_Arch : string;
  Host_Kernel : string;
  Host_Hostname : string;
  Host_UID : Z;
  Host_GID : Z;
  Host_Groups : list Z;
  Host_Capabilities : string;
  Host_Seccomp : string;
  Host_Cgroups : string;
  Host_MountDigest : string;
  Host_ResourceDigest : string;
  Host_SecurityDigest : string;
}.

Record SecretEvidence := mkSecretEvidence {
  Secret_Name : string;
  Secret_Fingerprint : string;
}.

Record ConsultedPath := mkConsultedPath {
  Consulted_Path : string;
  Consulted_Relative : string;
  Consulted_InWorkspace : bool;
}.

Record Capture := mkCapture {
  Capture_SchemaVersion : Z;
  Capture_ID : string;
  Capture_CreatedAt : time;
  Capture_StartedAt : time;
  Capture_FinishedAt : time;
  Capture_Label : string;
  Capture_WorkspaceRoot : string;
  Capture_Command : CommandSpec;
  Capture_Oracle : Oracle;
  Capture_Result : ProcessResult;
  Capture_OracleResult : OracleResult;
  Capture_Before : WorkspaceManifest;
  Capture_Workspace : WorkspaceManifest;
  Capture_Host : HostEvidence;
  Capture_SecretEvidence : list SecretEvidence;
  Capture_ConsultedPaths : list ConsultedPath;
  Capture_EvidenceBoundaries : list string;
  Capture_Warnings : list string;
}.

Record Factor := mkFactor {
  Factor_ID : string;
  Factor_Type : FactorType;
  Factor_Key : string;
  Factor_GoodPresent : bool;
  Factor_BadPresent : bool;
  Factor_GoodValue : string;
  Factor_BadValue : string;
  Factor_GoodEntry : WorkspaceEntry;
  Factor_BadEntry : WorkspaceEntry;
  Factor_Intervenable : bool;
}.

Record Experiment := mkExperiment {
  Experiment_ID : string;
  Experiment_Kind : string;
  Experiment_CacheHit : bool;
  Experiment_StartedAt : time;
  Experiment_FinishedAt : time;
  Experiment_BaseCaptureID : string;
  Experiment_SourceCaptureID : string;
  Experiment_FactorIDs : list string;
  Experiment_Result : ProcessResult;
  Experiment_OracleResult : OracleResult;
  Experiment_Error : string;
}.

Record Analysis := mkAnalysis {
  Analysis_SchemaVersion : Z;
  Analysis_ID : string;
  Analysis_CreatedAt : time;
  Analysis_GoodCaptureID : string;
  Analysis_BadCaptureID : string;
  Analysis_Factors : list Factor;
  Analysis_CausalFactors : list string;
  Analysis_Experiments : list Experiment;
  Analysis_Status : ProofStatus;
  Analysis_ForwardVerified : bool;
  Analysis_ReverseVerified : bool;
  Analysis_MinimalInModel : bool;
  Analysis_Repetitions : Z;
  Analysis_ExperimentBudget : Z;
  Analysis_Summary : string;
  Analysis_EvidenceBoundaries : list string;
  Analysis_Limitations : list string;
}.

(** [Payload] is kept as the raw JSON text. *)
Record Job := mkJob {
  Job_SchemaVersion : Z;
  Job_ID : string;
  Job_Type : string;
  Job_State : JobState;
  Job_Payload : string;
  Job_Principal : string;
  Job_CreatedAt : time;
  Job_UpdatedAt : time;
  Job_LeaseOwner : string;
  Job_LeaseExpires : time;
  Job_HeartbeatAt : time;
  Job_Attempts : Z;
  Job_ResultRef : string;
  Job_Error : string;
}.

Record IdempotencyRecord := mkIdempotencyRecord {
  Idem_SchemaVersion : Z;
  Idem_PrincipalFingerprint : string;
  Idem_Route : string;
  Idem_Key : string;
  Idem_RequestDigest : string;
  Idem_JobID : string;
  Idem_CreatedAt : time;
}.

(** A JSON value as it occurs in the [Details] of an audit event. *)
Inductive json_scalar := JString (s : string) | JInt (z : Z) | JBool (b : bool).

Record AuditEvent := mkAuditEvent {
  Audit_Version : Z;
  Audit_Sequence : Z;
  Audit_Timestamp : time;
  Audit_Actor : string;
  Audit_Action : string;
  Audit_EntityType : string;
  Audit_EntityID : string;
  Audit_RequestID : string;
  Audit_Details : gmap string json_scalar;
  Audit_PreviousHash : string;
  Audit_Hash : string;
}.

Record AuditVerification := mkAuditVerification {
  AuditVerification_Valid : bool;
  AuditVerification_Entries : Z;
  AuditVerification_Error : string;
}.

Record CaptureJobRequest := mkCaptureJobRequest {
  CaptureJob_Command : CommandSpec;
  CaptureJob_Oracle : Oracle;
  CaptureJob_Label : string;
}.

Record AnalysisJobRequest := mkAnalysisJobRequest {
  AnalysisJob_GoodCaptureID : string;
  AnalysisJob_BadCaptureID : string;
  AnalysisJob_Repetitions : Z;
}.

Record CaptureLimits := mkCaptureLimits {
  Limits_MaxWorkspaceFiles : Z;
  Limits_MaxWorkspaceBytes : Z;
  Limits_MaxOutputBytes : Z;
  Limits_Timeout : Z;
}.

#[export] Instance Oracle_eq_dec : EqDecision Oracle.
Proof. solve_decision. Defined.
#[export] Instance OracleResult_eq_dec : EqDecision OracleResult.
Proof. solve_decision. Defined.
#[export] Instance ProcessResult_eq_dec : EqDecision ProcessResult.
Proof. solve_decision. Defined.
#[export] Instance WorkspaceEntry_eq_dec : EqDecision WorkspaceEntry.
Proof. solve_decision. Defined.
#[export] Instance WorkspaceManifest_eq_dec : EqDecision WorkspaceManifest.
Proof. solve_decision. Defined.
#[export] Instance Factor_eq_dec : EqDecision Factor.
Proof. solve_decision. Defined.
#[export] Instance Experiment_eq_dec : EqDecision Experiment.
Proof. solve_decision. Defined.
#[export] Instance Job_eq_dec : EqDecision Job.
Proof. solve_decision. Defined.
#[export] Instance IdempotencyRecord_eq_dec : EqDecision IdempotencyRecord.
Proof. solve_decision. Defined.
#[export] Instance json_scalar_eq_dec : EqDecision json_scalar.
Proof. solve_decision. Defined.
#[export] Instance AuditEvent_eq_dec : EqDecision AuditEvent.
Proof. solve_decision. Defined.

(** The zero values that Go gives to absent structs *)
Definition zero_entry : WorkspaceEntry := mkWorkspaceEntry "" "" 0 0 "" "" "".
Definition zero_manifest : WorkspaceManifest := mkWorkspaceManifest "" [] 0 0 "".
Definition zero_process_result : ProcessResult :=
  mkProcessResult 0 "" false 0 0 0 "" "" false [] [].
Definition zero_oracle_result : OracleResult := mkOracleResult false "".
Definition zero_host : HostEvidence := mkHostEvidence "" "" "" "" 0 0 [] "" "" "" "" "" "".
Definition zero_factor : Factor :=
  mkFactor "" (FactorOther "") "" false false "" "" zero_entry zero_entry false.
Definition zero_experiment : Experiment :=
  mkExperiment "" "" false 0 0 "" "" [] zero_process_result zero_oracle_result "".

(** ** helpers.go *)

Definition parse_assignment (result : gmap string string) (value : string) : gmap string string :=
  match cut value "=" with
  | Some (key, content) => <[key := content]> result
  | None => result
  end.

Definition EnvironmentFromList (values : list string) : gmap string string :=
  foldl parse_assignment ∅ values.

(** The keys of a map in sorted order: a [range] loop that collects them,
    then [sort.Strings]. *)
Definition sorted_keys {A} (values : gmap string A) : list string :=
  sort_strings (map_to_list values).*1.

Definition EnvironmentToList (values : gmap string string) : list string :=
  (λ key, key +:+ "=" +:+ default "" (values !! key)) <$> sorted_keys values.

Definition DigestStrings (values : list string) : string :=
  sha256_hex (foldr (λ value rest, value +:+ NUL +:+ rest) "" values).

Definition FactorID (kind key : string) : string :=
  kind +:+ ":" +:+ EncodeToString (take 8 (Sum256 (kind +:+ NUL +:+ key))).

Definition IsRedactedValue (value : string) : bool := has_prefix value "redacted:hmac:".

Definition sort_entries : list WorkspaceEntry → list WorkspaceEntry := sort_by Entry_Path.
Definition sort_factors : list Factor → list Factor := sort_by Factor_ID.

Definition with_entries (m : WorkspaceManifest) (es : list WorkspaceEntry) : WorkspaceManifest :=
  mkWorkspaceManifest (Manifest_Root m) es (Manifest_TotalFiles m) (Manifest_TotalBytes m)
    (Manifest_Digest m).

Definition Capture_Normalize (c : Capture) : Capture :=
  mkCapture (Capture_SchemaVersion c) (Capture_ID c) (Capture_CreatedAt c) (Capture_StartedAt c)
    (Capture_FinishedAt c) (Capture_Label c) (Capture_WorkspaceRoot c) (Capture_Command c)
    (Capture_Oracle c) (Capture_Result c) (Capture_OracleResult c)
    (with_entries (Capture_Before c) (sort_entries (Manifest_Entries (Capture_Before c))))
    (with_entries (Capture_Workspace c) (sort_entries (Manifest_Entries (Capture_Workspace c))))
    (Capture_Host c) (Capture_SecretEvidence c)
    (sort_by Consulted_Path (Capture_ConsultedPaths c))
    (sort_strings (Capture_EvidenceBoundaries c)) (sort_strings (Capture_Warnings c)).

Definition Analysis_Normalize (a : Analysis) : Analysis :=
  mkAnalysis (Analysis_SchemaVersion a) (Analysis_ID a) (Analysis_CreatedAt a)
    (Analysis_GoodCaptureID a) (Analysis_BadCaptureID a) (sort_factors (Analysis_Factors a))
    (sort_strings (Analysis_CausalFactors a)) (Analysis_Experiments a) (Analysis_Status a)
    (Analysis_ForwardVerified a) (Analysis_ReverseVerified a) (Analysis_MinimalInModel a)
    (Analysis_Repetitions a) (Analysis_ExperimentBudget a) (Analysis_Summary a)
    (sort_strings (Analysis_EvidenceBoundaries a)) (sort_strings (Analysis_Limitations a)).

Definition EntryMap (manifest : WorkspaceManifest) : gmap string WorkspaceEntry :=
  foldl (λ result entry, <[Entry_Path entry := entry]> result) ∅ (Manifest_Entries manifest).

Definition Entry_Supported (entry : WorkspaceEntry) : bool :=
  bool_decide (Entry_Type entry = "file") || bool_decide (Entry_Type entry = "dir") ||
  bool_decide (Entry_Type entry = "symlink").

(** [Size] is not compared. *)
Definition Entry_Equal (entry other : WorkspaceEntry) : bool :=
  bool_decide (Entry_Path entry = Entry_Path other) &&
  bool_decide (Entry_Type entry = Entry_Type other) &&
  bool_decide (Entry_Mode entry = Entry_Mode other) &&
  bool_decide (Entry_Digest entry = Entry_Digest other) &&
  bool_decide (Entry_BlobDigest entry = Entry_BlobDigest other) &&
  bool_decide (Entry_LinkTarget entry = Entry_LinkTarget other).

Definition Host_Digest (host : HostEvidence) : string :=
  DigestStrings [Host_OS host; Host_Arch host; Host_Kernel host; Host_Hostname host;
    Host_MountDigest host; Host_ResourceDigest host; Host_SecurityDigest host].

Definition WithDefaults (limits : CaptureLimits) : CaptureLimits :=
  mkCaptureLimits
    (if bool_decide (Limits_MaxWorkspaceFiles limits ≤ 0)%Z then 10000
     else Limits_MaxWorkspaceFiles limits)
    (if bool_decide (Limits_MaxWorkspaceBytes limits ≤ 0)%Z then 2 ^ 30
     else Limits_MaxWorkspaceBytes limits)
    (if bool_decide (Limits_MaxOutputBytes limits ≤ 0)%Z then 8 * 2 ^ 20
     else Limits_MaxOutputBytes limits)
    (if bool_decide (Limits_Timeout limits ≤ 0)%Z then 2 * Minute else Limits_Timeout limits).

(** ** Lemmas *)

Lemma elem_of_sorted_keys {A} (m : gmap string A) k : k ∈ sorted_keys m ↔ is_Some (m !! k).
Proof.
  unfold sorted_keys. rewrite elem_of_sort_strings, list_elem_of_fmap. split.
  - intros ([k' a] & -> & Ha%elem_of_map_to_list). eauto.
  - intros [a Ha]. exists (k, a). by rewrite elem_of_map_to_list.
Qed.

Lemma NoDup_sorted_keys {A} (m : gmap string A) : NoDup (sorted_keys m).
Proof. apply NoDup_sort_by, NoDup_fst_map_to_list. Qed.

Lemma EntryMap_Some m p e :
  EntryMap m !! p = Some e → e ∈ Manifest_Entries m ∧ Entry_Path e = p.
Proof.
  intros He. apply (foldl_insert_Some Entry_Path id) in He as [He|(x & ? & ? & <-)]; [|done].
  by rewrite lookup_empty in He.
Qed.

Lemma EntryMap_lookup m e :
  NoDup (Entry_Path <$> Manifest_Entries m) → e ∈ Manifest_Entries m →
  EntryMap m !! Entry_Path e = Some e.
Proof. apply (foldl_insert_in Entry_Path id). Qed.

(** Entries are compared on every field except [Size]. *)
Lemma Entry_Equal_iff e1 e2 :
  Entry_Equal e1 e2 = true ↔
  e1 = mkWorkspaceEntry (Entry_Path e2) (Entry_Type e2) (Entry_Mode e2) (Entry_Size e1)
         (Entry_Digest e2) (Entry_BlobDigest e2) (Entry_LinkTarget e2).
Proof.
  unfold Entry_Equal. rewrite !andb_true_iff, !bool_decide_eq_true.
  destruct e1, e2; cbn. split.
  - intros (((((-> & ->) & ->) & ->) & ->) & ->). done.
  - intros [=]. subst. tauto.
Qed.

Lemma cut_assignment k v :
  string_existsb (λ d, bool_decide (d = "="%char)) k = false →
  cut (k +:+ "=" +:+ v) "=" = Some (k, v).
Proof. apply cut_byte_app. Qed.

Lemma parse_assignments (env : gmap string string) ks :
  (∀ k, k ∈ ks → string_existsb (λ d, bool_decide (d = "="%char)) k = false) → ∀ m,
  foldl parse_assignment m ((λ key, key +:+ "=" +:+ default "" (env !! key)) <$> ks) =
  foldl (λ m k, <[id k := default "" (env !! k)]> m) m ks.
Proof.
  induction ks as [|k ks IH]; intros Hks m; [done|]. cbn [fmap list_fmap foldl].
  unfold parse_assignment at 2. rewrite cut_assignment by set_solver.
  apply IH. set_solver.
Qed.

(** ** Properties *)

(** [EnvironmentFromList] inverts [EnvironmentToList] on every environment
    whose names do not contain an equals sign (the values may). *)
Theorem Environment_roundtrip (env : gmap string string)
    (Hnames : ∀ k, is_Some (env !! k) →
      string_existsb (λ d, bool_decide (d = "="%char)) k = false) :
  EnvironmentFromList (EnvironmentToList env) = env.
Proof.
  unfold EnvironmentFromList, EnvironmentToList.
  rewrite parse_assignments by (intros k Hk; by apply Hnames, elem_of_sorted_keys).
  apply map_eq. intros k. destruct (env !! k) as [v|] eqn:Hk.
  - rewrite (foldl_insert_in id (λ k, default "" (env !! k)) _ _ k).
    + by rewrite Hk.
    + rewrite list_fmap_id. apply NoDup_sorted_keys.
    + apply elem_of_sorted_keys. eauto.
  - rewrite (foldl_insert_notin id (λ k, default "" (env !! k))); [apply lookup_empty|].
    rewrite list_fmap_id, elem_of_sorted_keys, Hk. by intros [??].
Qed.

Lemma Environment_roundtrip_witness :
  EnvironmentFromList (EnvironmentToList {["PATH" := "/bin"; "OPTS" := "a=b"]}) =
  {["PATH" := "/bin"; "OPTS" := "a=b"]}.
Proof.
  apply Environment_roundtrip. intros k [v Hk].
  apply lookup_insert_Some in Hk as [[<- _]|[_ Hk]]; [done|].
  apply lookup_singleton_Some in Hk as [<- _]. done.
Defined.
