(* ===== verification/Json.v ===== *)
(** * Json: the interface to encoding/json

    The store writes structs with Go's [encoding/json] and reads them back.
    The encoder itself is not translated; what the code relies on is the
    interface [Json]: an encoding used for files, the [json.Marshal] text that
    is hashed, the decoder of [json.Unmarshal], the one that refuses unknown
    fields ([DisallowUnknownFields]), and the documented fact that decoding what was
    encoded gives the value back when its strings are valid UTF-8 and its
    numbers are in range ([json_valid]).  [countable_json] is an
    implementation of the interface, used by the witnesses. *)

From stdpp Require Import countable.
From S2P Require Import Prelude.

Class Json (A : Type) := {
  json_encode : A → string;
  json_marshal : A → string;
  json_decode : string → result A;
  json_strict : string → result A;
  json_valid : A → Prop;
  json_roundtrip a : json_valid a → json_decode (json_encode a) = Ok a;
  json_strict_roundtrip a : json_valid a → json_strict (json_encode a) = Ok a;
}.

(** ** A concrete codec for every countable type: its code in binary *)

Fixpoint string_of_pos (p : positive) : string :=
  match p with
  | xH => EmptyString
  | xO p => String "0" (string_of_pos p)
  | xI p => String "1" (string_of_pos p)
  end.

Fixpoint pos_of_string (s : string) : option positive :=
  match s with
  | EmptyString => Some xH
  | String c s =>
      if bool_decide (c = "0"%char) then xO <$> pos_of_string s
      else if bool_decide (c = "1"%char) then xI <$> pos_of_string s
      else None
  end.

Lemma pos_of_string_of_pos p : pos_of_string (string_of_pos p) = Some p.
Proof. induction p as [p IH|p IH|]; cbn; by rewrite ?IH. Qed.

Definition countable_decode {A} `{Countable A} (s : string) : result A :=
  match pos_of_string s ≫= decode with
  | Some a => Ok a
  | None => Err (ErrMsg "invalid character")
  end.

Definition countable_json (A : Type) `{Countable A} : Json A.
Proof.
  refine {| json_encode a := string_of_pos (encode a);
            json_marshal a := string_of_pos (encode a);
            json_decode := countable_decode;
            json_strict := countable_decode;
            json_valid _ := True |}.
  all: intros a _; unfold countable_decode; rewrite pos_of_string_of_pos; cbn; by rewrite decode_encode.
Defined.

(** A codec that knows one value; it satisfies the interface because only
    that value is [json_valid]. *)
Definition single_json {A} (value : A) : Json A.
Proof.
  refine {| json_encode _ := "{}"; json_marshal _ := "{}"; json_decode _ := Ok value;
            json_strict _ := Ok value; json_valid a := a = value |}.
  all: by intros a ->.
Defined.

(** A codec that knows a list of values and writes the position of a value
    in unary; the interface holds because only those values are [json_valid]. *)
Fixpoint unary (n : nat) : string := match n with O => "" | S n => String "x" (unary n) end.

Lemma length_unary n : String.length (unary n) = n.
Proof. induction n as [|n IH]; [done|]. cbn. by rewrite IH. Qed.

Definition table_decode {A} (l : list A) (s : string) : result A :=
  match l !! String.length s with
  | Some a => Ok a
  | None => Err (ErrMsg "invalid character")
  end.

Definition table_encode {A} `{EqDecision A} (l : list A) (a : A) : string :=
  match list_find (λ b, b = a) l with Some (i, _) => unary i | None => "none" end.

Lemma table_roundtrip {A} `{EqDecision A} (l : list A) a :
  a ∈ l → table_decode l (table_encode l a) = Ok a.
Proof.
  intros Ha. unfold table_encode. destruct (list_find_elem_of (λ b, b = a) l a Ha eq_refl) as [[i b] Hf].
  rewrite Hf. apply list_find_Some in Hf as (Hi & -> & _).
  unfold table_decode. by rewrite length_unary, Hi.
Qed.

Definition table_json {A} `{EqDecision A} (l : list A) : Json A.
Proof.
  refine {| json_encode := table_encode l; json_marshal := table_encode l;
            json_decode := table_decode l; json_strict := table_decode l; json_valid a := a ∈ l |}.
  all: apply table_roundtrip.
Defined.

(** ** Objects

    The JSON text of a struct is one object: it starts with a brace, no part of
    it that stops short is JSON, and neither are two objects in a row. *)

Class JsonObject (A : Type) `{PJson : !Json A} := {
  json_brace a : ∃ s, json_encode a = String "{" s;
  json_prefix a n : json_valid a → n < String.length (json_encode a) →
    ∃ err, json_decode (string_take n (json_encode a)) = Err err;
  json_single a b : json_valid a → json_valid b → ∃ err, json_decode (json_encode a +:+ json_encode b) = Err err;
}.

(** The codec of a countable type: its code in binary between braces *)
Fixpoint object_bits (p : positive) : string :=
  match p with
  | xH => "}"
  | xO p => String "0" (object_bits p)
  | xI p => String "1" (object_bits p)
  end.

Fixpoint object_pos (s : string) : option positive :=
  match s with
  | EmptyString => None
  | String c s =>
      if bool_decide (c = "0"%char) then xO <$> object_pos s
      else if bool_decide (c = "1"%char) then xI <$> object_pos s
      else if bool_decide (c = "}"%char ∧ s = EmptyString) then Some xH
      else None
  end.

Lemma object_pos_bits p : object_pos (object_bits p) = Some p.
Proof. induction p as [p IH|p IH|]; cbn; by rewrite ?IH. Qed.

Lemma object_pos_prefix p : ∀ n, n < String.length (object_bits p) → object_pos (string_take n (object_bits p)) = None.
Proof. induction p as [p IH|p IH|]; intros [|n] Hn; cbn in *; try done; try lia; rewrite IH by lia; done. Qed.

Lemma object_pos_app p c s : object_pos (object_bits p +:+ String c s) = None.
Proof. induction p as [p IH|p IH|]; cbn [object_bits]; rewrite string_app_cons; cbn; by rewrite ?IH. Qed.

Definition object_decode {A} `{Countable A} (s : string) : result A :=
  match s with
  | String c s =>
      match (if bool_decide (c = "{"%char) then object_pos s ≫= decode else None) with
      | Some a => Ok a
      | None => Err (ErrMsg "invalid character")
      end
  | EmptyString => Err (ErrMsg "unexpected end of JSON input")
  end.

Definition object_json (A : Type) `{Countable A} : Json A.
Proof.
  refine {| json_encode a := String "{" (object_bits (encode a));
            json_marshal a := String "{" (object_bits (encode a));
            json_decode := object_decode;
            json_strict := object_decode;
            json_valid _ := True |}.
  all: intros a _; unfold object_decode; rewrite object_pos_bits; cbn; by rewrite decode_encode.
Defined.

Lemma object_json_object (A : Type) `{Countable A} : @JsonObject A (object_json A).
Proof.
  split.
  - intros a. by eexists.
  - intros a [|n] _ Hn; [by eexists|]. cbn in *. rewrite object_pos_prefix by lia. by eexists.
  - intros a b _ _. cbn [json_encode object_json]. rewrite string_app_cons. cbn. rewrite object_pos_app. by eexists.
Qed.
