(* ===== verification/Ddmin.v ===== *)
(** * Ddmin: the delta-debugging minimiser

    Models [src/internal/experiment/ddmin.go]: [split], [subtract] and
    [DDMin].  The test function of the code is a closure that appends to the
    analysis under construction, so it is modelled as a state-passing function
    and [DDMin] threads that state through every call.

    [DDMin] loops while it makes progress; the model runs it with fuel, and
    [DDMin_terminates] shows that [ddmin_fuel] is always enough, so every
    other theorem is about a result that exists. *)

From S2P Require Import Prelude.

Definition budget_exhausted : error := ErrMsg "experiment budget exhausted".

(** ** split: cut [items] into [parts] contiguous chunks *)

(** The [for index := 0; index < parts; index++] loop; [todo] counts the
    iterations left, [start] is the variable of that name. *)
Fixpoint split_loop (items : list string) (base remainder : nat)
    (todo index start : nat) : list (list string) :=
  match todo with
  | O => []
  | S todo =>
      let size := if decide (index < remainder) then S base else base in
      let end_ := start + size in
      take (end_ - start) (drop start items) ::
        split_loop items base remainder todo (S index) end_
  end.

(** Go panics on [len(items) / 0]; [DDMin] only calls [split] with at least
    two items and [parts >= 2]. *)
Definition split (items : list string) (parts : nat) : list (list string) :=
  let parts := if decide (length items < parts) then length items else parts in
  let base := length items / parts in
  let remainder := length items mod parts in
  split_loop items base remainder parts 0 0.

(** ** subtract: remove one occurrence per element of [subset] *)

Definition count_of (set : gmap string nat) (item : string) : nat := default 0 (set !! item).

Definition subtract_set (subset : list string) : gmap string nat :=
  foldl (λ set item, <[item := S (count_of set item)]> set) ∅ subset.

Fixpoint subtract_loop (set : gmap string nat) (all : list string) : list string :=
  match all with
  | [] => []
  | item :: all =>
      if decide (0 < count_of set item)
      then subtract_loop (<[item := count_of set item - 1]> set) all
      else item :: subtract_loop set all
  end.

Definition subtract (all subset : list string) : list string :=
  subtract_loop (subtract_set subset) all.

(** ** DDMin *)

(** How one of the two inner [for _, chunk := range chunks] loops is left. *)
Inductive pass :=
  | PassExhausted
  | PassError (err : error)
  | PassReduced (candidate : list string)
  | PassNone.

Section DDMin.
Context {St : Type}.
Variable test : list string → St → result bool * St.
Variable budget : Z.

(** First inner loop: try each chunk on its own. *)
Fixpoint try_chunks (chunks : list (list string)) (experiments : nat) (s : St)
    : pass * nat * St :=
  match chunks with
  | [] => (PassNone, experiments, s)
  | chunk :: chunks =>
      if decide (budget ≤ Z.of_nat experiments)%Z then (PassExhausted, experiments, s)
      else
        let experiments := S experiments in
        match test chunk s with
        | (Err err, s) => (PassError err, experiments, s)
        | (Ok true, s) => (PassReduced chunk, experiments, s)
        | (Ok false, s) => try_chunks chunks experiments s
        end
  end.

(** Second inner loop: try each complement, skipping empty ones. *)
Fixpoint try_complements (current : list string) (chunks : list (list string))
    (experiments : nat) (s : St) : pass * nat * St :=
  match chunks with
  | [] => (PassNone, experiments, s)
  | chunk :: chunks =>
      let complement := subtract current chunk in
      if decide (length complement = 0) then try_complements current chunks experiments s
      else if decide (budget ≤ Z.of_nat experiments)%Z then (PassExhausted, experiments, s)
      else
        let experiments := S experiments in
        match test complement s with
        | (Err err, s) => (PassError err, experiments, s)
        | (Ok true, s) => (PassReduced complement, experiments, s)
        | (Ok false, s) => try_complements current chunks experiments s
        end
  end.

(** The outer loop.  [None] means that the fuel ran out. *)
Fixpoint ddmin_loop (fuel : nat) (current : list string) (n experiments : nat) (s : St)
    : option (list string * nat * option error * St) :=
  match fuel with
  | O => None
  | S fuel =>
      if decide (length current < 2) then Some (current, experiments, None, s)
      else if decide (budget ≤ Z.of_nat experiments)%Z
      then Some (current, experiments, Some budget_exhausted, s)
      else
        let chunks := split current n in
        match try_chunks chunks experiments s with
        | (PassExhausted, experiments, s) =>
            Some (current, experiments, Some budget_exhausted, s)
        | (PassError err, experiments, s) => Some (current, experiments, Some err, s)
        | (PassReduced chunk, experiments, s) =>
            ddmin_loop fuel chunk (Nat.max 2 (n - 1)) experiments s
        | (PassNone, experiments, s) =>
            match try_complements current chunks experiments s with
            | (PassExhausted, experiments, s) =>
                Some (current, experiments, Some budget_exhausted, s)
            | (PassError err, experiments, s) => Some (current, experiments, Some err, s)
            | (PassReduced complement, experiments, s) =>
                ddmin_loop fuel complement (Nat.max 2 (n - 1)) experiments s
            | (PassNone, experiments, s) =>
                if decide (length current ≤ n) then Some (current, experiments, None, s)
                else ddmin_loop fuel current (Nat.min (length current) (n * 2)) experiments s
            end
        end
  end.

Definition ddmin_fuel (items : list string) : nat := S (length items) * S (length items).

Definition DDMin (items : list string) (s : St)
    : option (list string * nat * option error * St) :=
  if decide (length items = 0) then Some (items, 0, None, s)
  else ddmin_loop (ddmin_fuel items) items 2 0 s.
End DDMin.

(** A test without effects, as a unit-state test function. *)
Definition pure_test (p : list string → bool) : list string → unit → result bool * unit :=
  λ c s, (Ok (p c), s).

(** The minimiser applied to such a test. *)
Definition ddmin_pure (p : list string → bool) (budget : Z) (items : list string)
    : option (list string * nat * option error) :=
  match DDMin (pure_test p) budget items tt with
  | Some (c, e, err, _) => Some (c, e, err)
  | None => None
  end.

(** The assertion of [TestDDMin] in [ddmin_test.go]. *)
Example ddmin_go_test :
  ∃ n, ddmin_pure (λ c, bool_decide ("b" ∈ c ∧ "d" ∈ c)) 100 ["a"; "b"; "c"; "d"]
       = Some (["b"; "d"], n, None) ∧ n ≠ 0.
Proof. eexists. split; [vm_compute; reflexivity|done]. Qed.

(** ** Lemmas on split *)

Section split_lemmas.
Implicit Types items : list string.

(** The elements dealt to the chunks [index .. index + todo - 1]. *)
Lemma split_loop_spec items b r todo : ∀ index start,
  let total := todo * b + (Nat.min r (index + todo) - Nat.min r index) in
  start + total ≤ length items →
  concat (split_loop items b r todo index start) = take total (drop start items) ∧
  Forall (λ c, b ≤ length c ≤ S b) (split_loop items b r todo index start) ∧
  length (split_loop items b r todo index start) = todo.
Proof.
  induction todo as [|todo IH]; intros index start total Htotal; subst total.
  { replace (0 * b + _) with 0 by lia. split_and!; [done|constructor|done]. }
  cbn [split_loop concat length].
  set (size := if decide (index < r) then S b else b).
  assert (S todo * b + (Nat.min r (index + S todo) - Nat.min r index) =
    size + (todo * b + (Nat.min r (S index + todo) - Nat.min r (S index)))) as Hsize.
  { subst size. case_decide; lia. }
  destruct (IH (S index) (start + size)) as (Hc & Hf & Hl); [lia|].
  rewrite Hsize, Hc.
  replace (start + size - start) with size by lia.
  split_and!; [|constructor; [|exact Hf]|lia].
  - by rewrite <-(take_take_drop (drop start items) size), drop_drop.
  - rewrite length_take, length_drop. subst size. case_decide; lia.
Qed.

(** [split] deals every item to exactly one of [min parts (len items)]
    contiguous chunks whose sizes differ by at most one. *)
Lemma split_spec items parts :
  0 < parts → items ≠ [] →
  let parts' := Nat.min parts (length items) in
  concat (split items parts) = items ∧
  length (split items parts) = parts' ∧
  Forall (λ c, length items / parts' ≤ length c ≤ S (length items / parts'))
    (split items parts).
Proof.
  intros Hparts Hne parts'. unfold split.
  replace (if decide (length items < parts) then _ else _) with parts'
    by (subst parts'; case_decide; lia).
  assert (0 < length items) by (destruct items; cbn; [done|lia]).
  assert (parts' ≠ 0) by lia.
  pose proof (Nat.div_mod_eq (length items) parts') as Hdm.
  pose proof (Nat.mod_upper_bound (length items) parts') as Hmod.
  set (b := length items / parts') in *. set (r := length items mod parts') in *.
  destruct (split_loop_spec items b r parts' 0 0) as (Hc & Hf & Hl); [nia|].
  split_and!; [|done|done].
  rewrite Hc, drop_0, take_ge; [done|]. nia.
Qed.

Lemma split_sublist items parts c :
  0 < parts → items ≠ [] → c ∈ split items parts → c `sublist_of` items.
Proof.
  intros Hp Hne Hc. destruct (split_spec items parts Hp Hne) as (Hcat & _ & _).
  rewrite <-Hcat. apply list_elem_of_split in Hc as (l1 & l2 & ->).
  rewrite concat_app. cbn. by apply sublist_inserts_l, sublist_inserts_r.
Qed.

(** Each chunk is nonempty and, when there are at least two parts, shorter
    than the whole. *)
Lemma split_chunk_length items parts c :
  2 ≤ parts → 2 ≤ length items → c ∈ split items parts → 0 < length c < length items.
Proof.
  intros Hp Hlen Hc.
  assert (items ≠ []) as Hne by (intros ->; cbn in *; lia).
  destruct (split_spec items parts ltac:(lia) Hne) as (Hcat & Hl & Hf).
  assert (∀ d, d ∈ split items parts → 0 < length d) as Hpos.
  { intros d Hd. rewrite Forall_forall in Hf. specialize (Hf d Hd).
    enough (1 ≤ length items / Nat.min parts (length items)) by lia.
    apply Nat.div_le_lower_bound; lia. }
  split; [by apply Hpos|].
  apply list_elem_of_split in Hc as (l1 & l2 & Heq).
  rewrite <-Hcat, Heq, concat_app, length_app. cbn. rewrite length_app.
  rewrite Heq, length_app in Hl. cbn in Hl.
  assert (l1 ≠ [] ∨ l2 ≠ []) as [Hl1|Hl2].
  { destruct l1, l2; cbn in *; [lia|eauto..]. }
  - destruct l1 as [|d l1]; [done|]. cbn. rewrite length_app.
    enough (0 < length d) by lia. apply Hpos. rewrite Heq. set_solver.
  - destruct l2 as [|d l2]; [done|]. cbn. rewrite length_app.
    enough (0 < length d) by lia. apply Hpos. rewrite Heq. set_solver.
Qed.

(** With as many parts as items every chunk is a singleton. *)
Lemma split_singletons items parts :
  items ≠ [] → length items ≤ parts → ∀ x, x ∈ items → [x] ∈ split items parts.
Proof.
  intros Hne Hparts x Hx.
  assert (0 < length items) by (destruct items; cbn; [done|lia]).
  destruct (split_spec items parts ltac:(lia) Hne) as (Hcat & Hl & Hf).
  rewrite Nat.min_r in Hl, Hf by lia.
  rewrite <-Hcat in Hx.
  apply list_elem_of_In, in_concat in Hx as (c & Hc%list_elem_of_In & Hxc%list_elem_of_In).
  enough (length c = 1) as Hc1.
  { destruct c as [|y [|]]; cbn in Hc1; [lia| |lia].
    apply list_elem_of_singleton in Hxc as ->. done. }
  apply list_elem_of_split in Hc as (l1 & l2 & Heq). revert Hl Hf Hcat.
  generalize (split items parts) Heq. intros cs -> Hl Hf Hcat.
  assert (∀ l : list (list string),
    Forall (λ c, length items / length items ≤ length c ≤ S (length items / length items)) l →
    length l ≤ length (concat l)) as Hsum.
  { rewrite Nat.div_same by lia. induction 1; cbn; [lia|]. rewrite length_app. lia. }
  apply Forall_app in Hf as [Hf1 [Hfc Hf2]%Forall_cons].
  apply Hsum in Hf1, Hf2. rewrite Nat.div_same in Hfc by lia.
  rewrite <-Hcat, concat_app, length_app in Hl. cbn in Hl.
  rewrite !length_app in Hl. cbn in Hl. lia.
Qed.
End split_lemmas.

(** ** Lemmas on subtract *)

Lemma subtract_loop_sublist all : ∀ set, subtract_loop set all `sublist_of` all.
Proof.
  induction all as [|x all IH]; intros set; cbn; [constructor|].
  case_decide; [by constructor|]. by apply sublist_skip.
Qed.

Lemma subtract_sublist all subset : subtract all subset `sublist_of` all.
Proof. apply subtract_loop_sublist. Qed.

Lemma count_of_insert set x y n :
  count_of (<[x := n]> set) y = if decide (x = y) then n else count_of set y.
Proof. unfold count_of. rewrite lookup_insert. by case_decide. Qed.

Lemma subtract_set_count_gen subset : ∀ set x,
  0 < count_of (foldl (λ set item, <[item := S (count_of set item)]> set) set subset) x ↔
  0 < count_of set x ∨ x ∈ subset.
Proof.
  induction subset as [|y subset IH]; intros set x; cbn.
  { set_solver. }
  rewrite IH, count_of_insert, elem_of_cons. case_decide as Hxy; [subst|].
  - split; [auto|]. intros _. left. lia.
  - split; [tauto|]. intros [?|[->|?]]; tauto.
Qed.

Lemma subtract_set_count subset x : 0 < count_of (subtract_set subset) x ↔ x ∈ subset.
Proof.
  unfold subtract_set. rewrite subtract_set_count_gen.
  unfold count_of at 1. rewrite lookup_empty. cbn. split; [intros [?|?]; [lia|done]|by right].
Qed.

Lemma subtract_loop_NoDup all : ∀ set (keep : string → Prop) `{∀ x, Decision (keep x)},
  NoDup all → (∀ x, x ∈ all → (0 < count_of set x ↔ ¬ keep x)) →
  subtract_loop set all = filter keep all.
Proof.
  induction all as [|x all IH]; intros set keep ? Hnd Hset; [done|].
  apply NoDup_cons in Hnd as [Hx Hnd]. cbn [subtract_loop].
  pose proof (Hset x ltac:(set_solver)) as Hx'.
  case_decide as Hc.
  - rewrite filter_cons_False by tauto. apply IH; [done|].
    intros y Hy. rewrite count_of_insert. case_decide; [congruence|]. apply Hset. set_solver.
  - rewrite filter_cons_True by (destruct (decide (keep x)); tauto).
    f_equal. apply IH; [done|]. intros y Hy. apply Hset. set_solver.
Qed.

(** On a list without repetition [subtract] is set difference. *)
Lemma subtract_NoDup all subset :
  NoDup all → subtract all subset = filter (λ x, x ∉ subset) all.
Proof.
  intros Hnd. apply subtract_loop_NoDup; [done|].
  intros x _. rewrite subtract_set_count. destruct (decide (x ∈ subset)); tauto.
Qed.

(** A complement is strictly shorter, repetitions or not. *)
Lemma subtract_loop_length all : ∀ set x,
  x ∈ all → 0 < count_of set x → length (subtract_loop set all) < length all.
Proof.
  induction all as [|y all IH]; intros set x Hx Hc; [set_solver|]. cbn [subtract_loop].
  case_decide as Hy; cbn.
  - pose proof (sublist_length _ _ (subtract_loop_sublist all (<[y:=count_of set y - 1]> set))). lia.
  - enough (length (subtract_loop set all) < length all) by lia.
    apply (IH set x); [|done]. apply elem_of_cons in Hx as [->|?]; [lia|done].
Qed.

Lemma subtract_length all subset :
  subset ⊆ all → subset ≠ [] → length (subtract all subset) < length all.
Proof.
  intros Hsub Hne. destruct subset as [|x subset]; [done|].
  apply (subtract_loop_length _ _ x); [set_solver|]. apply subtract_set_count. set_solver.
Qed.

Lemma subtract_loop_zero all : ∀ set,
  (∀ y, count_of set y = 0) → subtract_loop set all = all.
Proof.
  induction all as [|y all IH]; intros set Hz; [done|]. cbn.
  rewrite decide_False by (rewrite Hz; lia). by rewrite IH.
Qed.

(** Removing one element removes at most one occurrence. *)
Lemma subtract_one_length all x : length all ≤ S (length (subtract all [x])).
Proof.
  unfold subtract. cbn.
  enough (∀ set, (∀ y, count_of set y = if decide (x = y) then 1 else 0) →
    length all ≤ S (length (subtract_loop set all))) as Hgen.
  { apply Hgen. intros y. rewrite count_of_insert. by case_decide. }
  induction all as [|z all IH]; intros set Hset; cbn; [lia|].
  rewrite Hset. destruct (decide (x = z)) as [<-|Hxz].
  - rewrite decide_True by lia. rewrite subtract_loop_zero; [lia|].
    intros y. rewrite count_of_insert, Hset.
    by destruct (decide (x = y)).
  - rewrite decide_False by lia. cbn. specialize (IH set Hset). lia.
Qed.

(** ** The loop, for any logic of the test

    [Passed c s] and [Failed c s] are facts about the candidate [c] recorded
    in the state [s]; the interface says that the test establishes them and
    that later tests do not forget them. *)

Class TestLogic {St} (test : list string → St → result bool * St)
    (Passed Failed : list string → St → Prop) : Prop := {
  test_passed c s s' : test c s = (Ok true, s') → Passed c s';
  test_failed c s s' : test c s = (Ok false, s') → Failed c s';
  passed_stable c r s s' d : test c s = (r, s') → Passed d s → Passed d s';
  failed_stable c r s s' d : test c s = (r, s') → Failed d s → Failed d s';
}.

Section ddmin_logic.
Context {St : Type} (test : list string → St → result bool * St) (budget : Z).
Context (Passed Failed : list string → St → Prop).
Context `{!TestLogic test Passed Failed}.

(** What is known after a sequence of tests that moved the counter from [e]
    to [e'] and the state from [s] to [s']. *)
Record progress (e : nat) (s : St) (e' : nat) (s' : St) : Prop := {
  progress_passed c : Passed c s → Passed c s';
  progress_failed c : Failed c s → Failed c s';
  progress_count : e ≤ e';
  progress_budget : e' = e ∨ (Z.of_nat e' ≤ budget)%Z;
}.

Lemma progress_refl e s : progress e s e s.
Proof. split; auto. Qed.

Lemma progress_trans e1 s1 e2 s2 e3 s3 :
  progress e1 s1 e2 s2 → progress e2 s2 e3 s3 → progress e1 s1 e3 s3.
Proof. intros [?? ? Hb1] [?? ? Hb2]. split; [auto..|lia|]. destruct Hb2 as [->|]; auto. Qed.

Lemma progress_test c r e s s' :
  test c s = (r, s') → ¬ (budget ≤ Z.of_nat e)%Z → progress e s (S e) s'.
Proof.
  intros Ht Hb. split; [..|lia|lia].
  - intros d. by eapply passed_stable.
  - intros d. by eapply failed_stable.
Qed.

Definition pass_post (cands : list (list string)) (r : pass) (e' : nat) (s' : St) : Prop :=
  match r with
  | PassNone => ∀ c, c ∈ cands → Failed c s'
  | PassReduced c => c ∈ cands ∧ Passed c s'
  | PassExhausted => (budget ≤ Z.of_nat e')%Z
  | PassError err => ∃ c s, test c s = (Err err, s')
  end.

Lemma try_chunks_spec cands : ∀ e s r e' s',
  try_chunks test budget cands e s = (r, e', s') →
  progress e s e' s' ∧ pass_post cands r e' s'.
Proof.
  induction cands as [|c cands IH]; intros e s r e' s' Heq; cbn in Heq.
  { simplify_eq. split; [apply progress_refl|]. cbn. set_solver. }
  case_decide as Hb; [by simplify_eq; split; [apply progress_refl|]|].
  destruct (test c s) as [[[]|err] s1] eqn:Ht; simplify_eq.
  - split; [by eapply progress_test|]. split; [set_solver|]. by eapply test_passed.
  - apply IH in Heq as [Hp Hpost]. split.
    { eapply progress_trans; [by eapply progress_test|done]. }
    destruct r as [|?|d|]; cbn in *; [done|done|set_solver|].
    intros d [->|Hd]%elem_of_cons; [|by apply Hpost].
    eapply progress_failed; [done|]. by eapply test_failed.
  - split; [by eapply progress_test|]. cbn. eauto.
Qed.

(** The second inner loop is the first one on the nonempty complements. *)
Lemma try_complements_eq current chunks : ∀ e s,
  try_complements test budget current chunks e s =
  try_chunks test budget
    (filter (λ c, length c ≠ 0) (subtract current <$> chunks)) e s.
Proof.
  induction chunks as [|c chunks IH]; intros e s; [done|].
  cbn [try_complements fmap list_fmap]. case_decide as Hc.
  - rewrite filter_cons_False by tauto. apply IH.
  - rewrite filter_cons_True by done. cbn [try_chunks]. case_decide; [done|].
    destruct (test _ s) as [[[]|]]; auto.
Qed.

Record ddmin_post (cur : list string) (e : nat) (s : St)
    (c : list string) (e' : nat) (err : option error) (s' : St) : Prop := {
  post_progress : progress e s e' s';
  post_sublist : c `sublist_of` cur;
  post_nonempty : cur ≠ [] → c ≠ [];
  post_passed : c = cur ∨ Passed c s';
  post_error er : err = Some er →
    (er = budget_exhausted ∧ (budget ≤ Z.of_nat e')%Z) ∨ ∃ d s0, test d s0 = (Err er, s');
  post_minimal : err = None → 2 ≤ length c → ∀ x, x ∈ c →
    Failed [x] s' ∧ Failed (subtract c [x]) s';
}.

Lemma ddmin_post_reduce cur e s c1 e1 s1 c e' err s' :
  progress e s e1 s1 → c1 `sublist_of` cur → c1 ≠ [] → Passed c1 s1 →
  ddmin_post c1 e1 s1 c e' err s' → ddmin_post cur e s c e' err s'.
Proof.
  intros Hp Hsub Hne Hc1 [Hp' Hsub' Hne' Hpass Herr Hmin]. split; [..|done|done].
  - by eapply progress_trans.
  - by etrans.
  - auto.
  - right. destruct Hpass as [->|]; [|done]. by eapply progress_passed.
Qed.

Lemma ddmin_post_same cur e s e' err s' :
  progress e s e' s' →
  match err with
  | None => length cur < 2
  | Some er => (er = budget_exhausted ∧ (budget ≤ Z.of_nat e')%Z) ∨
               ∃ d s0, test d s0 = (Err er, s')
  end → ddmin_post cur e s cur e' err s'.
Proof.
  intros Hp Herr. split; [done..|by left| |].
  - by intros er ->.
  - intros ->. lia.
Qed.

Lemma ddmin_loop_spec fuel : ∀ cur n e s c e' err s',
  2 ≤ n → ddmin_loop test budget fuel cur n e s = Some (c, e', err, s') →
  ddmin_post cur e s c e' err s'.
Proof.
  induction fuel as [|fuel IH]; intros cur n e s c e' err s' Hn Heq; [done|].
  cbn in Heq.
  case_decide as Hlen; [simplify_eq; apply ddmin_post_same; auto using progress_refl|].
  case_decide as Hb; [simplify_eq; apply ddmin_post_same; [apply progress_refl|by left]|].
  assert (cur ≠ []) as Hne by (intros ->; cbn in *; lia).
  destruct (try_chunks _ _ _ _ _) as [[r1 e1] s1] eqn:H1.
  apply try_chunks_spec in H1 as [Hp1 Hr1].
  destruct r1 as [|er|d|]; simplify_eq;
    [apply ddmin_post_same; auto; fail..| |].
  { destruct Hr1 as [Hd Hpd]. eapply ddmin_post_reduce; [done| | |done|].
    - apply (split_sublist _ n); [lia|done..].
    - apply split_chunk_length in Hd; [|lia..]. intros ->. cbn in Hd. lia.
    - eapply IH; [|done]. lia. }
  rewrite try_complements_eq in Heq.
  destruct (try_chunks _ _ (filter _ _) _ _) as [[r2 e2] s2] eqn:H2.
  apply try_chunks_spec in H2 as [Hp2 Hr2].
  pose proof (progress_trans _ _ _ _ _ _ Hp1 Hp2) as Hp12.
  destruct r2 as [|er|d|]; simplify_eq;
    [apply ddmin_post_same; auto; fail..| |].
  { destruct Hr2 as [[Hd0 (d0 & -> & Hd)%list_elem_of_fmap]%list_elem_of_filter Hpd].
    eapply ddmin_post_reduce; [done| | |done|].
    - apply subtract_sublist.
    - intros Hnil. by rewrite Hnil in Hd0.
    - eapply IH; [|done]. lia. }
  case_decide as Hfin; simplify_eq.
  - split; [done..|by left|done|]. intros _ _ x Hx.
    assert ([x] ∈ split c n) as Hsx by (apply split_singletons; auto).
    split; [by eapply progress_failed, Hr1|].
    apply Hr2, list_elem_of_filter. split; [|apply list_elem_of_fmap; eauto].
    pose proof (subtract_one_length c x). lia.
  - eapply IH in Heq as [Hp3 ?????]; [|lia]. split; [|done..].
    by eapply progress_trans.
Qed.

Lemma ddmin_loop_total L fuel : ∀ cur n e s,
  length cur ≤ L → 2 ≤ n ≤ L → length cur * S L + (L - n) < fuel →
  is_Some (ddmin_loop test budget fuel cur n e s).
Proof.
  induction fuel as [|fuel IH]; intros cur n e s Hcur Hn Hfuel; [lia|]. cbn.
  case_decide as Hlen; [done|]. case_decide; [done|].
  destruct (try_chunks _ _ _ _ _) as [[r1 e1] s1] eqn:H1.
  apply try_chunks_spec in H1 as [_ Hr1].
  destruct r1 as [|er|d|]; [done|done| |].
  { destruct Hr1 as [Hd%split_chunk_length _]; [|lia..]. apply IH; [lia|lia|nia]. }
  rewrite try_complements_eq.
  destruct (try_chunks _ _ (filter _ _) _ _) as [[r2 e2] s2] eqn:H2.
  apply try_chunks_spec in H2 as [_ Hr2].
  destruct r2 as [|er|d|]; [done|done| |].
  { destruct Hr2 as [[_ (d0 & -> & Hd)%list_elem_of_fmap]%list_elem_of_filter _].
    assert (length (subtract cur d0) < length cur).
    { apply subtract_length.
      - intros x Hx. eapply elem_of_sublist; [done|].
        eapply split_sublist; [| |done]; [lia|]. intros ->. cbn in *. lia.
      - apply split_chunk_length in Hd; [|lia..]. intros ->. cbn in *. lia. }
    apply IH; [lia|lia|nia]. }
  case_decide; [done|]. apply IH; lia.
Qed.

Lemma DDMin_spec items s c e err s' :
  DDMin test budget items s = Some (c, e, err, s') → ddmin_post items 0 s c e err s'.
Proof.
  unfold DDMin. case_decide; intros Heq; [|by eapply ddmin_loop_spec; [|done]; lia].
  simplify_eq. apply ddmin_post_same; [apply progress_refl|lia].
Qed.
End ddmin_logic.

(** An invariant of the test is an invariant of the minimisation. *)
Section ddmin_invariant.
Context {St : Type} (test : list string → St → result bool * St) (budget : Z) (P : St → Prop).
Hypothesis test_keeps : ∀ c s r s', test c s = (r, s') → P s → P s'.

Lemma try_chunks_invariant cands : ∀ e s r e' s',
  try_chunks test budget cands e s = (r, e', s') → P s → P s'.
Proof.
  induction cands as [|c cands IH]; intros e s r e' s'; cbn; [by intros [= <- <- <-]|].
  case_decide; [by intros [= <- <- <-]|].
  destruct (test c s) as [[[|]|err] s1] eqn:Ht; intros Heq Hs; simplify_eq; eauto.
Qed.

Lemma try_complements_invariant current cands : ∀ e s r e' s',
  try_complements test budget current cands e s = (r, e', s') → P s → P s'.
Proof.
  induction cands as [|c cands IH]; intros e s r e' s'; cbn; [by intros [= <- <- <-]|].
  case_decide; [by apply IH|]. case_decide; [by intros [= <- <- <-]|].
  destruct (test _ s) as [[[|]|err] s1] eqn:Ht; intros Heq Hs; simplify_eq; eauto.
Qed.

Lemma ddmin_loop_invariant fuel : ∀ cur n e s c e' err s',
  ddmin_loop test budget fuel cur n e s = Some (c, e', err, s') → P s → P s'.
Proof.
  induction fuel as [|fuel IH]; intros cur n e s c e' err s'; cbn; [done|].
  case_decide; [by intros [= <- <- <- <-]|]. case_decide; [by intros [= <- <- <- <-]|].
  destruct (try_chunks _ _ _ _ _) as [[r1 e1] s1] eqn:H1. intros Heq Hs.
  pose proof (try_chunks_invariant _ _ _ _ _ _ H1 Hs) as Hs1.
  destruct r1; simplify_eq; [done..|by eapply IH|].
  destruct (try_complements _ _ _ _ _ _) as [[r2 e2] s2] eqn:H2.
  pose proof (try_complements_invariant _ _ _ _ _ _ _ H2 Hs1) as Hs2.
  destruct r2; simplify_eq; [done..|by eapply IH|]. case_decide; simplify_eq; [done|by eapply IH].
Qed.

Lemma DDMin_invariant items s c e err s' :
  DDMin test budget items s = Some (c, e, err, s') → P s → P s'.
Proof. unfold DDMin. case_decide; [by intros [= <- <- <- <-]|]. apply ddmin_loop_invariant. Qed.
End ddmin_invariant.

(** The minimisation of a test on finer states *)
Section ddmin_lift.
Context {St St' : Type} (coarse : St' → St).
Context (test : list string → St → result bool * St) (test' : list string → St' → result bool * St').
Variable budget : Z.
Hypothesis test_lift : ∀ c s, test c (coarse s) = ((test' c s).1, coarse (test' c s).2).

Lemma try_chunks_lift cands : ∀ e s, try_chunks test budget cands e (coarse s) =
  ((try_chunks test' budget cands e s).1, coarse (try_chunks test' budget cands e s).2).
Proof.
  induction cands as [|c cands IH]; intros e s; cbn; [done|]. case_decide; [done|].
  rewrite test_lift. by destruct (test' c s) as [[[|]|err] s1]; cbn.
Qed.

Lemma try_complements_lift current cands : ∀ e s, try_complements test budget current cands e (coarse s) =
  ((try_complements test' budget current cands e s).1, coarse (try_complements test' budget current cands e s).2).
Proof.
  induction cands as [|c cands IH]; intros e s; cbn; [done|]. case_decide; [by apply IH|]. case_decide; [done|].
  rewrite test_lift. by destruct (test' _ s) as [[[|]|err] s1]; cbn.
Qed.

Lemma ddmin_loop_lift fuel : ∀ cur n e s, ddmin_loop test budget fuel cur n e (coarse s) =
  (λ r, (r.1, coarse r.2)) <$> ddmin_loop test' budget fuel cur n e s.
Proof.
  induction fuel as [|fuel IH]; intros cur n e s; cbn; [done|].
  case_decide; [done|]. case_decide; [done|]. rewrite try_chunks_lift.
  destruct (try_chunks test' _ _ _ _) as [[[] e1] s1]; cbn; try done.
  rewrite try_complements_lift. destruct (try_complements test' _ _ _ _ _) as [[[] e2] s2]; cbn; try done.
  by case_decide.
Qed.

Lemma DDMin_lift items s : DDMin test budget items (coarse s) =
  (λ r, (r.1, coarse r.2)) <$> DDMin test' budget items s.
Proof. unfold DDMin. case_decide; [done|]. apply ddmin_loop_lift. Qed.
End ddmin_lift.

Lemma trivial_logic {St} (test : list string → St → result bool * St) :
  TestLogic test (λ _ _, True) (λ _ _, True).
Proof. by split. Qed.

#[export] Instance pure_logic p :
  TestLogic (pure_test p) (λ c _, p c = true) (λ c _, p c = false).
Proof. unfold pure_test. split; intros; simplify_eq; done. Qed.

Lemma DDMin_total {St} (test : list string → St → result bool * St) budget items s :
  is_Some (DDMin test budget items s).
Proof.
  unfold DDMin. case_decide as H0; [done|].
  destruct (decide (length items < 2)) as [H1|H1].
  { unfold ddmin_fuel. cbn. by rewrite decide_True. }
  apply (ddmin_loop_total test budget _ _ (TestLogic0 := trivial_logic test) (length items));
    unfold ddmin_fuel; lia.
Qed.

Lemma ddmin_pure_spec p budget items c e err :
  ddmin_pure p budget items = Some (c, e, err) →
  ddmin_post (pure_test p) budget (λ c _, p c = true) (λ c _, p c = false)
    items 0 tt c e err tt.
Proof.
  unfold ddmin_pure. destruct (DDMin _ _ _ _) as [[[[c1 e1] err1] []]|] eqn:H; [|done].
  intros. simplify_eq. eapply DDMin_spec; [apply _|done].
Qed.

(** ** Properties *)

(** C3: On success [DDMin] returns a subsequence of its input that is the whole
    input or was accepted by the test, and it is 1-minimal: when at least two
    items are left, the test rejects every single item and every result of
    dropping one item. *)
Theorem DDMin_one_minimal (p : list string → bool) budget items c e
    (Hnd : NoDup items) (Hrun : ddmin_pure p budget items = Some (c, e, None)) :
  c `sublist_of` items ∧ (c = items ∨ p c = true) ∧ (items ≠ [] → c ≠ []) ∧
  (2 ≤ length c → ∀ x, x ∈ c → p [x] = false ∧ p (filter (λ y, y ≠ x) c) = false).
Proof.
  apply ddmin_pure_spec in Hrun as [_ Hsub Hne Hpass _ Hmin].
  split_and!; [done..|]. intros Hlen x Hx.
  destruct (Hmin eq_refl Hlen x Hx) as [Hsingle Hcompl]. split; [done|].
  rewrite subtract_NoDup in Hcompl by (by eapply sublist_NoDup).
  rewrite <-Hcompl. f_equal. apply list_filter_iff. set_solver.
Qed.

(** For a monotone test that accepts the whole input, the result of a
    successful run is accepted and globally minimal: no proper nonempty
    subsequence of it is accepted. *)
Theorem DDMin_minimal_if_monotone (p : list string → bool) budget items c e
    (Hnd : NoDup items) (Hmono : ∀ d1 d2, d1 ⊆ d2 → p d1 = true → p d2 = true)
    (Hall : p items = true) (Hrun : ddmin_pure p budget items = Some (c, e, None)) :
  p c = true ∧ ∀ d, d `sublist_of` c → d ≠ [] → d ≠ c → p d = false.
Proof.
  apply ddmin_pure_spec in Hrun as [_ Hsub _ Hpass _ Hmin].
  split; [by destruct Hpass as [->|]|]. intros d Hd Hdne Hdc.
  assert (NoDup c) as Hndc by (by eapply sublist_NoDup).
  destruct (sublist_proper_missing d c Hndc Hd Hdc) as (x & Hx & Hxd).
  assert (2 ≤ length c) as Hlen.
  { destruct d as [|y d]; [done|]. assert (y ∈ c) by (eapply elem_of_sublist; [|done]; set_solver).
    destruct c as [|z [|z' c]]; cbn; [set_solver| |lia]. set_solver. }
  destruct (Hmin eq_refl Hlen x Hx) as [_ Hcompl].
  rewrite subtract_NoDup in Hcompl by done.
  destruct (p d) eqn:Hpd; [|done]. exfalso.
  eapply Hmono in Hpd; [rewrite Hcompl in Hpd; done|].
  intros y Hy. apply list_elem_of_filter. split; [set_solver|]. by eapply elem_of_sublist.
Qed.

(** [DDMin] always terminates: the fuel of the model never runs out,
    whatever the test does to its state and whatever the budget. *)
Theorem DDMin_terminates {St} (test : list string → St → result bool * St) budget items s :
  ∃ c e err s', DDMin test budget items s = Some (c, e, err, s').
Proof. destruct (DDMin_total test budget items s) as [[[[??]?]?] ->]. eauto. Qed.

(** The number of tests never exceeds the budget, and the only error
    [DDMin] adds to those of the test is the exhaustion of exactly that
    budget. *)
Theorem DDMin_respects_budget {St} (test : list string → St → result bool * St)
    budget items s c e err s'
    (Hrun : DDMin test budget items s = Some (c, e, err, s')) :
  (Z.of_nat e ≤ Z.max 0 budget)%Z ∧
  ∀ er, err = Some er →
    (er = budget_exhausted ∧ Z.of_nat e = Z.max 0 budget) ∨
    ∃ d s0, test d s0 = (Err er, s').
Proof.
  pose proof (DDMin_spec test budget _ _ (TestLogic0 := trivial_logic test) _ _ _ _ _ _ Hrun)
    as [[_ _ _ Hb] _ _ _ Herr _].
  split; [destruct Hb as [->|]; lia|]. intros er Her.
  destruct (Herr er Her) as [[-> Hge]|Htest]; [left; split; [done|]|by right].
  destruct Hb as [->|]; lia.
Qed.

(** ** Witnesses *)

Definition needs_b_and_d (c : list string) : bool := bool_decide ("b" ∈ c ∧ "d" ∈ c).

Lemma needs_b_and_d_mono d1 d2 :
  d1 ⊆ d2 → needs_b_and_d d1 = true → needs_b_and_d d2 = true.
Proof. unfold needs_b_and_d. rewrite !bool_decide_eq_true. set_solver. Qed.

Lemma DDMin_one_minimal_witness :
  ∃ c e, c `sublist_of` ["a"; "b"; "c"; "d"] ∧ (c = ["a"; "b"; "c"; "d"] ∨ needs_b_and_d c = true) ∧
    (["a"; "b"; "c"; "d"] ≠ [] → c ≠ []) ∧
    (2 ≤ length c → ∀ x, x ∈ c →
      needs_b_and_d [x] = false ∧ needs_b_and_d (filter (λ y, y ≠ x) c) = false) ∧ e = 18.
Proof.
  exists ["b"; "d"], 18.
  pose proof (DDMin_one_minimal needs_b_and_d 100 ["a"; "b"; "c"; "d"] ["b"; "d"] 18
    ltac:(by apply (bool_decide_unpack _); vm_compute) ltac:(vm_compute; reflexivity)) as (?&?&?&?).
  auto 10.
Defined.

Lemma DDMin_minimal_if_monotone_witness :
  needs_b_and_d ["b"; "d"] = true ∧
  ∀ d, d `sublist_of` ["b"; "d"] → d ≠ [] → d ≠ ["b"; "d"] → needs_b_and_d d = false.
Proof.
  apply (DDMin_minimal_if_monotone needs_b_and_d 100 ["a"; "b"; "c"; "d"] ["b"; "d"] 18).
  - by apply (bool_decide_unpack _); vm_compute.
  - apply needs_b_and_d_mono.
  - reflexivity.
  - vm_compute; reflexivity.
Defined.

Lemma DDMin_respects_budget_witness :
  (Z.of_nat 3 ≤ Z.max 0 3)%Z ∧
  ∀ er, Some budget_exhausted = Some er →
    (er = budget_exhausted ∧ Z.of_nat 3 = Z.max 0 3) ∨
    ∃ d s0, pure_test needs_b_and_d d s0 = (Err er, tt).
Proof.
  apply (DDMin_respects_budget (pure_test needs_b_and_d) 3
    ["a"; "b"; "c"; "d"] tt ["a"; "b"; "c"; "d"] 3 (Some budget_exhausted) tt).
  vm_compute; reflexivity.
Defined.
