(* ===== verification/Compare.v ===== *)
(** * Compare: candidate factors of two captures

    Models [src/internal/experiment/compare.go].  The two [range] loops over
    the sorted union of keys become folds that append to the factors and to
    the evidence boundaries; sorting, truncation to [maxFactors] and the
    de-duplication of boundaries follow as in the code. *)

From S2P Require Import Prelude Sha256 Model.

(** ** Definitions *)

Definition secretKey (captureValue : Capture) (key : string) : bool :=
  existsb (λ evidence, bool_decide (Secret_Name evidence = key))
    (Capture_SecretEvidence captureValue).

(** [sortedKeys] is [sorted_keys]; the maps of the code hold [true]. *)
Definition key_set {A} (m : gmap string A) : gmap string bool := (λ _, true) <$> m.

Definition uniqueSorted (values : list string) : list string :=
  sorted_keys (foldl (λ (set : gmap string bool) value,
    if bool_decide (value = "") then set else <[value := true]> set) ∅ values).

Definition Environment_of (c : Capture) : gmap string string :=
  CommandSpec_Environment (Capture_Command c).

Definition EnvFactor (good bad : Capture) (key : string) : Factor :=
  let goodValue := Environment_of good !! key in
  let badValue := Environment_of bad !! key in
  mkFactor (FactorID "env" key) FactorEnvironment key
    (bool_decide (is_Some goodValue)) (bool_decide (is_Some badValue))
    (default "" goodValue) (default "" badValue) zero_entry zero_entry true.

Definition env_boundary (key : string) : string :=
  "secret environment variable " +:+ key +:+ " differs but is not eligible for intervention".

(** Body of the loop over environment names *)
Definition compare_env (good bad : Capture) (acc : list Factor * list string) (key : string)
    : list Factor * list string :=
  let '(factors, boundaries) := acc in
  let goodValue := default "" (Environment_of good !! key) in
  let goodExists := bool_decide (is_Some (Environment_of good !! key)) in
  let badValue := default "" (Environment_of bad !! key) in
  let badExists := bool_decide (is_Some (Environment_of bad !! key)) in
  if bool_decide (goodValue = badValue) && bool_decide (goodExists = badExists)
  then (factors, boundaries)
  else if IsRedactedValue goodValue || IsRedactedValue badValue ||
          secretKey good key || secretKey bad key
  then (factors, boundaries ++ [env_boundary key])
  else (factors ++ [EnvFactor good bad key], boundaries).

Definition WorkspaceFactor (goodEntries badEntries : gmap string WorkspaceEntry) (path : string)
    : Factor :=
  let goodEntry := goodEntries !! path in
  let badEntry := badEntries !! path in
  mkFactor (FactorID "workspace" path) FactorWorkspace path
    (bool_decide (is_Some goodEntry)) (bool_decide (is_Some badEntry)) "" ""
    (default zero_entry goodEntry) (default zero_entry badEntry) true.

Definition workspace_boundary (path : string) : string :=
  "unsupported workspace entry differs: " +:+ path.

(** Body of the loop over workspace paths *)
Definition compare_entry (goodEntries badEntries : gmap string WorkspaceEntry)
    (acc : list Factor * list string) (path : string) : list Factor * list string :=
  let '(factors, boundaries) := acc in
  let goodEntry := default zero_entry (goodEntries !! path) in
  let goodExists := bool_decide (is_Some (goodEntries !! path)) in
  let badEntry := default zero_entry (badEntries !! path) in
  let badExists := bool_decide (is_Some (badEntries !! path)) in
  if goodExists && badExists && Entry_Equal goodEntry badEntry then (factors, boundaries)
  else if (goodExists && negb (Entry_Supported goodEntry)) ||
          (badExists && negb (Entry_Supported badEntry))
  then (factors, boundaries ++ [workspace_boundary path])
  else (factors ++ [WorkspaceFactor goodEntries badEntries path], boundaries).

Definition host_boundary : string :=
  "host, mount, resource, or kernel evidence differs and is not an automatic causal factor in 1.0".
Definition consulted_boundary : string :=
  "consulted-path capture is incomplete; candidate scope is bounded to environment and workspace".
Definition limit_boundary (maxFactors : Z) (found : nat) : string :=
  "factor limit reached: " +:+ show_Z maxFactors +:+ " of " +:+ show_nat found +:+ " retained".

(** The state of the function before the final [sort.Slice] *)
Definition compare_loops (good bad : Capture) : list Factor * list string :=
  let keys := sorted_keys (key_set (Environment_of good) ∪ key_set (Environment_of bad)) in
  let acc := foldl (compare_env good bad) ([], []) keys in
  let goodEntries := EntryMap (Capture_Workspace good) in
  let badEntries := EntryMap (Capture_Workspace bad) in
  let paths := sorted_keys (key_set goodEntries ∪ key_set badEntries) in
  let '(factors, boundaries) := foldl (compare_entry goodEntries badEntries) acc paths in
  let boundaries :=
    if bool_decide (Host_Digest (Capture_Host good) = Host_Digest (Capture_Host bad))
    then boundaries else boundaries ++ [host_boundary] in
  let boundaries :=
    if bool_decide (length (Capture_ConsultedPaths good) = 0) ||
       bool_decide (length (Capture_ConsultedPaths bad) = 0)
    then boundaries ++ [consulted_boundary] else boundaries in
  (factors, boundaries).

Definition Compare (good bad : Capture) (maxFactors : Z) : list Factor * list string :=
  let '(factors, boundaries) := compare_loops good bad in
  let factors := sort_factors factors in
  if bool_decide (0 < maxFactors)%Z && bool_decide (maxFactors < Z.of_nat (length factors))%Z
  then (take (Z.to_nat maxFactors) factors,
        uniqueSorted (boundaries ++ [limit_boundary maxFactors (length factors)]))
  else (factors, uniqueSorted boundaries).

(** ** What the comparison is about *)

(** An environment name whose presence or value differs and is public *)
Definition env_secret (good bad : Capture) (key : string) : Prop :=
  IsRedactedValue (default "" (Environment_of good !! key)) = true ∨
  IsRedactedValue (default "" (Environment_of bad !! key)) = true ∨
  secretKey good key = true ∨ secretKey bad key = true.

Definition env_differs (good bad : Capture) (key : string) : Prop :=
  Environment_of good !! key ≠ Environment_of bad !! key.

(** Two optional entries differ unless both are there and [Equal]. *)
Definition entry_differs (g b : option WorkspaceEntry) : Prop :=
  match g, b with
  | None, None => False
  | Some g, Some b => Entry_Equal g b = false
  | _, _ => True
  end.

Definition entry_supported (o : option WorkspaceEntry) : Prop :=
  match o with None => True | Some e => Entry_Supported e = true end.

#[export] Instance entry_supported_dec o : Decision (entry_supported o).
Proof. destruct o; cbn; apply _. Defined.

Definition good_entry (good : Capture) (path : string) : option WorkspaceEntry :=
  EntryMap (Capture_Workspace good) !! path.

(** The factor of a public environment difference or of a supported
    workspace difference *)
Definition real_factor (good bad : Capture) (f : Factor) : Prop :=
  (∃ key, f = EnvFactor good bad key ∧ env_differs good bad key ∧ ¬ env_secret good bad key) ∨
  (∃ path, f = WorkspaceFactor (EntryMap (Capture_Workspace good))
                 (EntryMap (Capture_Workspace bad)) path ∧
     entry_differs (good_entry good path) (good_entry bad path) ∧
     entry_supported (good_entry good path) ∧ entry_supported (good_entry bad path)).

(** ** Lemmas *)

Lemma elem_of_union_keys {A} (g b : gmap string A) k :
  k ∈ sorted_keys (key_set g ∪ key_set b) ↔ is_Some (g !! k) ∨ is_Some (b !! k).
Proof.
  rewrite elem_of_sorted_keys, lookup_union_is_Some. unfold key_set.
  by rewrite !lookup_fmap, !fmap_is_Some.
Qed.

Lemma uniqueSorted_elem values v : v ∈ uniqueSorted values ↔ v ∈ values ∧ v ≠ "".
Proof.
  unfold uniqueSorted. rewrite elem_of_sorted_keys.
  enough (∀ m : gmap string bool, is_Some (foldl (λ (set : gmap string bool) value,
      if bool_decide (value = "") then set else <[value := true]> set) m values !! v) ↔
    is_Some (m !! v) ∨ (v ∈ values ∧ v ≠ "")) as ->.
  { rewrite lookup_empty. split; [by intros [[??]|]|by right]. }
  induction values as [|w values IH]; intros m; cbn; [set_solver|].
  rewrite IH, elem_of_cons. case_bool_decide as Hw; [naive_solver|].
  rewrite lookup_insert_is_Some'. naive_solver.
Qed.

Lemma uniqueSorted_NoDup values : NoDup (uniqueSorted values).
Proof. apply NoDup_sorted_keys. Qed.

Lemma same_lookup_iff (g b : option string) :
  bool_decide (default "" g = default "" b) && bool_decide (bool_decide (is_Some g) = bool_decide (is_Some b)) = true
  ↔ g = b.
Proof.
  rewrite andb_true_iff, !bool_decide_eq_true. split; [|by intros ->].
  destruct g as [x|], b as [y|]; cbn; intros [? Hex]; try congruence.
Qed.

Lemma env_secret_iff good bad key :
  IsRedactedValue (default "" (Environment_of good !! key)) ||
  IsRedactedValue (default "" (Environment_of bad !! key)) ||
  secretKey good key || secretKey bad key = true ↔ env_secret good bad key.
Proof. unfold env_secret. rewrite !orb_true_iff. tauto. Qed.

Lemma fold_env good bad keys : ∀ fs bs,
  let '(fs', bs') := foldl (compare_env good bad) (fs, bs) keys in
  collected fs keys (EnvFactor good bad)
    (λ k, env_differs good bad k ∧ ¬ env_secret good bad k) fs' ∧
  collected bs keys env_boundary (λ k, env_differs good bad k ∧ env_secret good bad k) bs'.
Proof.
  induction keys as [|k keys IH]; intros fs bs; cbn [foldl]; [split; apply collected_nil|].
  unfold compare_env at 2.
  destruct (_ && _) eqn:Hsame.
  - apply same_lookup_iff in Hsame. specialize (IH fs bs).
    destruct (foldl _ _ keys) as [fs' bs']. destruct IH as [IHf IHb].
    split; (apply collected_skip; [|done]); by intros [Hd _].
  - assert (env_differs good bad k) as Hd.
    { intros Heq. apply not_true_iff_false in Hsame. by apply Hsame, same_lookup_iff. }
    destruct (_ || _) eqn:Hsec.
    + apply env_secret_iff in Hsec. specialize (IH fs (bs ++ [env_boundary k])).
      destruct (foldl _ _ keys) as [fs' bs']. destruct IH as [IHf IHb].
      split; [apply collected_skip; [|done]; tauto|by apply collected_take].
    + apply not_true_iff_false in Hsec. rewrite env_secret_iff in Hsec.
      specialize (IH (fs ++ [EnvFactor good bad k]) bs).
      destruct (foldl _ _ keys) as [fs' bs']. destruct IH as [IHf IHb].
      split; [by apply collected_take|apply collected_skip; [|done]; tauto].
Qed.

Lemma entry_same_iff (g b : option WorkspaceEntry) : is_Some g ∨ is_Some b →
  bool_decide (is_Some g) && bool_decide (is_Some b) &&
    Entry_Equal (default zero_entry g) (default zero_entry b) = false ↔ entry_differs g b.
Proof. destruct g, b; cbn; intros [[??]|[??]]; try done. Qed.

Lemma entry_unsupported_iff (g b : option WorkspaceEntry) :
  (bool_decide (is_Some g) && negb (Entry_Supported (default zero_entry g))) ||
  (bool_decide (is_Some b) && negb (Entry_Supported (default zero_entry b))) = false ↔
  entry_supported g ∧ entry_supported b.
Proof.
  rewrite orb_false_iff. destruct g as [g|], b as [b|]; cbn;
    rewrite ?negb_false_iff; tauto.
Qed.

Lemma fold_entries (ge be : gmap string WorkspaceEntry) paths : ∀ fs bs,
  (∀ p, p ∈ paths → is_Some (ge !! p) ∨ is_Some (be !! p)) →
  let '(fs', bs') := foldl (compare_entry ge be) (fs, bs) paths in
  collected fs paths (WorkspaceFactor ge be) (λ p, entry_differs (ge !! p) (be !! p) ∧
    entry_supported (ge !! p) ∧ entry_supported (be !! p)) fs' ∧
  collected bs paths workspace_boundary (λ p, entry_differs (ge !! p) (be !! p) ∧
     ¬ (entry_supported (ge !! p) ∧ entry_supported (be !! p))) bs'.
Proof.
  induction paths as [|p paths IH]; intros fs bs Hin; cbn [foldl]; [split; apply collected_nil|].
  unfold compare_entry at 2.
  pose proof (entry_same_iff (ge !! p) (be !! p) (Hin p ltac:(by left))) as Hsame.
  pose proof (entry_unsupported_iff (ge !! p) (be !! p)) as Hsup.
  assert (∀ q, q ∈ paths → is_Some (ge !! q) ∨ is_Some (be !! q)) as Hin'
    by (intros q Hq; apply Hin; by right).
  revert Hsame Hsup. destruct (_ && _); intros Hsame Hsup.
  - assert (¬ entry_differs (ge !! p) (be !! p)) as Hnd by (by rewrite <-Hsame).
    specialize (IH fs bs Hin'). destruct (foldl _ _ paths) as [fs' bs']. destruct IH as [IHf IHb].
    split; (apply collected_skip; [tauto|done]).
  - pose proof (proj1 Hsame eq_refl) as Hd. revert Hsup. destruct (_ || _); intros Hsup.
    + assert (¬ (entry_supported (ge !! p) ∧ entry_supported (be !! p))) as Hns by (by rewrite <-Hsup).
      specialize (IH fs (bs ++ [workspace_boundary p]) Hin').
      destruct (foldl _ _ paths) as [fs' bs']. destruct IH as [IHf IHb].
      split; [apply collected_skip; [tauto|done]|by apply collected_take].
    + pose proof (proj1 Hsup eq_refl) as Hs. specialize (IH (fs ++ [WorkspaceFactor ge be p]) bs Hin').
      destruct (foldl _ _ paths) as [fs' bs']. destruct IH as [IHf IHb].
      split; [by apply collected_take|apply collected_skip; [tauto|done]].
Qed.

(** The workspace and environment cases of a difference left out of the
    factors, with the boundary that reports it *)
Definition reported_boundary (good bad : Capture) (b : string) : Prop :=
  (∃ key, b = env_boundary key ∧ env_differs good bad key ∧ env_secret good bad key) ∨
  (∃ path, b = workspace_boundary path ∧
     entry_differs (good_entry good path) (good_entry bad path) ∧
     ¬ (entry_supported (good_entry good path) ∧ entry_supported (good_entry bad path))).

Lemma entry_differs_some g b : entry_differs g b → is_Some g ∨ is_Some b.
Proof. destruct g, b; cbn; eauto. done. Qed.

Lemma compare_loops_spec good bad :
  (∀ f, f ∈ (compare_loops good bad).1 ↔ real_factor good bad f) ∧
  (∀ b, reported_boundary good bad b → b ∈ (compare_loops good bad).2).
Proof.
  unfold compare_loops.
  set (keys := sorted_keys (key_set (Environment_of good) ∪ key_set (Environment_of bad))).
  pose proof (fold_env good bad keys [] []) as Henv.
  destruct (foldl (compare_env good bad) ([], []) keys) as [fs bs].
  destruct Henv as [Hfs Hbs].
  set (ge := EntryMap (Capture_Workspace good)). set (be := EntryMap (Capture_Workspace bad)).
  set (paths := sorted_keys (key_set ge ∪ key_set be)).
  pose proof (fold_entries ge be paths fs bs ltac:(intros p; apply elem_of_union_keys)) as Hent.
  destruct (foldl (compare_entry ge be) (fs, bs) paths) as [fs' bs'].
  destruct Hent as [Hfs' Hbs'].
  assert (∀ k, env_differs good bad k → k ∈ keys) as Hkeys.
  { intros k Hk. apply elem_of_union_keys. unfold env_differs in Hk.
    destruct (Environment_of good !! k), (Environment_of bad !! k); eauto. done. }
  assert (∀ p, entry_differs (ge !! p) (be !! p) → p ∈ paths) as Hpaths.
  { intros p Hp. apply elem_of_union_keys. by apply entry_differs_some. }
  split; cbn [fst snd].
  - intros f. rewrite (Hfs' f), (Hfs f), elem_of_nil. unfold real_factor, good_entry. fold ge be.
    naive_solver.
  - intros b Hb. assert (b ∈ bs') as Hin.
    { rewrite (Hbs' b), (Hbs b), elem_of_nil. unfold reported_boundary, good_entry in Hb.
      fold ge be in Hb. naive_solver. }
    repeat case_match; rewrite ?elem_of_app; auto 10.
Qed.

Lemma Compare_factors good bad maxFactors :
  let all := sort_factors (compare_loops good bad).1 in
  (Compare good bad maxFactors).1 =
    (if bool_decide (0 < maxFactors)%Z then take (Z.to_nat maxFactors) all else all).
Proof.
  unfold Compare. destruct (compare_loops good bad) as [fs bs]; cbn.
  case_bool_decide as Hm; [|done]. case_bool_decide as Hl; cbn; [done|].
  symmetry. apply take_ge. lia.
Qed.

Lemma env_boundary_nonempty k : env_boundary k ≠ "".
Proof. by unfold env_boundary. Qed.
Lemma workspace_boundary_nonempty p : workspace_boundary p ≠ "".
Proof. by unfold workspace_boundary. Qed.

Lemma Compare_boundaries good bad maxFactors b :
  reported_boundary good bad b → b ∈ (Compare good bad maxFactors).2.
Proof.
  intros Hb. assert (b ≠ "") as Hne.
  { destruct Hb as [(k & -> & _)|(p & -> & _)];
      [apply env_boundary_nonempty|apply workspace_boundary_nonempty]. }
  apply compare_loops_spec in Hb. unfold Compare.
  destruct (compare_loops good bad) as [fs bs]; cbn in *.
  destruct (_ && _); cbn; apply uniqueSorted_elem; set_solver.
Qed.

(** ** Properties *)

(** Every factor that [Compare] returns is a difference that can be
    intervened on: a public environment variable whose presence or value
    differs, or a workspace path whose entries differ and are both supported.
    A redacted value or a name with secret evidence never becomes a factor. *)
Theorem Compare_sound good bad maxFactors f
    (Hf : f ∈ (Compare good bad maxFactors).1) :
  real_factor good bad f ∧ Factor_Intervenable f = true.
Proof.
  rewrite Compare_factors in Hf.
  assert (f ∈ (compare_loops good bad).1) as Hin.
  { case_bool_decide; [apply elem_of_take in Hf as (i & Hi%list_elem_of_lookup_2 & _)|];
      by eapply elem_of_sort_by. }
  apply compare_loops_spec in Hin. split; [done|].
  by destruct Hin as [(?&->&?)|(?&->&?)].
Qed.

(** C36: No difference is dropped silently.  A difference of the environment or
    of the workspace is either one of the factors, or reported as a boundary
    because it is secret or unsupported, or cut off by the factor limit, which
    is then reported too. *)
Theorem Compare_complete good bad maxFactors :
  (∀ f, real_factor good bad f → f ∈ (Compare good bad maxFactors).1 ∨
     (Z.of_nat (length (Compare good bad maxFactors).1) = maxFactors ∧
      ∃ n, Z.of_nat n > maxFactors ∧ limit_boundary maxFactors n ∈ (Compare good bad maxFactors).2)%Z) ∧
  (∀ key, env_differs good bad key → real_factor good bad (EnvFactor good bad key) ∨
     env_boundary key ∈ (Compare good bad maxFactors).2) ∧
  (∀ path, entry_differs (good_entry good path) (good_entry bad path) →
     real_factor good bad (WorkspaceFactor (EntryMap (Capture_Workspace good))
       (EntryMap (Capture_Workspace bad)) path) ∨
     workspace_boundary path ∈ (Compare good bad maxFactors).2).
Proof.
  split_and!.
  - intros f Hf. apply compare_loops_spec in Hf. unfold Compare.
    destruct (compare_loops good bad) as [fs bs]; cbn in *.
    destruct (_ && _) eqn:Hlim; cbn; [|left; by apply elem_of_sort_by].
    apply andb_prop in Hlim as [Hm%bool_decide_eq_true Hl%bool_decide_eq_true].
    right. rewrite length_take. split; [lia|].
    exists (length (sort_factors fs)). split; [lia|].
    apply uniqueSorted_elem. split; [set_solver|done].
  - intros key Hd.
    destruct (decide (IsRedactedValue (default "" (Environment_of good !! key)) ||
      IsRedactedValue (default "" (Environment_of bad !! key)) ||
      secretKey good key || secretKey bad key = true)) as [Hs|Hs]; rewrite env_secret_iff in Hs.
    + right. apply Compare_boundaries. left. eauto.
    + left. left. eauto.
  - intros path Hd. unfold good_entry in *.
    destruct (decide (entry_supported (EntryMap (Capture_Workspace good) !! path) ∧
      entry_supported (EntryMap (Capture_Workspace bad) !! path))) as [[]|Hs].
    + left. right. eauto.
    + right. apply Compare_boundaries. right. eauto.
Qed.

(** The factors come out sorted by identifier and at most [maxFactors] of
    them when that limit is positive; the boundaries come out without
    repetition; and a capture compared with itself has no factor. *)
Theorem Compare_canonical good bad maxFactors :
  StronglySorted (key_le Factor_ID) (Compare good bad maxFactors).1 ∧
  ((0 < maxFactors)%Z → (Z.of_nat (length (Compare good bad maxFactors).1) ≤ maxFactors)%Z) ∧
  NoDup (Compare good bad maxFactors).2 ∧
  (Compare good good maxFactors).1 = [].
Proof.
  split_and!.
  - rewrite Compare_factors. pose proof (sort_by_sorted Factor_ID (compare_loops good bad).1) as Hs.
    case_bool_decide; [|done].
    rewrite <-(take_drop (Z.to_nat maxFactors) (sort_by _ _)) in Hs.
    by eapply StronglySorted_app_1_l.
  - intros Hm. rewrite Compare_factors, bool_decide_eq_true_2 by done.
    rewrite length_take. lia.
  - unfold Compare. destruct (compare_loops good bad). destruct (_ && _); apply uniqueSorted_NoDup.
  - rewrite Compare_factors. enough ((compare_loops good good).1 = []) as ->.
    { case_bool_decide; [apply take_nil|done]. }
    apply elem_of_nil_inv. intros f Hf. apply compare_loops_spec in Hf.
    destruct Hf as [(k & _ & Hd & _)|(p & _ & Hd & _)]; [done|].
    destruct (good_entry good p) as [e|]; cbn in Hd; [|done].
    assert (Entry_Equal e e = true) by (apply Entry_Equal_iff; by destruct e). congruence.
Qed.

(** ** A pair of captures for the witnesses *)

Definition simple_capture (id : string) (arguments : list string) (env : gmap string string)
    (entries : list WorkspaceEntry) : Capture :=
  mkCapture 3 id 1 1 1 "" "/work" (mkCommandSpec arguments "/work" env 1000)
    (mkOracle "exit" (Some 0%Z) "" "" "") zero_process_result zero_oracle_result
    zero_manifest (mkWorkspaceManifest "/work" entries 0 0 "") zero_host [] [] [] [].

Definition file_entry (path digest : string) : WorkspaceEntry :=
  mkWorkspaceEntry path "file" 420 5 digest digest "".

Definition sample_good : Capture :=
  simple_capture "cap_good" ["./check.sh"] {["MODE" := "fast"]} [file_entry "config.txt" "aa"].
Definition sample_bad : Capture :=
  simple_capture "cap_bad" ["./check.sh"] {["MODE" := "fast"]} [file_entry "config.txt" "bb"].

Definition sample_factor : Factor :=
  WorkspaceFactor (EntryMap (Capture_Workspace sample_good))
    (EntryMap (Capture_Workspace sample_bad)) "config.txt".

Lemma Compare_sound_witness :
  real_factor sample_good sample_bad sample_factor ∧ Factor_Intervenable sample_factor = true.
Proof.
  apply (Compare_sound sample_good sample_bad 512).
  apply (bool_decide_unpack _). vm_compute. reflexivity.
Defined.
