(* ===== verification/AuditLog.v ===== *)
(** * AuditLog: the hash-chained audit log of the local store

    Models [src/internal/store/audit.go].  The log file ([None] when it does
    not exist) is the list of its terminated lines and the text after the last
    newline; a line is the JSON text of an event.  [append_audit] is the whole
    of [appendAuditLocked], with the possible failures of the file operations,
    a write that is cut short included, as an argument. *)

From stdpp Require Import countable.
From S2P Require Import Prelude Sha256 Model Json.

(** ** Definitions *)

Record audit_text := mkAuditText {
  text_lines : list string;      (** without their newlines *)
  text_tail : string;            (** what follows the last newline *)
}.
Abbreviation audit_file := (option audit_text) (only parsing).

(** The tokens of [bufio.ScanLines]: the last line need not be terminated.
    (The JSON texts hold no newline and end in no carriage return.) *)
Definition scan_text (t : audit_text) : list string :=
  text_lines t ++ (if bool_decide (text_tail t = "") then [] else [text_tail t]).
Definition file_lines (file : audit_file) : list string :=
  match file with None => [] | Some t => scan_text t end.
Definition terminated (file : audit_file) : bool :=
  match file with None => true | Some t => bool_decide (text_tail t = "") end.

(** Writing a line and its newline at the end, and only the first [n] bytes of
    the line *)
Definition content (file : audit_file) : audit_text := default (mkAuditText [] "") file.
Definition write_line (file : audit_file) (line : string) : audit_file :=
  let t := content file in Some (mkAuditText (text_lines t ++ [text_tail t +:+ line]) "").
Definition write_part (file : audit_file) (line : string) (n : nat) : audit_file :=
  let t := content file in Some (mkAuditText (text_lines t) (text_tail t +:+ string_take n line)).

(** [scanner.Buffer(make([]byte, 64*1024), 4<<20)]: a longer token stops the
    scan with [bufio.ErrTooLong]. *)
Definition max_line : Z := 4 * 2 ^ 20.
Definition line_fits (line : string) : bool := bool_decide (Z.of_nat (String.length line) < max_line)%Z.
Definition ErrTooLong : error := ErrMsg "bufio.Scanner: token too long".

Definition with_hash (e : AuditEvent) (hash : string) : AuditEvent :=
  mkAuditEvent (Audit_Version e) (Audit_Sequence e) (Audit_Timestamp e) (Audit_Actor e)
    (Audit_Action e) (Audit_EntityType e) (Audit_EntityID e) (Audit_RequestID e)
    (Audit_Details e) (Audit_PreviousHash e) hash.

(** How the file operations of an append end: success, a failure before
    anything is written, a write that fails after [n] bytes, which may be the
    whole line but not its newline, or a failed [Sync] or [Close] after the
    write. *)
Inductive audit_fault :=
  | NoFault
  | FaultBeforeWrite (err : error)
  | FaultShortWrite (n : nat) (err : error)
  | FaultAfterWrite (err : error).

Section audit.
Context `{!Json AuditEvent}.

Definition auditHash (event : AuditEvent) : string :=
  sha256_hex (json_marshal (with_hash event "")).

(** The scan of [lastAudit].  The code decodes every line into the same
    variable; the two fields it uses are present in every encoded event. *)
Fixpoint last_audit_loop (lines : list string) (hash : string) (sequence : Z) : result (string * Z) :=
  match lines with
  | [] => Ok (hash, sequence)
  | line :: lines =>
      fail? negb (line_fits line) with ErrTooLong in
      match json_decode line with
      | Err err => Err err
      | Ok last => last_audit_loop lines (Audit_Hash last) (Audit_Sequence last)
      end
  end.

Definition lastAudit (file : audit_file) : result (string * Z) :=
  match file with
  | None => Ok ("", 0%Z)
  | Some t => last_audit_loop (scan_text t) "" 0
  end.

Definition new_event (now : time) (actor action entityType entityID requestID : string)
    (details : gmap string json_scalar) (previous : string) (sequence : Z) : AuditEvent :=
  let event := mkAuditEvent 1 (wrap_uint64 (sequence + 1)) now actor action entityType entityID
                 requestID details previous "" in
  with_hash event (auditHash event).

Definition append_audit (file : audit_file) (fault : audit_fault) (now : time)
    (actor action entityType entityID requestID : string)
    (details : gmap string json_scalar) : audit_file * result unit :=
  match lastAudit file with
  | Err err => (file, Err err)
  | Ok (previous, sequence) =>
      let event := new_event now actor action entityType entityID requestID details
                     previous sequence in
      let line := json_encode event in
      match fault with
      | FaultBeforeWrite err => (file, Err err)
      | FaultShortWrite n err => (write_part file line n, Err err)
      | FaultAfterWrite err => (write_line file line, Err err)
      | NoFault => (write_line file line, Ok tt)
      end
  end.

(** [AppendAudit]: the entry point for the local actor *)
Definition AppendAudit (file : audit_file) (fault : audit_fault) (now : time)
    (action entityType entityID : string) (details : gmap string json_scalar) :
    audit_file * result unit :=
  append_audit file fault now "local" action entityType entityID "" details.

Definition invalid (sequence : Z) (message : string) : AuditVerification :=
  mkAuditVerification false sequence message.

Fixpoint verify_loop (lines : list string) (previous : string) (sequence : Z)
    : result AuditVerification :=
  match lines with
  | [] => Ok (mkAuditVerification true sequence "")
  | line :: lines =>
      fail? negb (line_fits line) with ErrTooLong in
      match json_decode line with
      | Err err => Ok (invalid sequence (error_text err))
      | Ok event =>
          if negb (bool_decide (Audit_Sequence event = wrap_uint64 (sequence + 1))) ||
             negb (bool_decide (Audit_PreviousHash event = previous))
          then Ok (invalid sequence "sequence or previous hash mismatch")
          else if negb (bool_decide (auditHash event = Audit_Hash event))
          then Ok (invalid sequence "event hash mismatch")
          else verify_loop lines (Audit_Hash event) (Audit_Sequence event)
      end
  end.

Definition VerifyAudit (file : audit_file) : result AuditVerification :=
  match file with
  | None => Ok (mkAuditVerification true 0 "")
  | Some t => verify_loop (scan_text t) "" 0
  end.

(** ** The abstract log: a chain of events *)

(** [chain prev seq es prev' seq']: the events [es] continue a chain whose
    head is [prev], [seq] and end at the head [prev'], [seq']. *)
Inductive chain : string → Z → list AuditEvent → string → Z → Prop :=
  | chain_nil prev seq : chain prev seq [] prev seq
  | chain_cons prev seq e es prev' seq' :
      Audit_Sequence e = wrap_uint64 (seq + 1) → Audit_PreviousHash e = prev →
      Audit_Hash e = auditHash e → chain (Audit_Hash e) (Audit_Sequence e) es prev' seq' →
      chain prev seq (e :: es) prev' seq'.

(** The lines of a file are the events [es]. *)
Definition reads (lines : list string) (es : list AuditEvent) : Prop :=
  Forall2 (λ line e, line_fits line = true ∧ json_decode line = Ok e) lines es.

Definition valid_log (file : audit_file) (es : list AuditEvent) (hash : string) (seq : Z) : Prop :=
  reads (file_lines file) es ∧ chain "" 0 es hash seq.

(** ** Lemmas *)

Lemma chain_app prev seq es1 es2 p2 s2 :
  chain prev seq (es1 ++ es2) p2 s2 ↔
  ∃ p1 s1, chain prev seq es1 p1 s1 ∧ chain p1 s1 es2 p2 s2.
Proof.
  revert prev seq. induction es1 as [|e es1 IH]; intros prev seq; cbn; split.
  - intros. eauto using chain.
  - intros (p1 & s1 & H & ?). by inv H.
  - intros H. inv H. destruct (proj1 (IH _ _) ltac:(eassumption)) as (p1 & s1 & ? & ?).
    exists p1, s1. eauto using chain.
  - intros (p1 & s1 & H & ?). inv H. constructor; [done..|]. apply IH. eauto.
Qed.

Lemma reads_cons line lines es e :
  json_decode line = Ok e → reads (line :: lines) es →
  line_fits line = true ∧ ∃ es', es = e :: es' ∧ reads lines es'.
Proof.
  intros Hdec Hr. unfold reads in Hr. inv Hr. destruct_and!.
  split; [done|]. eexists. split; [f_equal; congruence|done].
Qed.

Lemma verify_loop_valid lines : ∀ prev seq n,
  verify_loop lines prev seq = Ok (mkAuditVerification true n "") ↔
  ∃ es hash, reads lines es ∧ chain prev seq es hash n.
Proof.
  induction lines as [|line lines IH]; intros prev seq n; cbn.
  { split.
    - intros [=->]. exists [], prev. split; constructor.
    - intros (es & hash & Hr & Hc). inv Hr. by inv Hc. }
  destruct (line_fits line) eqn:Hfit; cbn; last first.
  { split; [done|]. intros (es & ? & Hr & _). inv Hr. destruct_and!. congruence. }
  destruct (json_decode line) as [e|err] eqn:Hdec; last first.
  { split; [done|]. intros (es & ? & Hr & _). inv Hr. destruct_and!. congruence. }
  destruct (_ || _) eqn:Hlink;
    [|destruct (bool_decide (auditHash e = Audit_Hash e)) eqn:Hhash; cbn [negb]].
  - split; [done|]. intros (es & ? & Hr & Hc). apply (reads_cons _ _ _ e) in Hr as (_ & es' & -> & Hr); [|done].
    inv Hc. rewrite !bool_decide_eq_true_2 in Hlink by done. done.
  - apply orb_false_iff in Hlink as [Hs%negb_false_iff%bool_decide_eq_true
      Hp%negb_false_iff%bool_decide_eq_true].
    apply bool_decide_eq_true in Hhash. rewrite IH. split.
    + intros (es & h & Hr & Hc). exists (e :: es), h. split; [by constructor|by constructor].
    + intros (es & h & Hr & Hc). apply (reads_cons _ _ _ e) in Hr as (_ & es' & -> & Hr); [|done].
      inv Hc. eauto.
  - split; [done|]. intros (es & ? & Hr & Hc). apply (reads_cons _ _ _ e) in Hr as (_ & es' & -> & Hr); [|done].
    inv Hc. rewrite bool_decide_eq_true_2 in Hhash by done. done.
Qed.

Lemma VerifyAudit_valid file n :
  VerifyAudit file = Ok (mkAuditVerification true n "") ↔
  ∃ es hash, valid_log file es hash n.
Proof.
  unfold valid_log. destruct file as [t|]; cbn; [apply verify_loop_valid|].
  split.
  - intros [=<-]. exists [], "". repeat constructor.
  - intros (es & h & Hr & Hc). inv Hr. by inv Hc.
Qed.

Lemma last_audit_loop_chain lines es : ∀ prev seq hash n,
  reads lines es → chain prev seq es hash n → last_audit_loop lines prev seq = Ok (hash, n).
Proof.
  intros prev seq hash n Hr. revert prev seq.
  induction Hr as [|line e lines es [Hfit Hdec] _ IH]; intros prev seq Hc; inv Hc; cbn; [done|].
  rewrite Hfit, Hdec. cbn. by apply IH.
Qed.

Lemma lastAudit_valid file es hash n :
  valid_log file es hash n → lastAudit file = Ok (hash, n).
Proof.
  intros [Hr Hc]. destruct file as [t|]; cbn in *; [by eapply last_audit_loop_chain|].
  inv Hr. by inv Hc.
Qed.

(** The hash of an event does not depend on its [Hash] field. *)
Lemma auditHash_with_hash e h : auditHash (with_hash e h) = auditHash e.
Proof. done. Qed.

Lemma new_event_chain now actor action et ei rid details prev seq :
  let e := new_event now actor action et ei rid details prev seq in
  chain prev seq [e] (Audit_Hash e) (Audit_Sequence e).
Proof. constructor; [done..|constructor]. Qed.

Lemma scan_text_lines lines : scan_text (mkAuditText lines "") = lines.
Proof. apply app_nil_r. Qed.

Lemma write_line_lines file line : terminated file = true → file_lines (write_line file line) = file_lines file ++ [line].
Proof.
  unfold terminated, write_line, content, scan_text, file_lines. destruct file as [[lines tail]|]; cbn; [|done].
  intros ->%bool_decide_eq_true. unfold scan_text. cbn. by rewrite !app_nil_r.
Qed.

Lemma write_part_lines file line n : terminated file = true →
  file_lines (write_part file line n) = file_lines file ++ (if bool_decide (string_take n line = "") then [] else [string_take n line]).
Proof.
  unfold terminated, write_part, content, scan_text, file_lines. destruct file as [[lines tail]|]; cbn; [|done].
  intros ->%bool_decide_eq_true. unfold scan_text. cbn. by rewrite app_nil_r.
Qed.

(** Appending keeps a valid log valid; this is what other components use. *)
Lemma append_audit_valid file es hash n now actor action et ei rid details :
  valid_log file es hash n → terminated file = true →
  let e := new_event now actor action et ei rid details hash n in
  json_valid e → line_fits (json_encode e) = true →
  ∃ file', append_audit file NoFault now actor action et ei rid details = (file', Ok tt) ∧
    valid_log file' (es ++ [e]) (Audit_Hash e) (Audit_Sequence e).
Proof.
  intros Hv Hterm e Hjson Hfit. unfold append_audit. rewrite (lastAudit_valid _ _ _ _ Hv).
  eexists. split; [done|]. destruct Hv as [Hr Hc]. split.
  - rewrite write_line_lines by done. apply Forall2_app; [done|]. constructor; [|constructor].
    split; [done|]. by apply json_roundtrip.
  - apply chain_app. exists hash, n. split; [done|]. apply new_event_chain.
Qed.

(** Two events with the same chain hash. *)
Definition hash_collision : Prop :=
  ∃ e1 e2, with_hash e1 "" ≠ with_hash e2 "" ∧ auditHash e1 = auditHash e2.

#[export] Instance with_hash_dec e1 e2 : Decision (with_hash e1 "" = with_hash e2 "").
Proof. apply _. Defined.

Lemma linked_events_equal e1 e2 :
  Audit_Hash e1 = auditHash e1 → Audit_Hash e2 = auditHash e2 → Audit_Hash e1 = Audit_Hash e2 →
  e1 = e2 ∨ hash_collision.
Proof.
  intros H1 H2 Heq. destruct (decide (with_hash e1 "" = with_hash e2 "")) as [Hw|Hw].
  - left. clear H1 H2. destruct e1, e2. unfold with_hash in Hw. cbn in *.
    injection Hw. intros. subst. reflexivity.
  - right. exists e1, e2. split; [done|congruence].
Qed.

(** Two chains of the same length that end with the same hash are equal,
    unless the hash has a collision. *)
Lemma chain_same_head es1 : ∀ es2 p1 s1 p2 s2 h n1 n2,
  length es1 = length es2 → chain p1 s1 es1 h n1 → chain p2 s2 es2 h n2 →
  es1 = es2 ∨ hash_collision.
Proof.
  induction es1 as [|e1 es1 IH] using rev_ind; intros es2 p1 s1 p2 s2 h n1 n2 Hlen H1 H2.
  { destruct es2; [by left|done]. }
  destruct es2 as [|e2 es2 _] using rev_ind; [rewrite length_app in Hlen; cbn in Hlen; lia|].
  rewrite !length_app in Hlen; cbn in Hlen.
  apply chain_app in H1 as (q1 & t1 & H1 & Hl1). apply chain_app in H2 as (q2 & t2 & H2 & Hl2).
  inv Hl1. inv Hl2.
  repeat match goal with H : chain _ _ [] _ _ |- _ => inv H end.
  destruct (linked_events_equal e1 e2) as [->|]; [done|done|congruence| |by right].
  destruct (IH es2 _ _ _ _ _ _ _ ltac:(lia) H1 H2) as [->|]; [by left|by right].
Qed.

Lemma chain_sequence prev seq es hash n :
  chain prev seq es hash n → (0 ≤ seq)%Z → (seq + Z.of_nat (length es) < 2 ^ 64)%Z →
  n = (seq + Z.of_nat (length es))%Z.
Proof.
  induction 1 as [|prev seq e es h n Hs _ _ _ IH]; cbn [length]; intros; [lia|].
  unfold wrap_uint64 in Hs. rewrite Z.mod_small in Hs by lia. rewrite IH; lia.
Qed.
End audit.

(** ** Properties *)

(** A log that no append can go on with *)
Definition stuck `{!Json AuditEvent} (file : audit_file) : Prop := ∀ fault now actor action et ei rid details,
  ∃ err, append_audit file fault now actor action et ei rid details = (file, Err err).

Lemma last_audit_loop_app `{!Json AuditEvent} lines line : ∀ hash seq err,
  (∀ l, l ∈ lines → line_fits l = true ∧ is_Ok (json_decode l)) → line_fits line = true → json_decode line = Err err →
  last_audit_loop (lines ++ [line]) hash seq = Err err.
Proof.
  induction lines as [|l lines IH]; intros hash seq err Hl Hfit Hd; cbn.
  - by rewrite Hfit, Hd.
  - destruct (Hl l) as [-> [e ->]]; [by left|]. cbn. apply IH; [|done..]. intros; apply Hl. by right.
Qed.

(** A line that does not decode after a valid log *)
Lemma bad_line `{!Json AuditEvent} lines es hash n line err : reads lines es → chain "" 0 es hash n →
  line_fits line = true → json_decode line = Err err →
  verify_loop (lines ++ [line]) "" 0 = Ok (invalid n (error_text err)) ∧
  last_audit_loop (lines ++ [line]) "" 0 = Err err.
Proof.
  intros Hr Hc Hfit Hd. split.
  - assert (∀ prev seq, chain prev seq es hash n →
      verify_loop (lines ++ [line]) prev seq = Ok (invalid n (error_text err))) as Hloop; [|by apply Hloop].
    clear Hc. induction Hr as [|l e lines es [Hlf Hld] _ IH]; intros prev seq Hc; inv Hc; cbn.
    + by rewrite Hfit, Hd.
    + rewrite Hlf, Hld. cbn. rewrite !bool_decide_eq_true_2 by done. cbn. by apply IH.
  - apply last_audit_loop_app; [|done..]. intros l Hl. apply list_elem_of_lookup in Hl as [i Hi].
    destruct (Forall2_lookup_l _ _ _ _ _ Hr Hi) as (e & _ & ? & ->). split; [done|by eexists].
Qed.

Lemma last_audit_stuck `{!Json AuditEvent} t err : last_audit_loop (scan_text t) "" 0 = Err err → stuck (Some t).
Proof. intros He fault now actor action et ei rid details. exists err. unfold append_audit, lastAudit. by rewrite He. Qed.

Lemma line_fits_take n line : line_fits line = true → line_fits (string_take n line) = true.
Proof. unfold line_fits. rewrite !bool_decide_eq_true, string_length_take. lia. Qed.

(** C29: how an append ends.  Appending to a log that verifies, with a
    terminated last line, reports success exactly when no file operation
    failed.  A written event verifies with the next sequence number (wrapping
    at 64 bits); when nothing was written the log is as it was.  A write that is
    cut short leaves one of two damaged logs.  When a part of the line is
    there, the log no longer verifies, at the entry after the old ones, and
    every later append fails and changes nothing.  When only the newline is
    missing, the log still verifies with the event that was reported as failed,
    but the next append, which reports success, joins its event to this line:
    then the log does not verify and is stuck as well. *)
Theorem append_audit_ends `{!Json AuditEvent, !JsonObject AuditEvent} file n fault now actor action et ei rid details
    file' r e
    (Hvalid : VerifyAudit file = Ok (mkAuditVerification true n "")) (Hterm : terminated file = true)
    (He : ∃ previous, lastAudit file = Ok (previous, n) ∧
       e = new_event now actor action et ei rid details previous n)
    (Hjson : json_valid e) (Hfit : line_fits (json_encode e) = true)
    (Hrun : append_audit file fault now actor action et ei rid details = (file', r)) :
  let written := VerifyAudit file' = Ok (mkAuditVerification true (wrap_uint64 (n + 1)) "") ∧
    file_lines file' = file_lines file ++ [json_encode e] in
  (r = Ok tt ↔ fault = NoFault) ∧
  match fault with
  | NoFault | FaultAfterWrite _ => written ∧ terminated file' = true
  | FaultBeforeWrite _ => file' = file
  | FaultShortWrite 0 _ => VerifyAudit file' = VerifyAudit file ∧ file_lines file' = file_lines file ∧ terminated file' = true
  | FaultShortWrite k _ =>
      if bool_decide (k < String.length (json_encode e))
      then (∃ message, VerifyAudit file' = Ok (invalid n message)) ∧ stuck file'
      else written ∧ terminated file' = false ∧
        ∀ now2 actor2 action2 et2 ei2 rid2 details2,
          let e2 := new_event now2 actor2 action2 et2 ei2 rid2 details2 (Audit_Hash e) (wrap_uint64 (n + 1)) in
          json_valid e2 → line_fits (json_encode e +:+ json_encode e2) = true →
          ∃ file2, append_audit file' NoFault now2 actor2 action2 et2 ei2 rid2 details2 = (file2, Ok tt) ∧
            (∃ message, VerifyAudit file2 = Ok (invalid n message)) ∧ stuck file2
  end.
Proof.
  intros written. apply VerifyAudit_valid in Hvalid as (es & hash & Hv).
  destruct He as (prev & Hlast & ->). rewrite (lastAudit_valid _ _ _ _ Hv) in Hlast. simplify_eq.
  set (e := new_event _ _ _ _ _ _ _ _ _) in *.
  destruct (append_audit_valid _ _ _ _ now actor action et ei rid details Hv Hterm Hjson Hfit) as (file1 & Happ & Hv1).
  pose proof Hv as [Hr Hc]. fold e in Hv1. unfold append_audit in Happ, Hrun. rewrite (lastAudit_valid _ _ _ _ Hv) in Happ, Hrun.
  fold e in Happ, Hrun. injection Happ as <-.
  assert (VerifyAudit (write_line file (json_encode e)) = Ok (mkAuditVerification true (wrap_uint64 (n + 1)) "")) as Hver
    by (apply VerifyAudit_valid; eauto).
  destruct fault as [|err|k err|err]; simplify_eq; (split; [done|]).
  - split; [split; [done|by apply write_line_lines]|]. unfold terminated, write_line. by apply bool_decide_eq_true.
  - done.
  - pose proof (write_part_lines file (json_encode e) k Hterm) as Hlines. destruct k as [|k].
    { rewrite string_take_0, app_nil_r in Hlines. assert (terminated (write_part file (json_encode e) 0) = true) as Ht.
      { unfold terminated, write_part, content in *. destruct file as [[lines tail]|]; cbn in *; [|done].
        by apply bool_decide_eq_true in Hterm as ->. }
      split_and!; [|done..]. destruct file as [t|]; [|done]. cbn [VerifyAudit write_part file_lines] in *. by rewrite Hlines. }
    destruct (decide (S k < String.length (json_encode e))) as [Hk|Hk];
      [rewrite (bool_decide_eq_true_2 (S k < _)) by done|rewrite (bool_decide_eq_false_2 (S k < _)) by done].
    + destruct (json_prefix e (S k) Hjson Hk) as [err' Herr].
      rewrite (bool_decide_eq_false_2 (string_take (S k) _ = "")) in Hlines; last first.
      { intros Hempty. assert (String.length (string_take (S k) (json_encode e)) = 0) as Hz by by rewrite Hempty.
        rewrite string_length_take in Hz. lia. }
      destruct (bad_line _ _ _ _ (string_take (S k) (json_encode e)) err' Hr Hc) as [H1 H2]; [by apply line_fits_take|done|].
      rewrite <-Hlines in H1, H2. split; [by eexists|by eapply last_audit_stuck].
    + rewrite string_take_ge in Hlines by lia. rewrite bool_decide_eq_false_2 in Hlines; last first.
      { destruct (json_brace e) as [? ->]. done. }
      assert (valid_log (write_part file (json_encode e) (S k)) (es ++ [e]) (Audit_Hash e) (wrap_uint64 (n + 1))) as Hv'.
      { destruct Hv1 as [Hr1 Hc1]. split; [|done]. by rewrite Hlines, <-write_line_lines. }
      split; [split; [apply VerifyAudit_valid; eauto|done]|]. split.
      { unfold terminated, write_part, content in *. rewrite string_take_ge by lia. apply bool_decide_eq_false. cbn.
        destruct (json_brace e) as [? ->]. by destruct (text_tail _). }
      intros now2 actor2 action2 et2 ei2 rid2 details2 e2 Hjson2 Hfit2.
      unfold append_audit at 1. rewrite (lastAudit_valid _ _ _ _ Hv'). fold e2. eexists. split; [done|].
      destruct (json_single e e2 Hjson Hjson2) as [err' Herr].
      assert (scan_text (default (mkAuditText [] "") (write_line (write_part file (json_encode e) (S k)) (json_encode e2))) =
        file_lines file ++ [json_encode e +:+ json_encode e2]) as Hscan.
      { unfold terminated, write_line, write_part, content, scan_text, file_lines in *. rewrite string_take_ge by lia. cbn.
        destruct file as [[lines tail]|]; cbn in *; [|done]. apply bool_decide_eq_true in Hterm as ->.
        unfold scan_text. cbn. by rewrite !app_nil_r. }
      destruct (bad_line _ _ _ _ (json_encode e +:+ json_encode e2) err' Hr Hc) as [H1 H2]; [done..|].
      rewrite <-Hscan in H1, H2. split; [by eexists|by eapply last_audit_stuck].
  - split; [split; [done|by apply write_line_lines]|]. unfold terminated, write_line. by apply bool_decide_eq_true.
Qed.


Lemma verify_loop_break `{!Json AuditEvent} lines : ∀ prev seq v,
  verify_loop lines prev seq = Ok v → AuditVerification_Valid v = false →
  ∃ pre line post es hash, lines = pre ++ line :: post ∧ reads pre es ∧
    chain prev seq es hash (AuditVerification_Entries v) ∧
    (∀ e, json_decode line = Ok e → ¬ chain hash (AuditVerification_Entries v) [e]
       (Audit_Hash e) (Audit_Sequence e)).
Proof.
  induction lines as [|line lines IH]; intros prev seq v Hv Hf; cbn in Hv; [by simplify_eq|].
  destruct (line_fits line) eqn:Hfit; cbn in Hv; [|done].
  destruct (json_decode line) as [e|err] eqn:Hdec; last first.
  { simplify_eq. exists [], line, lines, [], prev. cbn.
    split_and!; [done|constructor|constructor|]. intros. congruence. }
  assert (Hbad : ∀ m, v = invalid seq m →
    ¬ chain prev seq [e] (Audit_Hash e) (Audit_Sequence e) →
    ∃ pre line0 post es hash, line :: lines = pre ++ line0 :: post ∧ reads pre es ∧
    chain prev seq es hash (AuditVerification_Entries v) ∧
    (∀ e, json_decode line0 = Ok e → ¬ chain hash (AuditVerification_Entries v) [e]
       (Audit_Hash e) (Audit_Sequence e))).
  { intros m -> Hn. exists [], line, lines, [], prev. cbn.
    split_and!; [done|constructor|constructor|]. intros e' He'.
    assert (e' = e) as -> by congruence. done. }
  revert Hv. case_bool_decide as Hs; case_bool_decide as Hp; cbn [negb orb]; intros Hv;
    [|by simplify_eq; eapply Hbad; [done|]; intros Hc; inv Hc..].
  revert Hv. case_bool_decide as Hh; cbn [negb]; intros Hv;
    [|by simplify_eq; eapply Hbad; [done|]; intros Hc; inv Hc].
  apply IH in Hv as (pre & l & post & es & hash & -> & Hr & Hc & Hno); [|done].
  exists (line :: pre), l, post, (e :: es), hash.
  split_and!; [done|by constructor|by constructor|done].
Qed.

(** When verification reports a corrupted log, [Entries] locates the
    corruption: the lines before it verify with exactly that many entries, and
    the log up to and including the offending line does not verify. *)
Theorem VerifyAudit_locates_break `{!Json AuditEvent} lines v
    (Hv : VerifyAudit (Some (mkAuditText lines "")) = Ok v) (Hf : AuditVerification_Valid v = false) :
  ∃ pre line post, lines = pre ++ line :: post ∧
    VerifyAudit (Some (mkAuditText pre "")) = Ok (mkAuditVerification true (AuditVerification_Entries v) "") ∧
    ∀ n, VerifyAudit (Some (mkAuditText (pre ++ [line]) "")) ≠ Ok (mkAuditVerification true n "").
Proof.
  unfold VerifyAudit in Hv. rewrite scan_text_lines in Hv.
  destruct (verify_loop_break _ _ _ _ Hv Hf)
    as (pre & line & post & es & hash & -> & Hr & Hc & Hno).
  exists pre, line, post. split; [done|]. split.
  { apply VerifyAudit_valid. exists es, hash. split; [|done]. cbn [file_lines]. by rewrite scan_text_lines. }
  intros n (es' & h' & [Hr' Hc'])%VerifyAudit_valid. cbn [file_lines] in Hr'. rewrite scan_text_lines in Hr'.
  apply Forall2_app_inv_l in Hr' as (es1 & es2 & Hr1 & Hr2 & ->).
  apply chain_app in Hc' as (p1 & s1 & Hc1 & Hc2).
  assert (valid_log (Some (mkAuditText pre "")) es hash (AuditVerification_Entries v)) as Hva
    by (split; [cbn [file_lines]; by rewrite scan_text_lines|done]).
  assert (valid_log (Some (mkAuditText pre "")) es1 p1 s1) as Hvb
    by (split; [cbn [file_lines]; by rewrite scan_text_lines|done]).
  apply lastAudit_valid in Hva, Hvb. rewrite Hva in Hvb. simplify_eq.
  destruct es2 as [|e [|]]; [by inv Hr2| |by inv Hr2; inv H4].
  inv Hr2. destruct_and!. inv Hc2.
  match goal with H : chain _ _ [] _ _ |- _ => inv H end. eapply Hno; [done|].
  by constructor; [..|constructor].
Qed.

(** ** Witnesses, with the countable codec *)

#[export] Instance json_scalar_countable : Countable json_scalar.
Proof.
  refine (inj_countable'
    (λ v, match v with JString s => inl s | JInt z => inr (inl z) | JBool b => inr (inr b) end)
    (λ v, match v with inl s => JString s | inr (inl z) => JInt z | inr (inr b) => JBool b end) _).
  by intros [].
Defined.

#[export] Instance AuditEvent_countable : Countable AuditEvent.
Proof.
  refine (inj_countable
    (λ e, ([Audit_Actor e; Audit_Action e; Audit_EntityType e; Audit_EntityID e;
            Audit_RequestID e; Audit_PreviousHash e; Audit_Hash e],
           [Audit_Version e; Audit_Sequence e; Audit_Timestamp e], Audit_Details e))
    (λ '(ss, zs, d), match ss, zs with
       | [a; b; c; f; g; p; h], [v; s; t] => Some (mkAuditEvent v s t a b c f g d p h)
       | _, _ => None end) _).
  by intros [].
Defined.

Definition sample_codec : Json AuditEvent := object_json AuditEvent.
Definition sample_object : @JsonObject AuditEvent sample_codec := object_json_object AuditEvent.

(** The same codec with a short text under the hash, for witnesses of other
    components *)
Definition quick_codec : Json AuditEvent.
Proof.
  refine {| json_encode := @json_encode _ sample_codec;
            json_marshal e := Audit_Action e +:+ Audit_EntityID e +:+ Audit_PreviousHash e;
            json_decode := @json_decode _ sample_codec;
            json_strict := @json_strict _ sample_codec;
            json_valid _ := True |}.
  - intros e _. by apply (@json_roundtrip _ sample_codec).
  - intros e _. by apply (@json_strict_roundtrip _ sample_codec).
Defined.

Definition sample_event : AuditEvent :=
  @new_event sample_codec 7 "local" "capture" "capture" "cap_1" "" {["n" := JInt 2]} "" 0.
Definition sample_log : audit_file := Some (mkAuditText [@json_encode _ sample_codec sample_event] "").

(** The second event, of which only nine bytes are written *)
Definition second_event : AuditEvent :=
  @new_event sample_codec 9 "local" "handoff" "analysis" "ana_1" "" ∅ (Audit_Hash sample_event) 1.
Definition torn_log : audit_file := write_part sample_log (@json_encode _ sample_codec second_event) 9.

Lemma append_audit_ends_witness :
  (∃ message, @VerifyAudit sample_codec torn_log = Ok (invalid 1 message)) ∧ @stuck sample_codec torn_log.
Proof.
  destruct (@append_audit_ends sample_codec sample_object sample_log 1 (FaultShortWrite 9 (ErrMsg "no space left on device"))
    9 "local" "handoff" "analysis" "ana_1" "" ∅ torn_log (Err (ErrMsg "no space left on device")) second_event) as [_ Hends].
  - vm_compute. reflexivity.
  - vm_compute. reflexivity.
  - exists (Audit_Hash sample_event). split; [vm_compute; reflexivity|reflexivity].
  - exact I.
  - vm_compute. reflexivity.
  - vm_compute. reflexivity.
  - replace (bool_decide (9 < String.length (@json_encode _ sample_codec second_event))) with true in Hends
      by (vm_compute; reflexivity).
    exact Hends.
Defined.


(** The second event of this log does not name the first one's hash. *)
Definition broken_log : list string :=
  let line := @json_encode _ sample_codec sample_event in [line; line; line].

Lemma VerifyAudit_locates_break_witness :
  ∃ pre line post, broken_log = pre ++ line :: post ∧
    @VerifyAudit sample_codec (Some (mkAuditText pre "")) = Ok (mkAuditVerification true 1 "") ∧
    ∀ n, @VerifyAudit sample_codec (Some (mkAuditText (pre ++ [line]) "")) ≠ Ok (mkAuditVerification true n "").
Proof.
  apply (@VerifyAudit_locates_break sample_codec broken_log
    (mkAuditVerification false 1 "sequence or previous hash mismatch")).
  - vm_compute. reflexivity.
  - reflexivity.
Defined.
