(* ===== verification/Jobs.v ===== *)
(** * Jobs: the durable job queue of the local store

    Models the job operations of [src/internal/store/store.go]:
    [CreateJobIdempotent], [ClaimNextJob], [HeartbeatJob], [CompleteJob] and
    [RequeueExpiredJobs].  Every operation runs under the store's mutex, so it
    is one function from the disk to the disk.  The disk holds the decoded
    files of the directories [jobs] and [idempotency], by file stem; a file
    that does not decode is an [Err].  The arguments that end in [io] say how
    the file operations of the call end and what [time.Now] returns. *)

From S2P Require Import Prelude Sha256 Model Json AuditLog.

(** ** State *)

Record disk := mkDisk {
  disk_jobs : gmap string (result Job);
  disk_idempotency : gmap string (result IdempotencyRecord);
  disk_audit : audit_file;
}.

Definition with_jobs (d : disk) (jobs : gmap string (result Job)) : disk :=
  mkDisk jobs (disk_idempotency d) (disk_audit d).
Definition with_idempotency (d : disk) (idem : gmap string (result IdempotencyRecord)) : disk :=
  mkDisk (disk_jobs d) idem (disk_audit d).
Definition with_audit (d : disk) (audit : audit_file) : disk :=
  mkDisk (disk_jobs d) (disk_idempotency d) audit.
Arguments with_jobs : simpl never.
Arguments with_idempotency : simpl never.
Arguments with_audit : simpl never.

(** [readJSON] of a file that may be missing *)
Definition read_file {A} (files : gmap string (result A)) (stem : string) : result A :=
  match files !! stem with None => Err ErrNotExist | Some r => r end.

(** [writeJSONAtomic]: temporary file, sync, rename; a failure leaves the old
    file in place. *)
Definition write_job (d : disk) (fail : option error) (stem : string) (job : Job)
    : disk * result unit :=
  match fail with
  | Some err => (d, Err err)
  | None => (with_jobs d (<[stem := Ok job]> (disk_jobs d)), Ok tt)
  end.

Definition currentSchemaVersion : Z := 3.

Record CreateJobRequest := mkCreateJobRequest {
  Create_Job : Job;
  Create_PrincipalFingerprint : string;
  Create_Route : string;
  Create_IdempotencyKey : string;
  Create_RequestDigest : string;
}.

(** ** The changes of one job record *)

Definition job_created (j : Job) (now : time) : Job :=
  mkJob currentSchemaVersion (Job_ID j) (Job_Type j) (Job_State j) (Job_Payload j)
    (Job_Principal j) now now (Job_LeaseOwner j) (Job_LeaseExpires j) (Job_HeartbeatAt j)
    (Job_Attempts j) (Job_ResultRef j) (Job_Error j).

Definition job_claimed (j : Job) (workerID : string) (now lease : Z) : Job :=
  mkJob (Job_SchemaVersion j) (Job_ID j) (Job_Type j) JobRunning (Job_Payload j)
    (Job_Principal j) (Job_CreatedAt j) now workerID (now + lease) now
    (Job_Attempts j + 1) (Job_ResultRef j) (Job_Error j).

Definition job_heartbeat (j : Job) (now lease : Z) : Job :=
  mkJob (Job_SchemaVersion j) (Job_ID j) (Job_Type j) (Job_State j) (Job_Payload j)
    (Job_Principal j) (Job_CreatedAt j) now (Job_LeaseOwner j) (now + lease) now
    (Job_Attempts j) (Job_ResultRef j) (Job_Error j).

Definition job_completed (j : Job) (state : JobState) (resultRef errorMessage : string)
    (now : time) : Job :=
  mkJob (Job_SchemaVersion j) (Job_ID j) (Job_Type j) state (Job_Payload j)
    (Job_Principal j) (Job_CreatedAt j) now "" 0 (Job_HeartbeatAt j)
    (Job_Attempts j) resultRef errorMessage.

Definition expired_message : string := "job lease expired and maximum attempts were reached".

Definition job_expired (j : Job) (maxAttempts : Z) (now : time) : Job :=
  let failed := bool_decide (maxAttempts ≤ Job_Attempts j)%Z in
  mkJob (Job_SchemaVersion j) (Job_ID j) (Job_Type j)
    (if failed then JobFailed else JobQueued) (Job_Payload j) (Job_Principal j)
    (Job_CreatedAt j) now "" 0 (Job_HeartbeatAt j) (Job_Attempts j) (Job_ResultRef j)
    (if failed then expired_message else Job_Error j).

(** [filepath.Glob(jobs/*.json)] followed by [sort.Strings]: the order is that
    of the file names. *)
Definition file_name (stem : string) : string := stem +:+ ".json".
Definition job_files (d : disk) : list string :=
  sort_by file_name (map_to_list (disk_jobs d)).*1.

Definition claimable (maxAttempts : Z) (j : Job) : bool :=
  bool_decide (Job_State j = JobQueued) && negb (bool_decide (maxAttempts ≤ Job_Attempts j)%Z).

Definition lease_lapsed (now : time) (j : Job) : bool :=
  bool_decide (Job_State j = JobRunning) && negb (IsZero (Job_LeaseExpires j)) &&
  negb (After (Job_LeaseExpires j) now).

Definition not_owned : error := ErrMsg "job lease is not owned by worker".
Definition invalid_terminal : error := ErrMsg "invalid terminal job state".
Definition key_required : error := ErrMsg "idempotency key and request digest are required".

Section jobs.
Context `{!Json AuditEvent}.

(** ** CreateJobIdempotent *)

Record create_io := mkCreateIO {
  cio_now_job : time;
  cio_now_record : time;
  cio_now_audit : time;
  cio_idem_unreadable : bool;       (** os.ReadFile fails although the file exists *)
  cio_fail_job : option error;
  cio_fail_record : option error;
  cio_remove_fails : bool;
  cio_audit : audit_fault;
}.

Definition idempotency_id (request : CreateJobRequest) : string :=
  sha256_hex (Create_PrincipalFingerprint request +:+ NUL +:+ Create_Route request +:+ NUL +:+
    Create_IdempotencyKey request).

(** Replay of a known key *)
Definition create_existing (d : disk) (request : CreateJobRequest)
    (content : result IdempotencyRecord) : result (Job * bool) :=
  let? existing := content in
  fail? negb (bool_decide (Idem_RequestDigest existing = Create_RequestDigest request))
    with ErrIdempotencyConflict in
  let? job := read_file (disk_jobs d) (Idem_JobID existing) in
  Ok (job, true).

(** First use of a key *)
Definition create_new (io : create_io) (d : disk) (request : CreateJobRequest)
    : disk * result (Job * bool) :=
  let job := job_created (Create_Job request) (cio_now_job io) in
  match write_job d (cio_fail_job io) (Job_ID job) job with
  | (d, Err err) => (d, Err err)
  | (d, Ok _) =>
      let record := mkIdempotencyRecord currentSchemaVersion
        (Create_PrincipalFingerprint request) (Create_Route request)
        (Create_IdempotencyKey request) (Create_RequestDigest request)
        (Job_ID job) (cio_now_record io) in
      match cio_fail_record io with
      | Some err =>
          let d := if cio_remove_fails io then d
                   else with_jobs d (delete (Job_ID job) (disk_jobs d)) in
          (d, Err err)
      | None =>
          let d := with_idempotency d
            (<[idempotency_id request := Ok record]> (disk_idempotency d)) in
          match append_audit (disk_audit d) (cio_audit io) (cio_now_audit io)
                  (Create_PrincipalFingerprint request) "job-enqueued" "job" (Job_ID job) ""
                  {["type" := JString (Job_Type job)]} with
          | (audit, Err err) => (with_audit d audit, Err err)
          | (audit, Ok _) => (with_audit d audit, Ok (job, false))
          end
      end
  end.

Definition CreateJobIdempotent (io : create_io) (d : disk) (request : CreateJobRequest)
    : disk * result (Job * bool) :=
  if bool_decide (Create_IdempotencyKey request = "") ||
     bool_decide (Create_RequestDigest request = "")
  then (d, Err key_required)
  else
    match disk_idempotency d !! idempotency_id request with
    | Some content =>
        if cio_idem_unreadable io then create_new io d request
        else (d, create_existing d request content)
    | None => create_new io d request
    end.

(** ** ClaimNextJob *)

Record job_io := mkJobIO {
  jio_now : time;
  jio_now_audit : time;
  jio_fail_write : string → option error;
  jio_audit : audit_fault;
}.

Fixpoint claim_loop (io : job_io) (d : disk) (files : list string) (workerID : string)
    (lease maxAttempts : Z) : disk * result (option Job) :=
  match files with
  | [] => (d, Ok None)
  | path :: files =>
      match read_file (disk_jobs d) path with
      | Err err => (d, Err err)
      | Ok job =>
          if negb (bool_decide (Job_State job = JobQueued)) ||
             bool_decide (maxAttempts ≤ Job_Attempts job)%Z
          then claim_loop io d files workerID lease maxAttempts
          else
            let job := job_claimed job workerID (jio_now io) lease in
            match write_job d (jio_fail_write io path) path job with
            | (d, Err err) => (d, Err err)
            | (d, Ok _) =>
                match append_audit (disk_audit d) (jio_audit io) (jio_now_audit io) workerID
                        "job-claimed" "job" (Job_ID job) ""
                        {["attempt" := JInt (Job_Attempts job)]} with
                | (audit, Err err) => (with_audit d audit, Err err)
                | (audit, Ok _) => (with_audit d audit, Ok (Some job))
                end
            end
      end
  end.

Definition ClaimNextJob (io : job_io) (d : disk) (workerID : string) (lease maxAttempts : Z)
    : disk * result (option Job) :=
  claim_loop io d (job_files d) workerID lease maxAttempts.

(** ** HeartbeatJob *)

Definition HeartbeatJob (io : job_io) (d : disk) (jobID workerID : string) (lease : Z)
    : disk * result unit :=
  match read_file (disk_jobs d) jobID with
  | Err err => (d, Err err)
  | Ok job =>
      if negb (bool_decide (Job_State job = JobRunning)) ||
         negb (bool_decide (Job_LeaseOwner job = workerID))
      then (d, Err not_owned)
      else write_job d (jio_fail_write io jobID) jobID (job_heartbeat job (jio_now io) lease)
  end.

(** ** CompleteJob *)

Definition CompleteJob (io : job_io) (d : disk) (jobID workerID : string) (state : JobState)
    (resultRef errorMessage : string) : disk * result unit :=
  match read_file (disk_jobs d) jobID with
  | Err err => (d, Err err)
  | Ok job =>
      if negb (bool_decide (Job_State job = JobRunning)) ||
         negb (bool_decide (Job_LeaseOwner job = workerID))
      then (d, Err not_owned)
      else if negb (bool_decide (state = JobSucceeded)) && negb (bool_decide (state = JobFailed))
      then (d, Err invalid_terminal)
      else
        let job := job_completed job state resultRef errorMessage (jio_now io) in
        match write_job d (jio_fail_write io jobID) jobID job with
        | (d, Err err) => (d, Err err)
        | (d, Ok _) =>
            let '(audit, r) := append_audit (disk_audit d) (jio_audit io) (jio_now_audit io)
              workerID "job-completed" "job" (Job_ID job) ""
              {["state" := JString (show_job_state state)]} in
            (with_audit d audit, r)
        end
  end.

(** ** RequeueExpiredJobs *)

(** The error, if any, is returned together with the count so far. *)
Fixpoint requeue_loop (io : job_io) (d : disk) (files : list string) (maxAttempts : Z)
    (count : nat) : disk * nat * option error :=
  match files with
  | [] => (d, count, None)
  | path :: files =>
      match read_file (disk_jobs d) path with
      | Err err => (d, count, Some err)
      | Ok job =>
          if negb (bool_decide (Job_State job = JobRunning)) || IsZero (Job_LeaseExpires job) ||
             After (Job_LeaseExpires job) (jio_now io)
          then requeue_loop io d files maxAttempts count
          else
            match write_job d (jio_fail_write io path) path
                    (job_expired job maxAttempts (jio_now io)) with
            | (d, Err err) => (d, count, Some err)
            | (d, Ok _) => requeue_loop io d files maxAttempts (S count)
            end
      end
  end.

Definition RequeueExpiredJobs (io : job_io) (d : disk) (maxAttempts : Z)
    : disk * nat * option error :=
  requeue_loop io d (job_files d) maxAttempts 0.
(** ** Sequences of operations *)

Inductive op :=
  | OpCreate (io : create_io) (request : CreateJobRequest)
  | OpClaim (io : job_io) (workerID : string) (lease : Z)
  | OpHeartbeat (io : job_io) (jobID workerID : string) (lease : Z)
  | OpComplete (io : job_io) (jobID workerID : string) (state : JobState)
      (resultRef errorMessage : string)
  | OpRequeue (io : job_io).

Definition run_op (maxAttempts : Z) (d : disk) (o : op) : disk :=
  match o with
  | OpCreate io request => (CreateJobIdempotent io d request).1
  | OpClaim io w lease => (ClaimNextJob io d w lease maxAttempts).1
  | OpHeartbeat io id w lease => (HeartbeatJob io d id w lease).1
  | OpComplete io id w st res msg => (CompleteJob io d id w st res msg).1
  | OpRequeue io => (RequeueExpiredJobs io d maxAttempts).1.1
  end.

(** What [jobs.Manager.Enqueue] passes to the store: a queued job without
    lease or attempts, under a fresh random identifier. *)
Definition op_ok (d : disk) (o : op) : Prop :=
  match o with
  | OpCreate _ request =>
      let j := Create_Job request in
      Job_State j = JobQueued ∧ Job_Attempts j = 0%Z ∧ disk_jobs d !! Job_ID j = None
  | _ => True
  end.

Inductive runs (maxAttempts : Z) : disk → list op → disk → Prop :=
  | runs_nil d : runs maxAttempts d [] d
  | runs_cons d o os d' :
      op_ok d o → runs maxAttempts (run_op maxAttempts d o) os d' →
      runs maxAttempts d (o :: os) d'.
End jobs.

(** ** The abstract job queue *)

Inductive ajob :=
  | AQueued (attempts : Z)
  | ARunning (attempts : Z) (owner : string) (expires : time)
  | ADone (state : JobState) (attempts : Z).

Abbreviation aqueue := (gmap string ajob) (only parsing).

(** What happens to the queue, and who does it when.  A worker may only extend
    the lease of, or report on, a job whose lease it holds; a running job goes
    back only when its lease has lapsed. *)
Inductive alabel :=
  | LEnqueue (id : string)
  | LClaim (w id : string) (now : time) (lease : Z)
  | LHeartbeat (w id : string) (now : time) (lease : Z)
  | LComplete (w id : string) (state : JobState)
  | LReap (id : string) (now : time).

Inductive astep (maxAttempts : Z) (q : aqueue) : alabel → aqueue → Prop :=
  | AEnqueue id : q !! id = None → astep maxAttempts q (LEnqueue id) (<[id := AQueued 0]> q)
  | AClaim w id now lease n : q !! id = Some (AQueued n) → (n < maxAttempts)%Z →
      astep maxAttempts q (LClaim w id now lease) (<[id := ARunning (n + 1) w (now + lease)]> q)
  | AHeartbeat w id now lease n t : q !! id = Some (ARunning n w t) →
      astep maxAttempts q (LHeartbeat w id now lease) (<[id := ARunning n w (now + lease)]> q)
  | AComplete w id st n t : q !! id = Some (ARunning n w t) → st = JobSucceeded ∨ st = JobFailed →
      astep maxAttempts q (LComplete w id st) (<[id := ADone st n]> q)
  | ARequeue id now n w t : q !! id = Some (ARunning n w t) → t ≠ 0%Z → (t ≤ now)%Z → (n < maxAttempts)%Z →
      astep maxAttempts q (LReap id now) (<[id := AQueued n]> q)
  | AExhaust id now n w t : q !! id = Some (ARunning n w t) → t ≠ 0%Z → (t ≤ now)%Z → (maxAttempts ≤ n)%Z →
      astep maxAttempts q (LReap id now) (<[id := ADone JobFailed n]> q).

Inductive asteps (maxAttempts : Z) : aqueue → list alabel → aqueue → Prop :=
  | asteps_nil q : asteps maxAttempts q [] q
  | asteps_cons q l q1 ls q2 : astep maxAttempts q l q1 → asteps maxAttempts q1 ls q2 → asteps maxAttempts q (l :: ls) q2.

(** What an operation answers its caller *)
Inductive answer :=
  | Created (r : result (Job * bool))
  | Claimed (r : result (option Job))
  | Answered (r : result unit)
  | Requeued (count : nat) (err : option error).

Definition op_answer `{!Json AuditEvent} (maxAttempts : Z) (d : disk) (o : op) : answer :=
  match o with
  | OpCreate io request => Created (CreateJobIdempotent io d request).2
  | OpClaim io w lease => Claimed (ClaimNextJob io d w lease maxAttempts).2
  | OpHeartbeat io id w lease => Answered (HeartbeatJob io d id w lease).2
  | OpComplete io id w st res msg => Answered (CompleteJob io d id w st res msg).2
  | OpRequeue io => let '(_, count, err) := RequeueExpiredJobs io d maxAttempts in Requeued count err
  end.

(** At most one step, and that step when the caller is told that it was done *)
Definition one_step (ls : list alabel) (l : alabel) (done : bool) : Prop := ls = [l] ∨ (done = false ∧ ls = []).

(** The steps [ls] explain the operation with its answer: every step is one of
    this operation, by its caller and at its time, and what it says it did
    happened.  After an error the step may have been taken or not. *)
Definition explains (o : op) (a : answer) (ls : list alabel) : Prop :=
  match o, a with
  | OpCreate _ request, Created r =>
      match r with
      | Ok (job, true) => ls = []
      | Ok (job, false) => ls = [LEnqueue (Job_ID job)] ∧ Job_ID job = Job_ID (Create_Job request)
      | Err _ => one_step ls (LEnqueue (Job_ID (Create_Job request))) false
      end
  | OpClaim io w lease, Claimed r =>
      match r with
      | Ok None => ls = []
      | Ok (Some job) => ∃ id, ls = [LClaim w id (jio_now io) lease]
      | Err _ => ls = [] ∨ ∃ id, ls = [LClaim w id (jio_now io) lease]
      end
  | OpHeartbeat io id w lease, Answered r =>
      match r with Ok _ => ls = [LHeartbeat w id (jio_now io) lease] | Err _ => ls = [] end
  | OpComplete io id w st _ _, Answered r => one_step ls (LComplete w id st) (bool_decide (is_Ok r))
  | OpRequeue io, Requeued count _ => length ls = count ∧ Forall (λ l, ∃ id, l = LReap id (jio_now io)) ls
  | _, _ => False
  end.

(** A run of the abstract queue that explains the operations in turn *)
Inductive arun (maxAttempts : Z) : aqueue → list (op * answer) → aqueue → Prop :=
  | arun_nil q : arun maxAttempts q [] q
  | arun_cons q o a ls q1 os q2 : explains o a ls → asteps maxAttempts q ls q1 →
      arun maxAttempts q1 os q2 → arun maxAttempts q ((o, a) :: os) q2.

(** The operations of a run with their answers *)
Fixpoint answers `{!Json AuditEvent} (maxAttempts : Z) (d : disk) (os : list op) : list (op * answer) :=
  match os with
  | [] => []
  | o :: os => (o, op_answer maxAttempts d o) :: answers maxAttempts (run_op maxAttempts d o) os
  end.

Definition abs_job (j : Job) : option ajob :=
  match Job_State j with
  | JobQueued => Some (AQueued (Job_Attempts j))
  | JobRunning => Some (ARunning (Job_Attempts j) (Job_LeaseOwner j) (Job_LeaseExpires j))
  | JobSucceeded => Some (ADone JobSucceeded (Job_Attempts j))
  | JobFailed => Some (ADone JobFailed (Job_Attempts j))
  | JobOther _ => None
  end.

Definition abs_file (r : result Job) : option ajob :=
  match r with Ok j => abs_job j | Err _ => None end.
Definition abs (d : disk) : aqueue := omap abs_file (disk_jobs d).

(** ** Lemmas: the refinement *)

Lemma abs_lookup d id : abs d !! id = disk_jobs d !! id ≫= abs_file.
Proof. apply lookup_omap. Qed.

Lemma abs_with_audit d a : abs (with_audit d a) = abs d.
Proof. done. Qed.
Lemma abs_with_idempotency d i : abs (with_idempotency d i) = abs d.
Proof. done. Qed.

Lemma abs_write d id j a :
  abs_job j = Some a → abs (with_jobs d (<[id := Ok j]> (disk_jobs d))) = <[id := a]> (abs d).
Proof. intros Ha. unfold abs, with_jobs. cbn. by apply omap_insert_Some. Qed.

Lemma read_file_Ok {A} (files : gmap string (result A)) id a :
  read_file files id = Ok a → files !! id = Some (Ok a).
Proof. unfold read_file. destruct (files !! id) as [[]|]; naive_solver. Qed.

Lemma abs_read d id j : read_file (disk_jobs d) id = Ok j → abs d !! id = abs_job j.
Proof. intros H%read_file_Ok. by rewrite abs_lookup, H. Qed.

Section refinement.
Context `{!Json AuditEvent} (maxAttempts : Z).

Lemma asteps_one q l q' : astep maxAttempts q l q' → asteps maxAttempts q [l] q'.
Proof. intros Hs. eapply asteps_cons; [exact Hs|constructor]. Qed.

(** The steps of one operation, whatever fails *)
Definition explained (d : disk) (o : op) (d' : disk) (a : answer) : Prop :=
  ∃ ls, explains o a ls ∧ asteps maxAttempts (abs d) ls (abs d').

Lemma create_refines io d request :
  op_ok d (OpCreate io request) →
  explained d (OpCreate io request) (CreateJobIdempotent io d request).1 (Created (CreateJobIdempotent io d request).2).
Proof.
  intros (Hq & Ha & Hfresh). unfold CreateJobIdempotent.
  assert (explained d (OpCreate io request) (create_new io d request).1 (Created (create_new io d request).2)) as Hnew.
  { unfold create_new, write_job.
    assert (abs d !! Job_ID (Create_Job request) = None) as Hnone by (by rewrite abs_lookup, Hfresh).
    assert (abs_job (job_created (Create_Job request) (cio_now_job io)) = Some (AQueued 0)) as Habs.
    { unfold abs_job. cbn. by rewrite Hq, Ha. }
    assert (asteps maxAttempts (abs d) [LEnqueue (Job_ID (Create_Job request))]
      (abs (with_jobs d (<[Job_ID (Create_Job request) :=
         Ok (job_created (Create_Job request) (cio_now_job io))]> (disk_jobs d))))) as Hstep.
    { rewrite (abs_write _ _ _ _ Habs). apply asteps_one. by constructor. }
    destruct (cio_fail_job io); [exists []; split; [by right|constructor]|]. destruct (cio_fail_record io); cbn.
    - destruct (cio_remove_fails io); [eexists; split; [by left|done]|].
      exists []. split; [by right|].
      unfold abs, with_jobs. cbn. rewrite delete_insert_eq. rewrite delete_id by done. constructor.
    - destruct (append_audit _ _ _ _ _ _ _ _ _) as [? []]; cbn; (eexists; split; [|done]); [done|by left]. }
  assert (∀ content, explained d (OpCreate io request) d (Created (create_existing d request content))) as Hold.
  { intros content. exists []. split; [|constructor]. cbn. destruct (create_existing d request content) as [[job [|]]|] eqn:He;
      [done| |by right]. exfalso. revert He. unfold create_existing. destruct content; [|done]. cbn.
    destruct (negb _); [done|]. by destruct (read_file _ _). }
  destruct (_ || _); [exists []; split; [by right|constructor]|]. destruct (disk_idempotency d !! _); [|done].
  destruct (cio_idem_unreadable io); [done|]. apply Hold.
Qed.

Lemma claim_refines io w lease files : ∀ d,
  explained d (OpClaim io w lease) (claim_loop io d files w lease maxAttempts).1
    (Claimed (claim_loop io d files w lease maxAttempts).2).
Proof.
  induction files as [|path files IH]; intros d; cbn [claim_loop]; [exists []; split; [done|constructor]|].
  destruct (read_file _ path) as [j|] eqn:Hj; [|exists []; split; [by left|constructor]].
  case_bool_decide as Hq; cbn [negb orb]; [|apply IH]. case_bool_decide as Hm; [apply IH|].
  unfold write_job. destruct (jio_fail_write io path); [exists []; split; [by left|constructor]|]. cbn.
  apply abs_read in Hj. unfold abs_job in Hj. rewrite Hq in Hj.
  assert (asteps maxAttempts (abs d) [LClaim w path (jio_now io) lease] (abs (with_jobs d
    (<[path := Ok (job_claimed j w (jio_now io) lease)]> (disk_jobs d))))) as Hstep.
  { erewrite abs_write by done. apply asteps_one. constructor; [done|lia]. }
  destruct (append_audit _ _ _ _ _ _ _ _ _) as [? []]; cbn; (eexists; split; [|done]); [by eexists|right; by eexists].
Qed.

Lemma heartbeat_refines io d id w lease :
  explained d (OpHeartbeat io id w lease) (HeartbeatJob io d id w lease).1 (Answered (HeartbeatJob io d id w lease).2).
Proof.
  unfold HeartbeatJob. assert (∀ err, explained d (OpHeartbeat io id w lease) d (Answered (Err err))) as Hno
    by (exists []; split; [done|constructor]).
  destruct (read_file _ id) as [j|] eqn:Hj; [|apply Hno].
  case_bool_decide as Hr; cbn [negb orb]; [|apply Hno]. case_bool_decide as Ho; cbn [negb]; [|apply Hno].
  unfold write_job. destruct (jio_fail_write io id); [apply Hno|]. cbn.
  apply abs_read in Hj. unfold abs_job in Hj. rewrite Hr, Ho in Hj. eexists. split; [done|].
  erewrite abs_write by (unfold abs_job; cbn; by rewrite Hr).
  apply asteps_one. rewrite Ho. by eapply AHeartbeat.
Qed.

Lemma complete_refines io d id w st res msg :
  explained d (OpComplete io id w st res msg) (CompleteJob io d id w st res msg).1
    (Answered (CompleteJob io d id w st res msg).2).
Proof.
  unfold CompleteJob. assert (∀ err, explained d (OpComplete io id w st res msg) d (Answered (Err err))) as Hno
    by (intros err; exists []; split; [right; split; [apply bool_decide_eq_false; by intros [? ?]|done]|constructor]).
  destruct (read_file _ id) as [j|] eqn:Hj; [|apply Hno].
  case_bool_decide as Hr; cbn [negb orb]; [|apply Hno]. case_bool_decide as Ho; cbn [negb]; [|apply Hno].
  destruct (_ && _) eqn:Hst; [apply Hno|].
  assert (st = JobSucceeded ∨ st = JobFailed) as Hterm.
  { apply andb_false_iff in Hst as [?%negb_false_iff%bool_decide_eq_true
      |?%negb_false_iff%bool_decide_eq_true]; auto. }
  unfold write_job. destruct (jio_fail_write io id); [apply Hno|]. cbn.
  apply abs_read in Hj. unfold abs_job in Hj. rewrite Hr, Ho in Hj.
  destruct (append_audit _ _ _ _ _ _ _ _ _) as [a r]. eexists. split; [by left|]. cbn. rewrite abs_with_audit.
  erewrite abs_write; [apply asteps_one; by eapply AComplete|].
  unfold abs_job. cbn. by destruct Hterm as [->| ->].
Qed.

Lemma requeue_refines io files : ∀ d count, ∃ ls,
  Forall (λ l, ∃ id, l = LReap id (jio_now io)) ls ∧
  (requeue_loop io d files maxAttempts count).1.2 = count + length ls ∧
  asteps maxAttempts (abs d) ls (abs (requeue_loop io d files maxAttempts count).1.1).
Proof.
  induction files as [|path files IH]; intros d count; cbn [requeue_loop];
    [exists []; cbn; split_and!; [constructor|lia|constructor]|].
  assert (∃ ls, Forall (λ l, ∃ id, l = LReap id (jio_now io)) ls ∧ count = count + length ls ∧
    asteps maxAttempts (abs d) ls (abs d)) as Hno by (exists []; cbn; split_and!; [constructor|lia|constructor]).
  destruct (read_file _ path) as [j|] eqn:Hj; [|done].
  case_bool_decide as Hr; cbn [negb orb]; [|apply IH]. destruct (_ || _) eqn:Hexp; [apply IH|].
  unfold write_job. destruct (jio_fail_write io path); [done|].
  apply orb_false_iff in Hexp as [Hz%bool_decide_eq_false Ha%bool_decide_eq_false].
  destruct (IH (with_jobs d (<[path := Ok (job_expired j maxAttempts (jio_now io))]> (disk_jobs d))) (S count))
    as (ls & Hls & Hcount & Hsteps).
  exists (LReap path (jio_now io) :: ls). split_and!; [constructor; [by eexists|done]|rewrite Hcount; cbn; lia|].
  econstructor; [|exact Hsteps].
  apply abs_read in Hj. unfold abs_job in Hj. rewrite Hr in Hj.
  destruct (decide (maxAttempts ≤ Job_Attempts j)%Z) as [Hm|Hm].
  - erewrite abs_write by (unfold abs_job; cbn; by rewrite bool_decide_eq_true_2).
    eapply AExhaust; [done..|lia|done].
  - erewrite abs_write by (unfold abs_job; cbn; by rewrite bool_decide_eq_false_2).
    eapply ARequeue; [done..|lia|lia].
Qed.

Lemma op_refines d o : op_ok d o → explained d o (run_op maxAttempts d o) (op_answer maxAttempts d o).
Proof.
  destruct o; cbn [run_op op_answer]; intros Hok;
    eauto using create_refines, heartbeat_refines, complete_refines.
  - apply claim_refines.
  - unfold RequeueExpiredJobs. destruct (requeue_refines io (job_files d) d 0) as (ls & Hls & Hcount & Hsteps).
    destruct (requeue_loop _ _ _ _ _) as [[d' n] err]. exists ls. split; [|done]. by split.
Qed.

Lemma runs_refine d os d' : runs maxAttempts d os d' → arun maxAttempts (abs d) (answers maxAttempts d os) (abs d').
Proof. induction 1; [constructor|]. destruct (op_refines d o) as (ls & ? & ?); [done|]. by econstructor. Qed.

(** Every run of the queue is a sequence of its steps. *)
Lemma asteps_app q ls1 q1 ls2 q2 : asteps maxAttempts q ls1 q1 → asteps maxAttempts q1 ls2 q2 →
  asteps maxAttempts q (ls1 ++ ls2) q2.
Proof. induction 1; [done|]. intros. econstructor; eauto. Qed.

Lemma arun_asteps q os q' : arun maxAttempts q os q' → ∃ ls, asteps maxAttempts q ls q'.
Proof.
  induction 1 as [|q o a ls q1 os q2 _ Hs _ [ls' Hs']]; [by eexists; constructor|].
  eexists. by eapply asteps_app.
Qed.
End refinement.

Lemma idempotency_id_eq r1 r2 :
  Create_PrincipalFingerprint r2 = Create_PrincipalFingerprint r1 →
  Create_Route r2 = Create_Route r1 → Create_IdempotencyKey r2 = Create_IdempotencyKey r1 →
  idempotency_id r2 = idempotency_id r1.
Proof. unfold idempotency_id. by intros -> -> ->. Qed.

#[local] Opaque append_audit idempotency_id.

(** ** Lemmas: one operation and one job file *)

Definition terminal (j : Job) : Prop := Job_State j = JobSucceeded ∨ Job_State j = JobFailed.

Section files.
Context `{!Json AuditEvent} (maxAttempts : Z).

Lemma with_audit_jobs d a : disk_jobs (with_audit d a) = disk_jobs d.
Proof. done. Qed.
Lemma with_idempotency_jobs d i : disk_jobs (with_idempotency d i) = disk_jobs d.
Proof. done. Qed.
Lemma with_jobs_jobs d m : disk_jobs (with_jobs d m) = m.
Proof. done. Qed.

(** A file keeps its content when a job in another state is written. *)
Lemma write_job_other d fail stem job d' r id j :
  write_job d fail stem job = (d', r) → stem ≠ id →
  disk_jobs d !! id = Some (Ok j) → disk_jobs d' !! id = Some (Ok j).
Proof.
  unfold write_job. destruct fail; intros; simplify_eq; [done|].
  by rewrite with_jobs_jobs, lookup_insert_ne.
Qed.

Lemma not_terminal_ne d stem j id j' :
  read_file (disk_jobs d) stem = Ok j → ¬ terminal j →
  disk_jobs d !! id = Some (Ok j') → terminal j' → stem ≠ id.
Proof. intros ?%read_file_Ok Hn ? Ht ->. simplify_eq. done. Qed.

Lemma claim_keeps_terminal io w lease files : ∀ d id j,
  terminal j → disk_jobs d !! id = Some (Ok j) →
  disk_jobs (claim_loop io d files w lease maxAttempts).1 !! id = Some (Ok j).
Proof.
  induction files as [|path files IH]; intros d id j Ht Hid; cbn; [done|].
  destruct (read_file _ path) as [j'|] eqn:Hj; [|done].
  case_bool_decide as Hq; cbn; [|by apply IH]. case_bool_decide as Hm; [by apply IH|].
  destruct (write_job _ _ _ _) as [d' r] eqn:Hw.
  assert (disk_jobs d' !! id = Some (Ok j)) as Hd'.
  { eapply write_job_other; [done| |done]. eapply not_terminal_ne; [done| |done..].
    intros [H|H]; congruence. }
  destruct r; [|done]. by destruct (append_audit _ _ _ _ _ _ _ _ _) as [? []].
Qed.

Lemma requeue_keeps_terminal io files : ∀ d count id j,
  terminal j → disk_jobs d !! id = Some (Ok j) →
  disk_jobs (requeue_loop io d files maxAttempts count).1.1 !! id = Some (Ok j).
Proof.
  induction files as [|path files IH]; intros d count id j Ht Hid; cbn; [done|].
  destruct (read_file _ path) as [j'|] eqn:Hj; [|done].
  case_bool_decide as Hq; cbn; [|by apply IH]. destruct (_ || _); [by apply IH|].
  destruct (write_job _ _ _ _) as [d' r] eqn:Hw.
  assert (disk_jobs d' !! id = Some (Ok j)) as Hd'.
  { eapply write_job_other; [done| |done]. eapply not_terminal_ne; [done| |done..].
    intros [H|H]; congruence. }
  destruct r; [by apply IH|done].
Qed.

Lemma heartbeat_rejected io d id w lease j :
  disk_jobs d !! id = Some (Ok j) → Job_State j ≠ JobRunning ∨ Job_LeaseOwner j ≠ w →
  HeartbeatJob io d id w lease = (d, Err not_owned).
Proof.
  intros Hj Hor. unfold HeartbeatJob, read_file. rewrite Hj.
  by destruct Hor; repeat case_bool_decide.
Qed.

Lemma complete_rejected io d id w st res msg j :
  disk_jobs d !! id = Some (Ok j) → Job_State j ≠ JobRunning ∨ Job_LeaseOwner j ≠ w →
  CompleteJob io d id w st res msg = (d, Err not_owned).
Proof.
  intros Hj Hor. unfold CompleteJob, read_file. rewrite Hj.
  by destruct Hor; repeat case_bool_decide.
Qed.

Lemma create_keeps_terminal io d request id j :
  op_ok d (OpCreate io request) → disk_jobs d !! id = Some (Ok j) →
  disk_jobs (CreateJobIdempotent io d request).1 !! id = Some (Ok j).
Proof.
  intros (_ & _ & Hfresh) Hid.
  assert (Job_ID (Create_Job request) ≠ id) by congruence.
  assert (disk_jobs (create_new io d request).1 !! id = Some (Ok j)) as Hnew.
  { unfold create_new, write_job. destruct (cio_fail_job io); [done|].
    destruct (cio_fail_record io); [destruct (cio_remove_fails io)|].
    - cbn. by rewrite with_jobs_jobs, lookup_insert_ne.
    - cbn. by rewrite !with_jobs_jobs, delete_insert_eq, lookup_delete_ne.
    - destruct (append_audit _ _ _ _ _ _ _ _ _) as [? []];
        cbn; by rewrite with_audit_jobs, with_idempotency_jobs, with_jobs_jobs, lookup_insert_ne. }
  unfold CreateJobIdempotent. destruct (_ || _); [done|].
  destruct (disk_idempotency d !! _); [|done]. by destruct (cio_idem_unreadable io).
Qed.

Lemma write_owned_keeps d fail id w st j j' d' r :
  read_file (disk_jobs d) id = Ok j → negb (bool_decide (Job_State j = JobRunning)) ||
    negb (bool_decide (Job_LeaseOwner j = w)) = false →
  write_job d fail id st = (d', r) → ∀ id', disk_jobs d !! id' = Some (Ok j') → terminal j' →
  disk_jobs d' !! id' = Some (Ok j').
Proof.
  intros Hj Hg Hw id' Hid' Ht. eapply write_job_other; [done| |done].
  eapply not_terminal_ne; [done| |done..].
  revert Hg. case_bool_decide; [|done]. intros _ [H'|H']; congruence.
Qed.

Lemma op_keeps_terminal d o id j :
  op_ok d o → terminal j → disk_jobs d !! id = Some (Ok j) →
  disk_jobs (run_op maxAttempts d o) !! id = Some (Ok j).
Proof.
  destruct o as [io rq|io w lease|io id' w lease|io id' w st res msg|io]; cbn [run_op];
    intros Hok Ht Hid.
  - by eapply create_keeps_terminal.
  - by apply claim_keeps_terminal.
  - unfold HeartbeatJob. destruct (read_file _ id') as [j'|] eqn:Hj; [|done].
    destruct (_ || _) eqn:Hg; [done|]. destruct (write_job _ _ _ _) as [d' r] eqn:Hw.
    by eapply write_owned_keeps.
  - unfold CompleteJob. destruct (read_file _ id') as [j'|] eqn:Hj; [|done].
    destruct (_ || _) eqn:Hg; [done|]. destruct (_ && _); [done|].
    destruct (write_job _ _ _ _) as [d' [u|e]] eqn:Hw;
      [destruct (append_audit _ _ _ _ _ _ _ _ _) as [a r]; cbn; rewrite with_audit_jobs|cbn];
      by eapply write_owned_keeps.
  - by apply requeue_keeps_terminal.
Qed.

Lemma runs_keep_terminal d os d' id j :
  runs maxAttempts d os d' → terminal j → disk_jobs d !! id = Some (Ok j) →
  disk_jobs d' !! id = Some (Ok j).
Proof. induction 1; eauto using op_keeps_terminal. Qed.

(** The record of a request that has been accepted *)
Definition recorded (d : disk) (request : CreateJobRequest) (job : Job) : Prop :=
  ∃ record, disk_idempotency d !! idempotency_id request = Some (Ok record) ∧
    Idem_RequestDigest record = Create_RequestDigest request ∧
    read_file (disk_jobs d) (Idem_JobID record) = Ok job.

Lemma create_new_recorded io d request d' job existed :
  create_new io d request = (d', Ok (job, existed)) → recorded d' request job.
Proof.
  unfold create_new, recorded, write_job. generalize (idempotency_id request) as key. intros key.
  destruct (cio_fail_job io); [done|]. destruct (cio_fail_record io); [by case_match|].
  destruct (append_audit _ _ _ _ _ _ _ _ _) as [a [u|]]; [|done].
  intros [= <- <- _]. eexists. unfold with_audit, with_idempotency, with_jobs. cbn.
  rewrite lookup_insert_eq. split_and!; [done..|]. cbn. unfold read_file.
  by rewrite lookup_insert_eq.
Qed.

Lemma create_existing_recorded d request content job existed :
  disk_idempotency d !! idempotency_id request = Some content →
  create_existing d request content = Ok (job, existed) → recorded d request job.
Proof.
  unfold recorded. generalize (idempotency_id request) as key. intros key Hc.
  unfold create_existing, rbind. destruct content as [record|]; [|done].
  case_bool_decide; [|done]. cbn. intros Hex. exists record.
  destruct (read_file _ _); by simplify_eq.
Qed.

(** What a requeue pass does to the files it walks *)
Lemma requeue_loop_files io files : ∀ d count d' n,
  NoDup files → requeue_loop io d files maxAttempts count = (d', n, None) →
  (∀ id j, disk_jobs d !! id = Some (Ok j) →
     disk_jobs d' !! id = Some (Ok (if bool_decide (id ∈ files) && lease_lapsed (jio_now io) j
       then job_expired j maxAttempts (jio_now io) else j))).
Proof.
  induction files as [|path files IH]; intros d count d' n Hnd Hrun id j Hid; cbn in Hrun.
  { by simplify_eq. }
  apply NoDup_cons in Hnd as [Hpath Hnd].
  destruct (read_file _ path) as [j0|] eqn:Hj; [|done].
  pose proof (read_file_Ok _ _ _ Hj) as Hj0.
  assert (bool_decide (id ∈ path :: files) = bool_decide (id = path) || bool_decide (id ∈ files))
    as Hmem.
  { repeat case_bool_decide; set_solver. }
  rewrite Hmem.
  assert (lease_lapsed (jio_now io) j0 = negb (negb (bool_decide (Job_State j0 = JobRunning)) ||
    IsZero (Job_LeaseExpires j0) || After (Job_LeaseExpires j0) (jio_now io))) as Hl.
  { unfold lease_lapsed. by rewrite !negb_orb, negb_involutive. }
  destruct (_ || _ || _).
  - rewrite (IH _ _ _ _ Hnd Hrun id j Hid). do 3 f_equal.
    destruct (decide (id = path)) as [->|Hne]; [|by rewrite (bool_decide_eq_false_2 (id = path))].
    simplify_eq. rewrite Hl. by rewrite !andb_false_r.
  - unfold write_job in Hrun. destruct (jio_fail_write io path); [done|].
    destruct (decide (id = path)) as [->|Hne].
    + simplify_eq. erewrite (IH _ _ _ _ Hnd Hrun path) by (rewrite with_jobs_jobs; apply lookup_insert_eq).
      rewrite (bool_decide_eq_true_2 (path = path)) by done. rewrite Hl. cbn.
      by rewrite (bool_decide_eq_false_2 (path ∈ files)) by done.
    + rewrite (bool_decide_eq_false_2 (id = path)) by done. cbn [orb].
      eapply IH; [done..|]. by rewrite with_jobs_jobs, lookup_insert_ne.
Qed.

Lemma elem_of_job_files d id : id ∈ job_files d ↔ is_Some (disk_jobs d !! id).
Proof.
  unfold job_files. rewrite elem_of_sort_by, list_elem_of_fmap. split.
  - intros ([k v] & -> & ?%elem_of_map_to_list). by eexists.
  - intros [r ?]. exists (id, r). by rewrite elem_of_map_to_list.
Qed.

Lemma NoDup_job_files d : NoDup (job_files d).
Proof. unfold job_files. rewrite NoDup_sort_by. apply NoDup_fst_map_to_list. Qed.

(** What the claim loop returns *)
Lemma claim_loop_spec io w lease files : ∀ d d' r,
  claim_loop io d files w lease maxAttempts = (d', Ok r) →
  match r with
  | None => d' = d ∧ ∀ id j, id ∈ files → disk_jobs d !! id = Some (Ok j) → claimable maxAttempts j = false
  | Some j' => ∃ pre id post j, files = pre ++ id :: post ∧ disk_jobs d !! id = Some (Ok j) ∧
      claimable maxAttempts j = true ∧ j' = job_claimed j w (jio_now io) lease ∧
      disk_jobs d' = <[id := Ok j']> (disk_jobs d) ∧
      ∀ id0 j0, id0 ∈ pre → disk_jobs d !! id0 = Some (Ok j0) → claimable maxAttempts j0 = false
  end.
Proof.
  induction files as [|path files IH]; intros d d' r Hrun; cbn in Hrun.
  { simplify_eq. split; [done|]. set_solver. }
  destruct (read_file _ path) as [j|] eqn:Hj; [|done]. apply read_file_Ok in Hj.
  assert (claimable maxAttempts j = negb (negb (bool_decide (Job_State j = JobQueued)) ||
    bool_decide (maxAttempts ≤ Job_Attempts j)%Z)) as Hc.
  { unfold claimable. by rewrite negb_orb, negb_involutive. }
  destruct (_ || _).
  - specialize (IH _ _ _ Hrun). destruct r as [j'|].
    + destruct IH as (pre & id & post & j0 & -> & Hid & Hcl & Hj' & Hd' & Hpre).
      exists (path :: pre), id, post, j0. split_and!; [done..|].
      intros id0 j1 [->|Hin]%elem_of_cons ?; [by simplify_eq|eauto].
    + destruct IH as [-> Hnone]. split; [done|].
      intros id0 j1 [->|Hin]%elem_of_cons ?; [by simplify_eq|eauto].
  - unfold write_job in Hrun. destruct (jio_fail_write io path); [done|].
    destruct (append_audit _ _ _ _ _ _ _ _ _) as [a [u|e]]; simplify_eq.
    exists [], path, files, j. split_and!; [done..|set_solver].
Qed.
End files.

(** ** Properties *)

(** C4: Refinement: whatever operations workers and clients run, and whatever
    file operation fails in them, every operation with its answer is explained
    by steps of the abstract queue that are its own - enqueueing its job,
    claiming one for its worker, a heartbeat or a completion by the worker that
    holds the lease, or taking back running jobs whose lease has lapsed.  What a
    caller is told was done was done, a refused heartbeat and a replayed request
    do nothing, and the count of a requeue is the number of jobs taken back. *)
Theorem runs_refine_queue `{!Json AuditEvent} maxAttempts d os d'
    (Hrun : runs maxAttempts d os d') :
  arun maxAttempts (abs d) (answers maxAttempts d os) (abs d').
Proof. by eapply runs_refine. Qed.

(** The attempts of a job in the abstract queue *)
Definition ajob_ok (maxAttempts : Z) (a : ajob) : Prop :=
  match a with
  | AQueued n => 0 ≤ n < maxAttempts
  | ARunning n _ _ => 0 < n ≤ maxAttempts
  | ADone st n => 0 < n ≤ maxAttempts ∧ (st = JobSucceeded ∨ st = JobFailed)
  end%Z.

Lemma astep_ok maxAttempts q l q' :
  (0 < maxAttempts)%Z → astep maxAttempts q l q' →
  map_Forall (λ _, ajob_ok maxAttempts) q → map_Forall (λ _, ajob_ok maxAttempts) q'.
Proof.
  intros Hm Hs Hq. inv Hs; (apply map_Forall_insert_2; [|done]);
    repeat match goal with H : q !! _ = Some _ |- _ => apply Hq in H end; cbn in *;
    try tauto; lia.
Qed.

Lemma asteps_ok maxAttempts q ls q' :
  (0 < maxAttempts)%Z → asteps maxAttempts q ls q' →
  map_Forall (λ _, ajob_ok maxAttempts) q → map_Forall (λ _, ajob_ok maxAttempts) q'.
Proof. induction 2; eauto using astep_ok. Qed.

Lemma abs_job_state j a : abs_job j = Some a →
  match a with
  | AQueued n => Job_State j = JobQueued ∧ Job_Attempts j = n
  | ARunning n w t => Job_State j = JobRunning ∧ Job_Attempts j = n ∧ Job_LeaseOwner j = w
  | ADone st n => Job_State j = st ∧ Job_Attempts j = n
  end.
Proof. unfold abs_job. destruct (Job_State j); intros; by simplify_eq. Qed.

(** No job is stuck or retried for ever: in every disk reached from an
    empty queue a queued job still has an attempt left, so it can be claimed;
    a running job has used at least one attempt and no job ever uses more than
    [maxAttempts]. *)
Theorem reachable_attempts `{!Json AuditEvent} maxAttempts d os d' id j
    (Hmax : (0 < maxAttempts)%Z) (Hempty : disk_jobs d = ∅)
    (Hrun : runs maxAttempts d os d') (Hj : disk_jobs d' !! id = Some (Ok j)) :
  (Job_State j = JobQueued → claimable maxAttempts j = true) ∧
  (Job_State j = JobRunning ∨ terminal j → (0 < Job_Attempts j)%Z) ∧
  ((∀ s, Job_State j ≠ JobOther s) → (Job_Attempts j ≤ maxAttempts)%Z).
Proof.
  assert (map_Forall (λ _, ajob_ok maxAttempts) (abs d')) as Hok.
  { apply runs_refine, arun_asteps in Hrun as [ls Hsteps]. eapply asteps_ok; [done..|].
    unfold abs. rewrite Hempty, omap_empty. apply map_Forall_empty. }
  assert (∀ a, abs_job j = Some a → ajob_ok maxAttempts a) as Hja.
  { intros a Ha. apply (Hok id). rewrite abs_lookup, Hj. exact Ha. }
  unfold abs_job, claimable, terminal in *.
  destruct (Job_State j) as [| | | |other] eqn:Hst; try (specialize (Hja _ eq_refl); cbn in Hja);
    (split_and!; [intros; try done|intros [?|[?|?]]; try done; try lia|intros Hs; try lia]).
  - rewrite bool_decide_eq_true_2 by done. cbn.
    by rewrite bool_decide_eq_false_2 by lia.
  - by destruct (Hs other).
Qed.

(** A finished job is never touched again: over any sequence of
    operations its file keeps exactly its content, result included. *)
Theorem finished_jobs_are_final `{!Json AuditEvent} maxAttempts d os d' id j
    (Hrun : runs maxAttempts d os d') (Hj : disk_jobs d !! id = Some (Ok j))
    (Hdone : terminal j) :
  disk_jobs d' !! id = Some (Ok j).
Proof. by eapply runs_keep_terminal. Qed.

(** Claiming is first come first served and exclusive: the claimed job is
    the first claimable one in the order of the file names, it becomes running
    under a lease of the worker with one more attempt, and no other job file
    changes; nothing is returned only when no job is claimable, and then
    nothing is changed. *)
Theorem ClaimNextJob_first `{!Json AuditEvent} io d w lease maxAttempts d' r
    (Hrun : ClaimNextJob io d w lease maxAttempts = (d', Ok r)) :
  match r with
  | None => d' = d ∧ ∀ id j, disk_jobs d !! id = Some (Ok j) → claimable maxAttempts j = false
  | Some j' => ∃ id j, disk_jobs d !! id = Some (Ok j) ∧ claimable maxAttempts j = true ∧
      j' = job_claimed j w (jio_now io) lease ∧ claimable maxAttempts j' = false ∧
      disk_jobs d' = <[id := Ok j']> (disk_jobs d) ∧
      ∀ id0 j0, disk_jobs d !! id0 = Some (Ok j0) → claimable maxAttempts j0 = true →
        String.le (file_name id) (file_name id0)
  end.
Proof.
  apply claim_loop_spec in Hrun. destruct r as [j'|].
  - destruct Hrun as (pre & id & post & j & Hfiles & Hid & Hcl & -> & Hd' & Hpre).
    exists id, j. split_and!; [done..|]. intros id0 j0 Hid0 Hcl0.
    assert (id0 ∈ pre ++ id :: post) as [Hin|[->|Hin]%elem_of_cons]%elem_of_app.
    { rewrite <-Hfiles. apply elem_of_job_files. by eexists. }
    + by rewrite (Hpre _ _ Hin Hid0) in Hcl0.
    + done.
    + pose proof (sort_by_sorted file_name (map_to_list (disk_jobs d)).*1) as Hs.
      change (StronglySorted (key_le file_name) (job_files d)) in Hs. rewrite Hfiles in Hs.
      apply StronglySorted_app in Hs as (_ & _ & Hs). apply StronglySorted_cons in Hs as [Hs _].
      rewrite Forall_forall in Hs. by apply Hs.
  - destruct Hrun as [-> Hnone]. split; [done|]. intros id j Hid.
    apply (Hnone id); [|done]. apply elem_of_job_files. by eexists.
Qed.

(** A worker whose lease has lapsed is fenced off: after a completed
    requeue pass every lapsed job is queued again, or failed once its attempts
    are used up, every other job is as it was, and a late heartbeat or
    completion of a lapsed job by any worker is refused without effect. *)
Theorem requeue_fences_lapsed `{!Json AuditEvent} io d maxAttempts d' n
    (Hrun : RequeueExpiredJobs io d maxAttempts = (d', n, None)) id j
    (Hj : disk_jobs d !! id = Some (Ok j)) :
  if lease_lapsed (jio_now io) j then
    disk_jobs d' !! id = Some (Ok (job_expired j maxAttempts (jio_now io))) ∧
    ∀ io' w lease st res msg,
      HeartbeatJob io' d' id w lease = (d', Err not_owned) ∧
      CompleteJob io' d' id w st res msg = (d', Err not_owned)
  else disk_jobs d' !! id = Some (Ok j).
Proof.
  pose proof (requeue_loop_files _ _ _ _ _ _ _ (NoDup_job_files d) Hrun id j Hj) as Hid.
  rewrite (bool_decide_eq_true_2 (id ∈ job_files d)) in Hid by (apply elem_of_job_files; by eexists).
  cbn in Hid. destruct (lease_lapsed (jio_now io) j); [|done]. split; [done|]. intros.
  assert (Job_State (job_expired j maxAttempts (jio_now io)) ≠ JobRunning).
  { cbn. by case_bool_decide. }
  split; [by eapply heartbeat_rejected; eauto|by eapply complete_rejected; eauto].
Qed.

(** Idempotent submission: after a successful [CreateJobIdempotent] a
    second one with the same fingerprint, route, key and digest returns the
    same job without creating anything, and one with another digest is
    refused as a conflict; neither changes the disk. *)
Theorem CreateJob_idempotent `{!Json AuditEvent} io d request d' job existed io2 request2
    (Hrun : CreateJobIdempotent io d request = (d', Ok (job, existed)))
    (Hfp : Create_PrincipalFingerprint request2 = Create_PrincipalFingerprint request)
    (Hroute : Create_Route request2 = Create_Route request)
    (Hkey : Create_IdempotencyKey request2 = Create_IdempotencyKey request)
    (Hdigest : Create_RequestDigest request2 ≠ "")
    (Hread : cio_idem_unreadable io = false) (Hread2 : cio_idem_unreadable io2 = false) :
  CreateJobIdempotent io2 d' request2 =
    (d', if decide (Create_RequestDigest request2 = Create_RequestDigest request)
         then Ok (job, true) else Err ErrIdempotencyConflict).
Proof.
  pose proof (idempotency_id_eq _ _ Hfp Hroute Hkey) as Hid.
  unfold CreateJobIdempotent in *. rewrite Hkey, Hid, Hread2.
  destruct (_ || _) eqn:Hreq in Hrun; [done|].
  apply orb_false_iff in Hreq as [-> _].
  rewrite (bool_decide_eq_false_2 (Create_RequestDigest request2 = "")) by done. cbn [orb].
  assert (recorded d' request job) as (record & -> & Hd & Hjob).
  { destruct (disk_idempotency d !! idempotency_id request) as [content|] eqn:Hc;
      [|by eapply create_new_recorded].
    rewrite Hread in Hrun. injection Hrun as <- Hex. by eapply create_existing_recorded. }
  unfold create_existing. cbn. rewrite Hd.
  destruct (decide _) as [Heq|Hne].
  - rewrite bool_decide_eq_true_2 by done. cbn. by rewrite Hjob.
  - by rewrite bool_decide_eq_false_2 by done.
Qed.

(** ** Witnesses *)

#[local] Transparent append_audit idempotency_id.

Definition sample_job : Job :=
  mkJob 0 "job_1" "analysis" JobQueued "{}" "p" 0 0 "" 0 0 0 "" "".
Definition sample_request : CreateJobRequest :=
  mkCreateJobRequest sample_job "p" "POST /v1/analyses" "key" "digest".
Definition sample_create_io : create_io := mkCreateIO 5 5 5 false None None false NoFault.
Definition sample_io (now : time) : job_io := mkJobIO now now (λ _, None) NoFault.
Definition empty_disk : disk := mkDisk ∅ ∅ None.

Definition sample_ops : list op :=
  [OpCreate sample_create_io sample_request; OpClaim (sample_io 10) "w" 30;
   OpRequeue (sample_io 50); OpClaim (sample_io 60) "v" 30;
   OpComplete (sample_io 70) "job_1" "v" JobSucceeded "ana_1" ""].

Definition sample_run (ops : list op) : disk :=
  foldl (@run_op quick_codec 3) empty_disk ops.

Lemma sample_runs : @runs quick_codec 3 empty_disk sample_ops (sample_run sample_ops).
Proof. repeat first [apply runs_nil|apply runs_cons; [vm_compute; done|]]. Defined.

Lemma runs_refine_queue_witness :
  arun 3 (abs empty_disk) (@answers quick_codec 3 empty_disk sample_ops) (abs (sample_run sample_ops)).
Proof. apply (@runs_refine_queue quick_codec 3 empty_disk sample_ops). exact sample_runs. Defined.

Definition sample_final : Job :=
  mkJob 3 "job_1" "analysis" JobSucceeded "{}" "p" 5 70 "" 0 60 2 "ana_1" "".

Lemma sample_final_ok : disk_jobs (sample_run sample_ops) !! "job_1" = Some (Ok sample_final).
Proof. vm_compute. reflexivity. Defined.

Lemma reachable_attempts_witness :
  (Job_State sample_final = JobQueued → claimable 3 sample_final = true) ∧
  (Job_State sample_final = JobRunning ∨ terminal sample_final → (0 < Job_Attempts sample_final)%Z) ∧
  ((∀ s, Job_State sample_final ≠ JobOther s) → (Job_Attempts sample_final ≤ 3)%Z).
Proof.
  apply (@reachable_attempts quick_codec 3 empty_disk sample_ops (sample_run sample_ops) "job_1").
  - lia.
  - reflexivity.
  - exact sample_runs.
  - exact sample_final_ok.
Defined.

Lemma finished_jobs_are_final_witness :
  disk_jobs (foldl (@run_op quick_codec 3) (sample_run sample_ops)
    [OpRequeue (sample_io 900); OpClaim (sample_io 901) "w" 30]) !! "job_1" = Some (Ok sample_final).
Proof.
  apply (@finished_jobs_are_final quick_codec 3 (sample_run sample_ops)
    [OpRequeue (sample_io 900); OpClaim (sample_io 901) "w" 30] _ "job_1" sample_final).
  - repeat first [apply runs_nil|apply runs_cons; [exact I|]].
  - exact sample_final_ok.
  - left. reflexivity.
Defined.

Definition sample_claimed : Job :=
  mkJob 3 "job_1" "analysis" JobRunning "{}" "p" 5 10 "w" 40 10 1 "" "".
Definition queued_disk : disk := sample_run [OpCreate sample_create_io sample_request].
Definition claimed_disk : disk := (@ClaimNextJob quick_codec (sample_io 10) queued_disk "w" 30 3).1.

Lemma ClaimNextJob_first_witness :
  ∃ id j, disk_jobs queued_disk !! id = Some (Ok j) ∧ claimable 3 j = true ∧
      sample_claimed = job_claimed j "w" 10 30 ∧ claimable 3 sample_claimed = false ∧
      disk_jobs claimed_disk = <[id := Ok sample_claimed]> (disk_jobs queued_disk) ∧
      ∀ id0 j0, disk_jobs queued_disk !! id0 = Some (Ok j0) → claimable 3 j0 = true →
        String.le (file_name id) (file_name id0).
Proof.
  apply (@ClaimNextJob_first quick_codec (sample_io 10) queued_disk "w" 30 3 claimed_disk
    (Some sample_claimed)).
  vm_compute. reflexivity.
Defined.

Definition requeued_disk : disk := (@RequeueExpiredJobs (sample_io 50) claimed_disk 3).1.1.

Lemma requeue_fences_lapsed_witness :
  disk_jobs requeued_disk !! "job_1" = Some (Ok (job_expired sample_claimed 3 50)) ∧
  ∀ io' w lease st res msg,
    HeartbeatJob io' requeued_disk "job_1" w lease = (requeued_disk, Err not_owned) ∧
    @CompleteJob quick_codec io' requeued_disk "job_1" w st res msg =
      (requeued_disk, Err not_owned).
Proof.
  refine (@requeue_fences_lapsed quick_codec (sample_io 50) claimed_disk 3 requeued_disk 1 _
    "job_1" sample_claimed _).
  - vm_compute. reflexivity.
  - vm_compute. reflexivity.
Defined.

Lemma CreateJob_idempotent_witness :
  @CreateJobIdempotent quick_codec sample_create_io queued_disk sample_request =
    (queued_disk, Ok (job_created sample_job 5, true)).
Proof.
  apply (@CreateJob_idempotent quick_codec sample_create_io empty_disk sample_request queued_disk
    (job_created sample_job 5) false sample_create_io sample_request); try reflexivity.
  - discriminate.
Defined.
