(* ===== verification/Manager.v ===== *)
(** * Manager: the workers that run the queued jobs

    Models [src/internal/jobs/manager.go].  A manager is a state machine: the
    disk of the queue, the wake channel, the workers' goroutines, the heartbeat
    goroutines and the reaper.  Every event is one step of one goroutine, up to
    its next call of the store, so any order of events is a possible schedule.
    What a handler does and returns is outside: its result is part of the event
    that ends it. *)

From S2P Require Import Prelude Sha256 Model Json AuditLog Jobs.

(** ** State *)

Record Manager := mkManager {
  manager_workers : nat;
  manager_lease : Z;
  manager_maxAttempts : Z;
  manager_kinds : list string;       (** the keys of [handlers] *)
}.

(** [New] makes no handlers; [Register] adds one. *)
Definition New (workers : nat) (lease maxAttempts : Z) : Manager := mkManager workers lease maxAttempts [].
Definition Register (m : Manager) (kind : string) : Manager :=
  mkManager (manager_workers m) (manager_lease m) (manager_maxAttempts m) (kind :: manager_kinds m).

(** Where the goroutine of a worker is: in the [select], in the inner loop, in
    the handler of a job, or gone.  The flag says that the context of the
    handler was cancelled after a failed heartbeat. *)
Inductive worker :=
  | Selecting
  | Claiming
  | Executing (job : Job) (cancelled : bool)
  | Returned.

(** A heartbeat goroutine: the worker, the job and the attempt it is for *)
Definition beat : Type := string * string * Z.

Record mstate := mkState {
  m_disk : disk;
  m_wake : bool;                       (** the buffer of [wake] is full *)
  m_done : bool;                       (** [ctx.Done()] *)
  m_workers : gmap string worker;
  m_beats : gset beat;
  m_executed : list (string * Z);      (** history: the handlers started, by job and attempt *)
}.

Definition set_disk (s : mstate) (d : disk) : mstate :=
  mkState d (m_wake s) (m_done s) (m_workers s) (m_beats s) (m_executed s).
Definition set_wake (s : mstate) (wake : bool) : mstate :=
  mkState (m_disk s) wake (m_done s) (m_workers s) (m_beats s) (m_executed s).
Definition set_done (s : mstate) : mstate :=
  mkState (m_disk s) (m_wake s) true (m_workers s) (m_beats s) (m_executed s).
Definition set_worker (s : mstate) (w : string) (p : worker) : mstate :=
  mkState (m_disk s) (m_wake s) (m_done s) (<[w := p]> (m_workers s)) (m_beats s) (m_executed s).
Definition set_beats (s : mstate) (beats : gset beat) : mstate :=
  mkState (m_disk s) (m_wake s) (m_done s) (m_workers s) beats (m_executed s).
Definition set_executed (s : mstate) (executed : list (string * Z)) : mstate :=
  mkState (m_disk s) (m_wake s) (m_done s) (m_workers s) (m_beats s) executed.

(** [Notify] *)
Definition Notify (s : mstate) : mstate := set_wake s true.

(** [Run] starts the workers over the disk that it finds. *)
Definition worker_name (index : nat) : string := "worker-" +:+ show_Z (Z.of_nat index + 1).
Definition start (m : Manager) (d : disk) : mstate :=
  mkState d false false (list_to_map ((λ index, (worker_name index, Selecting)) <$> seq 0 (manager_workers m))) ∅ [].

(** A process that dies leaves its disk; the next one starts with new workers
    and no heartbeats.  A crash between two file operations of one call of the
    store is a call that failed at the second, and then a crash. *)
Definition restart (m : Manager) (s : mstate) : mstate :=
  set_executed (start m (m_disk s)) (m_executed s).

(** ** Operations *)

Definition key_is_required : error := ErrMsg "idempotency key is required".
Definition no_handler : string := "no handler registered".

Section manager.
Context `{PAudit : !Json AuditEvent} (m : Manager).

Definition new_job (id kind payload principal : string) (created updated : time) : Job :=
  mkJob 3 id kind JobQueued payload principal created updated "" 0 0 0 "" "".

(** [id] is the random identifier; [created] and [updated] are what the clock
    returns. *)
Definition Enqueue (io : create_io) (id : string) (created updated : time) (s : mstate)
    (kind payload principal fingerprint idempotencyKey requestDigest : string) : mstate * result (Job * bool) :=
  if bool_decide (idempotencyKey = "") then (s, Err key_is_required)
  else
    match CreateJobIdempotent io (m_disk s)
            (mkCreateJobRequest (new_job id kind payload principal created updated) fingerprint kind idempotencyKey
               requestDigest) with
    | (d, Err err) => (set_disk s d, Err err)
    | (d, Ok r) => (Notify (set_disk s d), Ok r)
    end.

(** The beginning of [execute]: the heartbeat goroutine and the handler start;
    without a handler neither does. *)
Definition begin (s : mstate) (w : string) (job : Job) : mstate :=
  let s := set_worker s w (Executing job false) in
  if bool_decide (Job_Type job ∈ manager_kinds m) then
    set_executed (set_beats s ({[(w, Job_ID job, Job_Attempts job)]} ∪ m_beats s))
      (m_executed s ++ [(Job_ID job, Job_Attempts job)])
  else s.

(** One turn of the inner loop of [worker] *)
Definition claim (io : job_io) (s : mstate) (w : string) : mstate :=
  match ClaimNextJob io (m_disk s) w (manager_lease m) (manager_maxAttempts m) with
  | (d, Ok (Some job)) => begin (set_disk s d) w job
  | (d, _) => set_worker (set_disk s d) w Selecting
  end.

(** The context of a handler: cancelled with the manager's, or by a heartbeat *)
Definition job_done (s : mstate) (w id : string) (attempt : Z) : bool :=
  match m_workers s !! w with
  | Some (Executing job cancelled) =>
      if bool_decide (Job_ID job = id) && bool_decide (Job_Attempts job = attempt)
      then cancelled || m_done s else true
  | _ => true
  end.

(** One tick of a heartbeat goroutine; a refused heartbeat cancels its handler. *)
Definition cancel (s : mstate) (w id : string) (attempt : Z) : mstate :=
  match m_workers s !! w with
  | Some (Executing job _) =>
      if bool_decide (Job_ID job = id) && bool_decide (Job_Attempts job = attempt)
      then set_worker s w (Executing job true) else s
  | _ => s
  end.
Definition heartbeat (io : job_io) (s : mstate) (w id : string) (attempt : Z) : mstate :=
  match HeartbeatJob io (m_disk s) id w (manager_lease m) with
  | (d, Ok _) => set_disk s d
  | (d, Err _) => cancel (set_beats (set_disk s d) (m_beats s ∖ {[(w, id, attempt)]})) w id attempt
  end.

(** The end of [execute]; the error of [CompleteJob] is ignored. *)
Definition finish (io : job_io) (s : mstate) (w : string) (job : Job) (r : result string) : mstate :=
  let r := if bool_decide (Job_Type job ∈ manager_kinds m) then r else Err (ErrMsg no_handler) in
  let d := match r with
           | Err err => (CompleteJob io (m_disk s) (Job_ID job) w JobFailed "" (error_text err)).1
           | Ok value => (CompleteJob io (m_disk s) (Job_ID job) w JobSucceeded value "").1
           end in
  set_worker (set_disk s d) w Claiming.

(** One tick of the reaper; the error is ignored. *)
Definition reap (io : job_io) (s : mstate) : mstate :=
  let '(d, count, _) := RequeueExpiredJobs io (m_disk s) (manager_maxAttempts m) in
  let s := set_disk s d in
  if bool_decide (0 < count) then Notify s else s.

(** ** Schedules *)

Inductive event :=
  | EvEnqueue (io : create_io) (id : string) (created updated : time)
      (kind payload principal fingerprint idempotencyKey requestDigest : string)
  | EvStop                                          (** the context is cancelled *)
  | EvWake (w : string)                             (** [<-manager.wake] *)
  | EvTick (w : string)                             (** [<-ticker.C] *)
  | EvReturn (w : string)                           (** [<-ctx.Done()] *)
  | EvClaim (w : string) (io : job_io)
  | EvBeat (w id : string) (attempt : Z) (io : job_io)
  | EvBeatEnds (w id : string) (attempt : Z)
  | EvFinish (w : string) (io : job_io) (r : result string)
  | EvReap (io : job_io)
  | EvAudit (audit : audit_file)                    (** another component writes its log *)
  | EvCrash.                                        (** the process ends, at any point, and starts again *)

(** [None] when the event cannot happen.  Identifiers are random, so a new one
    is fresh.  A heartbeat that is due may still happen after its handler
    returned. *)
Definition step (s : mstate) (e : event) : option mstate :=
  match e with
  | EvEnqueue io id created updated kind payload principal fingerprint key digest =>
      match disk_jobs (m_disk s) !! id with
      | None => Some (Enqueue io id created updated s kind payload principal fingerprint key digest).1
      | Some _ => None
      end
  | EvStop => Some (set_done s)
  | EvWake w =>
      match m_workers s !! w with
      | Some Selecting => if m_wake s then Some (set_worker (set_wake s false) w Claiming) else None
      | _ => None
      end
  | EvTick w =>
      match m_workers s !! w with Some Selecting => Some (set_worker s w Claiming) | _ => None end
  | EvReturn w =>
      match m_workers s !! w with
      | Some Selecting => if m_done s then Some (set_worker s w Returned) else None
      | _ => None
      end
  | EvClaim w io =>
      match m_workers s !! w with Some Claiming => Some (claim io s w) | _ => None end
  | EvBeat w id attempt io =>
      if bool_decide ((w, id, attempt) ∈ m_beats s) then Some (heartbeat io s w id attempt) else None
  | EvBeatEnds w id attempt =>
      if bool_decide ((w, id, attempt) ∈ m_beats s) && job_done s w id attempt
      then Some (set_beats s (m_beats s ∖ {[(w, id, attempt)]})) else None
  | EvFinish w io r =>
      match m_workers s !! w with Some (Executing job _) => Some (finish io s w job r) | _ => None end
  | EvReap io => Some (reap io s)
  | EvAudit audit => Some (set_disk s (with_audit (m_disk s) audit))
  | EvCrash => Some (restart m s)
  end.

Fixpoint run (s : mstate) (es : list event) : option mstate :=
  match es with
  | [] => Some s
  | e :: es => match step s e with Some s => run s es | None => None end
  end.

(** A worker left alone in its inner loop, until it is back in the [select]:
    the events of its next turns, when no file operation fails, the clock
    shows [clock] and the handlers answer [h] *)
Definition quiet (t : time) : job_io := mkJobIO t t (λ _, None) NoFault.
Definition next_event (t : time) (h : Job → result string) (w : string) (s : mstate) : option event :=
  match m_workers s !! w with
  | Some Claiming => Some (EvClaim w (quiet t))
  | Some (Executing job _) => Some (EvFinish w (quiet t) (h job))
  | _ => None
  end.
Fixpoint alone (fuel : nat) (clock : nat → time) (h : Job → result string) (w : string) (s : mstate) : list event :=
  match fuel with
  | O => []
  | S fuel =>
      match next_event (clock fuel) h w s with
      | None => []
      | Some e => e :: match step s e with Some s => alone fuel clock h w s | None => [] end
      end
  end.

(** What a handler makes of a claimed job *)
Definition outcome (h : Job → result string) (job : Job) (now : time) : Job :=
  match (if bool_decide (Job_Type job ∈ manager_kinds m) then h job else Err (ErrMsg no_handler)) with
  | Ok value => job_completed job JobSucceeded value "" now
  | Err err => job_completed job JobFailed "" (error_text err) now
  end.

(** The operation of the queue that an event calls, by whom and on what: a
    worker heartbeats and reports in its own name, about the job of its handler *)
Definition event_op (s : mstate) (e : event) : option op :=
  match e with
  | EvEnqueue io id created updated kind payload principal fingerprint key digest =>
      if bool_decide (key = "") then None
      else Some (OpCreate io (mkCreateJobRequest (new_job id kind payload principal created updated) fingerprint kind key digest))
  | EvClaim w io => Some (OpClaim io w (manager_lease m))
  | EvBeat w id _ io => Some (OpHeartbeat io id w (manager_lease m))
  | EvFinish w io r =>
      match m_workers s !! w with
      | Some (Executing job _) =>
          Some (match (if bool_decide (Job_Type job ∈ manager_kinds m) then r else Err (ErrMsg no_handler)) with
                | Err err => OpComplete io (Job_ID job) w JobFailed "" (error_text err)
                | Ok value => OpComplete io (Job_ID job) w JobSucceeded value ""
                end)
      | _ => None
      end
  | EvReap io => Some (OpRequeue io)
  | _ => None
  end.

(** The operations of a schedule with the answers of the store *)
Fixpoint operations (s : mstate) (es : list event) : list (op * answer) :=
  match es with
  | [] => []
  | e :: es =>
      let rest := match step s e with Some s' => operations s' es | None => [] end in
      match event_op s e with
      | Some o => (o, op_answer (manager_maxAttempts m) (m_disk s) o) :: rest
      | None => rest
      end
  end.
End manager.

(** ** Lemmas: what one operation does to one job file *)

Section files.
Context `{PAudit : !Json AuditEvent} (maxAttempts : Z).

Definition job_step (o : op) (id : string) (j j' : Job) : Prop :=
  match o with
  | OpCreate _ _ => False
  | OpClaim io w lease => claimable maxAttempts j = true ∧ j' = job_claimed j w (jio_now io) lease
  | OpHeartbeat io id' w lease => id = id' ∧ Job_State j = JobRunning ∧ Job_LeaseOwner j = w ∧
      j' = job_heartbeat j (jio_now io) lease
  | OpComplete io id' w st res msg => id = id' ∧ Job_State j = JobRunning ∧ Job_LeaseOwner j = w ∧
      j' = job_completed j st res msg (jio_now io) ∧ terminal j'
  | OpRequeue io => lease_lapsed (jio_now io) j = true ∧ j' = job_expired j maxAttempts (jio_now io)
  end.

(** A file stays, or changes by one step, or is created. *)
Definition file_step (o : op) (id : string) (r r' : option (result Job)) : Prop :=
  r' = r ∨
  (∃ j j', r = Some (Ok j) ∧ r' = Some (Ok j') ∧ job_step o id j j') ∨
  ∃ j io request, o = OpCreate io request ∧ r = None ∧ r' = Some (Ok j) ∧ Job_ID j = id ∧ Job_State j = JobQueued ∧ Job_Attempts j = 0%Z.

Lemma write_job_step o d fail path j0 j1 d1 r id : read_file (disk_jobs d) path = Ok j0 →
  write_job d fail path j1 = (d1, r) → job_step o path j0 j1 →
  file_step o id (disk_jobs d !! id) (disk_jobs d1 !! id) ∧ (id ≠ path → disk_jobs d1 !! id = disk_jobs d !! id).
Proof.
  intros Hj%read_file_Ok Hw Hs. unfold write_job in Hw. destruct fail; injection Hw as <- <-; [split; [by left|done]|].
  rewrite with_jobs_jobs. destruct (decide (path = id)) as [->|Hne].
  - rewrite lookup_insert_eq. split; [|done]. right. left. eauto.
  - rewrite lookup_insert_ne by done. split; [by left|done].
Qed.

Lemma create_step io d request id : op_ok d (OpCreate io request) →
  file_step (OpCreate io request) id (disk_jobs d !! id) (disk_jobs (CreateJobIdempotent io d request).1 !! id).
Proof.
  intros (Hq & Ha & Hfresh).
  assert (file_step (OpCreate io request) id (disk_jobs d !! id) (disk_jobs (create_new io d request).1 !! id)) as Hnew.
  { unfold create_new, write_job. destruct (cio_fail_job io); [by left|].
    assert (∀ d' : disk, disk_jobs d' = <[Job_ID (Create_Job request) :=
        Ok (job_created (Create_Job request) (cio_now_job io))]> (disk_jobs d) →
      file_step (OpCreate io request) id (disk_jobs d !! id) (disk_jobs d' !! id)) as Hins.
    { intros d' ->. destruct (decide (Job_ID (Create_Job request) = id)) as [<-|];
        [|rewrite lookup_insert_ne by done; by left].
      rewrite lookup_insert_eq. right. right. by eexists _, _, _. }
    destruct (cio_fail_record io); [destruct (cio_remove_fails io)|].
    - by apply Hins.
    - left. cbn. rewrite !with_jobs_jobs, delete_insert_eq, lookup_delete. case_decide; congruence.
    - destruct (append_audit _ _ _ _ _ _ _ _ _) as [? []]; by apply Hins. }
  unfold CreateJobIdempotent. destruct (_ || _); [by left|].
  destruct (disk_idempotency d !! _); [|done]. destruct (cio_idem_unreadable io); [done|by left].
Qed.

Lemma claim_step io w lease id files : ∀ d,
  file_step (OpClaim io w lease) id (disk_jobs d !! id) (disk_jobs (claim_loop io d files w lease maxAttempts).1 !! id).
Proof.
  induction files as [|path files IH]; intros d; cbn [claim_loop]; [by left|].
  destruct (read_file _ path) as [j0|] eqn:Hj; [|by left]. destruct (_ || _) eqn:Hc; [by apply IH|].
  destruct (write_job _ _ _ _) as [d1 r] eqn:Hw.
  destruct (write_job_step (OpClaim io w lease) _ _ _ _ _ _ _ id Hj Hw) as [Hs _].
  { split; [|done]. unfold claimable. apply orb_false_iff in Hc as [H1%negb_false_iff H2]. by rewrite H1, H2. }
  destruct r; [|done]. by destruct (append_audit _ _ _ _ _ _ _ _ _) as [? []].
Qed.

Lemma requeue_step io id files : ∀ d count, NoDup files →
  file_step (OpRequeue io) id (disk_jobs d !! id) (disk_jobs (requeue_loop io d files maxAttempts count).1.1 !! id) ∧
  (id ∉ files → disk_jobs (requeue_loop io d files maxAttempts count).1.1 !! id = disk_jobs d !! id).
Proof.
  induction files as [|path files IH]; intros d count Hnd; cbn [requeue_loop]; [split; [by left|done]|].
  destruct (read_file _ path) as [j0|] eqn:Hj; [|split; [by left|done]].
  apply NoDup_cons in Hnd as [Hpath Hnd]. destruct (_ || _ || _) eqn:Hc.
  { destruct (IH d count Hnd) as [Hs Hnot]. split; [done|]. intros Hn. apply Hnot. set_solver. }
  destruct (write_job _ _ _ _) as [d1 r] eqn:Hw.
  destruct (write_job_step (OpRequeue io) _ _ _ _ _ _ _ id Hj Hw) as [Hs Hsame].
  { split; [|done]. unfold lease_lapsed. apply orb_false_iff in Hc as [[H1%negb_false_iff H2]%orb_false_iff H3].
    by rewrite H1, H2, H3. }
  destruct r as [u|err]; [|split; [done|]; intros ?; apply Hsame; set_solver].
  destruct (IH d1 (S count) Hnd) as [Hs1 Hnot]. split.
  - destruct (decide (id = path)) as [->|Hne]; [by rewrite Hnot|]. by rewrite <-(Hsame Hne).
  - intros Hn. rewrite Hnot, Hsame by set_solver. done.
Qed.

Lemma op_file_step d o id : op_ok d o →
  file_step o id (disk_jobs d !! id) (disk_jobs (run_op maxAttempts d o) !! id).
Proof.
  destruct o as [io rq|io w lease|io id' w lease|io id' w st res msg|io]; cbn [run_op]; intros Hok.
  - by apply create_step.
  - apply claim_step.
  - unfold HeartbeatJob. destruct (read_file _ id') as [j0|] eqn:Hj; [|by left]. destruct (_ || _) eqn:Hg; [by left|].
    destruct (write_job _ _ _ _) as [d1 r] eqn:Hw. eapply write_job_step; [done..|].
    apply orb_false_iff in Hg as [?%negb_false_iff%bool_decide_eq_true ?%negb_false_iff%bool_decide_eq_true]. done.
  - unfold CompleteJob. destruct (read_file _ id') as [j0|] eqn:Hj; [|by left]. destruct (_ || _) eqn:Hg; [by left|].
    destruct (_ && _) eqn:Hst; [by left|]. destruct (write_job _ _ _ _) as [d1 r] eqn:Hw.
    destruct (write_job_step (OpComplete io id' w st res msg) _ _ _ _ _ _ _ id Hj Hw) as [Hs _].
    { apply orb_false_iff in Hg as [?%negb_false_iff%bool_decide_eq_true ?%negb_false_iff%bool_decide_eq_true].
      split_and!; try done. unfold terminal. cbn.
      apply andb_false_iff in Hst as [?%negb_false_iff%bool_decide_eq_true|?%negb_false_iff%bool_decide_eq_true]; auto. }
    destruct r; [|done]. by destruct (append_audit _ _ _ _ _ _ _ _ _) as [a v].
  - by apply requeue_step, NoDup_job_files.
Qed.

Lemma job_step_attempts o id j j' : job_step o id j j' →
  Job_ID j' = Job_ID j ∧ (Job_Attempts j ≤ Job_Attempts j')%Z.
Proof. destruct o; cbn; intros Hs; destruct_and?; simplify_eq; cbn; split; try done; lia. Qed.
End files.

(** ** Lemmas: the invariant of a manager *)

(** What a manager finds on the disk when it starts: job files under their own
    names. *)
Definition ready (d : disk) : Prop :=
  ∀ id j, disk_jobs d !! id = Some (Ok j) → Job_ID j = id ∧ (0 ≤ Job_Attempts j)%Z.

(** A worker in a handler has the last attempt of its job as long as it holds
    the lease. *)
Definition holds (d : disk) (w : string) (job : Job) : Prop :=
  ∃ cur, disk_jobs d !! Job_ID job = Some (Ok cur) ∧ (Job_Attempts job ≤ Job_Attempts cur)%Z ∧
    (Job_State cur = JobRunning → Job_LeaseOwner cur = w → Job_Attempts cur = Job_Attempts job).

Record minv (m : Manager) (s : mstate) : Prop := {
  inv_ready : ready (m_disk s);
  inv_executed : ∀ id n, (id, n) ∈ m_executed s → (1 ≤ n ≤ manager_maxAttempts m)%Z ∧
    ∃ j, disk_jobs (m_disk s) !! id = Some (Ok j) ∧ (n ≤ Job_Attempts j)%Z;
  inv_once : NoDup (m_executed s);
  inv_holds : ∀ w job c, m_workers s !! w = Some (Executing job c) → holds (m_disk s) w job;
}.

Section invariant.
Context `{PAudit : !Json AuditEvent} (m : Manager).

Lemma ready_op d o : op_ok d o → ready d → ready (run_op (manager_maxAttempts m) d o).
Proof.
  intros Hok Hr id j' Hj'. pose proof (op_file_step (manager_maxAttempts m) d o id Hok) as Hs. rewrite Hj' in Hs.
  destruct Hs as [Heq|[(j & j1 & Hj & [= <-] & Hs)|(j & ? & ? & -> & _ & [= <-] & ? & _ & ->)]]; [by apply Hr| |by split].
  apply job_step_attempts in Hs as [-> ?]. destruct (Hr _ _ Hj). split; [done|lia].
Qed.

(** A job file never loses attempts. *)
Lemma op_attempts d o id j : op_ok d o → disk_jobs d !! id = Some (Ok j) →
  ∃ j', disk_jobs (run_op (manager_maxAttempts m) d o) !! id = Some (Ok j') ∧
    (j' = j ∨ job_step (manager_maxAttempts m) o id j j') ∧ (Job_Attempts j ≤ Job_Attempts j')%Z.
Proof.
  intros Hok Hj. pose proof (op_file_step (manager_maxAttempts m) d o id Hok) as Hs. rewrite Hj in Hs.
  destruct Hs as [Heq|[(j0 & j1 & [= <-] & Hj1 & Hs)|(? & ? & ? & _ & ? & _)]]; [exists j|exists j1|done].
  - split_and!; [done|by left|done].
  - split_and!; [done|by right|by apply job_step_attempts in Hs as [_ ?]].
Qed.

Lemma holds_op d o w job : op_ok d o → (∀ io w' lease, o = OpClaim io w' lease → w' ≠ w) →
  holds d w job → holds (run_op (manager_maxAttempts m) d o) w job.
Proof.
  intros Hok Hother (cur & Hcur & Hle & Hlast).
  destruct (op_attempts d o _ _ Hok Hcur) as (cur' & Hcur' & Hs & ?). exists cur'. split; [done|].
  split; [lia|]. intros Hrun Hown. destruct Hs as [->|Hs]; [by apply Hlast|].
  destruct o as [io rq|io w' lease|io id' w' lease|io id' w' st res msg|io]; cbn in Hs; [done|..];
    destruct_and?; simplify_eq; cbn in *.
  - by destruct (Hother io (Job_LeaseOwner (job_claimed cur w' (jio_now io) lease)) lease).
  - by apply Hlast.
  - unfold terminal in *. cbn in *. naive_solver.
  - by case_bool_decide.
Qed.

(** An event does what its operation does to the disk, or leaves the job files
    alone. *)
Lemma step_event_op s e s' : step m s e = Some s' →
  match event_op m s e with
  | Some o => op_ok (m_disk s) o ∧ m_disk s' = run_op (manager_maxAttempts m) (m_disk s) o
  | None => disk_jobs (m_disk s') = disk_jobs (m_disk s)
  end.
Proof.
  destruct e as [io id created updated kind payload principal fp key digest| |w|w|w|w io|w id n io|w id n|w io r|io|a|];
    cbn [step event_op]; intros Hs.
  - destruct (disk_jobs (m_disk s) !! id) eqn:Hid; [done|]. injection Hs as <-. unfold Enqueue.
    case_bool_decide; [done|]. split; [done|]. cbn [run_op]. by destruct (CreateJobIdempotent _ _ _) as [d [r|]].
  - by injection Hs as <-.
  - destruct (m_workers s !! w) as [[]|]; try done. destruct (m_wake s); [|done]. by injection Hs as <-.
  - destruct (m_workers s !! w) as [[]|]; try done. by injection Hs as <-.
  - destruct (m_workers s !! w) as [[]|]; try done. destruct (m_done s); [|done]. by injection Hs as <-.
  - destruct (m_workers s !! w) as [[]|]; try done. injection Hs as <-. split; [done|]. cbn [run_op]. unfold claim.
    destruct (ClaimNextJob _ _ _ _ _) as [d [[job|]|]]; try done. unfold begin. by case_bool_decide.
  - destruct (bool_decide _); [|done]. injection Hs as <-. split; [done|]. cbn [run_op]. unfold heartbeat.
    destruct (HeartbeatJob _ _ _ _ _) as [d [|]]; [done|].
    unfold cancel. cbn. destruct (m_workers s !! w) as [[]|]; try done. by destruct (_ && _).
  - destruct (_ && _); [|done]. by injection Hs as <-.
  - destruct (m_workers s !! w) as [[| |job c|]|]; try done. injection Hs as <-. unfold finish.
    by destruct (if bool_decide _ then r else _) as [value|err].
  - injection Hs as <-. split; [done|]. cbn [run_op]. unfold reap.
    destruct (RequeueExpiredJobs _ _ _) as [[d n] e]. by case_bool_decide.
  - by injection Hs as <-.
  - by injection Hs as <-.
Qed.

Lemma event_op_claim s e io w lease : event_op m s e = Some (OpClaim io w lease) → e = EvClaim w io.
Proof.
  destruct e; cbn; try done.
  - by case_bool_decide.
  - by intros [= -> -> _].
  - destruct (m_workers s !! _) as [[]|]; try done. by destruct (if bool_decide _ then _ else _).
Qed.

(** An event is an operation on the queue, or leaves the job files alone. *)
Lemma step_op s e s' : step m s e = Some s' →
  disk_jobs (m_disk s') = disk_jobs (m_disk s) ∨
  ∃ o, op_ok (m_disk s) o ∧ (∀ io w lease, o = OpClaim io w lease → e = EvClaim w io) ∧
    m_disk s' = run_op (manager_maxAttempts m) (m_disk s) o.
Proof.
  intros Hs. apply step_event_op in Hs. destruct (event_op m s e) as [o|] eqn:Ho; [right|by left].
  exists o. destruct Hs. split_and!; [done| |done]. intros io w lease ->. by eapply event_op_claim.
Qed.

Lemma start_workers d w p : m_workers (start m d) !! w = Some p → p = Selecting.
Proof. intros Hw%elem_of_list_to_map_2. by apply list_elem_of_fmap in Hw as (? & [= _ ->] & _). Qed.

(** Only a claim starts a handler. *)
Lemma step_workers s e s' w job c : step m s e = Some s' → m_workers s' !! w = Some (Executing job c) →
  (∃ c', m_workers s !! w = Some (Executing job c') ∧ ∀ io, e ≠ EvClaim w io) ∨
  ∃ io, e = EvClaim w io ∧
    ClaimNextJob io (m_disk s) w (manager_lease m) (manager_maxAttempts m) = (m_disk s', Ok (Some job)).
Proof.
  assert (∀ w' p, <[w' := p]> (m_workers s) !! w = Some (Executing job c) →
    (w' = w ∧ p = Executing job c) ∨ m_workers s !! w = Some (Executing job c)) as Hins.
  { intros w' p. destruct (decide (w' = w)) as [->|]; [rewrite lookup_insert_eq; intros [= ->]; by left|].
    rewrite lookup_insert_ne by done. by right. }
  destruct e as [io id created updated kind payload principal fp key digest| |w'|w'|w'|w' io|w' id n io|w' id n|w' io r|io|a|];
    cbn [step]; intros Hs Hw.
  - destruct (disk_jobs (m_disk s) !! id) eqn:Hid; [done|]. injection Hs as <-. left. exists c. split; [|done].
    unfold Enqueue in Hw. case_bool_decide; [done|]. by destruct (CreateJobIdempotent _ _ _) as [d [r|]].
  - injection Hs as <-. left. by exists c.
  - destruct (m_workers s !! w') as [[]|]; try done. destruct (m_wake s); [|done]. injection Hs as <-.
    apply Hins in Hw as [[_ ?]|Hw]; [done|]. left. by exists c.
  - destruct (m_workers s !! w') as [[]|]; try done. injection Hs as <-.
    apply Hins in Hw as [[_ ?]|Hw]; [done|]. left. by exists c.
  - destruct (m_workers s !! w') as [[]|]; try done. destruct (m_done s); [|done]. injection Hs as <-.
    apply Hins in Hw as [[_ ?]|Hw]; [done|]. left. by exists c.
  - destruct (m_workers s !! w') as [p|] eqn:Hp; [|done]. destruct p; try done. injection Hs as <-. unfold claim, begin in Hw.
    assert (∀ p, <[w' := p]> (m_workers s) !! w = Some (Executing job c) → p ≠ Executing job c →
      ∃ c', m_workers s !! w = Some (Executing job c') ∧ ∀ io0, EvClaim w' io ≠ EvClaim w io0) as Hother.
    { intros p Hl Hne. apply Hins in Hl as [[_ ?]|Hl]; [done|]. exists c. split; [done|]. intros io0 [= ->]. congruence. }
    destruct (ClaimNextJob _ _ _ _ _) as [d [[job'|]|]] eqn:Hc; [|left; by apply (Hother Selecting)..].
    assert (<[w' := Executing job' false]> (m_workers s) !! w = Some (Executing job c)) as Hw'
      by (revert Hw; by case_bool_decide).
    destruct (decide (w' = w)) as [->|Hne].
    + rewrite lookup_insert_eq in Hw'. injection Hw' as -> <-. right. exists io. split; [done|].
      unfold claim, begin. rewrite Hc. by case_bool_decide.
    + rewrite lookup_insert_ne in Hw' by done. left. exists c. split; [done|]. intros io0 [= ->]. done.
  - destruct (bool_decide _); [|done]. injection Hs as <-. left. unfold heartbeat in Hw.
    destruct (HeartbeatJob _ _ _ _ _) as [d [|]]; [by exists c|]. unfold cancel in Hw. cbn in Hw.
    destruct (m_workers s !! w') as [p|] eqn:Hp; [|by exists c]. destruct p as [| |job' c'|]; try by exists c.
    destruct (_ && _); [|by exists c]. cbn in Hw. apply Hins in Hw as [[-> [= -> _]]|Hw]; [by exists c'|by exists c].
  - destruct (_ && _); [|done]. injection Hs as <-. left. by exists c.
  - destruct (m_workers s !! w') as [p|] eqn:Hp; [|done]. destruct p; try done. injection Hs as <-.
    apply Hins in Hw as [[_ ?]|Hw]; [done|]. left. by exists c.
  - injection Hs as <-. left. exists c. split; [|done]. revert Hw. unfold reap.
    destruct (RequeueExpiredJobs _ _ _) as [[d n] e]. by case_bool_decide.
  - injection Hs as <-. left. by exists c.
  - injection Hs as <-. change (m_workers (start m (m_disk s)) !! w = Some (Executing job c)) in Hw.
    by apply start_workers in Hw.
Qed.

(** Only a claim that finds a job adds to the history. *)
Lemma step_history s e s' : step m s e = Some s' →
  m_executed s' = m_executed s ∨
  ∃ w io job, e = EvClaim w io ∧ m_executed s' = m_executed s ++ [(Job_ID job, Job_Attempts job)] ∧
    ClaimNextJob io (m_disk s) w (manager_lease m) (manager_maxAttempts m) = (m_disk s', Ok (Some job)).
Proof.
  destruct e as [io id created updated kind payload principal fp key digest| |w'|w'|w'|w' io|w' id n io|w' id n|w' io r|io|a|];
    cbn [step]; intros Hs.
  - destruct (disk_jobs (m_disk s) !! id) eqn:Hid; [done|]. injection Hs as <-. left.
    unfold Enqueue. case_bool_decide; [done|]. by destruct (CreateJobIdempotent _ _ _) as [d [r|]].
  - injection Hs as <-. by left.
  - destruct (m_workers s !! w') as [[]|]; try done. destruct (m_wake s); [|done]. injection Hs as <-. by left.
  - destruct (m_workers s !! w') as [[]|]; try done. injection Hs as <-. by left.
  - destruct (m_workers s !! w') as [[]|]; try done. destruct (m_done s); [|done]. injection Hs as <-. by left.
  - destruct (m_workers s !! w') as [[]|]; try done. injection Hs as <-. unfold claim, begin.
    destruct (ClaimNextJob _ _ _ _ _) as [d [[job'|]|]] eqn:Hc; [|by left..].
    case_bool_decide; [|by left]. right. exists w', io, job'. by rewrite Hc.
  - destruct (bool_decide _); [|done]. injection Hs as <-. left. unfold heartbeat.
    destruct (HeartbeatJob _ _ _ _ _) as [d [|]]; [done|]. unfold cancel. cbn.
    destruct (m_workers s !! w') as [[]|]; try done. by destruct (_ && _).
  - destruct (_ && _); [|done]. injection Hs as <-. by left.
  - destruct (m_workers s !! w') as [[]|]; try done. injection Hs as <-. by left.
  - injection Hs as <-. left. unfold reap. destruct (RequeueExpiredJobs _ _ _) as [[d n] e]. by case_bool_decide.
  - injection Hs as <-. by left.
  - injection Hs as <-. by left.
Qed.

(** What a successful claim returns is what is on the disk. *)
Lemma claimed_job d io w lease d' job : ready d →
  ClaimNextJob io d w lease (manager_maxAttempts m) = (d', Ok (Some job)) →
  ∃ j, disk_jobs d !! Job_ID job = Some (Ok j) ∧ claimable (manager_maxAttempts m) j = true ∧
    job = job_claimed j w (jio_now io) lease ∧ disk_jobs d' !! Job_ID job = Some (Ok job).
Proof.
  intros Hr Hc. apply claim_loop_spec in Hc as (pre & id & post & j & _ & Hid & Hcl & -> & Hd' & _).
  destruct (Hr _ _ Hid) as [Hstem _]. exists j. cbn. rewrite Hstem. split_and!; [done..|].
  by rewrite Hd', lookup_insert_eq.
Qed.

Lemma minv_start d : ready d → minv m (start m d).
Proof.
  intros Hr. split; cbn; [done|set_solver|constructor|]. by intros w job c Hw%start_workers.
Qed.

Lemma executed_kept (claims : op → Prop) d d' id n : (disk_jobs d' = disk_jobs d ∨
    ∃ o, op_ok d o ∧ claims o ∧ d' = run_op (manager_maxAttempts m) d o) →
  (∃ j, disk_jobs d !! id = Some (Ok j) ∧ (n ≤ Job_Attempts j)%Z) →
  ∃ j, disk_jobs d' !! id = Some (Ok j) ∧ (n ≤ Job_Attempts j)%Z.
Proof.
  intros [->|(o & Hok & _ & ->)] (j & Hj & Hn); [by exists j|].
  destruct (op_attempts d o id j Hok Hj) as (j' & Hj' & _ & ?). exists j'. split; [done|lia].
Qed.

Lemma step_minv s e s' : minv m s → step m s e = Some s' → minv m s'.
Proof.
  intros [Hready Hexec Honce Hholds] Hs. pose proof (step_op s e s' Hs) as Hop.
  assert (ready (m_disk s')) as Hready'.
  { destruct Hop as [Heq|(o & Hok & _ & ->)]; [intros id j; rewrite Heq; apply Hready|by apply ready_op]. }
  assert (∀ id n, (id, n) ∈ m_executed s → (1 ≤ n ≤ manager_maxAttempts m)%Z ∧
    ∃ j, disk_jobs (m_disk s') !! id = Some (Ok j) ∧ (n ≤ Job_Attempts j)%Z) as Hexec'.
  { intros id n Hin. destruct (Hexec _ _ Hin) as [? ?]. split; [done|].
    by apply (executed_kept (λ o, ∀ io w' lease, o = OpClaim io w' lease → e = EvClaim w' io) (m_disk s)). }
  split; [done|..].
  - intros id n Hin. apply step_history in Hs as [Heq|(w & io & job & -> & Heq & Hc)]; rewrite Heq in Hin; [by apply Hexec'|].
    apply elem_of_app in Hin as [Hin|[= -> ->]%list_elem_of_singleton]; [by apply Hexec'|].
    apply claimed_job in Hc as (j & Hj & Hcl & -> & Hd'); [|done]. destruct (Hready _ _ Hj) as [_ ?].
    unfold claimable in Hcl. apply andb_true_iff in Hcl as [_ Hcl%negb_true_iff%bool_decide_eq_false].
    split; [cbn; lia|]. by eexists.
  - apply step_history in Hs as [->|(w & io & job & -> & -> & Hc)]; [done|].
    apply NoDup_app. split; [done|]. split; [|apply NoDup_singleton].
    intros x Hx ->%list_elem_of_singleton. apply Hexec in Hx as [_ (j & Hj & Hn)].
    apply claimed_job in Hc as (j0 & Hj0 & _ & -> & _); [|done]. cbn in *. rewrite Hj in Hj0. injection Hj0 as <-. lia.
  - intros w job c Hw. destruct (step_workers s e s' w job c Hs Hw) as [(c' & Hc' & Hne)|(io & -> & Hc)].
    + specialize (Hholds _ _ _ Hc'). destruct Hop as [Heq|(o & Hok & Hclaim & Hd)].
      * destruct Hholds as (cur & Hcur & ?). exists cur. by rewrite Heq.
      * rewrite Hd. apply holds_op; [done| |done]. intros io w' lease ->. specialize (Hclaim _ _ _ eq_refl) as ->.
        intros ->. by apply (Hne io).
    + apply claimed_job in Hc as (j & _ & _ & _ & Hd'); [|done]. by exists job.
Qed.

Lemma run_minv es : ∀ s s', minv m s → run m s es = Some s' → minv m s'.
Proof.
  induction es as [|e es IH]; intros s s' Hinv Hrun; cbn [run] in Hrun; [by injection Hrun as <-|].
  destruct (step m s e) as [s1|] eqn:Hs; [|done]. eapply IH; [by eapply step_minv|done].
Qed.

Lemma run_app es1 es2 : ∀ s s1 s2, run m s es1 = Some s1 → run m s1 es2 = Some s2 → run m s (es1 ++ es2) = Some s2.
Proof.
  induction es1 as [|e es1 IH]; intros s s1 s2 H1 H2; cbn [run app] in *; [by injection H1 as ->|].
  destruct (step m s e) as [s0|]; [|done]. by eapply IH.
Qed.

(** Distinct numbers of one name between two limits *)
Lemma numbered_bound id min max (l : list (string * Z)) : NoDup l → (∀ x, x ∈ l → x.1 = id ∧ (min < x.2 ≤ max)%Z) →
  (Z.of_nat (length l) ≤ Z.max 0 (max - min))%Z.
Proof.
  intros Hnd Hl. assert (length l ≤ length ((λ n, (id, min + Z.of_nat n)%Z) <$> seq 1 (Z.to_nat (max - min)))) as Hle.
  { apply submseteq_length, NoDup_submseteq; [done|]. intros [id' n] Hin. destruct (Hl _ Hin) as [Heq ?]. cbn in *. subst id'.
    apply list_elem_of_fmap. exists (Z.to_nat (n - min)). split; [f_equal; lia|]. apply elem_of_seq. lia. }
  rewrite length_fmap, length_seq in Hle. lia.
Qed.

(** The attempts of a job that a disk records *)
Definition earlier (d : disk) (id : string) : Z :=
  match disk_jobs d !! id with Some (Ok j) => Job_Attempts j | _ => 0 end.

(** Executions are for later attempts than those that [d] records. *)
Record later (d : disk) (s : mstate) : Prop := {
  later_executed : ∀ id n, (id, n) ∈ m_executed s → (earlier d id < n)%Z;
  later_kept : ∀ id j, disk_jobs d !! id = Some (Ok j) →
    ∃ j', disk_jobs (m_disk s) !! id = Some (Ok j') ∧ (Job_Attempts j ≤ Job_Attempts j')%Z;
}.

Lemma step_later d s e s' : minv m s → later d s → step m s e = Some s' → later d s'.
Proof.
  intros [Hready _ _ _] [Hexec Hkept] Hs. split.
  - intros id n Hin. apply step_history in Hs as [Heq|(w & io & job & -> & Heq & Hc)]; rewrite Heq in Hin; [by apply Hexec|].
    apply elem_of_app in Hin as [Hin|[= -> ->]%list_elem_of_singleton]; [by apply Hexec|].
    apply claimed_job in Hc as (j & Hj & _ & Hjob & _); [|done]. rewrite Hjob at 2. cbn.
    unfold earlier. destruct (disk_jobs d !! Job_ID job) as [[j0|]|] eqn:Hd; [|by destruct (Hready _ _ Hj); lia..].
    destruct (Hkept _ _ Hd) as (j' & Hj' & ?). rewrite Hj in Hj'. injection Hj' as <-. lia.
  - intros id j Hd. eapply executed_kept; [|by apply Hkept].
    destruct (step_op s e s' Hs) as [?|(o & ? & ? & ?)]; [by left|right]. exists o. by split_and!.
Qed.

Lemma run_later es d : ∀ s s', minv m s → later d s → run m s es = Some s' → later d s'.
Proof.
  induction es as [|e es IH]; intros s s' Hinv Hl Hrun; cbn [run] in Hrun; [by injection Hrun as <-|].
  destruct (step m s e) as [s1|] eqn:Hs; [|done]. eapply IH; [by eapply step_minv|by eapply step_later|done].
Qed.

(** The file that a completion changes *)
Lemma completed_file io d id' w st res msg id :
  disk_jobs (CompleteJob io d id' w st res msg).1 !! id ≠ disk_jobs d !! id →
  id = id' ∧ ∃ cur, disk_jobs d !! id = Some (Ok cur) ∧ Job_State cur = JobRunning ∧ Job_LeaseOwner cur = w ∧
    disk_jobs (CompleteJob io d id' w st res msg).1 !! id = Some (Ok (job_completed cur st res msg (jio_now io))).
Proof.
  intros Hne. pose proof (op_file_step 0 d (OpComplete io id' w st res msg) id I) as Hs. cbn [run_op] in Hs.
  destruct Hs as [?|[(j & j' & Hj & Hj' & -> & ? & ? & -> & _)|(j & ? & ? & [=] & _)]]; [done|by eauto 10].
Qed.
End invariant.

(** ** Lemmas: an undisturbed worker *)

Section progress.
Context `{PAudit : !Json AuditEvent} (m : Manager) (good : audit_file → Prop).

(** The log keeps accepting events. *)
Definition log_accepts : Prop := ∀ file now actor action id details, good file →
  ∃ file', append_audit file NoFault now actor action "job" id "" details = (file', Ok tt) ∧ good file'.

Definition readable (d : disk) : Prop := ∀ id r, disk_jobs d !! id = Some r → ∃ j, r = Ok j.

Definition can_be_claimed (r : result Job) : bool :=
  match r with Ok j => claimable (manager_maxAttempts m) j | Err _ => false end.
Definition pending (d : disk) : gmap string (result Job) := filter (λ kv, can_be_claimed kv.2 = true) (disk_jobs d).

Lemma claim_loop_none io w files : ∀ d, readable d → (∀ id, id ∈ files → is_Some (disk_jobs d !! id)) →
  (∀ id j, disk_jobs d !! id = Some (Ok j) → claimable (manager_maxAttempts m) j = false) →
  claim_loop io d files w (manager_lease m) (manager_maxAttempts m) = (d, Ok None).
Proof.
  induction files as [|path files IH]; intros d Hread Hin Hnone; [done|]. cbn [claim_loop].
  destruct (Hin path) as [r Hr]; [set_solver|]. destruct (Hread _ _ Hr) as [j ->].
  unfold read_file. rewrite Hr. specialize (Hnone _ _ Hr) as Hc. unfold claimable in Hc.
  apply andb_false_iff in Hc as [Hc|Hc%negb_false_iff]; rewrite Hc, ?orb_true_r; apply IH; try done; set_solver.
Qed.

Lemma claim_loop_quiet t w files : ∀ d, log_accepts → good (disk_audit d) → readable d →
  (∀ id, id ∈ files → is_Some (disk_jobs d !! id)) →
  (∃ id j, id ∈ files ∧ disk_jobs d !! id = Some (Ok j) ∧ claimable (manager_maxAttempts m) j = true) →
  ∃ d' id j, claim_loop (quiet t) d files w (manager_lease m) (manager_maxAttempts m) =
      (d', Ok (Some (job_claimed j w t (manager_lease m)))) ∧
    disk_jobs d !! id = Some (Ok j) ∧ claimable (manager_maxAttempts m) j = true ∧
    disk_jobs d' = <[id := Ok (job_claimed j w t (manager_lease m))]> (disk_jobs d) ∧ good (disk_audit d').
Proof.
  induction files as [|path files IH]; intros d Hlog Hgood Hread Hin (id & j & Hid & Hj & Hc); [by apply elem_of_nil in Hid|].
  cbn [claim_loop]. destruct (Hin path) as [r Hr]; [set_solver|]. destruct (Hread _ _ Hr) as [j0 ->].
  unfold read_file. rewrite Hr. destruct (_ || _) eqn:Hg.
  - apply IH; [done..| |].
    + intros id' ?. apply Hin. set_solver.
    + exists id, j. split_and!; [|done..]. apply elem_of_cons in Hid as [->|?]; [|done]. exfalso.
      rewrite Hr in Hj. injection Hj as <-. unfold claimable in Hc. apply andb_true_iff in Hc as [H1 H2].
      rewrite H1 in Hg. by apply negb_true_iff in H2; rewrite H2 in Hg.
  - cbn [quiet jio_fail_write jio_now jio_now_audit jio_audit write_job].
    destruct (Hlog (disk_audit d) t w "job-claimed" (Job_ID j0) {["attempt" := JInt (Job_Attempts j0 + 1)]} Hgood)
      as (a & Ha & Hga).
    change (disk_audit (with_jobs d ?x)) with (disk_audit d). cbn [job_claimed Job_ID Job_Attempts]. rewrite Ha.
    exists (with_audit (with_jobs d (<[path := Ok (job_claimed j0 w t (manager_lease m))]> (disk_jobs d))) a), path, j0.
    split_and!; try done. unfold claimable. apply orb_false_iff in Hg as [H1%negb_false_iff H2]. by rewrite H1, H2.
Qed.

Lemma complete_quiet t d id w st res msg j : log_accepts → good (disk_audit d) →
  disk_jobs d !! id = Some (Ok j) → Job_State j = JobRunning → Job_LeaseOwner j = w → st = JobSucceeded ∨ st = JobFailed →
  ∃ d', (CompleteJob (quiet t) d id w st res msg).1 = d' ∧ good (disk_audit d') ∧
    disk_jobs d' = <[id := Ok (job_completed j st res msg t)]> (disk_jobs d).
Proof.
  intros Hlog Hgood Hj Hs Ho Hst. unfold CompleteJob, read_file. rewrite Hj, !bool_decide_eq_true_2 by done. cbn [negb orb].
  assert (negb (bool_decide (st = JobSucceeded)) && negb (bool_decide (st = JobFailed)) = false) as ->
    by (destruct Hst as [->| ->]; done).
  cbn [quiet jio_fail_write jio_now jio_now_audit jio_audit write_job].
  destruct (Hlog (disk_audit d) t w "job-completed" (Job_ID j) {["state" := JString (show_job_state st)]} Hgood)
    as (a & Ha & Hga).
  change (disk_audit (with_jobs d ?x)) with (disk_audit d). cbn [job_completed Job_ID]. rewrite Ha.
  eexists. split; [reflexivity|]. by split.
Qed.

Definition lifted (h : Job → result string) (j : Job) (w : string) (t t' : time) : Job :=
  outcome m h (job_claimed j w t (manager_lease m)) t'.

Lemma lifted_terminal h j w t t' : terminal (lifted h j w t t').
Proof. unfold lifted, outcome, terminal. destruct (if bool_decide _ then _ else _); cbn; auto. Qed.

Lemma terminal_claimable j : terminal j → claimable (manager_maxAttempts m) j = false.
Proof. unfold claimable. by intros [->| ->]. Qed.

(** One job: claimed, run and completed. *)
Lemma one_job (t t' : time) (h : Job → result string) s w : log_accepts → minv m s → m_workers s !! w = Some Claiming →
  good (disk_audit (m_disk s)) → readable (m_disk s) → pending (m_disk s) ≠ ∅ →
  ∃ id j s1 s2, let job := job_claimed j w t (manager_lease m) in
    step m s (EvClaim w (quiet t)) = Some s1 ∧ m_workers s1 !! w = Some (Executing job false) ∧
    step m s1 (EvFinish w (quiet t') (h job)) = Some s2 ∧
    disk_jobs (m_disk s) !! id = Some (Ok j) ∧ claimable (manager_maxAttempts m) j = true ∧
    disk_jobs (m_disk s2) = <[id := Ok (lifted h j w t t')]> (disk_jobs (m_disk s)) ∧
    m_executed s2 = m_executed s ++ (if bool_decide (Job_Type j ∈ manager_kinds m) then [(id, Job_Attempts j + 1)%Z] else []) ∧
    m_workers s2 !! w = Some Claiming ∧ good (disk_audit (m_disk s2)).
Proof.
  intros Hlog Hinv Hw Hgood Hread Hpending.
  apply map_choose in Hpending as (id0 & r & [Hr Hc]%map_lookup_filter_Some).
  destruct r as [j0|]; [|done]. cbn in Hc.
  destruct (claim_loop_quiet t w (job_files (m_disk s)) (m_disk s)) as (d1 & id & j & Hclaim & Hj & Hcl & Hd1 & Hg1);
    [done..|by intros ? ?%elem_of_job_files|exists id0, j0; split_and!; [by apply elem_of_job_files|done..]|].
  destruct (inv_ready _ _ Hinv _ _ Hj) as [Hid _]. set (job := job_claimed j w t (manager_lease m)) in *.
  assert (m_workers (begin m (set_disk s d1) w job) !! w = Some (Executing job false)) as Hbegin.
  { unfold begin. case_bool_decide; cbn; by rewrite lookup_insert_eq. }
  exists id, j, (begin m (set_disk s d1) w job), (finish m (quiet t') (begin m (set_disk s d1) w job) w job (h job)).
  intros job'. change job' with job. clear job'.
  set (r := if bool_decide (Job_Type job ∈ manager_kinds m) then h job else Err (ErrMsg no_handler)).
  set (st := match r with Ok _ => JobSucceeded | Err _ => JobFailed end).
  set (res := match r with Ok value => value | Err _ => "" end).
  set (msg := match r with Ok _ => "" | Err err => error_text err end).
  destruct (complete_quiet t' d1 id w st res msg job) as (d2 & Hcomplete & Hg2 & Hd2); try done.
  { by rewrite Hd1, lookup_insert_eq. }
  { subst st. destruct r; auto. }
  assert (m_disk (finish m (quiet t') (begin m (set_disk s d1) w job) w job (h job)) = d2) as Hd.
  { rewrite <-Hcomplete. unfold finish. fold r. assert (m_disk (begin m (set_disk s d1) w job) = d1) as ->
      by (unfold begin; by case_bool_decide). cbn [set_worker set_disk m_disk].
    subst st res msg. destruct r; cbn [job job_claimed Job_ID]; by rewrite Hid. }
  split_and!; try done.
  - cbn [step]. rewrite Hw. unfold claim, ClaimNextJob. by rewrite Hclaim.
  - cbn [step]. by rewrite Hbegin.
  - rewrite Hd, Hd2, Hd1, insert_insert_eq. do 2 f_equal. unfold lifted, outcome. fold job r. subst st res msg. by destruct r.
  - unfold finish, begin. cbn. rewrite Hid. case_bool_decide; cbn; [done|by rewrite app_nil_r].
  - unfold finish. cbn. by rewrite lookup_insert_eq.
  - by rewrite Hd.
Qed.

Lemma pending_insert d d' id j j' : disk_jobs d !! id = Some (Ok j) → claimable (manager_maxAttempts m) j = true →
  terminal j' → disk_jobs d' = <[id := Ok j']> (disk_jobs d) → size (pending d') < size (pending d).
Proof.
  intros Hj Hc Ht Hd'. unfold pending. rewrite Hd'.
  rewrite map_filter_insert_False.
  - rewrite map_filter_delete. rewrite map_size_delete_Some.
    + assert (size (filter (λ kv, can_be_claimed kv.2 = true) (disk_jobs d)) ≠ 0); [|lia].
      intros Hz%map_size_empty_inv. assert (pending d !! id = Some (Ok j)) as Hp by by apply map_lookup_filter_Some.
      unfold pending in Hp. by rewrite Hz in Hp.
    + exists (Ok j). by apply map_lookup_filter_Some.
  - cbn. by rewrite terminal_claimable.
Qed.

Lemma pending_empty d id j : pending d = ∅ → disk_jobs d !! id = Some (Ok j) → claimable (manager_maxAttempts m) j = false.
Proof.
  intros He Hj. destruct (claimable _ j) eqn:Hc; [|done].
  assert (pending d !! id = Some (Ok j)) as Hp by (by apply map_lookup_filter_Some). by rewrite He in Hp.
Qed.

(** What becomes of a job file while a worker works off the queue *)
Definition worked_off (h : Job → result string) (w : string) (s s' : mstate) : Prop :=
  ∀ id j, disk_jobs (m_disk s) !! id = Some (Ok j) →
    if claimable (manager_maxAttempts m) j then
      (∃ t t', disk_jobs (m_disk s') !! id = Some (Ok (lifted h j w t t'))) ∧
      (Job_Type j ∈ manager_kinds m → (id, Job_Attempts j + 1)%Z ∈ m_executed s')
    else disk_jobs (m_disk s') !! id = Some (Ok j).

Lemma alone_works clock (h : Job → result string) w : log_accepts → ∀ n fuel s, size (pending (m_disk s)) ≤ n →
  2 * n + 1 ≤ fuel → minv m s → m_workers s !! w = Some Claiming → good (disk_audit (m_disk s)) → readable (m_disk s) →
  ∃ s', run m s (alone m fuel clock h w s) = Some s' ∧ m_workers s' !! w = Some Selecting ∧ worked_off h w s s' ∧
    m_executed s ⊆ m_executed s'.
Proof.
  intros Hlog. induction n as [|n IH]; intros fuel s Hn Hfuel Hinv Hw Hgood Hread;
    (destruct (decide (pending (m_disk s) = ∅)) as [He|Hne]; [
      destruct fuel as [|fuel]; [lia|]; cbn [alone]; unfold next_event; rewrite Hw; cbn [run step]; rewrite Hw;
      unfold claim, ClaimNextJob; rewrite claim_loop_none; [|done|by intros ? ?%elem_of_job_files|by intros; eapply pending_empty];
      assert (alone m fuel clock h w (set_worker (set_disk s (m_disk s)) w Selecting) = []) as ->
        by (destruct fuel; [done|]; cbn [alone]; unfold next_event; cbn; by rewrite lookup_insert_eq);
      eexists; split; [reflexivity|]; split; [cbn; by rewrite lookup_insert_eq|]; split; [|done];
      intros id j Hj; by rewrite (pending_empty _ _ _ He Hj)|]).
  { destruct Hne. apply map_size_empty_inv. lia. }
  destruct fuel as [|[|fuel]]; [lia..|].
  destruct (one_job (clock (S fuel)) (clock fuel) h s w Hlog Hinv Hw Hgood Hread Hne)
    as (id & j & s1 & s2 & H1 & Hw1 & H2 & Hj & Hc & Hd & Hex & Hw2 & Hg2).
  cbn [alone]. unfold next_event at 1. rewrite Hw. cbn [run]. rewrite H1. unfold next_event at 1. rewrite Hw1. cbn [run].
  rewrite H2. destruct (IH fuel s2) as (s' & Hrun & Hw' & Hoff & Hsub); try done.
  - pose proof (pending_insert _ _ _ _ _ Hj Hc (lifted_terminal h j w (clock (S fuel)) (clock fuel)) Hd). lia.
  - lia.
  - eapply step_minv; [|exact H2]. by eapply step_minv.
  - intros id2 r2. rewrite Hd. destruct (decide (id = id2)) as [->|];
      [rewrite lookup_insert_eq; intros [= <-]; eauto|rewrite lookup_insert_ne by done; apply Hread].
  - exists s'. split; [exact Hrun|]. split_and!; [done| |rewrite Hex in Hsub; set_solver].
    intros id' j' Hj'. destruct (decide (id = id')) as [<-|Hne'].
    + rewrite Hj in Hj'. injection Hj' as <-. rewrite Hc.
      specialize (Hoff id (lifted h j w (clock (S fuel)) (clock fuel))).
      rewrite Hd, lookup_insert_eq, terminal_claimable in Hoff by apply lifted_terminal.
      split; [eexists _, _; by apply Hoff|]. intros Hk. apply Hsub. rewrite Hex, bool_decide_eq_true_2 by done. set_solver.
    + specialize (Hoff id' j'). rewrite Hd, lookup_insert_ne in Hoff by done. by apply Hoff.
Qed.
End progress.

(** ** Properties *)

(** C5: whatever the schedule of clients, workers, heartbeats, the reaper and
    crashes is and whichever file operation fails, what a manager does to the
    queue is a run of the abstract job queue, in which every operation with the
    answer of the store is explained by its own steps: a worker claims,
    heartbeats and reports in its own name, and its heartbeats and reports take
    effect only on a job whose lease it holds. *)
Theorem manager_refines_queue `{PAudit : !Json AuditEvent} m s es s' (Hrun : run m s es = Some s') :
  arun (manager_maxAttempts m) (abs (m_disk s)) (operations m s es) (abs (m_disk s')).
Proof.
  revert s Hrun. induction es as [|e es IH]; intros s Hrun; cbn [run operations] in *; [injection Hrun as <-; constructor|].
  destruct (step m s e) as [s1|] eqn:Hs; [|done]. apply step_event_op in Hs.
  destruct (event_op m s e) as [o|].
  - destruct Hs as [Hok Hd]. destruct (op_refines (manager_maxAttempts m) _ _ Hok) as (ls & Hls & Hsteps).
    econstructor; [exact Hls|exact Hsteps|]. rewrite <-Hd. by apply IH.
  - specialize (IH _ Hrun). unfold abs in *. by rewrite Hs in IH.
Qed.

(** C12: a job is run at most [maxAttempts] times.  In every schedule of a
    manager, over any disk it starts from - with lost leases, failed operations
    and crashes after which the process starts again - every start of a handler
    is for another attempt of its job, numbered from 1 to the limit and later
    than those that the disk already recorded.  So the handlers started for a
    job, with those before the schedule, are at most [maxAttempts]. *)
Theorem executions_bounded `{PAudit : !Json AuditEvent} m d es s (Hready : ready d)
    (Hrun : run m (start m d) es = Some s) :
  NoDup (m_executed s) ∧
  (∀ id attempt, (id, attempt) ∈ m_executed s → (earlier d id < attempt ≤ manager_maxAttempts m)%Z) ∧
  ∀ id, (Z.of_nat (length (filter (λ x, x.1 = id) (m_executed s))) ≤ Z.max 0 (manager_maxAttempts m - earlier d id))%Z.
Proof.
  assert (minv m s) as [_ Hexec Honce _] by (eapply run_minv; [by apply minv_start|done]).
  assert (∀ id attempt, (id, attempt) ∈ m_executed s → (earlier d id < attempt ≤ manager_maxAttempts m)%Z) as Hrange.
  { intros id n Hin. destruct (Hexec id n Hin) as [? _]. split; [|lia].
    assert (later d s) as [Hl _]; [|by apply Hl]. eapply (run_later m es d); [by apply minv_start| |exact Hrun].
    split; [by intros ? ? ?%elem_of_nil|]. intros id' j Hj. by exists j. }
  split_and!; [done..|]. intros id. apply (numbered_bound id (earlier d id)); [by apply NoDup_filter|].
  intros [id' n] [Heq Hin]%list_elem_of_filter. cbn in Heq. subst id'. split; [done|]. by apply (Hrange id).
Qed.

(** the outcome of a job is that of its last attempt.  When a handler ends,
    however late, the only file that its worker may change is that of the job,
    and only while the worker holds the lease and no later attempt was
    started; the file then records the outcome of this very attempt. *)
Theorem outcome_of_last_attempt `{PAudit : !Json AuditEvent} m d es s w io r s' id (Hready : ready d)
    (Hrun : run m (start m d) es = Some s) (Hstep : step m s (EvFinish w io r) = Some s')
    (Hchanged : disk_jobs (m_disk s') !! id ≠ disk_jobs (m_disk s) !! id) :
  ∃ job cancelled cur, m_workers s !! w = Some (Executing job cancelled) ∧ id = Job_ID job ∧
    disk_jobs (m_disk s) !! id = Some (Ok cur) ∧ Job_State cur = JobRunning ∧ Job_LeaseOwner cur = w ∧
    Job_Attempts cur = Job_Attempts job ∧
    disk_jobs (m_disk s') !! id = Some (Ok (
      match (if bool_decide (Job_Type job ∈ manager_kinds m) then r else Err (ErrMsg no_handler)) with
      | Ok value => job_completed cur JobSucceeded value "" (jio_now io)
      | Err err => job_completed cur JobFailed "" (error_text err) (jio_now io)
      end)).
Proof.
  assert (minv m s) as [_ _ _ Hholds] by (eapply run_minv; [by apply minv_start|done]).
  cbn [step] in Hstep. destruct (m_workers s !! w) as [[| |job c|]|] eqn:Hw; try done. injection Hstep as <-.
  exists job, c. destruct (Hholds _ _ _ Hw) as (cur & Hcur & _ & Hlast). exists cur. split; [done|].
  unfold finish in *. cbn [set_worker set_disk m_disk] in *.
  destruct (if bool_decide _ then r else _) as [value|err];
    apply completed_file in Hchanged as (-> & cur' & Hcur' & Hs & Ho & ->);
    rewrite Hcur in Hcur'; injection Hcur' as <-; by (split_and!; try done; apply Hlast).
Qed.


(** ** Witnesses *)

(** A log whose events all read the same; it accepts everything. *)
Definition one_event : Json AuditEvent :=
  single_json (mkAuditEvent 1 1 0 "" "" "" "" "" ∅ "" "").
Definition same_lines (file : audit_file) : Prop := Forall (λ line, line = "{}") (text_lines (content file)) ∧ text_tail (content file) = "".

Lemma same_lines_accepts : @log_accepts one_event same_lines.
Proof.
  intros file now actor action id details [Hfile Htail]. unfold append_audit.
  assert (∃ head, @lastAudit one_event file = Ok head) as [[previous sequence] ->].
  { unfold lastAudit. destruct file as [[lines tail]|]; [|eexists; reflexivity]. cbn in Hfile, Htail. subst tail.
    rewrite scan_text_lines. generalize "" as p. generalize 0%Z as n.
    induction Hfile as [|line lines -> _ IH]; intros n p; cbn [last_audit_loop]; [eexists; reflexivity|].
    assert (line_fits "{}" = true) as -> by (vm_compute; reflexivity). cbn. apply IH. }
  eexists. split; [reflexivity|]. unfold same_lines, write_line. cbn [content default text_lines text_tail].
  split; [|done]. apply Forall_app. split; [done|]. rewrite Htail. by repeat constructor.
Qed.

Definition demo_manager : Manager := Register (New 2 (30 * Second) 3) "analysis".
Definition demo_job (id : string) : Job := new_job id "analysis" "{}" "ada" 1 1.
Definition demo_disk : disk := mkDisk {["job_1" := Ok (demo_job "job_1"); "job_2" := Ok (demo_job "job_2")]} ∅ None.
Definition demo_events : list event :=
  [EvTick "worker-1"; EvClaim "worker-1" (sample_io 10); EvBeat "worker-1" "job_1" 1 (sample_io 20);
   EvFinish "worker-1" (sample_io 30) (Ok "ana-1")].
Definition demo_run (es : list event) : mstate :=
  default (start demo_manager demo_disk) (@run one_event demo_manager (start demo_manager demo_disk) es).
Definition demo_before : mstate := demo_run (take 3 demo_events).
Definition demo_after : mstate := demo_run demo_events.

Lemma demo_ready : ready demo_disk.
Proof.
  intros id j Hj. unfold demo_disk in Hj. cbn [disk_jobs] in Hj.
  apply lookup_insert_Some in Hj as [[<- [= <-]]|[_ [<- [= <-]]%lookup_singleton_Some]]; by vm_compute.
Qed.

Lemma manager_refines_queue_witness :
  arun 3 (abs demo_disk) (@operations one_event demo_manager (start demo_manager demo_disk) demo_events) (abs (m_disk demo_after)) ∧
  length (@operations one_event demo_manager (start demo_manager demo_disk) demo_events) = 3.
Proof.
  split; [|vm_compute; reflexivity].
  apply (@manager_refines_queue one_event demo_manager (start demo_manager demo_disk) demo_events demo_after).
  vm_compute. reflexivity.
Defined.

(** The process dies while the handler runs; the lease lapses, and the next
    process runs the job again. *)
Definition crash_events : list event :=
  [EvTick "worker-1"; EvClaim "worker-1" (sample_io 10); EvCrash; EvReap (sample_io (40 * Second));
   EvWake "worker-2"; EvClaim "worker-2" (sample_io (41 * Second))].
Definition crash_after : mstate := demo_run crash_events.

Lemma executions_bounded_witness :
  m_executed crash_after = [("job_1", 1%Z); ("job_1", 2%Z)] ∧ NoDup (m_executed crash_after) ∧
  (∀ id attempt, (id, attempt) ∈ m_executed crash_after → (earlier demo_disk id < attempt ≤ manager_maxAttempts demo_manager)%Z) ∧
  ∀ id, (Z.of_nat (length (filter (λ x, x.1 = id) (m_executed crash_after))) ≤
    Z.max 0 (manager_maxAttempts demo_manager - earlier demo_disk id))%Z.
Proof.
  split; [vm_compute; reflexivity|].
  apply (@executions_bounded one_event demo_manager demo_disk crash_events crash_after demo_ready).
  vm_compute. reflexivity.
Defined.

Lemma outcome_of_last_attempt_witness :
  ∃ job cancelled cur, m_workers demo_before !! "worker-1" = Some (Executing job cancelled) ∧ "job_1" = Job_ID job ∧
    disk_jobs (m_disk demo_before) !! "job_1" = Some (Ok cur) ∧ Job_State cur = JobRunning ∧
    Job_LeaseOwner cur = "worker-1" ∧ Job_Attempts cur = Job_Attempts job ∧
    disk_jobs (m_disk demo_after) !! "job_1" = Some (Ok (
      match (if bool_decide (Job_Type job ∈ manager_kinds demo_manager) then Ok "ana-1" else Err (ErrMsg no_handler)) with
      | Ok value => job_completed cur JobSucceeded value "" (jio_now (sample_io 30))
      | Err err => job_completed cur JobFailed "" (error_text err) (jio_now (sample_io 30))
      end)).
Proof.
  apply (@outcome_of_last_attempt one_event demo_manager demo_disk (take 3 demo_events) demo_before "worker-1"
    (sample_io 30) (Ok "ana-1") demo_after "job_1" demo_ready).
  - vm_compute. reflexivity.
  - vm_compute. reflexivity.
  - intros Heq. vm_compute in Heq. discriminate Heq.
Defined.


(** ** Consequences worth knowing *)

(** The inner loop does not look at the context: a worker whose manager was
    stopped goes on claiming, and the jobs it claims fail at once instead of
    staying queued for the next start. *)
Example stopped_worker_drains_queue :
  let s := demo_run [EvTick "worker-1"; EvClaim "worker-1" (sample_io 10); EvStop;
    EvFinish "worker-1" (sample_io 11) (Err ErrCanceled);
    EvClaim "worker-1" (sample_io 12); EvFinish "worker-1" (sample_io 13) (Err ErrCanceled)] in
  m_done s = true ∧ m_executed s = [("job_1", 1%Z); ("job_2", 1%Z)] ∧
  abs (m_disk s) = {["job_1" := ADone JobFailed 1; "job_2" := ADone JobFailed 1]}.
Proof. vm_compute. split_and!; reflexivity. Qed.

(** One job file that cannot be read hides every job behind it from all
    workers. *)
Example unreadable_job_blocks_queue :
  let d := mkDisk {["job_1" := Err (ErrMsg "unexpected end of JSON input"); "job_2" := Ok (demo_job "job_2")]} ∅ None in
  claimable 3 (demo_job "job_2") = true ∧
  @ClaimNextJob one_event (sample_io 10) d "worker-1" 30 3 = (d, Err (ErrMsg "unexpected end of JSON input")).
Proof. vm_compute. split; reflexivity. Qed.

(** A torn audit log stops the queue: a claim marks its job as running, fails to
    log it and drops it, so its attempts run out and it fails without ever
    having been run. *)
Example torn_log_fails_jobs :
  let d := mkDisk {["job_1" := Ok (demo_job "job_1")]} ∅ torn_log in
  let turn n := [EvTick "worker-1"; EvClaim "worker-1" (sample_io (n * Minute)); EvReap (sample_io (n * Minute + 40 * Second))] in
  ∃ s, @run sample_codec demo_manager (start demo_manager d) (turn 1 ++ turn 2 ++ turn 3)%Z = Some s ∧
    m_executed s = [] ∧ abs (m_disk s) = {["job_1" := ADone JobFailed 3]}.
Proof. eexists. split; [vm_compute; reflexivity|]. split; vm_compute; reflexivity. Qed.
