(* ===== verification/Paths.v ===== *)
(** * Paths: slash-separated path names

    Models what the program uses of Go's [path/filepath] on Unix ([Clean],
    [Join], [Dir], [Base], [Rel], [IsAbs]; [FromSlash] and [ToSlash] are the
    identity), and the path checks written on top of them: [unsafeRelative],
    [safeJoin] and [validateLinkTarget] of
    [src/internal/workspace/workspace.go], [safeWorkspacePath] of
    [src/internal/oracle/oracle.go] and the identifier checks of
    [src/internal/store/store.go]. *)

From S2P Require Import Prelude Sha256.

(** ** path/filepath *)

Definition slash : ascii := "/"%char.

(** The elements between separators; doubled separators count once. *)
Definition path_comps (path : string) : list string :=
  filter (λ c, c ≠ EmptyString) (split_byte slash path).

Definition IsAbs (path : string) : bool := has_prefix path "/".

(** One step of [filepath.Clean]; [out] is the output so far, reversed. *)
Definition clean_step (rooted : bool) (out : list string) (c : string) : list string :=
  if bool_decide (c = ".") then out
  else if bool_decide (c = "..") then
    match out with
    | top :: rest => if bool_decide (top = "..") then c :: out else rest
    | [] => if rooted then [] else [c]
    end
  else c :: out.

Definition clean_comps (rooted : bool) (cs : list string) : list string :=
  reverse (foldl (clean_step rooted) [] cs).

Definition render (rooted : bool) (cs : list string) : string :=
  if rooted then "/" +:+ join "/" cs
  else match cs with [] => "." | _ => join "/" cs end.

Definition Clean (path : string) : string :=
  let rooted := IsAbs path in render rooted (clean_comps rooted (path_comps path)).

Definition Join (elems : list string) : string :=
  match filter (λ e, e ≠ EmptyString) elems with
  | [] => EmptyString
  | elems => Clean (join "/" elems)
  end.

(** The text up to the last separator *)
Definition last_slash (path : string) : option (string * string) :=
  match reverse (split_byte slash path) with
  | base :: (_ :: _) as rest => Some (join "/" (reverse rest), base)
  | _ => None
  end.

Definition Dir (path : string) : string :=
  match last_slash path with
  | Some (dir, _) => Clean (dir +:+ "/")
  | None => Clean EmptyString
  end.

Definition Base (path : string) : string :=
  if bool_decide (path = EmptyString) then "."
  else match last (path_comps path) with Some c => c | None => "/" end.

(** The two element lists without their common prefix *)
Fixpoint strip_common (bs ts : list string) : list string * list string :=
  match bs, ts with
  | b :: bs', t :: ts' => if bool_decide (b = t) then strip_common bs' ts' else (bs, ts)
  | _, _ => (bs, ts)
  end.

Definition clean_elems (path : string) : list string :=
  clean_comps (IsAbs path) (path_comps path).

Definition Rel (base target : string) : result string :=
  if negb (bool_decide (IsAbs base = IsAbs target)) then Err (ErrMsg "Rel: can't make relative")
  else
    let '(bs, ts) := strip_common (clean_elems base) (clean_elems target) in
    if bool_decide (head bs = Some "..") then Err (ErrMsg "Rel: can't make relative")
    else Ok (render false (replicate (length bs) ".." ++ ts)).

Example Clean_examples :
  Clean "a//b/./c/.." = "a/b" ∧ Clean "../a/../.." = "../.." ∧ Clean "/../x" = "/x" ∧
  Clean "" = "." ∧ Clean "/" = "/" ∧ Dir "a/b/c" = "a/b" ∧ Dir "a" = "." ∧ Dir "/a" = "/" ∧
  Base "a/b/" = "b" ∧ Rel "/r" "/r/a/b" = Ok "a/b" ∧ Rel "/r/x" "/r/a" = Ok "../a".
Proof. by vm_compute. Qed.

(** filepath.IsLocal *)
Definition IsLocal (path : string) : bool :=
  if IsAbs path || bool_decide (path = "") then false
  else
    let dots := existsb (λ c, bool_decide (c = ".") || bool_decide (c = "..")) (split_byte slash path) in
    let path := if dots then Clean path else path in
    negb (bool_decide (path = "..")) && negb (has_prefix path "../").

(** ** The checks of the program *)

Definition unsafeRelative (relative : string) : bool :=
  if bool_decide (relative = EmptyString) || IsAbs relative || contains relative "\" then true
  else
    let clean := Clean relative in
    negb (bool_decide (clean = relative)) || bool_decide (clean = ".") ||
    bool_decide (clean = "..") || has_prefix clean "../" || contains clean "/../".

Definition safeJoin (root relative : string) : result string :=
  fail? unsafeRelative relative with ErrMsg "unsafe relative workspace path" in
  let path := Join [root; relative] in
  match Rel root path with
  | Ok relativeCheck =>
      fail? unsafeRelative relativeCheck with ErrMsg "workspace path escapes root" in Ok path
  | Err _ => Err (ErrMsg "workspace path escapes root")
  end.

Definition validateLinkTarget (relative target : string) : result unit :=
  fail? bool_decide (target = EmptyString) || IsAbs target || contains target "\"
    with ErrMsg "symlink target must be a non-empty relative Unix path" in
  let linkPath := Join [Dir relative; target] in
  let clean := Clean linkPath in
  fail? bool_decide (clean = "..") || has_prefix clean "../"
    with ErrMsg "symlink target escapes workspace" in
  Ok tt.

Definition safeWorkspacePath (root relative : string) : result string :=
  fail? bool_decide (relative = EmptyString) || IsAbs relative
    with ErrMsg "oracle file must be relative" in
  let clean := Clean relative in
  fail? bool_decide (clean = ".") || bool_decide (clean = "..") || has_prefix clean "../"
    with ErrMsg "oracle file escapes workspace" in
  Ok (Join [root; clean]).

Definition validDigest (value : string) : bool :=
  if bool_decide (String.length value = 64) then hex_decodable value else false.

(** A [range] over a string yields runes; the bytes of a multi-byte rune are
    none of the accepted characters, so the byte-wise check is the same. *)
Definition validIdentifier (value : string) : bool :=
  if bool_decide (value = EmptyString) || bool_decide (128 < String.length value) then false
  else
    string_forallb (λ char, is_lower char || is_upper char || is_digit char ||
      bool_decide (char = "-"%char) || bool_decide (char = "_"%char) ||
      bool_decide (char = "."%char)) value &&
    negb (contains value "..").

(** ** Lemmas: clean paths *)

(** An ordinary path element *)
Definition plain (c : string) : Prop :=
  c ≠ EmptyString ∧ c ≠ "." ∧ c ≠ ".." ∧ count_byte slash c = 0.

Definition path_elem (c : string) : Prop := c ≠ EmptyString ∧ count_byte slash c = 0.

#[export] Instance plain_dec c : Decision (plain c).
Proof. unfold plain. apply _. Defined.

Lemma plain_elem c : plain c → path_elem c.
Proof. unfold plain, path_elem. tauto. Qed.

Lemma split_byte_none sep c : count_byte sep c = 0 → split_byte sep c = [c].
Proof.
  induction c as [|x c IH]; cbn; [done|]. intros Hc.
  repeat case_bool_decide; subst; try done; try lia. by rewrite IH by lia.
Qed.

Lemma split_byte_app sep c s :
  count_byte sep c = 0 → split_byte sep (c +:+ String sep s) = c :: split_byte sep s.
Proof.
  induction c as [|x c IH]; cbn; intros Hc.
  - change (EmptyString +:+ String sep s) with (String sep s). cbn. by rewrite bool_decide_eq_true_2.
  - rewrite string_app_cons. cbn. destruct (decide (x = sep)) as [->|Hne].
    + by rewrite bool_decide_eq_true_2 in Hc by done.
    + rewrite bool_decide_eq_false_2 by done. rewrite bool_decide_eq_false_2 in Hc by done.
      by rewrite IH.
Qed.

Lemma split_byte_elem sep s : Forall (λ c, count_byte sep c = 0) (split_byte sep s).
Proof.
  induction s as [|x s IH]; cbn; [by repeat constructor|].
  case_bool_decide; [by constructor|].
  destruct (split_byte sep s) as [|w ws]; [constructor; [cbn|constructor]; by rewrite bool_decide_eq_false_2|].
  apply Forall_cons in IH as [? ?]. constructor; [|done]. cbn. by rewrite bool_decide_eq_false_2.
Qed.

Lemma path_comps_elem path : Forall path_elem (path_comps path).
Proof.
  unfold path_comps. apply Forall_forall. intros c [Hc Hin]%list_elem_of_filter.
  pose proof (split_byte_elem slash path) as H. rewrite Forall_forall in H. split; auto.
Qed.

Lemma path_comps_cons c s :
  path_elem c → path_comps (c +:+ "/" +:+ s) = c :: path_comps s.
Proof.
  intros [? ?]. unfold path_comps. change ("/" +:+ s) with (String slash s).
  rewrite split_byte_app by done. by rewrite filter_cons_True.
Qed.

Lemma path_comps_slash s : path_comps ("/" +:+ s) = path_comps s.
Proof. done. Qed.

Lemma path_comps_join cs : Forall path_elem cs → path_comps (join "/" cs) = cs.
Proof.
  induction 1 as [|c cs Hc Hcs IH]; [done|]. destruct cs as [|d cs].
  - destruct Hc. cbn. unfold path_comps. rewrite split_byte_none by done. by rewrite filter_cons_True.
  - change (join "/" (c :: d :: cs)) with (c +:+ "/" +:+ join "/" (d :: cs)).
    rewrite path_comps_cons by done. by rewrite IH.
Qed.

Lemma join_cons c cs : cs ≠ [] → join "/" (c :: cs) = c +:+ "/" +:+ join "/" cs.
Proof. by destruct cs. Qed.

Lemma path_comps_join_app cs s :
  Forall path_elem cs → path_comps (join "/" cs +:+ "/" +:+ s) = cs ++ path_comps s.
Proof.
  induction 1 as [|c cs Hc Hcs IH]; [done|]. destruct (decide (cs = [])) as [->|Hne].
  - cbn. by rewrite path_comps_cons.
  - rewrite join_cons by done. rewrite !string_app_assoc, path_comps_cons by done. by rewrite IH.
Qed.

(** What [Clean] can leave: leading dot-dot elements, none of them when the
    path is rooted, then ordinary elements. *)
Definition cleaned (rooted : bool) (out : list string) : Prop :=
  ∃ k ps, out = replicate k ".." ++ ps ∧ Forall plain ps ∧ (rooted = true → k = 0).

Lemma clean_step_spec rooted out c :
  path_elem c → cleaned rooted (reverse out) → cleaned rooted (reverse (clean_step rooted out c)).
Proof.
  intros [Hne Hs] (k & ps & Hout & Hps & Hk). unfold clean_step.
  case_bool_decide as Hdot; [by exists k, ps|].
  case_bool_decide as Hdd.
  - subst c. destruct ps as [|p ps _] using rev_ind.
    + rewrite app_nil_r in Hout. assert (out = replicate k "..") as ->.
      { rewrite <-(reverse_involutive out), Hout. apply reverse_replicate. }
      destruct k as [|k].
      * destruct rooted; [by exists 0, []|]. exists 1, []. split_and!; [done|constructor|done].
      * exists (S (S k)), []. split_and!; [|constructor|intros ?%Hk; done].
        change (reverse (replicate (S (S k)) "..") = replicate (S (S k)) ".." ++ []).
        by rewrite reverse_replicate, app_nil_r.
    + rewrite app_assoc in Hout. apply Forall_app in Hps as [Hps [Hp _]%Forall_cons].
      assert (out = p :: reverse (replicate k ".." ++ ps)) as ->.
      { rewrite <-(reverse_involutive out), Hout. by rewrite reverse_snoc. }
      destruct Hp as (_ & _ & Hp & _).
      rewrite bool_decide_eq_false_2 by done. rewrite reverse_involutive. by exists k, ps.
  - exists k, (ps ++ [c]). rewrite reverse_cons, Hout, app_assoc. split_and!; [done| |done].
    apply Forall_app. split; [done|]. by apply Forall_singleton.
Qed.

Lemma clean_comps_spec rooted cs : Forall path_elem cs → cleaned rooted (clean_comps rooted cs).
Proof.
  intros Hcs. unfold clean_comps.
  assert (∀ out, cleaned rooted (reverse out) →
    cleaned rooted (reverse (foldl (clean_step rooted) out cs))) as Hgen.
  { induction Hcs as [|c cs Hc _ IH]; intros out Hout; [done|]. cbn.
    apply IH. by apply clean_step_spec. }
  apply Hgen. exists 0, []. split_and!; [done|constructor|done].
Qed.

Lemma clean_comps_plain rooted cs : Forall plain cs → clean_comps rooted cs = cs.
Proof.
  intros Hcs. unfold clean_comps.
  assert (∀ out, foldl (clean_step rooted) out cs = reverse cs ++ out) as Hgen.
  { induction Hcs as [|c cs (? & ? & ? & ?) _ IH]; intros out; [done|]. cbn [foldl].
    rewrite IH, reverse_cons, <-app_assoc. unfold clean_step.
    by rewrite !bool_decide_eq_false_2 by done. }
  by rewrite Hgen, app_nil_r, reverse_involutive.
Qed.

Definition abs_path (cs : list string) : string := "/" +:+ join "/" cs.

Lemma path_comps_abs cs : Forall path_elem cs → path_comps (abs_path cs) = cs.
Proof. apply path_comps_join. Qed.

Lemma IsAbs_abs cs : IsAbs (abs_path cs) = true.
Proof. apply has_prefix_app. Qed.

Lemma Clean_abs cs : Forall plain cs → Clean (abs_path cs) = abs_path cs.
Proof.
  intros Hcs. unfold Clean. rewrite IsAbs_abs.
  rewrite path_comps_abs by (eapply Forall_impl; [done|apply plain_elem]).
  by rewrite clean_comps_plain.
Qed.

(** A relative path that passes [unsafeRelative] consists of ordinary
    elements only. *)
Lemma unsafeRelative_false r :
  unsafeRelative r = false → ∃ cs, cs ≠ [] ∧ Forall plain cs ∧ r = join "/" cs ∧ path_comps r = cs.
Proof.
  unfold unsafeRelative. destruct (_ || _) eqn:H1; [done|].
  apply orb_false_iff in H1 as [[He Habs]%orb_false_iff _].
  intros [[[[Hclean Hdot]%orb_false_iff Hdd]%orb_false_iff Hpre]%orb_false_iff _]%orb_false_iff.
  apply negb_false_iff, bool_decide_eq_true in Hclean.
  rewrite Hclean in Hpre. apply bool_decide_eq_false in Hdot, Hdd. rewrite Hclean in Hdot, Hdd.
  unfold Clean in Hclean. rewrite Habs in Hclean. unfold render in Hclean.
  destruct (clean_comps_spec false (path_comps r) (path_comps_elem r)) as (k & ps & Hcs & Hps & _).
  rewrite Hcs in Hclean. destruct k as [|k].
  - cbn in Hclean. exists ps. destruct ps as [|p ps]; [congruence|].
    split_and!; [done|done|done|]. rewrite <-Hclean. apply path_comps_join.
    eapply Forall_impl; [done|apply plain_elem].
  - exfalso. cbn [replicate app] in Hclean. destruct (replicate k ".." ++ ps) as [|c cs].
    + by rewrite <-Hclean in Hdd.
    + rewrite join_cons in Hclean by done. rewrite <-Hclean in Hpre.
      rewrite <-string_app_assoc in Hpre. change (".." +:+ "/") with "../" in Hpre.
      by rewrite has_prefix_app in Hpre.
Qed.

Lemma strip_common_app bs ts : strip_common bs (bs ++ ts) = ([], ts).
Proof.
  induction bs as [|b bs IH]; cbn; [by destruct ts|]. by rewrite bool_decide_eq_true_2.
Qed.

(** Joining below an absolute clean root is concatenation of the elements. *)
Lemma Join_abs rcs r cs :
  Forall plain rcs → Forall plain cs → cs ≠ [] → r = join "/" cs →
  Join [abs_path rcs; r] = abs_path (rcs ++ cs).
Proof.
  intros Hr Hc Hne ->. unfold Join.
  assert (join "/" cs ≠ EmptyString) as Hj.
  { destruct cs as [|c cs]; [done|]. apply Forall_cons in Hc as [[Hc _] _].
    destruct cs; [done|]. rewrite join_cons by done. by destruct c. }
  rewrite filter_cons_True by done. rewrite filter_cons_True by done.
  change (filter _ []) with (@nil string).
  change (join "/" [abs_path rcs; join "/" cs]) with (abs_path rcs +:+ "/" +:+ join "/" cs).
  unfold Clean. assert (IsAbs (abs_path rcs +:+ "/" +:+ join "/" cs) = true) as ->.
  { unfold abs_path. rewrite string_app_assoc. apply has_prefix_app. }
  unfold abs_path at 1. rewrite string_app_assoc.
  rewrite path_comps_slash, path_comps_join_app, path_comps_join
    by (eapply Forall_impl; [done|apply plain_elem]).
  rewrite clean_comps_plain by (by apply Forall_app). done.
Qed.

Lemma safeJoin_spec rcs r :
  Forall plain rcs → unsafeRelative r = false →
  ∃ cs, cs ≠ [] ∧ Forall plain cs ∧ path_comps r = cs ∧
    safeJoin (abs_path rcs) r = Ok (abs_path (rcs ++ cs)).
Proof.
  intros Hr Hsafe. destruct (unsafeRelative_false r Hsafe) as (cs & Hne & Hcs & Hj & Hpc).
  exists cs. split_and!; [done..|]. unfold safeJoin. rewrite Hsafe.
  rewrite (Join_abs rcs r cs) by done. unfold Rel. rewrite !IsAbs_abs.
  rewrite bool_decide_eq_true_2 by done. cbn [negb].
  assert (Forall path_elem rcs) by (eapply Forall_impl; [done|apply plain_elem]).
  assert (Forall path_elem cs) by (eapply Forall_impl; [done|apply plain_elem]).
  unfold clean_elems. rewrite !IsAbs_abs, !path_comps_abs, !clean_comps_plain
    by (try apply Forall_app; done).
  rewrite strip_common_app. cbn [head]. rewrite bool_decide_eq_false_2 by done.
  cbn [replicate length app]. assert (render false cs = r) as ->.
  { rewrite Hj. by destruct cs. }
  by rewrite Hsafe.
Qed.

(** ** Lemmas: joined paths *)

Lemma plain_path_elem cs : Forall plain cs → Forall path_elem cs.
Proof. intros Hcs. eapply Forall_impl; [exact Hcs|apply plain_elem]. Qed.

Lemma join_plain_inj q q' : Forall plain q → Forall plain q' → join "/" q = join "/" q' → q = q'.
Proof.
  intros H1 H2 Heq. rewrite <-(path_comps_join q), <-(path_comps_join q') by by apply plain_path_elem. by rewrite Heq.
Qed.

Lemma split_join_elem q : Forall path_elem q → q ≠ [] → split_byte slash (join "/" q) = q.
Proof.
  induction 1 as [|c q [_ Hc] Hq IH]; intros Hne; [done|].
  destruct (decide (q = [])) as [->|Hqne]; [cbn [join]; by apply split_byte_none|].
  rewrite join_cons by done. change ("/" +:+ join "/" q) with (String slash (join "/" q)). by rewrite split_byte_app, IH.
Qed.

Lemma IsLocal_join q : Forall plain q → q ≠ [] →
  IsLocal (join "/" q) = true ∧ IsAbs (join "/" q) = false ∧ join "/" q ≠ "" ∧ join "/" q ≠ "." ∧ join "/" q ≠ ".." ∧
  has_prefix (join "/" q) "../" = false.
Proof.
  intros Hq Hne. pose proof (split_join_elem q (plain_path_elem q Hq) Hne) as Hsplit.
  assert (∀ d, d ∈ q → plain d) as Hin by by rewrite <-Forall_forall.
  assert (∀ d, ¬ plain d → split_byte slash d = [d] → join "/" q ≠ d) as Hno.
  { intros d Hd Hs Heq. apply Hd, Hin. rewrite <-Hsplit, Heq, Hs. by left. }
  assert (has_prefix (join "/" q) "../" = false) as Hup.
  { apply not_true_is_false. intros [t Ht]%has_prefix_true. rewrite Ht in Hsplit.
    change ("../" +:+ t) with (".." +:+ String slash t) in Hsplit. rewrite split_byte_app in Hsplit by done.
    destruct (Hin "..") as (_ & _ & ? & _); [rewrite <-Hsplit; by left|done]. }
  assert (IsAbs (join "/" q) = false) as Habs.
  { apply not_true_is_false. intros [t Ht]%has_prefix_true. rewrite Ht in Hsplit.
    change ("/" +:+ t) with ("" +:+ String slash t) in Hsplit. rewrite split_byte_app in Hsplit by done.
    destruct (Hin "") as (? & _); [rewrite <-Hsplit; by left|done]. }
  assert (join "/" q ≠ "" ∧ join "/" q ≠ "." ∧ join "/" q ≠ "..") as (Hn1 & Hn2 & Hn3).
  { split_and!; apply Hno; try done; unfold plain; tauto. }
  split_and!; try done. unfold IsLocal. rewrite Habs, (bool_decide_eq_false_2 (_ = "")) by done. cbn [orb].
  rewrite Hsplit. assert (existsb (λ c, bool_decide (c = ".") || bool_decide (c = "..")) q = false) as ->.
  { apply not_true_is_false. intros (d & Hd%list_elem_of_In & Hdots)%existsb_exists. apply Hin in Hd as (_ & ? & ? & _).
    rewrite !bool_decide_eq_false_2 in Hdots by done. done. }
  by rewrite Hup, bool_decide_eq_false_2.
Qed.

(** ** The parent of a path *)

Lemma clean_comps_cleaned rooted cs : cleaned rooted cs → clean_comps rooted cs = cs.
Proof.
  intros (k & ps & -> & Hps & Hk). destruct rooted; [rewrite Hk by done; by apply clean_comps_plain|].
  assert (∀ j, foldl (clean_step false) (replicate j "..") (replicate k "..") = replicate (k + j) "..") as Hdots.
  { clear. induction k as [|k IH]; intros j; [done|]. cbn [replicate foldl].
    assert (clean_step false (replicate j "..") ".." = replicate (S j) "..") as -> by by destruct j.
    rewrite IH. f_equal. lia. }
  unfold clean_comps. rewrite foldl_app. specialize (Hdots 0). cbn [replicate] in Hdots. rewrite Hdots, Nat.add_0_r.
  assert (∀ out, foldl (clean_step false) out ps = reverse ps ++ out) as ->.
  { induction Hps as [|c cs (? & ? & ? & ?) _ IH]; intros out; [done|]. cbn [foldl]. rewrite IH, reverse_cons, <-app_assoc.
    unfold clean_step. by rewrite !bool_decide_eq_false_2 by done. }
  rewrite reverse_app, reverse_involutive. by rewrite reverse_replicate.
Qed.

Lemma cleaned_elems rooted cs : cleaned rooted cs → Forall path_elem cs.
Proof.
  intros (k & ps & -> & Hps & _). apply Forall_app. split; [|eapply Forall_impl; [done|apply plain_elem]].
  apply Forall_replicate. by split.
Qed.

Lemma cleaned_init rooted ds c : cleaned rooted (ds ++ [c]) → cleaned rooted ds.
Proof.
  intros (k & ps & Heq & Hps & Hk). destruct ps as [|p ps _] using rev_ind.
  - rewrite app_nil_r in Heq. destruct k as [|k]; [by destruct ds|]. rewrite replicate_S_end in Heq.
    apply app_inj_tail in Heq as [-> _]. exists k, []. rewrite app_nil_r. split_and!; [done|constructor|].
    intros ?%Hk. done.
  - rewrite app_assoc in Heq. apply app_inj_tail in Heq as [-> _]. apply Forall_app in Hps as [? _]. by exists k, ps.
Qed.

Lemma Dir_render rooted cs : cleaned rooted cs → Dir (render rooted cs) = render rooted (take (length cs - 1) cs).
Proof.
  intros Hcs. destruct cs as [|c ds _] using rev_ind; [by destruct rooted|].
  rewrite length_app, Nat.add_sub, take_app_length. apply cleaned_elems in Hcs as Helems. apply cleaned_init in Hcs as Hds.
  apply cleaned_elems in Hds as Hdelems. unfold Dir, last_slash. destruct rooted; cbn [render].
  - assert (split_byte slash ("/" +:+ join "/" (ds ++ [c])) = "" :: ds ++ [c]) as ->.
    { change ("/" +:+ join "/" (ds ++ [c])) with (EmptyString +:+ String slash (join "/" (ds ++ [c]))).
      rewrite split_byte_app by done. f_equal. apply split_join_elem; [done|by destruct ds]. }
    rewrite app_comm_cons, reverse_snoc. destruct (reverse ("" :: ds)) as [|x rest] eqn:Hr.
    { apply (f_equal length) in Hr. by rewrite length_reverse in Hr. }
    rewrite <-Hr, reverse_involutive. destruct (decide (ds = [])) as [->|Hne]; [done|].
    assert (join "/" ("" :: ds) = "/" +:+ join "/" ds) as -> by by rewrite join_cons.
    unfold Clean. rewrite string_app_assoc. assert (IsAbs ("/" +:+ join "/" ds +:+ "/") = true) as -> by apply has_prefix_app.
    rewrite path_comps_slash. change (join "/" ds +:+ "/") with (join "/" ds +:+ "/" +:+ "").
    rewrite path_comps_join_app by done. change (path_comps "") with (@nil string). rewrite app_nil_r. by rewrite clean_comps_cleaned.
  - assert (∀ l, (match l ++ [c] with [] => "." | _ => join "/" (l ++ [c]) end) = join "/" (l ++ [c])) as -> by by intros [].
    rewrite split_join_elem by (done || by destruct ds). rewrite reverse_snoc.
    destruct (decide (ds = [])) as [->|Hne]; [done|]. destruct (reverse ds) as [|x rest] eqn:Hr.
    { apply (f_equal length) in Hr. rewrite length_reverse in Hr. by destruct ds. }
    rewrite <-Hr, reverse_involutive. unfold Clean.
    assert (IsAbs (join "/" ds +:+ "/") = false) as ->.
    { destruct ds as [|d ds]; [done|]. apply Forall_cons in Hdelems as [[Hd Hs] _]. unfold IsAbs, has_prefix.
      destruct d as [|a d]; [done|]. cbn in Hs. case_bool_decide as Ha; [done|].
      assert (∃ t, join "/" (String a d :: ds) +:+ "/" = String a t) as [t ->] by (destruct ds; [|rewrite join_cons by done]; by eexists).
      change (String.prefix "/" (String a t)) with (if ascii_dec "/" a then String.prefix "" t else false).
      destruct (ascii_dec "/" a) as [e|]; [exfalso; apply Ha; exact e|done]. }
    change (join "/" ds +:+ "/") with (join "/" ds +:+ "/" +:+ "").
    rewrite path_comps_join_app by done. change (path_comps "") with (@nil string). rewrite app_nil_r, clean_comps_cleaned by done.
    by destruct ds.
Qed.

Lemma length_clean_comps rooted cs : length (clean_comps rooted cs) ≤ length cs.
Proof.
  unfold clean_comps. rewrite length_reverse.
  assert (∀ out, length (foldl (clean_step rooted) out cs) ≤ length cs + length out) as Hgen.
  { induction cs as [|c cs IH]; intros out; [done|]. cbn. etrans; [apply IH|].
    assert (length (clean_step rooted out c) ≤ S (length out)); [|lia].
    unfold clean_step. repeat case_bool_decide; repeat case_match; cbn; repeat case_bool_decide; cbn; lia. }
  specialize (Hgen []). cbn in Hgen. lia.
Qed.
