(* ===== verification/Fs.v ===== *)
(** * Fs: the file system the program works on

    A model of the calls of Go's package [os] that the workspace and the
    oracle use.  A file system maps absolute paths, as lists of elements, to
    nodes; the root directory is the empty list and always exists.  Path names
    are resolved the way the kernel does it: element by element, following
    symbolic links, at most [max_links] of them.  The first part records the
    permission bits and does not check them; the last part adds what the bits
    permit to a process with or without the privileges of root, and what a
    call that fails leaves behind.  [Workspace] rebuilds trees with the checked
    calls; the readers of the program use the unchecked ones, on files that
    their user can read. *)

From S2P Require Import Prelude Paths.

Inductive node :=
  | NFile (mode : Z) (content : string)
  | NDir (mode : Z)
  | NSymlink (target : string).

#[export] Instance node_eq_dec : EqDecision node.
Proof. solve_decision. Defined.

Abbreviation fs := (gmap (list string) node) (only parsing).

Definition ErrNotDir : error := ErrMsg "not a directory".
Definition ErrExist : error := ErrMsg "file exists".
Definition ErrIsDir : error := ErrMsg "is a directory".
Definition ErrLoop : error := ErrMsg "too many levels of symbolic links".

Definition max_links : nat := 40.

Definition parent (p : list string) : list string := take (length p - 1) p.

(** Resolution of the elements [cs] from the directory [cur].  The last
    element need not exist; a link in last position is followed on demand. *)
Fixpoint walk (links : nat) (f : fs) (follow : bool) : list string → list string → result (list string) :=
  fix go (cur cs : list string) : result (list string) :=
    match cs with
    | [] => Ok cur
    | c :: rest =>
        if bool_decide (c = EmptyString) || bool_decide (c = ".") then go cur rest
        else if bool_decide (c = "..") then go (parent cur) rest
        else
          let p := cur ++ [c] in
          match f !! p with
          | Some (NSymlink target) =>
              if negb follow && bool_decide (rest = []) then Ok p
              else match links with
                   | O => Err ErrLoop
                   | S links =>
                       walk links f follow (if IsAbs target then [] else cur)
                         (split_byte slash target ++ rest)
                   end
          | Some (NDir _) => go p rest
          | Some (NFile _ _) => if bool_decide (rest = []) then Ok p else Err ErrNotDir
          | None => if bool_decide (rest = []) then Ok p else Err ErrNotExist
          end
    end.

Definition resolve (f : fs) (follow : bool) (path : string) : result (list string) :=
  walk max_links f follow [] (split_byte slash path).

Definition get_node (f : fs) (p : list string) : option node :=
  match p with [] => Some (NDir 0) | _ => f !! p end.

(** os.Lstat and os.Stat *)
Definition stat_with (follow : bool) (f : fs) (path : string) : result node :=
  let? p := resolve f follow path in
  match get_node f p with Some n => Ok n | None => Err ErrNotExist end.
Definition Lstat := stat_with false.
Definition Stat := stat_with true.

(** filepath.EvalSymlinks of an absolute path: the same steps, with a bound of
    its own, to something that exists *)
Definition max_eval_links : nat := 255.
Definition EvalSymlinks (f : fs) (path : string) : result string :=
  let? p := walk max_eval_links f true [] (split_byte slash path) in
  match get_node f p with Some _ => Ok (abs_path p) | None => Err ErrNotExist end.

(** os.ReadFile *)
Definition ReadFile (f : fs) (path : string) : result string :=
  let? n := Stat f path in
  match n with
  | NFile _ content => Ok content
  | NDir _ => Err ErrIsDir
  | NSymlink _ => Err ErrLoop
  end.

(** os.WriteFile: an existing file is truncated and keeps its mode. *)
Definition WriteFile (f : fs) (path content : string) (perm : Z) : result fs :=
  let? p := resolve f true path in
  match get_node f p with
  | Some (NDir _) => Err ErrIsDir
  | Some (NFile mode _) => Ok (<[p := NFile mode content]> f)
  | Some (NSymlink _) => Err ErrLoop
  | None => Ok (<[p := NFile perm content]> f)
  end.

(** os.Chmod *)
Definition Chmod (f : fs) (path : string) (perm : Z) : result fs :=
  let? p := resolve f true path in
  match get_node f p with
  | Some (NDir _) => Ok (<[p := NDir perm]> f)
  | Some (NFile _ content) => Ok (<[p := NFile perm content]> f)
  | Some (NSymlink _) => Err ErrLoop
  | None => Err ErrNotExist
  end.

(** mkdir(2), and os.MkdirAll on top of it *)
Definition Mkdir (f : fs) (path : string) (perm : Z) : result fs :=
  let? p := resolve f false path in
  match get_node f p with
  | Some _ => Err ErrExist
  | None => Ok (<[p := NDir perm]> f)
  end.

Definition mkdir_one (f : fs) (path : string) (perm : Z) : result fs :=
  match Stat f path with
  | Ok (NDir _) => Ok f
  | Ok _ => Err ErrNotDir
  | Err _ =>
      match Mkdir f path perm with
      | Ok f => Ok f
      | Err err =>
          match Lstat f path with
          | Ok (NDir _) => Ok f
          | _ => Err err
          end
      end
  end.

(** os.MkdirAll recurses on the parent; seen from the root it visits every
    prefix of the path in order. *)
Fixpoint mkdir_prefixes (f : fs) (done todo : list string) (perm : Z) : result fs :=
  match todo with
  | [] => Ok f
  | c :: todo =>
      let? f := mkdir_one f (abs_path (done ++ [c])) perm in
      mkdir_prefixes f (done ++ [c]) todo perm
  end.
Definition MkdirAll (f : fs) (path : string) (perm : Z) : result fs :=
  match Stat f path with
  | Ok (NDir _) => Ok f
  | Ok _ => Err ErrNotDir
  | Err _ => mkdir_prefixes f [] (path_comps path) perm
  end.

(** os.Symlink *)
Definition Symlink (f : fs) (target path : string) : result fs :=
  let? p := resolve f false path in
  match get_node f p with
  | Some _ => Err ErrExist
  | None => Ok (<[p := NSymlink target]> f)
  end.

(** os.RemoveAll, and os.Remove of something that is not a directory *)
Definition below (p q : list string) : Prop := p `prefix_of` q.
#[export] Instance below_dec p q : Decision (below p q).
Proof. unfold below. apply _. Defined.

Definition RemoveAll (f : fs) (path : string) : result fs :=
  match resolve f false path with
  | Err ErrNotExist => Ok f
  | Err err => Err err
  | Ok p => Ok (filter (λ kv, ¬ below p kv.1) f)
  end.

Definition Remove (f : fs) (path : string) : result fs :=
  let? p := resolve f false path in
  match f !! p with
  | None => Err ErrNotExist
  | Some _ => Ok (delete p f)
  end.

(** ** Lemmas: resolution below real directories *)

(** Every proper prefix of [cs] below [cur] is a directory. *)
Fixpoint real_dirs (f : fs) (cur cs : list string) : Prop :=
  match cs with
  | [] => True
  | c :: rest => rest = [] ∨ ((∃ m, f !! (cur ++ [c]) = Some (NDir m)) ∧ real_dirs f (cur ++ [c]) rest)
  end.

Lemma walk_real links f follow cs : ∀ cur,
  Forall plain cs → real_dirs f cur cs →
  (follow = false ∨ ∀ t, f !! (cur ++ cs) ≠ Some (NSymlink t)) →
  walk links f follow cur cs = Ok (cur ++ cs).
Proof.
  induction cs as [|c rest IH]; intros cur Hplain Hreal Hlast.
  { destruct links; cbn; by rewrite app_nil_r. }
  apply Forall_cons in Hplain as [(? & ? & ? & ?) Hplain].
  assert (walk links f follow cur (c :: rest) =
    let p := cur ++ [c] in
          match f !! p with
          | Some (NSymlink target) =>
              if negb follow && bool_decide (rest = []) then Ok p
              else match links with
                   | O => Err ErrLoop
                   | S links =>
                       walk links f follow (if IsAbs target then [] else cur)
                         (split_byte slash target ++ rest)
                   end
          | Some (NDir _) => walk links f follow p rest
          | Some (NFile _ _) => if bool_decide (rest = []) then Ok p else Err ErrNotDir
          | None => if bool_decide (rest = []) then Ok p else Err ErrNotExist
          end) as ->.
  { destruct links; cbn; by rewrite (bool_decide_eq_false_2 (c = "")), (bool_decide_eq_false_2 (c = ".")),
      (bool_decide_eq_false_2 (c = "..")) by done. }
  cbn zeta. assert (walk links f follow (cur ++ [c]) [] = Ok (cur ++ [c])) as Hnil by by destruct links.
  destruct Hreal as [->|[[m Hdir] Hreal]].
  - destruct (f !! (cur ++ [c])) as [[| |t]|] eqn:Hn; [done|done| |done].
    rewrite bool_decide_eq_true_2 by done. destruct Hlast as [->|Hlast]; [done|]. by destruct (Hlast t).
  - rewrite Hdir. rewrite IH; [by rewrite <-app_assoc|done|done|].
    by rewrite <-app_assoc.
Qed.

(** Splitting a rooted clean path gives an empty element, then its elements. *)
Lemma split_abs cs : Forall plain cs → cs ≠ [] → split_byte slash (abs_path cs) = EmptyString :: cs.
Proof.
  intros Hcs Hne. unfold abs_path. change ("/" +:+ join "/" cs) with (EmptyString +:+ String slash (join "/" cs)).
  rewrite split_byte_app by done. f_equal. revert Hne.
  induction Hcs as [|c cs (? & ? & ? & Hc) Hcs IH]; intros Hne; [done|].
  destruct (decide (cs = [])) as [->|Hcne]; [cbn [join]; by apply split_byte_none|].
  rewrite join_cons by done. change ("/" +:+ join "/" cs) with (String slash (join "/" cs)).
  rewrite split_byte_app by done. by rewrite IH.
Qed.

Lemma resolve_real f follow cs :
  Forall plain cs → cs ≠ [] → real_dirs f [] cs →
  (follow = false ∨ ∀ t, f !! cs ≠ Some (NSymlink t)) →
  resolve f follow (abs_path cs) = Ok cs.
Proof.
  intros Hcs Hne Hreal Hlast. unfold resolve. rewrite split_abs by done.
  change (walk max_links f follow [] (EmptyString :: cs)) with (walk max_links f follow [] cs).
  by apply walk_real.
Qed.

Lemma real_dirs_prefix f cs : ∀ cur,
  real_dirs f cur cs ↔
  ∀ pre, pre `prefix_of` cs → pre ≠ [] → pre ≠ cs → ∃ m, f !! (cur ++ pre) = Some (NDir m).
Proof.
  induction cs as [|c rest IH]; intros cur; cbn.
  { split; [|done]. intros _ pre ?%prefix_nil_inv ? ?. done. }
  rewrite IH. clear IH. split.
  - intros Hor pre Hpre Hne Hneq. destruct pre as [|c' pre]; [done|].
    apply prefix_cons_inv_1 in Hpre as Hc'. apply prefix_cons_inv_2 in Hpre. subst c'.
    destruct Hor as [->|[Hdir Hall]].
    { apply prefix_nil_inv in Hpre. congruence. }
    destruct (decide (pre = [])) as [->|Hpne]; [done|].
    assert (pre ≠ rest) by congruence. destruct (Hall pre) as [m Hm]; [done..|].
    exists m. by rewrite <-app_assoc in Hm.
  - intros Hall. destruct (decide (rest = [])) as [->|Hrne]; [by left|]. right. split.
    + apply Hall; [by exists rest|done|congruence].
    + intros pre Hpre Hpne Hneq. destruct (Hall (c :: pre)) as [m Hm];
        [by apply prefix_cons|done|congruence|].
      exists m. by rewrite <-app_assoc.
Qed.

(** ** Lemmas: where a resolution ends *)

(** The directory [cur] by its real path *)
Definition real_dir (f : fs) (cur : list string) : Prop :=
  Forall plain cur ∧ ∀ pre, pre `prefix_of` cur → pre ≠ [] → ∃ m, f !! pre = Some (NDir m).

(** A path without links, [..] and the like that names [n] *)
Record real_path (f : fs) (p : list string) (n : node) : Prop := {
  rp_plain : Forall plain p;
  rp_dirs pre : pre `prefix_of` p → pre ≠ [] → pre ≠ p → ∃ m, f !! pre = Some (NDir m);
  rp_node : get_node f p = Some n;
  rp_nolink t : n ≠ NSymlink t;
}.

Lemma real_dir_nil f : real_dir f [].
Proof. split; [done|]. by intros pre ->%prefix_nil_inv. Qed.

Lemma real_dir_parent f cur : real_dir f cur → real_dir f (parent cur).
Proof.
  intros [Hp Hd]. unfold parent. split; [by apply Forall_take|].
  intros pre Hpre. apply Hd. etrans; [exact Hpre|]. apply prefix_take.
Qed.

Lemma prefix_snoc_inv {A} (pre cur : list A) c : pre `prefix_of` cur ++ [c] → pre ≠ cur ++ [c] → pre `prefix_of` cur.
Proof. intros [k Hk] Hne. destruct k as [|x k _] using rev_ind; [by rewrite app_nil_r in Hk|].
  rewrite app_assoc in Hk. apply app_inj_tail in Hk as [-> _]. by eexists.
Qed.

Lemma real_dir_snoc f cur c m : real_dir f cur → plain c → f !! (cur ++ [c]) = Some (NDir m) → real_dir f (cur ++ [c]).
Proof.
  intros [Hp Hd] Hc Hn. split; [by apply Forall_app; auto|]. intros pre Hpre Hne.
  destruct (decide (pre = cur ++ [c])) as [->|Hneq]; [by exists m|]. apply Hd; [by eapply prefix_snoc_inv|done].
Qed.

Lemma walk_ends links f : ∀ cs cur p, real_dir f cur → Forall (λ c, count_byte slash c = 0) cs →
  walk links f true cur cs = Ok p →
  real_dir f p ∨ ∃ q c, p = q ++ [c] ∧ real_dir f q ∧ plain c ∧ ∀ t, f !! p ≠ Some (NSymlink t).
Proof.
  induction links as [|links IHl]; induction cs as [|c cs IH]; intros cur p Hcur Hcs Hw.
  1, 3: injection Hw as <-; by left.
  all: apply Forall_cons in Hcs as [Hc Hcs]; cbn in Hw; fold walk in Hw.
  all: destruct (decide (c = "")) as [->|Hc1]; [by eapply IH|]; rewrite (bool_decide_eq_false_2 (c = "")) in Hw by done.
  all: destruct (decide (c = ".")) as [->|Hc2]; [by eapply IH|]; rewrite (bool_decide_eq_false_2 (c = ".")) in Hw by done.
  all: destruct (decide (c = "..")) as [->|Hc3]; [eapply IH; [by apply real_dir_parent|done|exact Hw]|].
  all: rewrite (bool_decide_eq_false_2 (c = "..")) in Hw by done; cbn [orb] in Hw.
  all: assert (plain c) as Hplain by done.
  all: destruct (f !! (cur ++ [c])) as [[mode content|mode|target]|] eqn:Hn.
  all: try (case_bool_decide; [injection Hw as <-; right; exists cur, c; split_and!; try done; congruence|done]).
  all: try (eapply IH; [by eapply real_dir_snoc|done|exact Hw]).
  all: cbn [negb andb] in Hw; try done.
  eapply IHl; [|apply Forall_app; split; [apply split_byte_elem|exact Hcs]|exact Hw].
  destruct (IsAbs target); [apply real_dir_nil|done].
Qed.

Lemma EvalSymlinks_real f path r : EvalSymlinks f path = Ok r → ∃ p n, r = abs_path p ∧ real_path f p n.
Proof.
  unfold EvalSymlinks. destruct (walk _ _ _ _ _) as [p|] eqn:Hw; [|done]. cbn [rbind].
  destruct (get_node f p) as [n|] eqn:Hn; [|done]. intros [= <-]. exists p, n. split; [done|].
  apply walk_ends in Hw as [[Hp Hd]|(q & c & -> & [Hq Hd] & Hc & Hlink)]; [| |apply real_dir_nil|apply split_byte_elem].
  - split; [done|by auto|done|]. intros t ->. destruct p as [|c p]; [done|].
    destruct (Hd (c :: p)) as [m Hm]; [done..|]. cbn in Hn. congruence.
  - split; [by apply Forall_app; auto| |done|].
    + intros pre Hpre Hne Hneq. apply Hd; [by eapply prefix_snoc_inv|done].
    + intros t ->. apply (Hlink t). by destruct q.
Qed.

Section real.
Context (f : fs) (p : list string) (n : node) (Hp : real_path f p n).

Lemma walk_real_path links follow : walk links f follow [] (split_byte slash (abs_path p)) = Ok p.
Proof.
  pose proof (rp_plain _ _ _ Hp) as Hplain. destruct (decide (p = [])) as [->|Hne].
  { change (split_byte slash (abs_path [])) with [""; ""]. by destruct links. }
  rewrite split_abs by done. assert (walk links f follow [] ("" :: p) = walk links f follow [] p) as -> by by destruct links.
  apply walk_real; [done| |].
  - apply real_dirs_prefix, (rp_dirs _ _ _ Hp).
  - right. intros t Ht. apply (rp_nolink _ _ _ Hp t). pose proof (rp_node _ _ _ Hp) as Hn.
    destruct p; [done|]. cbn in *. congruence.
Qed.

Lemma stat_real_path follow : stat_with follow f (abs_path p) = Ok n.
Proof. unfold stat_with, resolve. rewrite walk_real_path. cbn. by rewrite (rp_node _ _ _ Hp). Qed.

Lemma EvalSymlinks_real_path : EvalSymlinks f (abs_path p) = Ok (abs_path p).
Proof. unfold EvalSymlinks. rewrite walk_real_path. cbn. by rewrite (rp_node _ _ _ Hp). Qed.
End real.

(** ** Permission bits

    What the process may do is decided by the permission bits of the
    directories on the way, when it does not run with the privileges of root.
    The files of the model belong to the user of the process, so the bits of
    the owner apply; the root directory is accessible. *)

Class User := privileged : bool.

Definition ErrPermission : error := ErrMsg "permission denied".

Definition owner_r : Z := 256.
Definition owner_w : Z := 128.
Definition owner_x : Z := 64.

Section permissions.
Context {USER : User}.

Definition has_bits (mode bits : Z) : bool := bool_decide (Z.land mode bits = bits).

Definition permits (f : fs) (bits : Z) (d : list string) : bool :=
  privileged || bool_decide (d = []) ||
  match f !! d with
  | Some (NDir mode) | Some (NFile mode _) => has_bits mode bits
  | _ => true
  end.

(** The directories in which [walk] looks an element up, in order; each has
    to be searchable. *)
Fixpoint searched (links : nat) (f : fs) (follow : bool)
    : list string → list string → list (list string) :=
  fix go (cur cs : list string) : list (list string) :=
    match cs with
    | [] => []
    | c :: rest =>
        if bool_decide (c = EmptyString) then go cur rest
        else cur ::
          (if bool_decide (c = ".") then go cur rest
           else if bool_decide (c = "..") then go (parent cur) rest
           else
             let p := cur ++ [c] in
             match f !! p with
             | Some (NSymlink target) =>
                 if negb follow && bool_decide (rest = []) then []
                 else match links with
                      | O => []
                      | S links =>
                          searched links f follow (if IsAbs target then [] else cur)
                            (split_byte slash target ++ rest)
                      end
             | Some (NDir _) => go p rest
             | _ => []
             end)
    end.

Definition may_lookup (f : fs) (follow : bool) (path : string) : bool :=
  forallb (permits f owner_x) (searched max_links f follow [] (split_byte slash path)).

(** A call on [path]: the way there has to be searchable; then come the other
    errors of the call, then the permission it needs at its end. *)
Definition checked {R : Type} (f : fs) (follow : bool) (path : string) (need : list string → bool)
    (call : result R) : result R :=
  if negb (may_lookup f follow path) then Err ErrPermission
  else
    let? a := call in
    let? p := resolve f follow path in
    if need p then Ok a else Err ErrPermission.

(** Names are made and removed in a directory that is writable. *)
Definition may_change (f : fs) (p : list string) : bool := permits f owner_w (parent p).

Definition lstat_as (f : fs) (path : string) : result node :=
  checked f false path (λ _, true) (Lstat f path).
Definition stat_as (f : fs) (path : string) : result node :=
  checked f true path (λ _, true) (Stat f path).
Definition mkdir_as (f : fs) (path : string) (perm : Z) : result fs :=
  checked f false path (may_change f) (Mkdir f path perm).
Definition symlink_as (f : fs) (target path : string) : result fs :=
  checked f false path (may_change f) (Symlink f target path).
Definition remove_as (f : fs) (path : string) : result fs :=
  checked f false path (may_change f) (Remove f path).
Definition chmod_as (f : fs) (path : string) (perm : Z) : result fs :=
  checked f true path (λ _, true) (Chmod f path perm).

(** An existing file has to be writable itself. *)
Definition write_file_as (f : fs) (path content : string) (perm : Z) : result fs :=
  checked f true path
    (λ p, match f !! p with Some _ => permits f owner_w p | None => may_change f p end)
    (WriteFile f path content perm).

(** What a call that fails has done by then *)
Definition effect : Type := fs * result unit.
Definition kept (f : fs) (r : result fs) : effect :=
  match r with Ok f' => (f', Ok tt) | Err err => (f, Err err) end.
Definition attempt {R : Type} (f : fs) (r : result R) (k : R → effect) : effect :=
  match r with Ok a => k a | Err err => (f, Err err) end.
Definition ebind (e : effect) (k : fs → effect) : effect :=
  match e with (f, Ok _) => k f | (f, Err err) => (f, Err err) end.

(** os.MkdirAll: the directories made before an error stay. *)
Definition mkdir_one_as (f : fs) (path : string) (perm : Z) : result fs :=
  match stat_as f path with
  | Ok (NDir _) => Ok f
  | Ok _ => Err ErrNotDir
  | Err _ =>
      match mkdir_as f path perm with
      | Ok f => Ok f
      | Err err => match lstat_as f path with Ok (NDir _) => Ok f | _ => Err err end
      end
  end.

Fixpoint mkdir_prefixes_as (f : fs) (done todo : list string) (perm : Z) : effect :=
  match todo with
  | [] => (f, Ok tt)
  | c :: todo =>
      match mkdir_one_as f (abs_path (done ++ [c])) perm with
      | Ok f => mkdir_prefixes_as f (done ++ [c]) todo perm
      | Err err => (f, Err err)
      end
  end.
Definition mkdir_all_as (f : fs) (path : string) (perm : Z) : effect :=
  match stat_as f path with
  | Ok (NDir _) => (f, Ok tt)
  | Ok _ => (f, Err ErrNotDir)
  | Err _ => mkdir_prefixes_as f [] (path_comps path) perm
  end.

(** os.RemoveAll goes into every directory below [p] that can be read and
    searched, and removes the names of those that can be written too; a
    directory goes when all its names are gone.  The parent of [p] is opened
    for that, unless [p] can be removed at once. *)
Definition dirs_between (p q : list string) : list (list string) :=
  (λ n, take n q) <$> seq (length p) (length q - length p).

Definition reachable (f : fs) (p q : list string) : bool :=
  forallb (permits f (owner_r + owner_x)) (dirs_between p q) && may_change f q.

Definition names_below (f : fs) (q : list string) : list (list string) :=
  filter (below q) (map_to_list f).*1.

Definition gone (f : fs) (p q : list string) : bool :=
  bool_decide (below p q) && forallb (reachable f p) (names_below f q).

Definition remove_all_as (f : fs) (path : string) : effect :=
  if negb (may_lookup f false path) then (f, Err ErrPermission)
  else
    match resolve f false path with
    | Err ErrNotExist => (f, Ok tt)
    | Err err => (f, Err err)
    | Ok p =>
        if bool_decide (names_below f p = []) then (f, Ok tt)
        else if bool_decide (names_below f p = [p]) && may_change f p
        then (delete p f, Ok tt)
        else if negb (permits f owner_r (parent p)) then (f, Err ErrPermission)
        else (filter (λ kv, gone f p kv.1 = false) f,
              if gone f p p then Ok tt else Err ErrPermission)
    end.
End permissions.

Notation "'let!' f ':=' e 'in' k" := (ebind e (λ f, k))
  (at level 10, f name, e at level 100, k at level 200) : go_scope.

(** ** Lemmas: permissions on a path of real directories *)

Section permitted.
Context {USER : User}.
Implicit Types (f : fs) (p : list string).

(** Every directory on the way to [p] can be searched. *)
Definition searchable f p : Prop := ∀ pre, pre `prefix_of` p → pre ≠ p → permits f owner_x pre = true.

Lemma permits_privileged f bits d : privileged = true → permits f bits d = true.
Proof. unfold permits. by intros ->. Qed.

Lemma has_bits_weaken mode bits bits' :
  has_bits mode bits = true → Z.land bits bits' = bits' → has_bits mode bits' = true.
Proof.
  unfold has_bits. rewrite !bool_decide_eq_true. intros Hm Hb.
  rewrite <-Hb at 1. by rewrite Z.land_assoc, Hm.
Qed.

Lemma permits_weaken f bits bits' d :
  permits f bits d = true → Z.land bits bits' = bits' → permits f bits' d = true.
Proof.
  unfold permits. intros Hp Hb. apply orb_prop in Hp as [->|Hp]; [done|].
  destruct (f !! d) as [[]|]; try (by rewrite orb_true_r); by rewrite (has_bits_weaken _ _ _ Hp Hb), orb_true_r.
Qed.

Lemma searched_real links f follow cs : ∀ cur,
  Forall plain cs → real_dirs f cur cs →
  (follow = false ∨ ∀ t, f !! (cur ++ cs) ≠ Some (NSymlink t)) →
  Forall (λ d, ∃ pre, d = cur ++ pre ∧ pre `prefix_of` cs ∧ pre ≠ cs) (searched links f follow cur cs).
Proof.
  induction cs as [|c rest IH]; intros cur Hplain Hreal Hlast; [by destruct links|].
  apply Forall_cons in Hplain as [(? & ? & ? & ?) Hplain].
  destruct links; cbn; fold searched;
    rewrite (bool_decide_eq_false_2 (c = "")), (bool_decide_eq_false_2 (c = ".")),
      (bool_decide_eq_false_2 (c = "..")) by done.
  all: constructor; [exists []; rewrite app_nil_r; split_and!; [done|apply prefix_nil|done]|].
  all: destruct (f !! (cur ++ [c])) as [[mode content|mode|t]|] eqn:Hn; try constructor.
  all: try (destruct Hreal as [->|[[m Hm] _]]; [|congruence];
    rewrite (bool_decide_eq_true_2 ([] = [])) by done;
    destruct Hlast as [->|Hlast]; [constructor|by destruct (Hlast t)]).
  all: assert (real_dirs f (cur ++ [c]) rest) as Hr by (by destruct Hreal as [->|[_ ?]]).
  all: assert (follow = false ∨ ∀ t, f !! ((cur ++ [c]) ++ rest) ≠ Some (NSymlink t)) as Hl
    by (by rewrite <-app_assoc).
  all: eapply Forall_impl; [by apply (IH (cur ++ [c]) Hplain Hr Hl)|].
  all: intros d (pre & -> & Hpre & Hne); exists (c :: pre); split_and!;
    [by rewrite <-app_assoc|by apply prefix_cons|congruence].
Qed.

Lemma may_lookup_real f follow p :
  Forall plain p → p ≠ [] → real_dirs f [] p →
  (follow = false ∨ ∀ t, f !! p ≠ Some (NSymlink t)) → searchable f p →
  may_lookup f follow (abs_path p) = true.
Proof.
  intros Hp Hne Hreal Hlast Hs. unfold may_lookup. rewrite split_abs by done.
  assert (searched max_links f follow [] ("" :: p) = searched max_links f follow [] p) as -> by done.
  apply forallb_forall. intros d Hd%list_elem_of_In.
  pose proof (searched_real max_links f follow p [] Hp Hreal Hlast) as Hall.
  rewrite Forall_forall in Hall. destruct (Hall d Hd) as (pre & -> & Hpre & Hneq). by apply Hs.
Qed.

(** A path that can be looked up is searchable all the way. *)
Lemma searched_all links f follow cs : ∀ cur pre,
  Forall plain cs → real_dirs f cur cs → pre `prefix_of` cs → pre ≠ cs →
  cur ++ pre ∈ searched links f follow cur cs.
Proof.
  induction cs as [|c rest IH]; intros cur pre Hplain Hreal Hpre Hne.
  { by apply prefix_nil_inv in Hpre. }
  apply Forall_cons in Hplain as [(? & ? & ? & ?) Hplain].
  destruct links; cbn; fold searched;
    rewrite (bool_decide_eq_false_2 (c = "")), (bool_decide_eq_false_2 (c = ".")),
      (bool_decide_eq_false_2 (c = "..")) by done.
  all: destruct pre as [|c' pre]; [rewrite app_nil_r; by left|right].
  all: apply prefix_cons_inv_1 in Hpre as Hc'; apply prefix_cons_inv_2 in Hpre; subst c'.
  all: destruct Hreal as [->|[[m ->] Hreal]]; [apply prefix_nil_inv in Hpre; congruence|].
  all: change (cur ++ c :: pre) with (cur ++ [c] ++ pre); rewrite app_assoc; apply IH; try done; congruence.
Qed.

Lemma may_lookup_searchable f follow p :
  Forall plain p → p ≠ [] → real_dirs f [] p → may_lookup f follow (abs_path p) = true → searchable f p.
Proof.
  unfold may_lookup. intros Hp Hne Hreal Hall pre Hpre Hneq. rewrite split_abs in Hall by done.
  change (searched max_links f follow [] ("" :: p)) with (searched max_links f follow [] p) in Hall.
  rewrite forallb_forall in Hall. apply Hall, list_elem_of_In.
  by apply (searched_all max_links f follow p []).
Qed.

Lemma permits_both f d : permits f owner_x d = true → permits f owner_w d = true →
  permits f (owner_w + owner_x) d = true.
Proof.
  unfold permits, has_bits. destruct (privileged || _); [done|]. cbn.
  destruct (f !! d) as [[mode ?|mode|]|]; [| |done..]; rewrite !bool_decide_eq_true; intros H1 H2;
    change (owner_w + owner_x)%Z with (Z.lor owner_w owner_x); by rewrite Z.land_lor_distr_r, H1, H2.
Qed.

Lemma checked_err {R : Type} f follow path need (err : error) :
  may_lookup f follow path = true → checked (R:=R) f follow path need (Err err) = Err err.
Proof. intros Hl. unfold checked. by rewrite Hl. Qed.

Lemma checked_ok {R : Type} f follow path p need (a : R) :
  may_lookup f follow path = true → resolve f follow path = Ok p →
  checked f follow path need (Ok a) = if need p then Ok a else Err ErrPermission.
Proof. intros Hl Hp. unfold checked. rewrite Hl, Hp. done. Qed.
End permitted.
