(* ===== verification/Observe.v ===== *)
(** * Observe: evidence about the host, identifiers, and doctor

    Models [src/internal/observe/observe.go], [src/internal/id/id.go], the
    detection of WSL ([isWSL] of [src/cmd/worldbisect/main.go] and
    [runningOnWSL] of [src/internal/runner/tracer_linux_amd64.go]) and the
    checks of [doctor].  What the machine answers - files of [/proc], the
    system calls - is an input. *)

From S2P Require Import Prelude Sha256 Text Model Paths Fs.

(** ** strings.TrimSpace *)

(** The encodings of the white space of Unicode *)
Definition byte_string (bytes : list nat) : string := foldr (λ b s, String (Ascii.ascii_of_nat b) s) EmptyString bytes.
Definition space_texts : list string :=
  byte_string <$> ([[9]; [10]; [11]; [12]; [13]; [32]; [194; 133]; [194; 160]; [225; 154; 128]; [226; 128; 168]; [226; 128; 169];
                    [226; 128; 175]; [226; 129; 159]; [227; 128; 128]] ++ ((λ n, [226; 128; n]) <$> seq 128 11)).

Fixpoint trim_with (fuel : nat) (strip : string → string → string) (s : string) : string :=
  match fuel with
  | O => s
  | S fuel =>
      match filter (λ t, t ≠ s) ((λ space, strip s space) <$> space_texts) with
      | [] => s
      | t :: _ => trim_with fuel strip t
      end
  end.
Definition TrimSpace (s : string) : string :=
  let n := String.length s in trim_with n trim_suffix (trim_with n trim_prefix s).

Example TrimSpace_examples : TrimSpace "	0000003fffffffff
" = "0000003fffffffff" ∧ TrimSpace " a b " = "a b" ∧ TrimSpace (byte_string [194; 160; 120; 226; 128; 131]) = "x" ∧ TrimSpace "  " = "".
Proof. by vm_compute. Qed.

(** ** bufio.Scanner *)

(** Lines without their end; a scan ends at a line that does not fit the buffer. *)
Definition max_scan_token : Z := 65536.
Definition drop_cr (line : string) : string := trim_suffix line (String "013" "").
Definition raw_lines (text : string) : list string :=
  let lines := split_byte "010" text in
  match last lines with Some "" => take (length lines - 1) lines | _ => lines end.
Fixpoint scan (lines : list string) : list string :=
  match lines with
  | [] => []
  | line :: lines => if bool_decide (max_scan_token ≤ Z.of_nat (String.length line))%Z then [] else drop_cr line :: scan lines
  end.
Definition scan_lines (text : string) : list string := scan (raw_lines text).

(** ** The evidence *)

Record host_io := mkHostIO {
  hio_files : string → result string;
  hio_hostname : string;                 (** empty on an error *)
  hio_groups : result (list Z);
  hio_release : result (list Z);         (** the signed bytes of [utsname.release] *)
  hio_uid : Z;
  hio_gid : Z;
  hio_GOOS : string;
  hio_GOARCH : string;
  hio_GOMAXPROCS : Z;
}.

(** One line of a status file *)
Definition read_line (values : gmap string string) (line : string) : gmap string string :=
  match cut line ":" with
  | Some (key, value) => <[TrimSpace key := TrimSpace value]> values
  | None => values
  end.
Definition readKeyValues (files : string → result string) (path : string) : gmap string string :=
  match files path with
  | Err _ => ∅
  | Ok content => foldl read_line ∅ (scan_lines content)
  end.
Definition field (values : gmap string string) (key : string) : string := default "" (values !! key).

Definition digestFile (files : string → result string) (path : string) : string :=
  match files path with Err _ => "unavailable" | Ok content => sha256_hex content end.

Definition resourceDigest (gomaxprocs : Z) : string :=
  DigestStrings (["RLIMIT_NOFILE"; "RLIMIT_NPROC"; "RLIMIT_AS"] ++ [show_Z gomaxprocs]).

Definition security_keys : list string :=
  ["Uid"; "Gid"; "Groups"; "CapInh"; "CapPrm"; "CapEff"; "CapBnd"; "Seccomp"; "NoNewPrivs"].
Definition securityDigest (status : gmap string string) : string := DigestStrings (field status <$> security_keys).

(** [byte(value)] of an [int8] *)
Fixpoint byteArrayString (values : list Z) : string :=
  match values with
  | [] => EmptyString
  | value :: values =>
      if bool_decide (value = 0%Z) then EmptyString
      else String (ascii_of_N (Z.to_N (value mod 256))) (byteArrayString values)
  end.

Fixpoint insert_sorted (x : Z) (l : list Z) : list Z :=
  match l with
  | [] => [x]
  | y :: l' => if bool_decide (x ≤ y)%Z then x :: l else y :: insert_sorted x l'
  end.
(** [sort.Ints] *)
Definition sort_ints (l : list Z) : list Z := foldr insert_sorted [] l.

Definition Host (io : host_io) : HostEvidence :=
  let status := readKeyValues (hio_files io) "/proc/self/status" in
  mkHostEvidence (hio_GOOS io) (hio_GOARCH io)
    (match hio_release io with Ok release => byteArrayString release | Err _ => "" end)
    (hio_hostname io) (hio_uid io) (hio_gid io)
    (match hio_groups io with Ok groups => sort_ints groups | Err _ => [] end)
    (field status "CapEff" +:+ ":" +:+ field status "CapBnd" +:+ ":" +:+ field status "NoNewPrivs")
    (field status "Seccomp" +:+ ":" +:+ field status "Seccomp_filters")
    (digestFile (hio_files io) "/proc/self/cgroup") (digestFile (hio_files io) "/proc/self/mountinfo")
    (resourceDigest (hio_GOMAXPROCS io)) (securityDigest status).

(** ** Identifiers *)

(** [id.New]; [random] is what [rand.Read] gives for twelve bytes. *)
Definition new_id (prefix : string) (random : result (list Z)) (nanoseconds : Z) : string :=
  match random with
  | Ok bytes => prefix +:+ "_" +:+ EncodeToString bytes
  | Err _ => prefix +:+ "_" +:+ show_Z nanoseconds
  end.

(** ** Is this WSL? *)

(** [strings.ToLower], as far as the names below can tell: of the letters that
    are not ASCII only the dotted capital I becomes one of theirs. *)
Definition lower_ascii (c : ascii) : ascii := if is_upper c then ascii_of_N (N_of_ascii c + 32) else c.
Fixpoint ToLower (s : string) : string :=
  match s with
  | EmptyString => EmptyString
  | String a EmptyString => String (lower_ascii a) EmptyString
  | String a (String b t as u) =>
      if bool_decide (N_of_ascii a = 196%N) && bool_decide (N_of_ascii b = 176%N) then String "i" (ToLower t)
      else String (lower_ascii a) (ToLower u)
  end.

Definition wsl_text (content : string) : bool := contains (ToLower content) "microsoft" || contains (ToLower content) "wsl".
Definition isWSL (files : string → result string) : bool :=
  existsb (λ path, match files path with Ok content => wsl_text content | Err _ => false end)
    ["/proc/version"; "/proc/sys/kernel/osrelease"].
Definition nativeTracerAvailable (files : string → result string) : bool := negb (isWSL files).

(** ** doctor *)

(** The loop of [writableParent] over a directory and its parents; [creates]
    tells whether a temporary file can be made there. *)
Fixpoint parents_loop (fuel : nat) (f : fs) (creates : string → bool) (parent : string) : option bool :=
  match fuel with
  | O => None
  | S fuel =>
      match Stat f parent with
      | Ok (NDir _) => Some (creates parent)
      | _ =>
          let next := Dir parent in
          if bool_decide (next = parent) then Some false else parents_loop fuel f creates next
      end
  end.
(** A path has fewer parents than elements. *)
Definition parents_fuel (path : string) : nat := S (S (length (path_comps path))).
Definition writableParent (f : fs) (creates : string → bool) (path : string) : option bool :=
  parents_loop (parents_fuel path) f creates (Dir path).

Definition exists_path (f : fs) (path : string) : bool := match Stat f path with Ok _ => true | Err _ => false end.

Record check := mkCheck {
  check_name : string;
  check_ok : bool;
  check_value : option string;
}.

Definition wsl_advice : string := "WSL detected; use a native Linux filesystem or --trace=off for /mnt workspaces".
Definition doctor_checks (io : host_io) (f : fs) (creates : string → bool) (storePath : string) : option (list check) :=
  let platform := hio_GOOS io +:+ "/" +:+ hio_GOARCH io in
  writable ← writableParent f creates storePath;
  Some ([mkCheck "platform" (bool_decide (hio_GOOS io = "linux")) (Some platform);
         mkCheck "procfs" (exists_path f "/proc/self/status") None;
         mkCheck "mountinfo" (exists_path f "/proc/self/mountinfo") None;
         mkCheck "store_parent" writable (Some storePath);
         mkCheck "native_trace" (bool_decide (hio_GOOS io = "linux") && bool_decide (hio_GOARCH io = "amd64"))
           (Some "linux/amd64 only in 1.0")] ++
        (if isWSL (hio_files io) then [mkCheck "native_trace_environment" false (Some wsl_advice)] else [])).

(** ** doctor ends *)

Lemma parents_loop_returns f creates rooted fuel : ∀ cs, cleaned rooted cs → length cs < fuel →
  is_Some (parents_loop fuel f creates (render rooted cs)).
Proof.
  induction fuel as [|fuel IH]; intros cs Hcs Hlt; [lia|]. cbn [parents_loop].
  destruct (Stat f _) as [[]|]; try (by eexists).
  all: rewrite Dir_render by done; case_bool_decide as Heq; [by eexists|].
  all: destruct cs as [|c ds _] using rev_ind; [done|]; rewrite length_app, Nat.add_sub, take_app_length in *;
    cbn in Hlt; apply IH; [by eapply cleaned_init|lia].
Qed.

Lemma writableParent_returns f creates path : is_Some (writableParent f creates path).
Proof.
  unfold writableParent, Dir. assert (∀ s, ∃ rooted cs, Clean s = render rooted cs ∧ cleaned rooted cs ∧ length cs ≤ length (path_comps s)) as Hclean.
  { intros s. exists (IsAbs s), (clean_comps (IsAbs s) (path_comps s)). split_and!; [done| |apply length_clean_comps].
    apply clean_comps_spec, path_comps_elem. }
  assert (∀ s, length (path_comps s) ≤ S (length (path_comps path)) → is_Some (parents_loop (parents_fuel path) f creates (Clean s))) as Hloop.
  { intros s Hs. destruct (Hclean s) as (rooted & cs & -> & Hcs & Hlen). apply parents_loop_returns; [done|]. unfold parents_fuel. lia. }
  destruct (last_slash path) as [[dir base]|] eqn:Hlast; apply Hloop; [|change (path_comps "") with (@nil string); cbn [length]; lia].
  unfold last_slash in Hlast. destruct (reverse (split_byte slash path)) as [|b [|x rest]] eqn:Hr; [done|done|].
  injection Hlast as <- <-. apply (f_equal reverse) in Hr. rewrite reverse_involutive, reverse_cons in Hr.
  assert (path_comps (join "/" (reverse (x :: rest)) +:+ "/") = filter (λ c, c ≠ "") (reverse (x :: rest))) as ->.
  { unfold path_comps. pose proof (split_byte_elem slash path) as Hall. rewrite Hr in Hall. apply Forall_app in Hall as [Hall _].
    revert Hall. generalize (reverse (x :: rest)). intros l Hl. clear -Hl. induction Hl as [|c l Hc Hl IH]; [done|].
    destruct (decide (l = [])) as [->|Hne].
    - cbn [join]. change (c +:+ "/") with (c +:+ String slash ""). rewrite split_byte_app by done. cbn [split_byte].
      destruct (decide (c ≠ "")); [rewrite !(filter_cons_True _ c) by done|rewrite !(filter_cons_False _ c) by done]; done.
    - rewrite join_cons by done. rewrite !string_app_assoc.
      change (c +:+ "/" +:+ join "/" l +:+ "/") with (c +:+ String slash (join "/" l +:+ "/")). rewrite split_byte_app by done.
      destruct (decide (c ≠ "")); [rewrite !(filter_cons_True _ c) by done|rewrite !(filter_cons_False _ c) by done]; by rewrite IH. }
  unfold path_comps. rewrite Hr, filter_app, length_app. lia.
Qed.

(** ** Properties *)

(** The checks of [doctor] come to an end, whatever the path of the store is. *)
Theorem doctor_ends io f creates storePath : is_Some (doctor_checks io f creates storePath).
Proof. unfold doctor_checks. destruct (writableParent_returns f creates storePath) as [writable ->]. by eexists. Qed.

(** The resource digest does not depend on the limits of the process: only
    their names are hashed, with the number of processors in use. *)
Lemma resource_digest_names_only io io' : hio_GOMAXPROCS io = hio_GOMAXPROCS io' →
  Host_ResourceDigest (Host io) = Host_ResourceDigest (Host io').
Proof. intros H. cbn. by rewrite H. Qed.

(** Identifiers from different random bytes differ. *)
Lemma new_id_inj prefix bytes bytes' n n' : Forall (λ b, 0 ≤ b < 256)%Z bytes → Forall (λ b, 0 ≤ b < 256)%Z bytes' →
  new_id prefix (Ok bytes) n = new_id prefix (Ok bytes') n' → bytes = bytes'.
Proof.
  intros Hb Hb' Heq. cbn in Heq. assert (EncodeToString bytes = EncodeToString bytes') as He.
  { revert Heq. generalize (EncodeToString bytes) (EncodeToString bytes'). intros s t Heq.
    induction prefix as [|c prefix IH]; [by injection Heq|]. rewrite !string_app_cons in Heq. injection Heq as Heq. by apply IH. }
  apply (f_equal DecodeString) in He. rewrite !DecodeString_EncodeToString in He by done. by injection He.
Qed.

Definition status_file : string :=
  "Name:	bash
Uid:	1000	1000	1000	1000
CapEff:	0000000000000000
CapBnd:	000001ffffffffff
NoNewPrivs:	0
Seccomp:	2
Seccomp_filters:	1
".
Example status_read :
  let io := mkHostIO (λ path, if bool_decide (path = "/proc/self/status") then Ok status_file else Err ErrNotExist) "host"
    (Ok [27; 4; 1000]%Z) (Ok [54; 46; 56; 0; 1]%Z) 1000 1000 "linux" "amd64" 8 in
  Host_Capabilities (Host io) = "0000000000000000:000001ffffffffff:0" ∧ Host_Seccomp (Host io) = "2:1" ∧
  Host_Kernel (Host io) = "6.8" ∧ Host_Groups (Host io) = [4; 27; 1000]%Z ∧ Host_Cgroups (Host io) = "unavailable".
Proof. vm_compute. by split_and!. Qed.
