(* ===== verification/Config.v ===== *)
(** * Config: configuration and tokens of the daemon

    Models [src/internal/config/config.go] and [src/internal/auth/token.go].
    The JSON decoder, which fills a configuration that holds the defaults, is
    the interface [ConfigDecoder]; the paths of the configuration are resolved
    in the file system of [Fs]. *)

From S2P Require Import Prelude Sha256 Paths Fs.

(** ** Data *)

Record Quotas := mkQuotas {
  Quotas_MaxSessions : Z;
  Quotas_MaxWorkspaceFiles : Z;
  Quotas_MaxWorkspaceBytes : Z;
  Quotas_MaxOutputBytes : Z;
  Quotas_MaxFactors : Z;
  Quotas_MaxExperiments : Z;
  Quotas_MaxRequestBytes : Z;
}.

Record Token := mkToken {
  Token_Name : string;
  Token_Hash : string;
  Token_Scopes : list string;
}.

Record Config := mkConfig {
  Config_SchemaVersion : Z;
  Config_Listen : string;
  Config_DataDir : string;
  Config_LogLevel : string;
  Config_RemoteExecutionEnabled : bool;
  Config_AllowedCommands : list string;
  Config_AllowedWorkingDirectories : list string;
  Config_Workers : Z;
  Config_LeaseSeconds : Z;
  Config_MaxAttempts : Z;
  Config_Quotas : Quotas;
  Config_Tokens : list Token;
}.

Definition Default : Config :=
  mkConfig 1 "127.0.0.1:8787" "/var/lib/worldbisect" "info" false [] [] 2 30 3
    (mkQuotas 1000 10000 (2 ^ 30) (8 * 2 ^ 20) 512 256 (2 ^ 20)) [].

Definition with_allowed (cfg : Config) (commands directories : list string) : Config :=
  mkConfig (Config_SchemaVersion cfg) (Config_Listen cfg) (Config_DataDir cfg) (Config_LogLevel cfg)
    (Config_RemoteExecutionEnabled cfg) commands directories (Config_Workers cfg) (Config_LeaseSeconds cfg)
    (Config_MaxAttempts cfg) (Config_Quotas cfg) (Config_Tokens cfg).

Definition LeaseDuration (cfg : Config) : Z := Config_LeaseSeconds cfg * Second.

(** ** Tokens *)

Definition HashToken (raw : string) : string := "sha256:" +:+ sha256_hex raw.
Definition VerifyToken (raw encoded : string) : bool :=
  let expected := HashToken raw in
  if negb (bool_decide (String.length expected = String.length encoded)) then false
  else bool_decide (expected = encoded).
Definition Fingerprint (raw : string) : string := string_take 16 (trim_prefix (HashToken raw) "sha256:").

(** ** Paths of the configuration *)

Definition err_relative_command : error := ErrMsg "command must be an absolute path".
Definition err_command_link : error := ErrMsg "command symlinks are not allowed".
Definition err_not_executable : error := ErrMsg "command must be a regular executable file".
Definition err_relative_directory : error := ErrMsg "working directory must be absolute".
Definition err_not_directory : error := ErrMsg "working directory is not a directory".

(** [info.Mode().IsRegular() && info.Mode().Perm()&0o111 != 0] *)
Definition executable (info : node) : bool :=
  match info with NFile mode _ => negb (bool_decide (Z.land mode 73 = 0)%Z) | _ => false end.

(** [filepath.Abs] of an absolute path is [Clean]. *)
Definition canonicalExecutable (f : fs) (path : string) : result string :=
  fail? negb (IsAbs path) with err_relative_command in
  let? info := Lstat f path in
  fail? (if info is NSymlink _ then true else false) with err_command_link in
  let? resolved := EvalSymlinks f path in
  let resolved := Clean resolved in
  let? info := Stat f resolved in
  fail? negb (executable info) with err_not_executable in
  Ok (Clean resolved).

Definition canonicalDirectory (f : fs) (path : string) : result string :=
  fail? negb (IsAbs path) with err_relative_directory in
  let? resolved := EvalSymlinks f path in
  let? info := Stat f resolved in
  fail? (if info is NDir _ then false else true) with err_not_directory in
  Ok (Clean resolved).

(** ** Validate and Load *)

Definition err_required : error := ErrMsg "listen and data_dir are required".
Definition err_workers : error := ErrMsg "workers must be between 1 and 64".
Definition err_lease : error := ErrMsg "lease_seconds must be between 5 and 3600".
Definition err_attempts : error := ErrMsg "max_attempts must be between 1 and 20".
Definition err_quotas : error := ErrMsg "all quotas must be positive and bounded".
Definition err_tokens : error := ErrMsg "token name, sha256 hash, and scopes are required".

(** The loops over the allowed commands and directories *)
Fixpoint canonical_loop (canonical : string → result string) (field : string) (index : Z) (paths : list string) :
    result (list string) :=
  match paths with
  | [] => Ok []
  | path :: paths =>
      match canonical path with
      | Err err => Err (ErrMsg (field +:+ "[" +:+ show_Z index +:+ "]: " +:+ error_text err))
      | Ok path => let? paths := canonical_loop canonical field (index + 1) paths in Ok (path :: paths)
      end
  end.

Definition token_ok (token : Token) : bool :=
  negb (bool_decide (Token_Name token = "") || negb (has_prefix (Token_Hash token) "sha256:") ||
        bool_decide (length (Token_Scopes token) = 0)).

Definition quotas_ok (q : Quotas) : bool :=
  negb (bool_decide (Quotas_MaxSessions q < 1)%Z || bool_decide (Quotas_MaxWorkspaceFiles q < 1)%Z ||
        bool_decide (Quotas_MaxWorkspaceBytes q < 1)%Z || bool_decide (Quotas_MaxOutputBytes q < 1024)%Z ||
        bool_decide (Quotas_MaxFactors q < 1)%Z || bool_decide (Quotas_MaxExperiments q < 1)%Z ||
        bool_decide (Quotas_MaxRequestBytes q < 1024)%Z).

(** The result is the configuration with its paths replaced; after an error
    the caller drops the configuration. *)
Definition Validate (f : fs) (cfg : Config) : result Config :=
  fail? negb (bool_decide (Config_SchemaVersion cfg = 1)%Z)
    with ErrMsg ("unsupported config schema " +:+ show_Z (Config_SchemaVersion cfg)) in
  fail? bool_decide (Config_Listen cfg = "") || bool_decide (Config_DataDir cfg = "") with err_required in
  fail? bool_decide (Config_Workers cfg < 1)%Z || bool_decide (64 < Config_Workers cfg)%Z with err_workers in
  fail? bool_decide (Config_LeaseSeconds cfg < 5)%Z || bool_decide (3600 < Config_LeaseSeconds cfg)%Z with err_lease in
  fail? bool_decide (Config_MaxAttempts cfg < 1)%Z || bool_decide (20 < Config_MaxAttempts cfg)%Z with err_attempts in
  fail? negb (quotas_ok (Config_Quotas cfg)) with err_quotas in
  let? commands := canonical_loop (canonicalExecutable f) "allowed_commands" 0 (Config_AllowedCommands cfg) in
  let? directories := canonical_loop (canonicalDirectory f) "allowed_working_directories" 0
                        (Config_AllowedWorkingDirectories cfg) in
  fail? negb (forallb token_ok (Config_Tokens cfg)) with err_tokens in
  Ok (with_allowed cfg commands directories).

(** [decoder.Decode] into a variable that holds a configuration: members that
    the text does not name keep their value. *)
Class ConfigDecoder := { decode_into : Config → string → result Config }.

Definition Load `{PDecoder : !ConfigDecoder} (f : fs) (path : string) : result Config :=
  let? content := ReadFile f path in
  let? cfg := decode_into Default content in
  Validate f cfg.

Example Default_not_executing : Config_RemoteExecutionEnabled Default = false ∧ Config_Tokens Default = [].
Proof. done. Qed.

(** ** Lemmas *)

Lemma VerifyToken_spec raw encoded : VerifyToken raw encoded = true ↔ encoded = HashToken raw.
Proof.
  unfold VerifyToken. generalize (HashToken raw). intros expected. split.
  - case_bool_decide; [|done]. cbn [negb]. by intros ->%bool_decide_eq_true.
  - intros ->. by rewrite !bool_decide_eq_true_2.
Qed.

(** What an entry of the lists names after validation *)
Definition names_executable (f : fs) (path : string) : Prop :=
  ∃ p n, path = abs_path p ∧ real_path f p n ∧ executable n = true.
Definition names_directory (f : fs) (path : string) : Prop :=
  ∃ p m, path = abs_path p ∧ real_path f p (NDir m).

Lemma canonicalExecutable_sound f path r : canonicalExecutable f path = Ok r → names_executable f r.
Proof.
  unfold canonicalExecutable. intros Hc. do 2 step_ok Hc. destruct (if x is NSymlink _ then true else false); [done|].
  step_ok Hc. apply EvalSymlinks_real in E1 as (p & n & -> & Hp).
  rewrite !Clean_abs in Hc by apply (rp_plain _ _ _ Hp). unfold Stat in Hc. rewrite (stat_real_path _ _ _ Hp) in Hc.
  cbn [rbind] in Hc. step_ok Hc. injection Hc as <-. exists p, n. split_and!; [done..|by apply negb_false_iff].
Qed.

Lemma canonicalExecutable_fixed f path : names_executable f path → canonicalExecutable f path = Ok path.
Proof.
  intros (p & n & -> & Hp & Hx). unfold canonicalExecutable, Lstat, Stat.
  rewrite IsAbs_abs, (stat_real_path _ _ _ Hp), (EvalSymlinks_real_path _ _ _ Hp). cbn [negb rbind].
  rewrite !Clean_abs, (stat_real_path _ _ _ Hp) by apply (rp_plain _ _ _ Hp). cbn [rbind]. rewrite Hx.
  pose proof (rp_nolink _ _ _ Hp) as Hno. destruct n; [done..|]. by destruct (Hno target).
Qed.

Lemma canonicalDirectory_sound f path r : canonicalDirectory f path = Ok r → names_directory f r.
Proof.
  unfold canonicalDirectory. intros Hc. do 2 step_ok Hc. apply EvalSymlinks_real in E0 as (p & n & -> & Hp).
  unfold Stat in Hc. rewrite (stat_real_path _ _ _ Hp), Clean_abs in Hc by apply (rp_plain _ _ _ Hp).
  cbn [rbind] in Hc. destruct n as [|m|]; [done| |done]. injection Hc as <-. by exists p, m.
Qed.

Lemma canonicalDirectory_fixed f path : names_directory f path → canonicalDirectory f path = Ok path.
Proof.
  intros (p & m & -> & Hp). unfold canonicalDirectory, Stat.
  rewrite IsAbs_abs, (EvalSymlinks_real_path _ _ _ Hp). cbn [negb rbind].
  by rewrite (stat_real_path _ _ _ Hp), Clean_abs by apply (rp_plain _ _ _ Hp).
Qed.

Lemma canonical_loop_sound canonical field (P : string → Prop) paths :
  (∀ path r, canonical path = Ok r → P r) →
  ∀ index r, canonical_loop canonical field index paths = Ok r → Forall P r ∧ length r = length paths.
Proof.
  intros Hc. induction paths as [|path paths IH]; intros index r Hr; cbn in Hr.
  { injection Hr as <-. split; [constructor|done]. }
  destruct (canonical path) as [path'|] eqn:Hp; [|done]. step_ok Hr. injection Hr as <-.
  apply IH in E as [? ?]. split; [constructor; eauto|cbn; by f_equal].
Qed.

Lemma canonical_loop_fixed canonical field (P : string → Prop) paths :
  (∀ path, P path → canonical path = Ok path) → Forall P paths →
  ∀ index, canonical_loop canonical field index paths = Ok paths.
Proof.
  intros Hc. induction 1 as [|path paths Hp Hps IH]; intros index; cbn; [done|]. rewrite Hc by done. by rewrite IH.
Qed.

(** ** Properties *)

(** A configuration that the daemon may run with *)
Record valid_config (f : fs) (cfg : Config) : Prop := {
  vc_schema : Config_SchemaVersion cfg = 1%Z;
  vc_listen : Config_Listen cfg ≠ "";
  vc_data : Config_DataDir cfg ≠ "";
  vc_workers : (1 ≤ Config_Workers cfg ≤ 64)%Z;
  vc_lease : (5 ≤ Config_LeaseSeconds cfg ≤ 3600)%Z;
  vc_attempts : (1 ≤ Config_MaxAttempts cfg ≤ 20)%Z;
  vc_quotas : quotas_ok (Config_Quotas cfg) = true;
  vc_commands : Forall (names_executable f) (Config_AllowedCommands cfg);
  vc_directories : Forall (names_directory f) (Config_AllowedWorkingDirectories cfg);
  vc_tokens : Forall (λ token, token_ok token = true) (Config_Tokens cfg);
}.

Lemma valid_config_fixed f cfg : valid_config f cfg → Validate f cfg = Ok cfg.
Proof.
  intros [H1 H2 H3 H4 H5 H6 H7 H8 H9 H10]. unfold Validate.
  rewrite H7, (canonical_loop_fixed _ _ _ _ (canonicalExecutable_fixed f) H8),
    (canonical_loop_fixed _ _ _ _ (canonicalDirectory_fixed f) H9). cbn [rbind].
  assert (forallb token_ok (Config_Tokens cfg) = true) as ->.
  { apply forallb_forall. intros t Ht. rewrite Forall_forall in H10. apply H10. by apply list_elem_of_In. }
  rewrite H1, (bool_decide_eq_true_2 (1 = 1)%Z) by done. cbn [negb].
  rewrite !bool_decide_eq_false_2 by (done || lia). cbn. by destruct cfg.
Qed.

Lemma Config_Validate_inv f cfg cfg' : Validate f cfg = Ok cfg' →
  valid_config f cfg' ∧
  cfg' = with_allowed cfg (Config_AllowedCommands cfg') (Config_AllowedWorkingDirectories cfg') ∧
  length (Config_AllowedCommands cfg') = length (Config_AllowedCommands cfg) ∧
  length (Config_AllowedWorkingDirectories cfg') = length (Config_AllowedWorkingDirectories cfg).
Proof.
  unfold Validate. intros Hv. do 6 step_ok Hv. step_ok Hv. step_ok Hv. step_ok Hv. injection Hv as <-.
  apply canonical_loop_sound with (P := names_executable f) in E5 as [Hc Hlc]; [|apply canonicalExecutable_sound].
  apply canonical_loop_sound with (P := names_directory f) in E6 as [Hd Hld]; [|apply canonicalDirectory_sound].
  apply negb_false_iff in E4, E7. rewrite forallb_forall in E7.
  split; [|done]. bool_prop. split; cbn; try done; try lia.
  apply Forall_forall. intros t Ht. by apply E7, list_elem_of_In.
Qed.

(** C40: validation gives a canonical configuration.  An accepted configuration
    has every number in its range, tokens that can be used, and lists whose
    entries are the real paths - no links, no [..] - of regular executable
    files and of directories; only these lists were changed, entry by entry;
    and exactly these configurations are left as they are, so validating once
    more changes nothing. *)
Theorem Validate_canonical f cfg cfg' (Hvalid : Validate f cfg = Ok cfg') :
  valid_config f cfg' ∧ Validate f cfg' = Ok cfg' ∧
  cfg' = with_allowed cfg (Config_AllowedCommands cfg') (Config_AllowedWorkingDirectories cfg') ∧
  length (Config_AllowedCommands cfg') = length (Config_AllowedCommands cfg) ∧
  length (Config_AllowedWorkingDirectories cfg') = length (Config_AllowedWorkingDirectories cfg).
Proof.
  destruct (Config_Validate_inv _ _ _ Hvalid) as (Hc & Heq & ? & ?). split_and!; try done. by apply valid_config_fixed.
Qed.

(** ** Witness *)

Definition demo_fs : fs :=
  {[["bin"] := NSymlink "usr/bin"; ["usr"] := NDir 493; ["usr"; "bin"] := NDir 493;
    ["usr"; "bin"; "make"] := NFile 493 "ELF"; ["srv"] := NDir 493; ["srv"; "a"] := NDir 448]}.
Definition demo_config : Config :=
  mkConfig 1 "127.0.0.1:8787" "/data" "info" true ["/bin/make"] ["/srv/./a/.."] 2 30 3 (Config_Quotas Default)
    [mkToken "ada" "sha256:00" ["read"]].

Lemma Validate_canonical_witness :
  let cfg' := with_allowed demo_config ["/usr/bin/make"] ["/srv"] in
  valid_config demo_fs cfg' ∧ Validate demo_fs cfg' = Ok cfg' ∧
  cfg' = with_allowed demo_config (Config_AllowedCommands cfg') (Config_AllowedWorkingDirectories cfg') ∧
  length (Config_AllowedCommands cfg') = 1 ∧ length (Config_AllowedWorkingDirectories cfg') = 1.
Proof.
  apply (Validate_canonical demo_fs demo_config (with_allowed demo_config ["/usr/bin/make"] ["/srv"])).
  vm_compute. reflexivity.
Defined.
