(* ===== verification/Store.v ===== *)
(** * Store: entities, blobs, schema and the experiment cache

    Models the rest of [src/internal/store/store.go] (the jobs are in [Jobs],
    the audit log in [AuditLog]) and [src/internal/store/experiment_cache.go].
    A directory of the store is a map from file stem to file text; the blobs
    are files named by their digest.  gzip is the interface [Gzip]. *)

From S2P Require Import Prelude Sha256 Model Json Paths.

(** ** Blobs *)

(** compress/gzip: what is decompressed is what was compressed. *)
Class Gzip := {
  gzip : string → string;
  gunzip : string → result string;
  gunzip_gzip content : gunzip (gzip content) = Ok content;
}.

Definition stored_gzip : Gzip := {| gzip s := s; gunzip := Ok; gunzip_gzip _ := eq_refl |}.

Abbreviation files := (gmap string string) (only parsing).

(** [digestString] *)
Definition digestString (content : string) : string := sha256_hex content.

Section blobs.
Context `{!Gzip}.

(** [fail] is the error of [writeFileAtomic] or [MkdirAll], if any. *)
Definition PutBlob (blobs : files) (fail : option error) (content : string)
    : files * result string :=
  let digest := sha256_hex content in
  if bool_decide (is_Some (blobs !! digest)) then (blobs, Ok digest)
  else match fail with
       | Some err => (blobs, Err err)
       | None => (<[digest := gzip content]> blobs, Ok digest)
       end.

(** [io.LimitReader]; the guard keeps the bound from being unfolded. *)
Definition limit_reader (limit : Z) (s : string) : string :=
  if bool_decide (Z.of_nat (String.length s) ≤ limit)%Z then s else string_take (Z.to_nat limit) s.

Definition GetBlob (blobs : files) (digest : string) : result string :=
  fail? negb (validDigest digest) with ErrMsg "invalid blob digest" in
  match blobs !! digest with
  | None => Err ErrNotExist
  | Some file =>
      let? whole := gunzip file in
      let content := limit_reader (2 ^ 30) whole in
      fail? negb (bool_decide (sha256_hex content = digest)) with ErrMsg "blob digest mismatch" in
      Ok content
  end.
End blobs.

(** ** Entities: captures, analyses and jobs as JSON files *)

Section entities.
Context {A : Type} `{!Json A}.

Definition bad_identifier : error := ErrMsg "invalid entity identifier".

Definition saveEntity (dir : files) (fail : option error) (identifier : string) (value : A)
    : files * result unit :=
  if negb (validIdentifier identifier) then (dir, Err bad_identifier)
  else match fail with
       | Some err => (dir, Err err)
       | None => (<[identifier := json_encode value]> dir, Ok tt)
       end.

Definition loadEntity (dir : files) (identifier : string) : result A :=
  fail? negb (validIdentifier identifier) with bad_identifier in
  match dir !! identifier with
  | None => Err ErrNotExist
  | Some content => json_strict content
  end.

Fixpoint decode_all (contents : list string) : result (list A) :=
  match contents with
  | [] => Ok []
  | content :: contents =>
      let? value := json_decode content in
      let? values := decode_all contents in
      Ok (value :: values)
  end.

(** Newest identifiers first: the file names in reverse order, at most
    [limit] of them when [limit] is positive. *)
Definition listEntities (dir : files) (limit : Z) : result (list A) :=
  let names := reverse (sort_by (λ stem, stem +:+ ".json") (map_to_list dir).*1) in
  let names := if bool_decide (0 < limit)%Z && bool_decide (limit < Z.of_nat (length names))%Z
               then take (Z.to_nat limit) names else names in
  decode_all ((λ name, default "" (dir !! name)) <$> names).
End entities.

(** [value.SchemaVersion = currentSchemaVersion] *)
Definition capture_with_schema (value : Capture) : Capture :=
  mkCapture 3 (Capture_ID value) (Capture_CreatedAt value) (Capture_StartedAt value)
    (Capture_FinishedAt value) (Capture_Label value) (Capture_WorkspaceRoot value)
    (Capture_Command value) (Capture_Oracle value) (Capture_Result value)
    (Capture_OracleResult value) (Capture_Before value) (Capture_Workspace value)
    (Capture_Host value) (Capture_SecretEvidence value) (Capture_ConsultedPaths value)
    (Capture_EvidenceBoundaries value) (Capture_Warnings value).

Definition SaveCapture `{!Json Capture} (dir : files) (fail : option error) (value : Capture) :
    files * result unit :=
  let value := Capture_Normalize (capture_with_schema value) in
  saveEntity dir fail (Capture_ID value) value.

(** [value.SchemaVersion = currentSchemaVersion] *)
Definition with_schema (value : Analysis) : Analysis :=
  mkAnalysis 3 (Analysis_ID value) (Analysis_CreatedAt value) (Analysis_GoodCaptureID value)
    (Analysis_BadCaptureID value) (Analysis_Factors value) (Analysis_CausalFactors value)
    (Analysis_Experiments value) (Analysis_Status value) (Analysis_ForwardVerified value)
    (Analysis_ReverseVerified value) (Analysis_MinimalInModel value) (Analysis_Repetitions value)
    (Analysis_ExperimentBudget value) (Analysis_Summary value)
    (Analysis_EvidenceBoundaries value) (Analysis_Limitations value).

Definition SaveAnalysis `{!Json Analysis} (dir : files) (fail : option error) (value : Analysis) :
    files * result unit :=
  let value := Analysis_Normalize (with_schema value) in
  saveEntity dir fail (Analysis_ID value) value.

(** ** The schema file and its migrations

    [schema] is the content of [schema.json]: absent, not decodable, or a
    version.  The directories a migration creates are a set of names. *)

Record layout := mkLayout {
  layout_dirs : gset string;
  layout_schema : option (result Z);
}.

Definition base_dirs : gset string :=
  list_to_set ["captures"; "analyses"; "jobs"; "idempotency"; "experiment-cache"; "blobs/sha256";
    "audit"; "keys"; "traces"].

Definition migrateV1ToV2 (dirs : gset string) : gset string := dirs ∪ {["analyses"]}.
Definition migrateV2ToV3 (dirs : gset string) : gset string :=
  dirs ∪ {["jobs"; "idempotency"; "traces"]}.

(** How the write of [schema.json] with a given version ends *)
Definition write_schema (fail : Z → option error) (l : layout) (version : Z)
    : layout * option error :=
  match fail version with
  | Some err => (l, Some err)
  | None => (mkLayout (layout_dirs l) (Some (Ok version)), None)
  end.

(** The [for schema.Version < currentSchemaVersion] loop *)
Fixpoint migrate_loop (fuel : nat) (fail : Z → option error) (l : layout) (version : Z)
    : option (layout * result unit) :=
  if bool_decide (version < 3)%Z then
    match fuel with
    | O => None
    | S fuel =>
        let next migrate version :=
          let l := mkLayout (migrate (layout_dirs l)) (layout_schema l) in
          match write_schema fail l version with
          | (l, Some err) => Some (l, Err err)
          | (l, None) => migrate_loop fuel fail l version
          end in
        if bool_decide (version = 1%Z) then next migrateV1ToV2 2%Z
        else if bool_decide (version = 2%Z) then next migrateV2ToV3 3%Z
        else Some (l, Err (ErrMsg ("no migration from schema " +:+ show_Z version)))
    end
  else Some (l, Ok tt).

(** Creating the directories succeeds; [fail] says how the writes of the
    schema file end. *)
Definition initialize (fail : Z → option error) (l : layout) : option (layout * result unit) :=
  let l := mkLayout (layout_dirs l ∪ base_dirs) (layout_schema l) in
  match layout_schema l with
  | None =>
      match write_schema fail l 3 with
      | (l, Some err) => Some (l, Err err)
      | (l, None) => Some (l, Ok tt)
      end
  | Some (Err err) => Some (l, Err err)
  | Some (Ok version) =>
      if bool_decide (3 < version)%Z
      then Some (l, Err (ErrMsg ("store schema " +:+ show_Z version +:+ " is newer than supported 3")))
      else migrate_loop 2 fail l version
  end.

(** ** The experiment cache *)

Definition MaxExperimentCacheBytes : Z := 67108864.

Record experimentCacheEntry := mkCacheEntry {
  cache_Key : string;
  cache_Complete : bool;
  cache_Experiment : Experiment;
}.

Section cache.
Context `{!Json experimentCacheEntry}.

(** The read may fail with another error than absence ([unreadable]). *)
Definition LoadExperimentCache (cache : files) (unreadable : option error) (key : string)
    : files * result (option Experiment) :=
  if negb (validDigest key) then (cache, Err (ErrMsg "invalid experiment cache key"))
  else match cache !! key with
       | None => (cache, Ok None)
       | Some content =>
           match unreadable with
           | Some err => (cache, Err err)
           | None =>
               match json_decode content with
               | Ok entry =>
                   if negb (bool_decide (cache_Key entry = key)) || negb (cache_Complete entry)
                   then (delete key cache, Ok None)
                   else (cache, Ok (Some (cache_Experiment entry)))
               | Err _ => (delete key cache, Ok None)
               end
           end
       end.

Definition file_size (cache : files) (path : string) : Z :=
  Z.of_nat (String.length (default "" (cache !! path))).

Definition cache_paths (cache : files) : list string :=
  sort_by (λ stem, stem +:+ ".json") (map_to_list cache).*1.

Definition total_size (cache : files) (paths : list string) : Z :=
  foldr (λ path total, file_size cache path + total)%Z 0%Z paths.

(** The second loop of [pruneExperimentCacheLocked] *)
Fixpoint prune_loop (max : Z) (cache : files) (paths : list string) (preserve : string) (total : Z)
    : files * Z :=
  match paths with
  | [] => (cache, total)
  | path :: paths =>
      if bool_decide (total ≤ max)%Z || bool_decide (path = preserve)
      then prune_loop max cache paths preserve total
      else prune_loop max (delete path cache) paths preserve (total - file_size cache path)
  end.

Definition pruneExperimentCacheLocked (max : Z) (cache : files) (preserve : string) : files :=
  let paths := cache_paths cache in
  let '(cache, total) := prune_loop max cache paths preserve (total_size cache paths) in
  if bool_decide (max < total)%Z then delete preserve cache else cache.

(** [max] is [MaxExperimentCacheBytes] in the code. *)
Definition SaveExperimentCache (max : Z) (cache : files) (fail : option error) (key : string)
    (experiment : Experiment) : files * result unit :=
  if negb (validDigest key) then (cache, Err (ErrMsg "invalid experiment cache key"))
  else
    let content := json_encode (mkCacheEntry key true experiment) in
    if bool_decide (max < Z.of_nat (String.length content))%Z
    then (cache, Err (ErrMsg "experiment cache entry exceeds size limit"))
    else match fail with
         | Some err => (cache, Err err)
         | None => (pruneExperimentCacheLocked max (<[key := content]> cache) key, Ok tt)
         end.
End cache.

(** ** Lemmas: entities *)

(** Saving and loading an entity *)
Lemma saved_loads {A} `{Json A} (dir : files) id (value : A) :
  validIdentifier id = true → json_valid value → loadEntity (<[id := json_encode value]> dir) id = Ok value.
Proof. intros Hid Hv. unfold loadEntity. rewrite Hid, lookup_insert_eq. by apply json_strict_roundtrip. Qed.

(** ** Lemmas: blobs *)

(** The invariant of the blob directory: a blob is a compressed content, under
    the digest of that content. *)
Definition blobs_sound `{!Gzip} (blobs : files) : Prop :=
  map_Forall (λ digest file, ∃ content, file = gzip content ∧ sha256_hex content = digest) blobs.

Lemma limit_reader_short limit s : (Z.of_nat (String.length s) ≤ limit)%Z → limit_reader limit s = s.
Proof. intros. unfold limit_reader. by rewrite bool_decide_eq_true_2. Qed.

Lemma validDigest_sha256 content : validDigest (sha256_hex content) = true.
Proof.
  unfold validDigest. rewrite sha256_hex_length. by rewrite sha256_hex_decodable.
Qed.

Section blob_lemmas.
Context `{!Gzip}.

Lemma PutBlob_sound blobs fail content blobs' r :
  blobs_sound blobs → PutBlob blobs fail content = (blobs', r) →
  blobs_sound blobs' ∧ blobs ⊆ blobs' ∧
  (∀ digest, r = Ok digest → digest = sha256_hex content ∧ is_Some (blobs' !! digest)).
Proof.
  intros Hs. unfold PutBlob. case_bool_decide as Hin; [|destruct fail].
  - intros [= <- <-]. split_and!; [done|done|]. intros ? [= <-]. done.
  - intros [= <- <-]. by split_and!.
  - intros [= <- <-]. split_and!.
    + apply map_Forall_insert_2; [by eexists|done].
    + apply insert_subseteq. destruct (blobs !! _) eqn:Hb; [|done]. by destruct Hin; eexists.
    + intros ? [= <-]. rewrite lookup_insert_eq. by split; [|eexists].
Qed.

Lemma GetBlob_content blobs content :
  blobs !! sha256_hex content = Some (gzip content) →
  (Z.of_nat (String.length content) ≤ 2 ^ 30)%Z → GetBlob blobs (sha256_hex content) = Ok content.
Proof.
  intros Hb Hlen. unfold GetBlob. rewrite validDigest_sha256. cbn [negb]. rewrite Hb, gunzip_gzip.
  unfold rbind. rewrite limit_reader_short by done. by rewrite bool_decide_eq_true_2.
Qed.

Lemma GetBlob_inv blobs digest content : GetBlob blobs digest = Ok content →
  sha256_hex content = digest ∧ (Z.of_nat (String.length content) ≤ 2 ^ 30)%Z.
Proof.
  intros Hrun.
  unfold GetBlob in Hrun. destruct (negb _); [done|]. destruct (blobs !! digest) as [file|]; [|done].
  destruct (gunzip file) as [whole|]; [|done]. cbn [rbind] in Hrun.
  destruct (bool_decide (sha256_hex _ = digest)) eqn:Hd; cbn [negb] in Hrun; [|done].
  apply bool_decide_eq_true in Hd. simplify_eq. split; [done|].
  unfold limit_reader. case_bool_decide; [done|].
  assert (∀ n s, String.length (string_take n s) ≤ n) as Htake.
  { intros n. induction n as [|n IH]; intros [|? s]; cbn; try lia. specialize (IH s). lia. }
  specialize (Htake (Z.to_nat (2 ^ 30)) whole). lia.
Qed.
End blob_lemmas.

(** ** Lemmas: the size of the cache *)

Definition cache_bytes (cache : files) : Z := total_size cache (cache_paths cache).

Lemma total_size_perm cache l1 l2 : l1 ≡ₚ l2 → total_size cache l1 = total_size cache l2.
Proof. induction 1; cbn; try lia. unfold total_size in *. lia. Qed.

Lemma total_size_delete cache k l : k ∉ l → total_size (delete k cache) l = total_size cache l.
Proof.
  induction l as [|x l IH]; intros Hk; cbn; [done|].
  unfold total_size in IH. rewrite IH by set_solver. unfold file_size.
  by rewrite lookup_delete_ne by set_solver.
Qed.

Lemma elem_of_cache_paths cache k : k ∈ cache_paths cache ↔ is_Some (cache !! k).
Proof.
  unfold cache_paths. rewrite elem_of_sort_by, list_elem_of_fmap. split.
  - intros ([k' v] & -> & ?%elem_of_map_to_list). by eexists.
  - intros [r ?]. exists (k, r). by rewrite elem_of_map_to_list.
Qed.

Lemma NoDup_cache_paths cache : NoDup (cache_paths cache).
Proof. unfold cache_paths. rewrite NoDup_sort_by. apply NoDup_fst_map_to_list. Qed.

Lemma cache_bytes_delete cache k :
  is_Some (cache !! k) → cache_bytes (delete k cache) = (cache_bytes cache - file_size cache k)%Z.
Proof.
  intros Hk. unfold cache_bytes.
  assert (cache_paths cache ≡ₚ k :: cache_paths (delete k cache)) as Hperm.
  { apply NoDup_Permutation; [apply NoDup_cache_paths| |].
    - apply NoDup_cons. split; [|apply NoDup_cache_paths].
      rewrite elem_of_cache_paths, lookup_delete_eq. by intros [].
    - intros x. rewrite elem_of_cons, !elem_of_cache_paths.
      destruct (decide (x = k)) as [->|]; [by split; auto|].
      rewrite lookup_delete_ne by done. naive_solver. }
  rewrite (total_size_perm _ _ _ Hperm). cbn. rewrite total_size_delete.
  - unfold total_size. lia.
  - rewrite elem_of_cache_paths, lookup_delete_eq. by intros [].
Qed.

(** What the eviction loop removes, and when it stops removing *)
Lemma prune_loop_spec max preserve paths : ∀ cache total cache' total',
  NoDup paths → (∀ p, p ∈ paths → is_Some (cache !! p)) → total = cache_bytes cache →
  prune_loop max cache paths preserve total = (cache', total') →
  total' = cache_bytes cache' ∧ cache' ⊆ cache ∧ cache' !! preserve = cache !! preserve ∧
  (∀ k, k ∉ paths → cache' !! k = cache !! k) ∧
  ((max < total')%Z → ∀ p, p ∈ paths → p ≠ preserve → cache' !! p = None).
Proof.
  induction paths as [|path paths IH]; intros cache total cache' total' Hnd Hin Ht Hrun; cbn in Hrun.
  { simplify_eq. split_and!; [done..|set_solver]. }
  apply NoDup_cons in Hnd as [Hpath Hnd].
  assert (is_Some (cache !! path)) as Hsome by (apply Hin; by left).
  assert (∀ p, p ∈ paths → is_Some (cache !! p)) as Hrest by (intros p Hp; apply Hin; by right).
  destruct (_ || _) eqn:Hskip.
  - destruct (IH _ _ _ _ Hnd Hrest Ht Hrun) as (H1 & H2 & H3 & H4 & H5).
    split_and!; [done..|set_solver|]. intros Hmax p [->|Hp]%elem_of_cons Hne; [|by apply H5].
    apply orb_true_iff in Hskip as [Hle%bool_decide_eq_true|?%bool_decide_eq_true]; [|done].
    exfalso. assert (total' ≤ total)%Z; [|lia].
    clear -Hrun. revert cache total Hrun.
    induction paths as [|q qs IHq]; intros cache total Hrun; cbn in Hrun; [by simplify_eq|].
    destruct (_ || _); apply IHq in Hrun; [done|]. unfold file_size in Hrun. lia.
  - assert (∀ p, p ∈ paths → is_Some (delete path cache !! p)) as Hin'.
    { intros p Hp. rewrite lookup_delete_ne by set_solver. by apply Hrest. }
    apply orb_false_iff in Hskip as [_ Hne%bool_decide_eq_false].
    assert (total - file_size cache path = cache_bytes (delete path cache))%Z as Ht'
      by (rewrite cache_bytes_delete; [lia|done]).
    destruct (IH _ _ _ _ Hnd Hin' Ht' Hrun)
      as (H1 & H2 & H3 & H4 & H5).
    split_and!.
    + done.
    + etrans; [done|]. apply delete_subseteq.
    + by rewrite H3, lookup_delete_ne.
    + intros k Hk. rewrite H4, lookup_delete_ne by set_solver. done.
    + intros Hmax p [->|Hp]%elem_of_cons Hpne; [|by apply H5].
      rewrite H4 by done. apply lookup_delete_eq.
Qed.

Lemma prune_spec max cache key content :
  cache !! key = Some content → (Z.of_nat (String.length content) ≤ max)%Z →
  let cache' := pruneExperimentCacheLocked max cache key in
  (cache_bytes cache' ≤ max)%Z ∧ cache' ⊆ cache ∧ cache' !! key = Some content.
Proof.
  intros Hkey Hlen. unfold pruneExperimentCacheLocked.
  destruct (prune_loop _ _ _ _ _) as [cache' total'] eqn:Hrun. cbn zeta.
  destruct (prune_loop_spec _ _ _ _ _ _ _ (NoDup_cache_paths cache)
    (λ p, proj1 (elem_of_cache_paths cache p)) eq_refl Hrun) as (-> & Hsub & Hk & Hout & Hall).
  case_bool_decide as Hmax; [|split_and!; [lia|done|congruence]].
  exfalso. specialize (Hall Hmax).
  assert (cache' = {[key := content]}) as ->.
  { apply map_eq. intros k. destruct (decide (k = key)) as [->|Hne].
    - rewrite lookup_singleton_eq. congruence.
    - rewrite lookup_singleton_ne by done.
      destruct (decide (k ∈ cache_paths cache)) as [Hin|Hin]; [by apply Hall|].
      rewrite Hout by done. rewrite elem_of_cache_paths in Hin.
      destruct (cache !! k) eqn:E; [|done]. by destruct Hin; eexists. }
  unfold cache_bytes, cache_paths in Hmax. rewrite map_to_list_singleton in Hmax. cbn in Hmax.
  unfold file_size in Hmax. rewrite lookup_singleton_eq in Hmax. cbn in Hmax. lia.
Qed.

(** Eviction only removes files. *)
Lemma prune_subset max cache preserve : pruneExperimentCacheLocked max cache preserve ⊆ cache.
Proof.
  unfold pruneExperimentCacheLocked. destruct (prune_loop _ _ _ _ _) as [cache' total'] eqn:Hrun.
  destruct (prune_loop_spec _ _ _ _ _ _ _ (NoDup_cache_paths cache)
    (λ p, proj1 (elem_of_cache_paths cache p)) eq_refl Hrun) as (_ & Hsub & _).
  case_bool_decide; [|done]. etrans; [apply delete_subseteq|done].
Qed.

Lemma save_then_load `{!Json experimentCacheEntry} max cache key experiment cache' :
  json_valid (mkCacheEntry key true experiment) →
  SaveExperimentCache max cache None key experiment = (cache', Ok tt) →
  (cache_bytes cache' ≤ max)%Z ∧
  LoadExperimentCache cache' None key = (cache', Ok (Some experiment)) ∧
  ∀ other, other ≠ key → cache' !! other = cache !! other ∨ cache' !! other = None.
Proof.
  intros Hjson Hrun.
  unfold SaveExperimentCache in Hrun. destruct (negb (validDigest key)) eqn:Hkey; [done|].
  case_bool_decide as Hlen; [done|]. simplify_eq.
  destruct (prune_spec max (<[key := json_encode (mkCacheEntry key true experiment)]> cache) key
    (json_encode (mkCacheEntry key true experiment))) as (Hmax & Hsub & Hk);
    [by rewrite lookup_insert_eq|lia|].
  set (pruned := pruneExperimentCacheLocked _ _ _) in *.
  split_and!; [done|..].
  - unfold LoadExperimentCache. rewrite Hkey, Hk, json_roundtrip by done. cbn.
    by rewrite bool_decide_eq_true_2 by done.
  - intros other Hne. destruct (pruned !! other) as [v|] eqn:Hv; [left|by right].
    eapply lookup_weaken in Hv; [|done]. by rewrite lookup_insert_ne in Hv.
Qed.

(** ** Lemmas: lists of entities *)

Lemma decode_all_spec `{!Json A} contents values :
  decode_all contents = Ok values ↔ Forall2 (λ c (v : A), json_decode c = Ok v) contents values.
Proof.
  revert values. induction contents as [|c cs IH]; intros values; cbn.
  { split; [intros [= <-]; constructor|]. by intros ->%Forall2_nil_inv_l. }
  split.
  - destruct (json_decode c) as [v|] eqn:Hc; cbn; [|done].
    destruct (decode_all cs) as [vs|] eqn:Hcs; cbn; [|done].
    intros [= <-]. constructor; [done|]. by apply IH.
  - intros (v & vs & Hv & Hvs%IH & ->)%Forall2_cons_inv_l. by rewrite Hv, Hvs.
Qed.

(** ** Properties *)

(** Blobs are content addressed: storing succeeds with the digest of the
    content, keeps every blob there is and the invariant of the directory, and
    reading the digest back gives the content; the only other outcome is a
    different content with the same SHA-256 digest that was stored before. *)
Theorem PutBlob_GetBlob `{!Gzip} blobs content blobs' r
    (Hsound : blobs_sound blobs) (Hlen : (Z.of_nat (String.length content) ≤ 2 ^ 30)%Z)
    (Hrun : PutBlob blobs None content = (blobs', r)) :
  r = Ok (sha256_hex content) ∧ blobs_sound blobs' ∧ blobs ⊆ blobs' ∧
  (GetBlob blobs' (sha256_hex content) = Ok content ∨
   ∃ other, other ≠ content ∧ sha256_hex other = sha256_hex content ∧
     blobs !! sha256_hex content = Some (gzip other)).
Proof.
  destruct (PutBlob_sound _ _ _ _ _ Hsound Hrun) as (Hs & Hsub & _).
  unfold PutBlob in Hrun. case_bool_decide as Hin; simplify_eq;
    (split_and!; [done|done|done|]).
  - destruct Hin as [file Hf]. destruct (Hsound _ _ Hf) as (c & -> & Hc).
    destruct (decide (c = content)) as [->|Hne]; [left; by apply GetBlob_content|right; by exists c].
  - left. apply GetBlob_content; [apply lookup_insert_eq|done].
Qed.

(** What [GetBlob] returns always has the requested digest, whatever is
    on the disk: a corrupted or truncated blob is an error. *)
Theorem GetBlob_authentic `{!Gzip} blobs digest content
    (Hrun : GetBlob blobs digest = Ok content) :
  sha256_hex content = digest ∧ (Z.of_nat (String.length content) ≤ 2 ^ 30)%Z.
Proof.
  by eapply GetBlob_inv.
Qed.

(** The experiment cache stays within its limit and never loses what it
    was just given: after a successful save the files fit in [max] bytes, the
    saved experiment is what a load of the key returns, and every other file
    is either as it was or evicted. *)
Theorem SaveExperimentCache_bounded `{!Json experimentCacheEntry} max cache key experiment cache'
    (Hjson : json_valid (mkCacheEntry key true experiment))
    (Hrun : SaveExperimentCache max cache None key experiment = (cache', Ok tt)) :
  (cache_bytes cache' ≤ max)%Z ∧
  LoadExperimentCache cache' None key = (cache', Ok (Some experiment)) ∧
  ∀ other, other ≠ key → cache' !! other = cache !! other ∨ cache' !! other = None.
Proof. by apply save_then_load. Qed.

(** Opening a store migrates it: from schema 1, 2, 3 or none at all a
    successful open leaves schema 3 and every directory; when a write of the
    schema file fails the layout is one from which a later open succeeds; a
    newer schema is refused and its file is not touched. *)
Theorem initialize_migrates fail l :
  match initialize fail l with
  | None => False
  | Some (l', Ok _) => layout_schema l' = Some (Ok 3%Z) ∧ layout_dirs l ∪ base_dirs ⊆ layout_dirs l'
  | Some (l', Err _) =>
      (∃ err, layout_schema l = Some (Err err) ∧ layout_schema l' = Some (Err err)) ∨
      (∃ v, layout_schema l = Some (Ok v) ∧ (v < 1 ∨ 3 < v)%Z ∧ layout_schema l' = Some (Ok v)) ∨
      (∃ l'', initialize (λ _, None) l' = Some (l'', Ok tt))
  end.
Proof.
  unfold initialize at 1. destruct l as [dirs schema]. cbn [layout_schema layout_dirs].
  assert (∀ dirs v, (1 ≤ v ≤ 3)%Z →
    ∃ l'', initialize (λ _, None) (mkLayout dirs (Some (Ok v))) = Some (l'', Ok tt)) as Hagain.
  { intros ds v Hv. assert (v = 1 ∨ v = 2 ∨ v = 3)%Z as [->|[->| ->]] by lia; eexists; reflexivity. }
  destruct schema as [[v|err]|].
  - case_bool_decide as Hnew; [right; left; exists v; split_and!; [done|by right|done]|].
    destruct (decide (v < 1)%Z) as [Hold|Hold].
    { cbn. rewrite !(bool_decide_eq_true_2 (v < 3)%Z) by lia.
      rewrite !bool_decide_eq_false_2 by lia. right; left. exists v. split_and!; [done|by left|done]. }
    assert (v = 1 ∨ v = 2 ∨ v = 3)%Z as [->|[->| ->]] by lia; cbn -[initialize];
      unfold write_schema; destruct (fail 2%Z), (fail 3%Z); cbn -[initialize];
      first [right; right; apply Hagain; lia | split; [done|set_solver]].
  - left. by exists err.
  - unfold write_schema. destruct (fail 3%Z); cbn -[initialize]; [|by split].
    right. right. eexists. reflexivity.
Qed.

(** Listing shows the newest identifiers first: the result are the
    decoded files of the directory in decreasing order of file name, cut off
    at the limit when there is one. *)
Theorem listEntities_newest_first `{!Json A} dir limit (values : list A)
    (Hrun : listEntities dir limit = Ok values) :
  ∃ names, StronglySorted (λ a b, key_le (λ stem, stem +:+ ".json") b a) names ∧ NoDup names ∧
    names ⊆ (map_to_list dir).*1 ∧
    length names = (if bool_decide (0 < limit)%Z
                    then Nat.min (Z.to_nat limit) (size dir) else size dir) ∧
    Forall2 (λ name v, ∃ content, dir !! name = Some content ∧ json_decode content = Ok v)
      names values ∧
    ∀ a b, a ∈ names → is_Some (dir !! b) → b ∉ names → key_le (λ stem, stem +:+ ".json") b a.
Proof.
  unfold listEntities in Hrun.
  set (all := reverse (sort_by _ _)) in Hrun.
  set (names := if _ && _ then _ else _) in Hrun.
  assert (StronglySorted (λ a b, key_le (λ stem, stem +:+ ".json") b a) all) as Hsorted.
  { apply StronglySorted_reverse, sort_by_sorted. }
  assert (∃ n, names = take n all ∧ length names =
    (if bool_decide (0 < limit)%Z then Nat.min (Z.to_nat limit) (size dir) else size dir)) as (n & Hn & Hlen).
  { assert (length all = size dir) as Hall.
    { subst all. by rewrite length_reverse, length_sort_by, length_fmap, length_map_to_list. }
    subst names. destruct (bool_decide (0 < limit)%Z) eqn:Hpos; cbn [andb].
    - apply bool_decide_eq_true in Hpos. case_bool_decide as Hlim.
      + exists (Z.to_nat limit). split; [done|]. rewrite length_take. lia.
      + exists (length all). split; [by rewrite take_ge|]. lia.
    - exists (length all). split; [by rewrite take_ge|done]. }
  assert (∀ x, x ∈ all ↔ is_Some (dir !! x)) as Hmem.
  { intros x. subst all. rewrite elem_of_reverse. apply elem_of_cache_paths. }
  assert (names ++ drop n all = all) as Hsplit by (rewrite Hn; apply take_drop).
  assert (NoDup all) as Hnd.
  { subst all. rewrite reverse_Permutation, NoDup_sort_by. apply NoDup_fst_map_to_list. }
  rewrite <-Hsplit in Hsorted, Hnd, Hmem.
  apply StronglySorted_app in Hsorted as (Hle & Hs1 & _). apply NoDup_app in Hnd as (Hnd & _ & _).
  exists names. split_and!; [done|done| |done| |].
  - intros x Hx. assert (is_Some (dir !! x)) as [v Hv] by (apply Hmem; set_solver).
    apply list_elem_of_fmap. exists (x, v). by rewrite elem_of_map_to_list.
  - apply decode_all_spec, Forall2_fmap_l in Hrun.
    assert (Forall (λ x, is_Some (dir !! x)) names) as Hall.
    { apply Forall_forall. intros x Hx. apply Hmem. set_solver. }
    clearbody names. clear -Hrun Hall. induction Hrun as [|x v xs vs Hd _ IH]; [constructor|].
    apply Forall_cons in Hall as [[c Hc] Hall]. constructor; [|by apply IH].
    unfold compose in Hd; rewrite Hc in Hd. by exists c.
  - intros a b Ha Hb Hnb. apply Hle; [done|]. apply Hmem in Hb. set_solver.
Qed.

(** ** Witnesses *)

Definition hello_blobs : files := {[sha256_hex "hello" := "hello"]}.

Lemma PutBlob_GetBlob_witness :
  Ok (sha256_hex "hello") = Ok (sha256_hex "hello") ∧ @blobs_sound stored_gzip hello_blobs ∧
  ∅ ⊆ hello_blobs ∧
  (@GetBlob stored_gzip hello_blobs (sha256_hex "hello") = Ok "hello" ∨
   ∃ other, other ≠ "hello" ∧ sha256_hex other = sha256_hex "hello" ∧
     (∅ : files) !! sha256_hex "hello" = Some (@gzip stored_gzip other)).
Proof.
  apply (@PutBlob_GetBlob stored_gzip ∅ "hello" hello_blobs (Ok (sha256_hex "hello"))).
  - apply map_Forall_empty.
  - vm_compute. discriminate.
  - apply (bool_decide_unpack _). vm_compute. exact I.
Defined.

Lemma GetBlob_authentic_witness :
  sha256_hex "hello" = sha256_hex "hello" ∧ (Z.of_nat (String.length "hello") ≤ 2 ^ 30)%Z.
Proof.
  apply (@GetBlob_authentic stored_gzip hello_blobs (sha256_hex "hello") "hello").
  vm_compute. reflexivity.
Defined.

Definition sample_key : string := sha256_hex "k".
Definition sample_entry : experimentCacheEntry := mkCacheEntry sample_key true zero_experiment.

(** The limit is 10 bytes: the older, larger file has to go. *)
Lemma SaveExperimentCache_bounded_witness :
  (cache_bytes {[sample_key := "{}"]} ≤ 10)%Z ∧
  @LoadExperimentCache (single_json sample_entry) {[sample_key := "{}"]} None sample_key =
    ({[sample_key := "{}"]}, Ok (Some zero_experiment)) ∧
  ∀ other, other ≠ sample_key →
    ({[sample_key := "{}"]} : files) !! other = ({["old" := "0123456789"]} : files) !! other ∨
    ({[sample_key := "{}"]} : files) !! other = None.
Proof.
  apply (@SaveExperimentCache_bounded (single_json sample_entry) 10 {["old" := "0123456789"]}
    sample_key zero_experiment {[sample_key := "{}"]}).
  - reflexivity.
  - apply (bool_decide_unpack _). vm_compute. exact I.
Defined.

Lemma listEntities_newest_first_witness :
  let dir : files := {["a" := string_of_pos (encode "x"); "b" := string_of_pos (encode "y")]} in
  ∃ names, StronglySorted (λ a b, key_le (λ stem, stem +:+ ".json") b a) names ∧ NoDup names ∧
    names ⊆ (map_to_list dir).*1 ∧
    length names = (if bool_decide (0 < 1)%Z then Nat.min (Z.to_nat 1) (size dir) else size dir) ∧
    Forall2 (λ name v, ∃ content, dir !! name = Some content ∧
      @json_decode _ (countable_json string) content = Ok v) names ["y"] ∧
    ∀ a b, a ∈ names → is_Some (dir !! b) → b ∉ names → key_le (λ stem, stem +:+ ".json") b a.
Proof.
  apply (@listEntities_newest_first string (countable_json string)
    {["a" := string_of_pos (encode "x"); "b" := string_of_pos (encode "y")]} 1 ["y"]).
  vm_compute. reflexivity.
Defined.
