(* ===== verification/Workspace.v ===== *)
(** * Workspace: scanning and rebuilding a directory tree

    Models [src/internal/workspace/workspace.go]: [Scan], [Materialize],
    [Apply] and [removeExisting], over the file system of [Fs], the path
    checks of [Paths] and the blobs of [Store].  The tree is not changed by
    others while it is scanned, so [readStableFile] returns the content of the
    file up to the quota; [StableRead] is about files that do change. *)

From S2P Require Import Prelude Sha256 Model Json Paths Fs Store.

(** [fs.FileMode.Perm] *)
Definition perm (mode : Z) : Z := Z.land mode 511.

Definition ModeDir : Z := 2147483648.
Definition ModeSymlink : Z := 134217728.

(** ** Apply and Materialize *)

Section apply.
Context {USER : User} `{!Gzip}.
Implicit Types (f : fs) (blobs : files).

Definition removeExisting f (path : string) : effect :=
  match lstat_as f path with
  | Err ErrNotExist => (f, Ok tt)
  | Err err => (f, Err err)
  | Ok (NDir _) => remove_all_as f path
  | Ok _ => kept f (remove_as f path)
  end.

Definition Apply f blobs (root relative : string) (entry : WorkspaceEntry) (present : bool) : effect :=
  attempt f (safeJoin root relative) (λ path,
  attempt f (if present && bool_decide (Entry_Type entry = "symlink")
             then validateLinkTarget relative (Entry_LinkTarget entry) else Ok tt) (λ _,
  let! f := removeExisting f path in
  if negb present then (f, Ok tt)
  else
    let! f := mkdir_all_as f (Dir path) 493 in
    let mode := Entry_Mode entry in
    if bool_decide (Entry_Type entry = "dir") then
      let! f := mkdir_all_as f path (perm mode) in
      kept f (chmod_as f path (perm mode))
    else if bool_decide (Entry_Type entry = "symlink") then
      if bool_decide (Entry_LinkTarget entry = "") then (f, Err (ErrMsg "symlink target missing"))
      else kept f (symlink_as f (Entry_LinkTarget entry) path)
    else if bool_decide (Entry_Type entry = "file") then
      attempt f (GetBlob blobs (Entry_BlobDigest entry)) (λ content,
      let! f := kept f (write_file_as f path content (perm mode)) in
      kept f (chmod_as f path (perm mode)))
    else (f, Err (ErrMsg ("unsupported workspace entry type " +:+ Entry_Type entry))))).

Fixpoint apply_all f blobs (root : string) (entries : list WorkspaceEntry) : effect :=
  match entries with
  | [] => (f, Ok tt)
  | entry :: entries =>
      let! f := Apply f blobs root (Entry_Path entry) entry true in
      apply_all f blobs root entries
  end.
End apply.

Definition depth (path : string) : nat := count_byte slash path.

(** The comparison given to [sort.Slice]: by depth, then by path *)
Definition depth_le (e1 e2 : WorkspaceEntry) : Prop :=
  depth (Entry_Path e1) < depth (Entry_Path e2) ∨
  (depth (Entry_Path e1) = depth (Entry_Path e2) ∧ String.le (Entry_Path e1) (Entry_Path e2)).

#[export] Instance depth_le_dec e1 e2 : Decision (depth_le e1 e2).
Proof. unfold depth_le. apply _. Defined.

Definition sort_by_depth (entries : list WorkspaceEntry) : list WorkspaceEntry :=
  merge_sort depth_le entries.

Definition Materialize {USER : User} `{!Gzip} (f : fs) (blobs : files) (root : string)
    (manifest : WorkspaceManifest) : effect :=
  let! f := mkdir_all_as f root 493 in
  apply_all f blobs root (sort_by_depth (Manifest_Entries manifest)).

(** ** Scan *)

(** What [filepath.WalkDir] visits below [root]: a directory before its
    content, the names of a directory in order.  No name contains a NUL, so
    this is the order of the paths written with NUL between the elements. *)
Definition walk_order (f : fs) (root : list string) : list (list string) :=
  sort_by (join NUL) (filter (λ p, below root p ∧ p ≠ root) (map_to_list f).*1).

Record scan_state := mkScan {
  scan_entries : list WorkspaceEntry;
  scan_files : Z;
  scan_bytes : Z;
  scan_blobs : files;
}.

Section scan.
Context `{!Gzip}.
(** What the model of the file system does not hold: the sizes of directories
    and the files with further hard links. *)
Variables (dir_size : list string → Z) (hardlinked : list string → bool).
(** How storing a blob ends *)
Variable put_fail : string → option error.
Variables (maxFiles maxBytes : Z).

Definition scan_item (f : fs) (s : scan_state) (relative : string) (p : list string) (n : node)
    : result (WorkspaceEntry * Z * files) :=
  match n with
  | NFile mode content =>
      let item type digest blob :=
        mkWorkspaceEntry relative type mode (Z.of_nat (String.length content)) digest blob "" in
      if hardlinked p then Ok (item "unsupported" "" "", scan_bytes s, scan_blobs s)
      else
        let content := limit_reader (wrap_int64 (maxBytes + 1)) content in
        let total := (scan_bytes s + Z.of_nat (String.length content))%Z in
        fail? bool_decide (maxBytes < total)%Z with ErrMsg "workspace byte quota exceeded" in
        let '(blobs, r) := PutBlob (scan_blobs s) (put_fail relative) content in
        let? blob := r in
        Ok (item "file" (sha256_hex content) blob, total, blobs)
  | NDir mode =>
      Ok (mkWorkspaceEntry relative "dir" (Z.lor ModeDir mode) (dir_size p) "" "" "",
          scan_bytes s, scan_blobs s)
  | NSymlink target =>
      let type := match validateLinkTarget relative target with
                  | Ok _ => "symlink" | Err _ => "unsupported" end in
      Ok (mkWorkspaceEntry relative type (Z.lor ModeSymlink 511)
            (Z.of_nat (String.length target)) (digestString target) "" target,
          scan_bytes s, scan_blobs s)
  end.

Definition scan_visit (f : fs) (root : string) (s : scan_state) (p : list string)
    : result scan_state :=
  let? relative := Rel root (abs_path p) in
  fail? unsafeRelative relative with ErrMsg ("unsafe workspace path " +:+ relative) in
  let? n := Lstat f (abs_path p) in
  let? (item, bytes, blobs) := scan_item f s relative p n in
  let s := mkScan (scan_entries s ++ [item]) (scan_files s + 1) bytes blobs in
  fail? bool_decide (maxFiles < scan_files s)%Z with ErrMsg "workspace file quota exceeded" in
  Ok s.

Fixpoint scan_walk (f : fs) (root : string) (s : scan_state) (paths : list (list string))
    : result scan_state :=
  match paths with
  | [] => Ok s
  | p :: paths => let? s := scan_visit f root s p in scan_walk f root s paths
  end.

(** One line of the text under [Manifest_Digest] *)
Definition manifest_line (item : WorkspaceEntry) : string :=
  Entry_Path item +:+ NUL +:+ Entry_Type item +:+ NUL +:+ show_Z (Entry_Mode item) +:+ NUL +:+
  Entry_Digest item +:+ NUL +:+ Entry_LinkTarget item +:+ NL.

Definition manifest_digest (entries : list WorkspaceEntry) : string :=
  sha256_hex (foldr (λ item text, manifest_line item +:+ text) "" entries).

(** [root] is the result of [CanonicalRoot]. *)
Definition Scan (f : fs) (blobs : files) (root : string) : result (WorkspaceManifest * files) :=
  let? s := scan_walk f root (mkScan [] 0 0 blobs) (walk_order f (path_comps root)) in
  let entries := sort_by Entry_Path (scan_entries s) in
  Ok (mkWorkspaceManifest root entries (scan_files s) (scan_bytes s) (manifest_digest entries),
      scan_blobs s).
End scan.

Definition CanonicalRoot (f : fs) (absolute : string) : result string :=
  let? resolved := EvalSymlinks f absolute in
  let? info := Stat f resolved in
  match info with
  | NDir _ => Ok (Clean resolved)
  | _ => Err (ErrMsg "workspace root is not a directory")
  end.

(** ** Lemmas: Apply *)

(** Every node of the file system lies in directories. *)
Definition closed (f : fs) : Prop :=
  ∀ p q, is_Some (f !! q) → p `prefix_of` q → p ≠ q → p ≠ [] → ∃ m, f !! p = Some (NDir m).

(** What [Apply] puts at the path of an entry *)
Definition entry_node `{!Gzip} (blobs : files) (relative : string) (entry : WorkspaceEntry)
    : option node :=
  if bool_decide (Entry_Type entry = "dir") then Some (NDir (perm (Entry_Mode entry)))
  else if bool_decide (Entry_Type entry = "symlink") then
    if bool_decide (Entry_LinkTarget entry = "") then None
    else match validateLinkTarget relative (Entry_LinkTarget entry) with
         | Ok _ => Some (NSymlink (Entry_LinkTarget entry))
         | Err _ => None
         end
  else if bool_decide (Entry_Type entry = "file") then
    match GetBlob blobs (Entry_BlobDigest entry) with
    | Ok content => Some (NFile (perm (Entry_Mode entry)) content)
    | Err _ => None
    end
  else None.

Definition without (f : fs) (p : list string) : fs := filter (λ kv, ¬ below p kv.1) f.

Lemma lookup_without f p q : without f p !! q = if decide (below p q) then None else f !! q.
Proof.
  unfold without. rewrite map_lookup_filter. destruct (f !! q) as [n|]; cbn; [|by case_decide].
  case_decide as Hb; [rewrite option_guard_False; [done|]|rewrite option_guard_True; [done|done]].
  cbn. tauto.
Qed.

(** Every proper ancestor of [p] is a directory. *)
Definition parents_ok (f : fs) (p : list string) : Prop :=
  ∀ pre, pre `prefix_of` p → pre ≠ [] → pre ≠ p → ∃ m, f !! pre = Some (NDir m).

Lemma parents_ok_real f p : parents_ok f p ↔ real_dirs f [] p.
Proof. symmetry. apply real_dirs_prefix. Qed.

Lemma parents_ok_agree f f' p :
  (∀ pre, pre `prefix_of` p → pre ≠ p → f' !! pre = f !! pre) → parents_ok f p → parents_ok f' p.
Proof. intros Ha Hp pre H1 H2 H3. rewrite Ha by done. by apply Hp. Qed.

Lemma parents_ok_insert f p n : parents_ok f p → parents_ok (<[p := n]> f) p.
Proof. apply parents_ok_agree. intros pre _ Hne. by rewrite lookup_insert_ne. Qed.

Lemma parents_ok_without f p : parents_ok f p → parents_ok (without f p) p.
Proof.
  apply parents_ok_agree. intros pre Hpre Hne. rewrite lookup_without.
  case_decide as Hb; [|done]. destruct Hne. by apply (anti_symm prefix).
Qed.

Lemma parents_ok_init f p : parents_ok f p → parents_ok f (parent p).
Proof.
  intros Hp pre Hpre Hne Hneq. apply Hp; [|done|].
  - etrans; [done|]. unfold parent. apply prefix_take.
  - intros ->. apply prefix_length in Hpre as Hlen. unfold parent in Hlen. rewrite length_take in Hlen.
    destruct p; [done|]. cbn in Hlen. lia.
Qed.

Section real_paths.
Variables (f : fs) (p : list string).
Hypotheses (Hplain : Forall plain p) (Hne : p ≠ []) (Hparents : parents_ok f p).

Lemma resolve_ok follow :
  (follow = false ∨ ∀ t, f !! p ≠ Some (NSymlink t)) → resolve f follow (abs_path p) = Ok p.
Proof. intros. apply resolve_real; [done..| |done]. by apply parents_ok_real. Qed.

Lemma get_node_ok : get_node f p = f !! p.
Proof. by destruct p. Qed.

Lemma stat_some follow n :
  f !! p = Some n → (follow = false ∨ ∀ t, n ≠ NSymlink t) → stat_with follow f (abs_path p) = Ok n.
Proof.
  intros Hn Hor. unfold stat_with. rewrite resolve_ok.
  - cbn. by rewrite get_node_ok, Hn.
  - destruct Hor as [|Hor]; [by left|right]. intros t Ht. apply (Hor t). congruence.
Qed.

Lemma stat_none follow : f !! p = None → stat_with follow f (abs_path p) = Err ErrNotExist.
Proof.
  intros Hn. unfold stat_with. rewrite resolve_ok by (right; congruence). cbn.
  by rewrite get_node_ok, Hn.
Qed.

Lemma chmod_ok n perm0 : f !! p = Some n →
  Chmod f (abs_path p) perm0 =
    match n with
    | NDir _ => Ok (<[p := NDir perm0]> f)
    | NFile _ content => Ok (<[p := NFile perm0 content]> f)
    | NSymlink _ => Chmod f (abs_path p) perm0
    end.
Proof.
  intros Hn. destruct n; [| |done]; unfold Chmod; rewrite resolve_ok by (right; congruence);
    cbn; by rewrite get_node_ok, Hn.
Qed.

Lemma write_file_ok content perm0 : f !! p = None →
  WriteFile f (abs_path p) content perm0 = Ok (<[p := NFile perm0 content]> f).
Proof.
  intros Hn. unfold WriteFile. rewrite resolve_ok by (right; congruence). cbn.
  by rewrite get_node_ok, Hn.
Qed.

Lemma symlink_ok target : f !! p = None →
  Symlink f target (abs_path p) = Ok (<[p := NSymlink target]> f).
Proof.
  intros Hn. unfold Symlink. rewrite resolve_ok by (by left). cbn. by rewrite get_node_ok, Hn.
Qed.

Lemma mkdir_ok perm0 : f !! p = None → Mkdir f (abs_path p) perm0 = Ok (<[p := NDir perm0]> f).
Proof.
  intros Hn. unfold Mkdir. rewrite resolve_ok by (by left). cbn. by rewrite get_node_ok, Hn.
Qed.

Lemma remove_ok n : f !! p = Some n → Remove f (abs_path p) = Ok (delete p f).
Proof. intros Hn. unfold Remove. rewrite resolve_ok by (by left). cbn. by rewrite Hn. Qed.

(** The same with the way to [p] open to the user *)
Context {USER : User}.
Hypothesis Hsearch : searchable f p.

Lemma checked_real {R : Type} follow need (call : result R) :
  (follow = false ∨ ∀ t, f !! p ≠ Some (NSymlink t)) →
  checked f follow (abs_path p) need call = let? a := call in if need p then Ok a else Err ErrPermission.
Proof.
  intros Hlink. assert (may_lookup f follow (abs_path p) = true) as Hl.
  { apply may_lookup_real; try done. by apply parents_ok_real. }
  destruct call as [a|err]; [|by apply checked_err]. cbn. apply checked_ok; [done|by apply resolve_ok].
Qed.

Lemma lstat_as_real : lstat_as f (abs_path p) = Lstat f (abs_path p).
Proof. unfold lstat_as. rewrite checked_real by (by left). by destruct (Lstat _ _). Qed.

Lemma stat_as_real : (∀ t, f !! p ≠ Some (NSymlink t)) → stat_as f (abs_path p) = Stat f (abs_path p).
Proof. intros Hl. unfold stat_as. rewrite checked_real by (by right). by destruct (Stat _ _). Qed.

Lemma mkdir_one_as_new perm0 : f !! p = None →
  mkdir_one_as f (abs_path p) perm0 =
    if may_change f p then Ok (<[p := NDir perm0]> f) else Err ErrPermission.
Proof.
  intros Hn. unfold mkdir_one_as. rewrite stat_as_real by congruence. unfold Stat. rewrite stat_none by done.
  unfold mkdir_as. rewrite checked_real by (by left). rewrite mkdir_ok by done. cbn [rbind].
  destruct (may_change f p); [done|]. rewrite lstat_as_real. unfold Lstat. by rewrite stat_none.
Qed.

Lemma mkdir_one_as_old perm0 m : f !! p = Some (NDir m) → mkdir_one_as f (abs_path p) perm0 = Ok f.
Proof.
  intros Hn. unfold mkdir_one_as. rewrite stat_as_real by congruence. unfold Stat.
  by rewrite (stat_some true _ Hn) by (by right).
Qed.

Lemma mkdir_all_as_old perm0 m :
  f !! p = Some (NDir m) → mkdir_all_as f (abs_path p) perm0 = (f, Ok tt).
Proof.
  intros Hn. unfold mkdir_all_as. rewrite stat_as_real by congruence. unfold Stat.
  by rewrite (stat_some true _ Hn) by (by right).
Qed.

Lemma chmod_as_ok n perm0 : f !! p = Some n →
  kept f (chmod_as f (abs_path p) perm0) =
    match n with
    | NDir _ => (<[p := NDir perm0]> f, Ok tt)
    | NFile _ content => (<[p := NFile perm0 content]> f, Ok tt)
    | NSymlink _ => kept f (chmod_as f (abs_path p) perm0)
    end.
Proof.
  intros Hn. destruct n; [| |done]; unfold chmod_as; rewrite checked_real by (right; congruence);
    by rewrite (chmod_ok _ _ Hn).
Qed.

Lemma write_file_as_ok content perm0 : f !! p = None →
  write_file_as f (abs_path p) content perm0 =
    if may_change f p then Ok (<[p := NFile perm0 content]> f) else Err ErrPermission.
Proof.
  intros Hn. unfold write_file_as. rewrite checked_real by (right; congruence).
  rewrite write_file_ok by done. cbn [rbind]. by rewrite Hn.
Qed.

Lemma symlink_as_ok target : f !! p = None →
  symlink_as f target (abs_path p) =
    if may_change f p then Ok (<[p := NSymlink target]> f) else Err ErrPermission.
Proof.
  intros Hn. unfold symlink_as. rewrite checked_real by (by left). by rewrite symlink_ok.
Qed.

(** Nothing keeps the user from removing what is at [p] and below it. *)
Definition clearable : Prop :=
  ∀ q n, f !! q = Some n → below p q →
    permits f owner_r (parent p) = true ∧ reachable f p q = true.

Lemma gone_clearable q : clearable → gone f p q = bool_decide (below p q).
Proof.
  intros Hc. unfold gone. case_bool_decide as Hb; [|done]. cbn. apply forallb_forall.
  intros q' [Hq' (kv & -> & Hin)%list_elem_of_fmap]%list_elem_of_In%list_elem_of_filter.
  destruct kv as [q' n]. apply elem_of_map_to_list in Hin.
  apply (Hc q' n); [done|]. by etrans.
Qed.

Lemma names_below_spec q : q ∈ names_below f p ↔ below p q ∧ is_Some (f !! q).
Proof.
  unfold names_below. rewrite list_elem_of_filter, list_elem_of_fmap. split.
  - intros [Hb ([q' n] & -> & Hin)]. apply elem_of_map_to_list in Hin. by eauto.
  - intros [Hb [n Hn]]. split; [done|]. exists (q, n). split; [done|]. by apply elem_of_map_to_list.
Qed.

Lemma delete_without : (∀ q n, f !! q = Some n → below p q → q = p) → delete p f = without f p.
Proof.
  intros Honly. apply map_eq. intros q. rewrite lookup_without.
  destruct (decide (q = p)) as [->|Hqp].
  { rewrite lookup_delete_eq, decide_True; [done|]. unfold below. done. }
  rewrite lookup_delete_ne by done. case_decide as Hb; [|done].
  destruct (f !! q) as [n|] eqn:Hq; [|done]. by destruct (Hqp (Honly q n Hq Hb)).
Qed.

Lemma removeExisting_none : f !! p = None → removeExisting f (abs_path p) = (f, Ok tt).
Proof.
  intros Hn. unfold removeExisting. rewrite lstat_as_real. unfold Lstat. by rewrite stat_none.
Qed.

Lemma removeExisting_exact : closed f → clearable → removeExisting f (abs_path p) = (without f p, Ok tt).
Proof.
  intros Hcl Hc. destruct (f !! p) as [n|] eqn:Hn.
  2: { rewrite removeExisting_none by done. f_equal. rewrite <-delete_without; [symmetry; by apply delete_id|].
    intros q n Hq Hb. destruct (decide (p = q)) as [|Hpq]; [done|].
    destruct (Hcl p q) as [m Hm]; [by eexists|done..|]. congruence. }
  destruct (Hc p n) as [Hr Hreach]; [done|by unfold below|].
  assert (may_change f p = true) as Hch by (by apply andb_prop in Hreach as [_ ?]).
  assert ((∀ m, n ≠ NDir m) → ∀ q n', f !! q = Some n' → below p q → q = p) as Honly.
  { intros Hnd q n' Hq Hb. destruct (decide (p = q)) as [|Hpq]; [done|].
    destruct (Hcl p q) as [m Hm]; [by eexists|done..|]. rewrite Hn in Hm. injection Hm as ->.
    by destruct (Hnd m). }
  assert ((∀ m, n ≠ NDir m) → kept f (remove_as f (abs_path p)) = (without f p, Ok tt)) as Hone.
  { intros Hnd. unfold remove_as. rewrite checked_real by (by left). rewrite (remove_ok _ Hn). cbn [rbind].
    rewrite Hch. cbn. f_equal. apply delete_without. by apply Honly. }
  unfold removeExisting. rewrite lstat_as_real. unfold Lstat. rewrite (stat_some false _ Hn) by (by left).
  destruct n as [mode content|mode|target]; [by apply Hone| |by apply Hone]. clear Hone Honly.
  unfold remove_all_as.
  rewrite may_lookup_real; [|done|done|by apply parents_ok_real|by left|done]. cbn [negb].
  rewrite resolve_ok by (by left).
  assert (p ∈ names_below f p) as Hpin.
  { apply names_below_spec. split; [by unfold below|by eexists]. }
  rewrite bool_decide_eq_false_2 by (intros Heq; rewrite Heq in Hpin; by apply elem_of_nil in Hpin).
  rewrite Hch, andb_true_r. case_bool_decide as Hsingle.
  - f_equal. apply delete_without. intros q n Hq Hb.
    assert (q ∈ names_below f p) as Hin by (apply names_below_spec; eauto).
    rewrite Hsingle in Hin. by apply list_elem_of_singleton in Hin.
  - rewrite Hr. cbn [negb]. rewrite (gone_clearable p Hc), bool_decide_eq_true_2 by (by unfold below).
    f_equal. unfold without. apply map_filter_ext. intros q n _. cbn. rewrite (gone_clearable q Hc).
    by rewrite bool_decide_eq_false.
Qed.
End real_paths.

Lemma parents_ok_prefix f p pre : parents_ok f p → pre `prefix_of` p → parents_ok f pre.
Proof.
  intros Hp Hpre q Hq Hne Hneq. apply Hp; [by etrans|done|].
  intros ->. destruct Hneq. by apply (anti_symm prefix).
Qed.

Lemma permits_agree `{USER : User} f f' bits d : f' !! d = f !! d → permits f' bits d = permits f bits d.
Proof. unfold permits. by intros ->. Qed.

Lemma searchable_prefix `{USER : User} f p pre : searchable f p → pre `prefix_of` p → searchable f pre.
Proof.
  intros Hs Hpre q Hq Hne. apply Hs; [by etrans|]. intros ->. destruct Hne. by apply (anti_symm prefix).
Qed.

Lemma searchable_agree `{USER : User} f f' p :
  (∀ pre, pre `prefix_of` p → pre ≠ p → f' !! pre = f !! pre) → searchable f p → searchable f' p.
Proof. intros Ha Hs pre Hpre Hne. rewrite (permits_agree f f') by auto. by apply Hs. Qed.

Lemma mkdir_prefixes_as_new `{USER : User} f perm0 todo : ∀ dn,
  Forall plain (dn ++ todo) → todo ≠ [] → parents_ok f (dn ++ todo) → searchable f (dn ++ todo) →
  f !! (dn ++ todo) = None →
  mkdir_prefixes_as f dn todo perm0 =
    if may_change f (dn ++ todo) then (<[dn ++ todo := NDir perm0]> f, Ok tt)
    else (f, Err ErrPermission).
Proof.
  induction todo as [|c todo IH]; intros dn Hplain Hne Hpar Hs Hnone; [done|].
  assert (dn ++ c :: todo = (dn ++ [c]) ++ todo) as Heq by (by rewrite <-app_assoc).
  rewrite Heq in Hplain, Hpar, Hs, Hnone |- *. clear Heq. cbn [mkdir_prefixes_as].
  assert (Forall plain (dn ++ [c])) by (by apply Forall_app in Hplain as [? _]).
  assert (parents_ok f (dn ++ [c])).
  { eapply parents_ok_prefix; [done|]. by apply prefix_app_r. }
  assert (searchable f (dn ++ [c])).
  { eapply searchable_prefix; [done|]. by apply prefix_app_r. }
  assert (dn ++ [c] ≠ []) by (by destruct dn).
  destruct (decide (todo = [])) as [->|Htne].
  - rewrite app_nil_r in *. rewrite mkdir_one_as_new by done. by destruct (may_change _ _).
  - destruct (Hpar (dn ++ [c])) as [m Hm]; [by apply prefix_app_r|done| |].
    { intros Heq. destruct Htne. rewrite <-(app_nil_r (dn ++ [c])) in Heq at 1.
      by simplify_list_eq. }
    rewrite (mkdir_one_as_old f (dn ++ [c])) with (m := m) by done. by apply IH.
Qed.

Lemma mkdir_all_as_new `{USER : User} f p perm0 :
  Forall plain p → p ≠ [] → parents_ok f p → searchable f p → f !! p = None →
  mkdir_all_as f (abs_path p) perm0 =
    if may_change f p then (<[p := NDir perm0]> f, Ok tt) else (f, Err ErrPermission).
Proof.
  intros Hplain Hne Hpar Hs Hn. unfold mkdir_all_as. rewrite stat_as_real by (done || congruence).
  unfold Stat. rewrite stat_none by done.
  rewrite path_comps_abs by (eapply Forall_impl; [done|apply plain_elem]).
  by apply (mkdir_prefixes_as_new f perm0 p []).
Qed.

Lemma Dir_abs p : Forall plain p → parent p ≠ [] → Dir (abs_path p) = abs_path (parent p).
Proof.
  intros Hp Hpar. destruct p as [|c init _] using rev_ind; [done|].
  assert (parent (init ++ [c]) = init) as Hinit.
  { unfold parent. rewrite length_app. cbn. rewrite Nat.add_sub. by apply take_app_length. }
  rewrite Hinit in *. apply Forall_app in Hp as [Hi Hc].
  unfold Dir, last_slash. rewrite split_abs by (try apply Forall_app; by destruct init).
  rewrite reverse_cons, reverse_snoc.
  cbn [app]. destruct (reverse init ++ [""]) as [|x rest] eqn:Hrest.
  { by destruct (reverse init). }
  rewrite <-Hrest, reverse_snoc, reverse_involutive.
  rewrite join_cons by done. change ("" +:+ "/" +:+ join "/" init) with (abs_path init).
  unfold Clean. assert (IsAbs (abs_path init +:+ "/") = true) as ->.
  { unfold abs_path. rewrite string_app_assoc. apply has_prefix_app. }
  unfold abs_path at 1. rewrite string_app_assoc, path_comps_slash.
  change (join "/" init +:+ "/") with (join "/" init +:+ "/" +:+ "").
  rewrite path_comps_join_app by (eapply Forall_impl; [done|apply plain_elem]).
  change (path_comps "") with (@nil string). rewrite app_nil_r. by rewrite clean_comps_plain.
Qed.

Lemma parent_proper p : p ≠ [] → parent p `prefix_of` p ∧ parent p ≠ p.
Proof.
  intros Hne. unfold parent. split; [apply prefix_take|]. intros Heq.
  apply (f_equal length) in Heq. rewrite length_take in Heq. destruct p; [done|]. cbn in Heq. lia.
Qed.

Lemma lookup_without_self f p : without f p !! p = None.
Proof. rewrite lookup_without, decide_True; [done|]. unfold below. done. Qed.

Lemma lookup_without_above f p q : q `prefix_of` p → q ≠ p → without f p !! q = f !! q.
Proof.
  intros Hq Hne. rewrite lookup_without, decide_False; [done|]. unfold below. intros Hp.
  destruct Hne. by apply (anti_symm prefix).
Qed.

Section apply_exact.
Context {USER : User} `{!Gzip} (blobs : files) (rcs : list string).
Hypotheses (Hroot : Forall plain rcs) (Hrne : rcs ≠ []).

Lemma clearable_absent f p : closed f → p ≠ [] → f !! p = None → clearable f p.
Proof.
  intros Hcl Hne Hn q n Hq Hb. exfalso. destruct (decide (p = q)) as [->|Hpq]; [congruence|].
  destruct (Hcl p q) as [m Hm]; [by eexists|done..|]. congruence.
Qed.

Lemma may_change_agree f f' p :
  (∀ pre, pre `prefix_of` p → pre ≠ p → f' !! pre = f !! pre) → p ≠ [] →
  may_change f' p = may_change f p.
Proof. intros Ha Hne. destruct (parent_proper p Hne). by apply permits_agree, Ha. Qed.

Lemma Apply_removed f relative :
  unsafeRelative relative = false → closed f →
  let p := rcs ++ path_comps relative in parents_ok f p → searchable f p → clearable f p →
  ∀ entry, Apply f blobs (abs_path rcs) relative entry false = (without f p, Ok tt).
Proof.
  intros Hsafe Hcl p Hpar Hs Hc entry. destruct (safeJoin_spec rcs relative Hroot Hsafe) as
    (cs & Hne & Hcs & Hpc & Hjoin).
  unfold Apply. rewrite Hjoin. cbn [attempt andb]. rewrite <-Hpc. fold p.
  rewrite removeExisting_exact; [done|subst p; by rewrite Forall_app, Hpc| |done..].
  subst p. by destruct rcs.
Qed.

Lemma Apply_present f relative entry n :
  unsafeRelative relative = false → closed f →
  let p := rcs ++ path_comps relative in parents_ok f p → searchable f p → clearable f p →
  entry_node blobs relative entry = Some n →
  Apply f blobs (abs_path rcs) relative entry true =
    if may_change f p then (<[p := n]> (without f p), Ok tt) else (without f p, Err ErrPermission).
Proof.
  intros Hsafe Hcl p Hpar Hs Hc Hn. destruct (safeJoin_spec rcs relative Hroot Hsafe) as
    (cs & Hne & Hcs & Hpc & Hjoin).
  assert (Forall plain p) as Hplain by (subst p; by rewrite Forall_app, Hpc).
  assert (p ≠ []) as Hpne by (subst p; by destruct rcs).
  assert (parent p ≠ []) as Hparne.
  { subst p. rewrite Hpc. unfold parent. rewrite length_app. destruct rcs as [|r rs]; [done|].
    destruct cs as [|c cs]; [done|]. cbn. by rewrite Nat.add_succ_r. }
  assert (Forall plain (parent p)) as Hpplain by (unfold parent; by apply Forall_take).
  destruct (parent_proper p Hpne) as [Hpp1 Hpp2].
  set (f1 := without f p).
  assert (∀ pre, pre `prefix_of` p → pre ≠ p → f1 !! pre = f !! pre) as Hsame
    by apply lookup_without_above.
  assert (parents_ok f1 p) as Hpar1 by (by apply parents_ok_without).
  assert (searchable f1 p) as Hs1 by (by eapply searchable_agree).
  assert (f1 !! p = None) as Hnone by apply lookup_without_self.
  assert (∃ m, f1 !! parent p = Some (NDir m)) as [m Hm] by (by apply Hpar1).
  assert (parents_ok f1 (parent p)) as Hpar2 by (by eapply parents_ok_prefix).
  assert (searchable f1 (parent p)) as Hs2 by (by eapply searchable_prefix).
  rewrite <-(may_change_agree f f1 p Hsame Hpne).
  assert (∀ x y, kept (<[p := x]> f1) (chmod_as (<[p := x]> f1) (abs_path p) y) =
    match x with NDir _ => (<[p := NDir y]> f1, Ok tt)
    | NFile _ content => (<[p := NFile y content]> f1, Ok tt)
    | NSymlink _ => kept (<[p := x]> f1) (chmod_as (<[p := x]> f1) (abs_path p) y) end) as Hchmod.
  { intros x y. assert (searchable (<[p := x]> f1) p) as Hs3.
    { eapply searchable_agree; [|exact Hs1]. intros pre _ Hne'. by rewrite lookup_insert_ne. }
    rewrite (chmod_as_ok _ _ Hplain Hpne (parents_ok_insert _ _ _ Hpar1) Hs3 x)
      by apply lookup_insert_eq. destruct x; by rewrite ?insert_insert_eq. }
  unfold Apply. rewrite Hjoin. unfold attempt at 1. rewrite <-Hpc. fold p.
  unfold entry_node in Hn. cbn [andb negb].
  assert ((if bool_decide (Entry_Type entry = "symlink")
      then validateLinkTarget relative (Entry_LinkTarget entry) else Ok tt) = Ok tt) as ->.
  { destruct (decide (Entry_Type entry = "symlink")) as [Hsym|]; [|by rewrite bool_decide_eq_false_2].
    rewrite bool_decide_eq_true_2 by done. rewrite Hsym in Hn. cbn in Hn.
    destruct (bool_decide (Entry_LinkTarget entry = "")); [done|].
    by destruct (validateLinkTarget _ _) as [[]|]. }
  unfold attempt at 1. rewrite removeExisting_exact by done. unfold ebind at 1. fold f1.
  rewrite Dir_abs by done.
  rewrite (mkdir_all_as_old _ _ Hpplain Hparne Hpar2 Hs2 _ _ Hm). unfold ebind at 1. cbn zeta.
  destruct (bool_decide (Entry_Type entry = "dir")); [simplify_eq|
    destruct (bool_decide (Entry_Type entry = "symlink")); [|
      destruct (bool_decide (Entry_Type entry = "file")); [|done]]].
  - rewrite mkdir_all_as_new by done. destruct (may_change f1 p); [|done]. unfold ebind. by rewrite Hchmod.
  - destruct (bool_decide (Entry_LinkTarget entry = "")); [done|].
    destruct (validateLinkTarget _ _); [|done]. simplify_eq. rewrite symlink_as_ok by done.
    by destruct (may_change f1 p).
  - destruct (GetBlob _ _) as [content|]; [|done]. simplify_eq. unfold attempt.
    rewrite write_file_as_ok by done. destruct (may_change f1 p); [|done]. cbn [kept ebind]. by rewrite Hchmod.
Qed.
End apply_exact.

(** ** Lemmas: Materialize *)

Lemma without_absent f p : closed f → p ≠ [] → f !! p = None → without f p = f.
Proof.
  intros Hcl Hne Hn. apply map_eq. intros q. rewrite lookup_without. case_decide as Hb; [|done].
  destruct (f !! q) as [n|] eqn:Hq; [|done]. destruct (decide (p = q)) as [->|Hpq]; [congruence|].
  destruct (Hcl p q) as [m Hm]; [by eexists|done..|]. congruence.
Qed.

Lemma closed_insert f p n :
  closed f → parents_ok f p → f !! p = None → closed (<[p := n]> f).
Proof.
  intros Hcl Hpar Hn q1 q2 Hq2 Hpre Hne Hq1.
  destruct (decide (q2 = p)) as [->|Hq2p].
  - rewrite lookup_insert_ne by done. by apply Hpar.
  - rewrite lookup_insert_ne in Hq2 by done.
    destruct (Hcl q1 q2 Hq2 Hpre Hne Hq1) as [m Hm]. exists m.
    rewrite lookup_insert_ne; [done|]. intros ->. congruence.
Qed.

Lemma depth_comps relative : unsafeRelative relative = false →
  S (depth relative) = length (path_comps relative).
Proof.
  intros (cs & Hne & Hcs & -> & Hpc)%unsafeRelative_false. rewrite Hpc. clear Hpc. unfold depth.
  induction Hcs as [|c cs (_ & _ & _ & Hc) Hcs IH]; [done|].
  destruct (decide (cs = [])) as [->|Hcne]; [cbn; lia|].
  rewrite join_cons by done. rewrite !count_byte_app. cbn [length]. rewrite <-IH by done.
  change (count_byte slash "/") with 1. lia.
Qed.

(** The entry [d] is a directory that holds [e]. *)
Definition holds_entry (d e : WorkspaceEntry) : Prop :=
  path_comps (Entry_Path d) `prefix_of` path_comps (Entry_Path e) ∧
  path_comps (Entry_Path d) ≠ path_comps (Entry_Path e).

(** The user can make names in the directory that is made of [d]. *)
Definition writable {USER : User} (d : WorkspaceEntry) : bool :=
  privileged || has_bits (perm (Entry_Mode d)) (owner_w + owner_x).

Section materialize.
Context {USER : User} `{!Gzip} (blobs : files) (rcs : list string).
Hypotheses (Hroot : Forall plain rcs) (Hrne : rcs ≠ []).

Definition entry_at (e : WorkspaceEntry) : list string := rcs ++ path_comps (Entry_Path e).

(** The entries can be applied one after the other to [f]. *)
Record applicable (f : fs) (es : list WorkspaceEntry) : Prop := {
  app_safe e : e ∈ es → unsafeRelative (Entry_Path e) = false;
  app_node e : e ∈ es → is_Some (entry_node blobs (Entry_Path e) e);
  app_nodup : NoDup (entry_at <$> es);
  app_absent e : e ∈ es → f !! entry_at e = None;
  app_parents e pre : e ∈ es → pre `prefix_of` entry_at e → pre ≠ [] → pre ≠ entry_at e →
    (∃ m, f !! pre = Some (NDir m)) ∨ ∃ d, d ∈ es ∧ entry_at d = pre ∧ Entry_Type d = "dir";
  app_sorted : StronglySorted depth_le es;
}.

Lemma applicable_head f e es : applicable f (e :: es) → parents_ok f (entry_at e).
Proof.
  intros Ha pre Hpre Hne Hneq.
  destruct (app_parents _ _ Ha e pre ltac:(by left) Hpre Hne Hneq) as [?|(d & Hd & <- & _)]; [done|].
  exfalso. apply elem_of_cons in Hd as Hd'. destruct Hd' as [->|Hin]; [done|].
  pose proof (app_sorted _ _ Ha) as Hs. apply StronglySorted_cons in Hs as [Hs _].
  rewrite Forall_forall in Hs. specialize (Hs d Hin).
  pose proof (depth_comps _ (app_safe _ _ Ha d Hd)).
  pose proof (depth_comps _ (app_safe _ _ Ha e ltac:(by left))).
  assert (length (entry_at d) < length (entry_at e)) as Hlen.
  { apply prefix_length in Hpre as Hle. destruct (decide (length (entry_at d) = length (entry_at e))); [|lia].
    destruct Hneq. destruct Hpre as [k Hk]. apply (f_equal length) in Hk as Hkl.
    rewrite length_app in Hkl. destruct k; cbn in Hkl; [by rewrite app_nil_r in Hk|lia]. }
  unfold entry_at in Hlen. rewrite !length_app in Hlen. destruct Hs as [|[]]; lia.
Qed.

Lemma applicable_tail f e es n :
  applicable f (e :: es) → entry_node blobs (Entry_Path e) e = Some n →
  applicable (<[entry_at e := n]> f) es.
Proof.
  intros Ha Hn. pose proof (app_nodup _ _ Ha) as Hnd. cbn in Hnd.
  apply NoDup_cons in Hnd as [Hnotin Hnd].
  assert (∀ e', e' ∈ es → entry_at e ≠ entry_at e') as Hdiff.
  { intros e' He' Heq. apply Hnotin. rewrite Heq. by apply list_elem_of_fmap_2. }
  split.
  - intros e' He'. apply (app_safe _ _ Ha). by right.
  - intros e' He'. apply (app_node _ _ Ha). by right.
  - done.
  - intros e' He'. rewrite lookup_insert_ne by (by apply Hdiff). apply (app_absent _ _ Ha). by right.
  - intros e' pre He' Hpre Hne Hneq.
    destruct (app_parents _ _ Ha e' pre ltac:(by right) Hpre Hne Hneq) as [[m Hm]|(d & Hd & Hat & Hty)].
    + left. exists m. rewrite lookup_insert_ne; [done|]. intros <-.
      rewrite (app_absent _ _ Ha e) in Hm by (by left). done.
    + apply elem_of_cons in Hd as [->|Hd]; [|right; by exists d].
      left. rewrite Hat, lookup_insert_eq. unfold entry_node in Hn.
      rewrite bool_decide_eq_true_2 in Hn by done. simplify_eq. by eexists.
  - pose proof (app_sorted _ _ Ha) as Hs. by apply StronglySorted_cons in Hs as [_ Hs].
Qed.

Lemma applicable_absent_clear f e es : closed f → applicable f (e :: es) → clearable f (entry_at e).
Proof.
  intros Hcl Ha. apply clearable_absent; [done|unfold entry_at; by destruct rcs|].
  apply (app_absent _ _ Ha). by left.
Qed.

(** Below the root the user can make names in every directory that is there,
    and above it search them. *)
Definition accessible f p : Prop :=
  permits f owner_x p = true ∧ (rcs `prefix_of` p → permits f owner_w p = true).

Record ready (f : fs) (es : list WorkspaceEntry) : Prop := {
  ready_there e pre m : e ∈ es → pre `prefix_of` entry_at e → pre ≠ entry_at e →
    f !! pre = Some (NDir m) → accessible f pre;
  ready_made d e : d ∈ es → e ∈ es → holds_entry d e → writable d = true;
}.

Lemma accessible_nil f : accessible f [].
Proof. unfold accessible, permits. by rewrite !orb_true_r. Qed.

Lemma holds_entry_at d e :
  entry_at d `prefix_of` entry_at e → entry_at d ≠ entry_at e → holds_entry d e.
Proof.
  unfold entry_at, holds_entry. intros Hp Hne. split; [by apply prefix_app_inv in Hp|]. congruence.
Qed.

Lemma writable_accessible f d m : entry_at d ≠ [] →
  f !! entry_at d = Some (NDir m) → m = perm (Entry_Mode d) → writable d = true → accessible f (entry_at d).
Proof.
  intros Hne Hf -> Hw. assert (permits f (owner_w + owner_x) (entry_at d) = true) as Hp.
  { unfold permits. rewrite Hf. unfold writable in Hw. apply orb_prop in Hw as [->| ->]; [done|].
    apply orb_true_r. }
  by split; [|intros _]; eapply permits_weaken.
Qed.

Lemma ready_head f e es : applicable f (e :: es) → ready f (e :: es) →
  searchable f (entry_at e) ∧ may_change f (entry_at e) = true.
Proof.
  intros Ha Hr. pose proof (applicable_head _ _ _ Ha) as Hpar.
  assert (∀ pre, pre `prefix_of` entry_at e → pre ≠ entry_at e → accessible f pre) as Hacc.
  { intros pre Hpre Hne. destruct (decide (pre = [])) as [->|Hpne]; [apply accessible_nil|].
    destruct (Hpar pre Hpre Hpne Hne) as [m Hm]. eapply (ready_there _ _ Hr); [by left|done..]. }
  assert (entry_at e ≠ []) as Hne by (unfold entry_at; by destruct rcs).
  split; [intros pre Hpre Hneq; by apply Hacc|].
  destruct (parent_proper (entry_at e) Hne) as [Hp1 Hp2]. apply (Hacc _ Hp1 Hp2).
  pose proof (depth_comps _ (app_safe _ _ Ha e ltac:(by left))) as Hd.
  unfold parent, entry_at. rewrite length_app, take_app_ge by lia. by apply prefix_app_r.
Qed.

Lemma ready_tail f e es n : applicable f (e :: es) → ready f (e :: es) →
  entry_node blobs (Entry_Path e) e = Some n → ready (<[entry_at e := n]> f) es.
Proof.
  intros Ha Hr Hn. assert (entry_at e ≠ []) as Hne by (unfold entry_at; by destruct rcs). split.
  - intros e' pre m He' Hpre Hneq Hm. destruct (decide (pre = entry_at e)) as [->|Hpe].
    + rewrite lookup_insert_eq in Hm. simplify_eq. apply (writable_accessible _ e m);
        [done|by rewrite lookup_insert_eq| |].
      * unfold entry_node in Hn. by repeat (case_bool_decide || case_match); simplify_eq.
      * apply (ready_made _ _ Hr e e'); [by left|by right|by apply holds_entry_at].
    + rewrite lookup_insert_ne in Hm by done.
      destruct (ready_there _ _ Hr e' pre m) as [H1 H2]; [by right|done..|].
      split; [|intros Hp; specialize (H2 Hp)]; by rewrite (permits_agree f) by (by rewrite lookup_insert_ne).
  - intros d e' Hd He'. apply (ready_made _ _ Hr); by right.
Qed.

Lemma apply_all_exact es : ∀ f,
  closed f → applicable f es → ready f es →
  ∃ f', apply_all f blobs (abs_path rcs) es = (f', Ok tt) ∧ closed f' ∧
    (∀ e, e ∈ es → f' !! entry_at e = entry_node blobs (Entry_Path e) e) ∧
    (∀ q, (∀ e, e ∈ es → q ≠ entry_at e) → f' !! q = f !! q).
Proof.
  induction es as [|e es IH]; intros f Hcl Ha Hr.
  { exists f. split_and!; [done|done| |done]. intros e He. by apply elem_of_nil in He. }
  destruct (app_node _ _ Ha e ltac:(by left)) as [n Hn].
  pose proof (app_safe _ _ Ha e ltac:(by left)) as Hsafe.
  pose proof (app_absent _ _ Ha e ltac:(by left)) as Habs.
  pose proof (applicable_head _ _ _ Ha) as Hpar.
  pose proof (applicable_absent_clear _ _ _ Hcl Ha) as Hclear.
  destruct (ready_head _ _ _ Ha Hr) as [Hs Hch].
  assert (entry_at e ≠ []) as Hne by (unfold entry_at; by destruct rcs).
  cbn. rewrite (Apply_present blobs rcs Hroot Hrne f (Entry_Path e) e n Hsafe Hcl Hpar Hs Hclear Hn).
  fold (entry_at e). rewrite Hch. cbn [ebind]. rewrite without_absent by done.
  destruct (IH (<[entry_at e := n]> f)) as (f' & Hrun & Hcl' & Hin & Hout);
    [by apply closed_insert|by apply applicable_tail|by apply ready_tail|].
  exists f'. split_and!; [done|done| |].
  - intros e' [->|He']%elem_of_cons; [|by apply Hin].
    rewrite Hout; [by rewrite lookup_insert_eq|].
    intros d Hd Heq. pose proof (app_nodup _ _ Ha) as Hnd. apply NoDup_cons in Hnd as [Hnotin _].
    apply Hnotin. rewrite Heq. by apply list_elem_of_fmap_2.
  - intros q Hq. rewrite Hout by (intros; apply Hq; by right).
    rewrite lookup_insert_ne; [done|]. intros <-. by apply (Hq e); [left|].
Qed.
(** What keeps the user from building: a name is to be made in a directory
    that is not open to him. *)
Definition blocked (f : fs) (es : list WorkspaceEntry) : Prop :=
  ∃ e, e ∈ es ∧
    (is_Some (f !! parent (entry_at e)) ∧ permits f (owner_w + owner_x) (parent (entry_at e)) = false ∨
     ∃ d, d ∈ es ∧ entry_at d = parent (entry_at e) ∧ writable d = false).

Lemma Apply_denied f e :
  unsafeRelative (Entry_Path e) = false → closed f → parents_ok f (entry_at e) →
  f !! entry_at e = None → is_Some (entry_node blobs (Entry_Path e) e) →
  may_lookup f false (abs_path (entry_at e)) && may_change f (entry_at e) = false →
  Apply f blobs (abs_path rcs) (Entry_Path e) e true = (f, Err ErrPermission).
Proof.
  intros Hsafe Hcl Hpar Hn [n Hnode] Hdeny.
  destruct (safeJoin_spec rcs (Entry_Path e) Hroot Hsafe) as (cs & Hne & Hcs & Hpc & Hjoin).
  assert (Forall plain (entry_at e)) as Hplain by (unfold entry_at; by rewrite Forall_app, Hpc).
  assert (entry_at e ≠ []) as Hpne by (unfold entry_at; by destruct rcs).
  destruct (may_lookup f false (abs_path (entry_at e))) eqn:Hl.
  - assert (searchable f (entry_at e)) as Hs.
    { eapply may_lookup_searchable; [done..| |exact Hl]. by apply parents_ok_real. }
    rewrite (Apply_present blobs rcs Hroot Hrne f (Entry_Path e) e n Hsafe Hcl Hpar Hs)
      by (done || by apply clearable_absent).
    fold (entry_at e). cbn in Hdeny. rewrite Hdeny. by rewrite without_absent.
  - unfold Apply. rewrite Hjoin. cbn [attempt andb]. rewrite <-Hpc. fold (entry_at e).
    assert ((if bool_decide (Entry_Type e = "symlink")
        then validateLinkTarget (Entry_Path e) (Entry_LinkTarget e) else Ok tt) = Ok tt) as ->.
    { destruct (decide (Entry_Type e = "symlink")) as [Hsym|]; [|by rewrite bool_decide_eq_false_2].
      rewrite bool_decide_eq_true_2 by done. unfold entry_node in Hnode. rewrite Hsym in Hnode. cbn in Hnode.
      destruct (bool_decide (Entry_LinkTarget e = "")); [done|].
      by destruct (validateLinkTarget _ _) as [[]|]. }
    unfold attempt, removeExisting, lstat_as, checked. by rewrite Hl.
Qed.

Lemma apply_all_denied es : ∀ f,
  closed f → applicable f es → blocked f es →
  ∃ f', apply_all f blobs (abs_path rcs) es = (f', Err ErrPermission).
Proof.
  induction es as [|x es IH]; intros f Hcl Ha (e & He & Hb); [by apply elem_of_nil in He|].
  destruct (app_node _ _ Ha x ltac:(by left)) as [n Hn].
  pose proof (app_safe _ _ Ha x ltac:(by left)) as Hsafe.
  pose proof (app_absent _ _ Ha x ltac:(by left)) as Habs.
  pose proof (applicable_head _ _ _ Ha) as Hpar.
  assert (∀ y, entry_at y ≠ []) as Hne by (intros y; unfold entry_at; by destruct rcs).
  cbn. destruct (may_lookup f false (abs_path (entry_at x)) && may_change f (entry_at x)) eqn:Hmay;
    [|rewrite Apply_denied by (done || by eexists); by exists f].
  apply andb_prop in Hmay as [Hl Hch].
  assert (searchable f (entry_at x)) as Hs.
  { eapply may_lookup_searchable; [|done| |exact Hl]; [|by apply parents_ok_real].
    destruct (safeJoin_spec rcs (Entry_Path x) Hroot Hsafe) as (cs & _ & Hcs & Hpc & _).
    unfold entry_at. by rewrite Forall_app, Hpc. }
  rewrite (Apply_present blobs rcs Hroot Hrne f (Entry_Path x) x n Hsafe Hcl Hpar Hs
    (clearable_absent _ _ Hcl (Hne x) Habs) Hn).
  fold (entry_at x). rewrite Hch. cbn [ebind]. rewrite without_absent by done.
  pose proof (applicable_tail _ _ _ _ Ha Hn) as Ht.
  apply IH; [by apply closed_insert|done|].
  destruct (parent_proper (entry_at e) (Hne e)) as [Hp1 Hp2].
  assert (parent (entry_at e) ≠ []) as Hp3.
  { pose proof (depth_comps _ (app_safe _ _ Ha e He)) as Hd. unfold parent, entry_at.
    rewrite length_app, take_app_ge by lia. by destruct rcs. }
  apply elem_of_cons in He as [->|He].
  - exfalso. destruct (Hpar _ Hp1 Hp3 Hp2) as [m Hm]. destruct Hb as [[_ Hb]|(d & Hd & Hat & _)].
    + rewrite permits_both in Hb by (exact Hch || by apply Hs). done.
    + rewrite <-Hat, (app_absent _ _ Ha d Hd) in Hm. done.
  - exists e. split; [done|]. destruct Hb as [[[m Hm] Hb]|(d & Hd & Hat & Hw)].
    + left. assert (parent (entry_at e) ≠ entry_at x) by congruence.
      rewrite lookup_insert_ne, (permits_agree f) by (try rewrite lookup_insert_ne; done).
      split; [by eexists|done].
    + apply elem_of_cons in Hd as [->|Hd]; [left|right; by exists d].
      destruct (app_parents _ _ Ht e _ He Hp1 Hp3 Hp2) as [[m Hm]|(d' & Hd' & Hat' & _)].
      * rewrite <-Hat in Hm |- *. rewrite lookup_insert_eq in Hm |- *. split; [done|]. injection Hm as ->.
        unfold permits. rewrite lookup_insert_eq, bool_decide_eq_false_2 by done.
        unfold writable in Hw. apply orb_false_elim in Hw as [-> Hw]. cbn.
        unfold entry_node in Hn. by repeat (case_bool_decide || case_match); simplify_eq.
      * exfalso. rewrite <-Hat in Hat'. pose proof (app_absent _ _ Ht d' Hd') as Hab.
        by rewrite Hat', lookup_insert_eq in Hab.
Qed.
End materialize.

#[export] Instance depth_le_trans : Transitive depth_le.
Proof.
  intros x y z [H1|[H1 H2]] [H3|[H3 H4]]; unfold depth_le; [left; lia..|].
  right. split; [lia|]. by etrans.
Qed.
#[export] Instance depth_le_total : Total depth_le.
Proof.
  intros x y. unfold depth_le.
  destruct (decide (depth (Entry_Path x) = depth (Entry_Path y))) as [Heq|]; [|lia].
  rewrite Heq. destruct (total String.le (Entry_Path x) (Entry_Path y)); tauto.
Qed.

(** A manifest as [Scan] writes it: distinct safe paths, supported entries
    whose blobs are there, and every directory on the way listed. *)
Record manifest_ok `{!Gzip} (blobs : files) (entries : list WorkspaceEntry) : Prop := {
  mo_safe e : e ∈ entries → unsafeRelative (Entry_Path e) = false;
  mo_node e : e ∈ entries → is_Some (entry_node blobs (Entry_Path e) e);
  mo_nodup : NoDup (Entry_Path <$> entries);
  mo_parents e pre : e ∈ entries → pre `prefix_of` path_comps (Entry_Path e) → pre ≠ [] →
    pre ≠ path_comps (Entry_Path e) →
    ∃ d, d ∈ entries ∧ path_comps (Entry_Path d) = pre ∧ Entry_Type d = "dir";
}.

(** An existing empty directory to build in *)
Record empty_root (f : fs) (rcs : list string) : Prop := {
  er_plain : Forall plain rcs;
  er_ne : rcs ≠ [];
  er_dir : ∃ m, f !! rcs = Some (NDir m);
  er_parents : parents_ok f rcs;
  er_empty q : below rcs q → q ≠ rcs → f !! q = None;
}.

Lemma safe_path_inj r1 r2 :
  unsafeRelative r1 = false → unsafeRelative r2 = false → path_comps r1 = path_comps r2 → r1 = r2.
Proof.
  intros (c1 & _ & _ & -> & H1)%unsafeRelative_false (c2 & _ & _ & -> & H2)%unsafeRelative_false.
  by rewrite H1, H2; intros ->.
Qed.

Lemma manifest_applicable `{!Gzip} blobs f rcs entries :
  empty_root f rcs → manifest_ok blobs entries → applicable blobs rcs f (sort_by_depth entries).
Proof.
  intros Hr Hm.
  assert (∀ e, e ∈ sort_by_depth entries ↔ e ∈ entries) as Hmem.
  { intros e. unfold sort_by_depth. by rewrite merge_sort_Permutation. }
  split.
  - intros e He%Hmem. by apply (mo_safe _ _ Hm).
  - intros e He%Hmem. by apply (mo_node _ _ Hm).
  - assert (entry_at rcs <$> sort_by_depth entries ≡ₚ entry_at rcs <$> entries) as ->
      by (unfold sort_by_depth; by rewrite merge_sort_Permutation).
    pose proof (mo_nodup _ _ Hm) as Hnd. pose proof (mo_safe _ _ Hm) as Hsafe. clear Hmem Hm.
    induction entries as [|e es IH]; cbn in *; [constructor|].
    apply NoDup_cons in Hnd as [Hn Hnd]. apply NoDup_cons. split.
    + intros (d & Heq & Hd)%list_elem_of_fmap. apply Hn. apply list_elem_of_fmap. exists d.
      split; [|done]. apply safe_path_inj; [apply Hsafe; by left|apply Hsafe; by right|].
      by apply (app_inv_head rcs).
    + apply IH; [done|]. intros d Hd. apply Hsafe. by right.
  - intros e He%Hmem. apply (er_empty _ _ Hr); [by apply prefix_app_r|].
    unfold entry_at. intros Heq. rewrite <-(app_nil_r rcs) in Heq at 2.
    apply app_inv_head in Heq. pose proof (depth_comps _ (mo_safe _ _ Hm e He)) as Hd.
    rewrite Heq in Hd. done.
  - intros e pre He%Hmem Hpre Hne Hneq.
    destruct (decide (length pre ≤ length rcs)) as [Hle|Hgt].
    + assert (pre `prefix_of` rcs) as Hp.
      { destruct (prefix_weak_total pre rcs (entry_at rcs e)) as [Hp|[k ->]];
          [done|by apply prefix_app_r|done|]. 
        rewrite length_app in Hle. destruct k; [by rewrite app_nil_r|cbn in Hle; lia]. }
      left. destruct (decide (pre = rcs)) as [->|Hpr]; [apply (er_dir _ _ Hr)|].
      by apply (er_parents _ _ Hr).
    + destruct (prefix_weak_total pre rcs (entry_at rcs e)) as [Hp|[k ->]]; [done|by apply prefix_app_r| |].
      { apply prefix_length in Hp. lia. }
      right. unfold entry_at in *. apply prefix_app_inv in Hpre.
      destruct (mo_parents _ _ Hm e k) as (d & Hd & Hat & Hty); [done|done| | |].
      * intros ->. rewrite app_nil_r in Hgt. lia.
      * congruence.
      * exists d. rewrite Hmem, Hat. done.
  - unfold sort_by_depth. apply (StronglySorted_merge_sort _ _).
Qed.

(** The user can build the entries below [rcs]. *)
Record may_build {USER : User} (f : fs) (rcs : list string) (entries : list WorkspaceEntry) : Prop := {
  mb_search : searchable f rcs;
  mb_write : permits f (owner_w + owner_x) rcs = true;
  mb_dirs d e : d ∈ entries → e ∈ entries → holds_entry d e → writable d = true;
}.

Lemma may_build_ready `{USER : User} f rcs entries :
  empty_root f rcs → may_build f rcs entries → ready rcs f (sort_by_depth entries).
Proof.
  intros Hr Hb.
  assert (∀ e, e ∈ sort_by_depth entries ↔ e ∈ entries) as Hmem.
  { intros e. unfold sort_by_depth. by rewrite merge_sort_Permutation. }
  split; [|intros d e Hd%Hmem He%Hmem; by apply (mb_dirs _ _ _ Hb)].
  intros e pre m _ Hpre Hne Hm.
  destruct (prefix_weak_total pre rcs (entry_at rcs e)) as [Hp|Hp]; [done|by apply prefix_app_r| |].
  - destruct (decide (pre = rcs)) as [->|Hpr].
    + split; [|intros _]; (eapply permits_weaken; [apply (mb_write _ _ _ Hb)|done]).
    + split; [by apply (mb_search _ _ _ Hb)|]. intros Hp'. destruct Hpr. by apply (anti_symm prefix).
  - destruct (decide (pre = rcs)) as [->|Hpr].
    + split; [|intros _]; (eapply permits_weaken; [apply (mb_write _ _ _ Hb)|done]).
    + by rewrite (er_empty _ _ Hr) in Hm.
Qed.

Lemma Materialize_exact `{USER : User} `{!Gzip} (f : fs) (blobs : files) rcs manifest
    (Hclosed : closed f) (Hroot : empty_root f rcs)
    (Hok : manifest_ok blobs (Manifest_Entries manifest))
    (Hbuild : may_build f rcs (Manifest_Entries manifest)) :
  ∃ f', Materialize f blobs (abs_path rcs) manifest = (f', Ok tt) ∧
    (∀ e, e ∈ Manifest_Entries manifest →
       f' !! (rcs ++ path_comps (Entry_Path e)) = entry_node blobs (Entry_Path e) e) ∧
    (∀ q, (∀ e, e ∈ Manifest_Entries manifest → q ≠ rcs ++ path_comps (Entry_Path e)) →
       f' !! q = f !! q).
Proof.
  destruct (er_dir _ _ Hroot) as [m Hm].
  destruct (apply_all_exact blobs rcs (er_plain _ _ Hroot) (er_ne _ _ Hroot)
    (sort_by_depth (Manifest_Entries manifest)) f Hclosed) as (f' & Hrun & _ & Hin & Hout);
    [by apply manifest_applicable|by apply may_build_ready|].
  exists f'. unfold Materialize.
  rewrite (mkdir_all_as_old _ _ (er_plain _ _ Hroot) (er_ne _ _ Hroot) (er_parents _ _ Hroot)
    (mb_search _ _ _ Hbuild) _ _ Hm).
  assert (∀ e, e ∈ sort_by_depth (Manifest_Entries manifest) ↔ e ∈ Manifest_Entries manifest) as Hmem.
  { intros e. unfold sort_by_depth. by rewrite merge_sort_Permutation. }
  split_and!; [done| |].
  - intros e He. apply Hin. by apply Hmem.
  - intros q Hq. apply Hout. intros e He. apply Hq. by apply Hmem.
Qed.

Lemma app_singleton_ne {A} (l : list A) x : l ++ [x] ≠ [].
Proof. by destruct l. Qed.

Lemma Materialize_denied `{USER : User} `{!Gzip} (f : fs) (blobs : files) rcs manifest d e
    (Hclosed : closed f) (Hroot : empty_root f rcs)
    (Hok : manifest_ok blobs (Manifest_Entries manifest)) (Hsearch : searchable f rcs)
    (Hd : d ∈ Manifest_Entries manifest) (He : e ∈ Manifest_Entries manifest)
    (Hholds : holds_entry d e) (Hw : writable d = false) :
  ∃ f', Materialize f blobs (abs_path rcs) manifest = (f', Err ErrPermission).
Proof.
  destruct (er_dir _ _ Hroot) as [m Hm]. unfold Materialize.
  rewrite (mkdir_all_as_old _ _ (er_plain _ _ Hroot) (er_ne _ _ Hroot) (er_parents _ _ Hroot)
    Hsearch _ _ Hm). cbn [ebind].
  assert (∀ e, e ∈ sort_by_depth (Manifest_Entries manifest) ↔ e ∈ Manifest_Entries manifest) as Hmem.
  { intros e'. unfold sort_by_depth. by rewrite merge_sort_Permutation. }
  apply apply_all_denied; [apply (er_plain _ _ Hroot)|apply (er_ne _ _ Hroot)|done|
    by apply manifest_applicable|].
  destruct Hholds as [[k Hk] Hne]. destruct k as [|c k]; [by rewrite app_nil_r in Hk|].
  set (pre := path_comps (Entry_Path d) ++ [c]).
  assert (pre `prefix_of` path_comps (Entry_Path e)) as Hpre.
  { exists k. rewrite Hk. unfold pre. by rewrite <-app_assoc. }
  assert (∃ e', e' ∈ Manifest_Entries manifest ∧ path_comps (Entry_Path e') = pre) as (e' & He' & Hat).
  { destruct (decide (pre = path_comps (Entry_Path e))) as [Heq|Hneq]; [by exists e|].
    destruct (mo_parents _ _ Hok e pre He Hpre) as (e' & ? & ? & _); [apply app_singleton_ne|done|].
    by exists e'. }
  exists e'. split; [by apply Hmem|]. right. exists d. split_and!; [by apply Hmem| |done].
  unfold entry_at. rewrite Hat. unfold pre, parent. rewrite app_assoc, length_app. cbn.
  rewrite Nat.add_sub. by rewrite take_app_length.
Qed.

(** ** Properties *)

(** An intervention on one path is exact: applying an entry to a path
    whose directories exist, or removing what is there, gives the file system
    in which that path holds the entry's node (or nothing), nothing that was
    below it remains, and everything else is untouched. *)
Theorem Apply_exact `{USER : User} `{!Gzip} (blobs : files) (rcs : list string) (f : fs) relative entry
    (present : bool) n
    (Hroot : Forall plain rcs) (Hrne : rcs ≠ []) (Hsafe : unsafeRelative relative = false)
    (Hclosed : closed f) (Hparents : parents_ok f (rcs ++ path_comps relative))
    (Hsearch : searchable f (rcs ++ path_comps relative))
    (Hclear : clearable f (rcs ++ path_comps relative))
    (Hchange : may_change f (rcs ++ path_comps relative) = true)
    (Hnode : if present then entry_node blobs relative entry = Some n else True) :
  ∃ f', Apply f blobs (abs_path rcs) relative entry present = (f', Ok tt) ∧
    ∀ q, f' !! q = if decide (q = rcs ++ path_comps relative) then (if present then Some n else None)
                   else if decide (rcs ++ path_comps relative `prefix_of` q) then None
                   else f !! q.
Proof.
  destruct present.
  - eexists. split; [rewrite (Apply_present blobs rcs Hroot Hrne f relative entry n Hsafe Hclosed
      Hparents Hsearch Hclear Hnode); by rewrite Hchange|]. intros q. case_decide as Hq.
    + subst q. apply lookup_insert_eq.
    + rewrite lookup_insert_ne by done. apply lookup_without.
  - eexists. split; [by apply Apply_removed|]. intros q. rewrite lookup_without.
    destruct (decide (q = _)) as [->|Hq]; [by rewrite decide_True by (unfold below; done)|done].
Qed.

(** C28: A materialised workspace is the recorded one.  In an empty directory
    that the user of the process may search and write, building a manifest of
    the form [Scan] writes succeeds if every recorded directory that holds
    something is writable and searchable for its owner, or the process is
    privileged: then exactly the recorded node, content and permission bits
    included, is at the path of every entry, and every other path of the
    machine is as it was.  If one is not, building it fails. *)
Theorem Materialize_faithful `{USER : User} `{!Gzip} (f : fs) (blobs : files) rcs manifest
    (Hclosed : closed f) (Hroot : empty_root f rcs)
    (Hok : manifest_ok blobs (Manifest_Entries manifest))
    (Hsearch : searchable f rcs) (Hwrite : permits f (owner_w + owner_x) rcs = true) :
  let entries := Manifest_Entries manifest in
  ((∀ d e, d ∈ entries → e ∈ entries → holds_entry d e → writable d = true) →
   ∃ f', Materialize f blobs (abs_path rcs) manifest = (f', Ok tt) ∧
     (∀ e, e ∈ entries → f' !! (rcs ++ path_comps (Entry_Path e)) = entry_node blobs (Entry_Path e) e) ∧
     (∀ q, (∀ e, e ∈ entries → q ≠ rcs ++ path_comps (Entry_Path e)) → f' !! q = f !! q)) ∧
  (∀ d e, d ∈ entries → e ∈ entries → holds_entry d e → writable d = false →
   ∃ f', Materialize f blobs (abs_path rcs) manifest = (f', Err ErrPermission)).
Proof. split; [intros Hdirs; by apply Materialize_exact|intros d e ? ? ? ?].
  by apply (Materialize_denied f blobs rcs manifest d e).
Qed.

(** A link target that climbs through another link.  Every target below passes
    [validateLinkTarget], which only looks at the text of the paths; yet the
    last entry is written outside the workspace root [/tmp/r]. *)
Definition escape_manifest : WorkspaceManifest :=
  mkWorkspaceManifest "/tmp/r"
    [mkWorkspaceEntry "a" "dir" 493 0 "" "" ""; mkWorkspaceEntry "q" "dir" 493 0 "" "" "";
     mkWorkspaceEntry "a/b" "dir" 493 0 "" "" "";
     mkWorkspaceEntry "a/b/s" "symlink" 511 0 "" "" "../../q";
     mkWorkspaceEntry "a/b/l" "symlink" 511 0 "" "" "s/../..";
     mkWorkspaceEntry "a/b/l/evil" "file" 420 5 "" (sha256_hex "hello") ""] 6 5 "".

Definition sample_fs : fs := {[["tmp"] := NDir 511; ["tmp"; "r"] := NDir 493]}.

(** Finding: [validateLinkTarget] does not keep a workspace inside its root. *)
Example Materialize_escapes :
  Forall (λ e, Entry_Type e = "symlink" →
    validateLinkTarget (Entry_Path e) (Entry_LinkTarget e) = Ok tt) (Manifest_Entries escape_manifest) ∧
  sample_fs !! ["tmp"; "evil"] = None ∧
  match @Materialize false stored_gzip sample_fs hello_blobs "/tmp/r" escape_manifest with
  | (f', Ok _) => f' !! ["tmp"; "evil"] = Some (NFile 420 "hello")
  | _ => False
  end.
Proof.
  split; [repeat constructor; vm_compute; done|]. split; vm_compute; reflexivity.
Qed.

(** A directory without write permission that holds a file *)
Definition readonly_manifest : WorkspaceManifest :=
  mkWorkspaceManifest "/tmp/r"
    [mkWorkspaceEntry "d" "dir" 365 0 "" "" "";
     mkWorkspaceEntry "d/x" "file" 292 5 "" (sha256_hex "hello") ""] 2 5 "".

(** Finding: [Apply] gives a directory its final permissions before its
    content is there, so only root can rebuild a read-only directory; what was
    made until then stays. *)
Example Materialize_readonly :
  match @Materialize false stored_gzip sample_fs hello_blobs "/tmp/r" readonly_manifest with
  | (f', Err err) => err = ErrPermission ∧ f' !! ["tmp"; "r"; "d"] = Some (NDir 365)
  | _ => False
  end ∧
  match @Materialize true stored_gzip sample_fs hello_blobs "/tmp/r" readonly_manifest with
  | (f', Ok _) => f' !! ["tmp"; "r"; "d"; "x"] = Some (NFile 292 "hello")
  | _ => False
  end.
Proof. split; vm_compute; [split|]; reflexivity. Qed.

(** ** Witnesses *)

Definition prefixes (p : list string) : list (list string) := (λ n, take n p) <$> seq 1 (length p - 1).

Definition dir_at (f : fs) (p : list string) : bool :=
  match f !! p with Some (NDir _) => true | _ => false end.

Lemma elem_of_prefixes pre p : pre `prefix_of` p → pre ≠ [] → pre ≠ p → pre ∈ prefixes p.
Proof.
  intros [k ->] Hne Hneq. unfold prefixes. apply list_elem_of_fmap. exists (length pre).
  rewrite take_app_length. split; [done|]. apply elem_of_seq. rewrite length_app.
  destruct pre; [done|]. destruct k; [by rewrite app_nil_r in Hneq|]. cbn. lia.
Qed.

Lemma dir_at_true f p : dir_at f p = true → ∃ m, f !! p = Some (NDir m).
Proof. unfold dir_at. repeat case_match; naive_solver. Qed.

Lemma parents_ok_check f p : forallb (dir_at f) (prefixes p) = true → parents_ok f p.
Proof.
  rewrite forallb_forall. intros H pre Hpre Hne Hneq. apply dir_at_true, H.
  apply list_elem_of_In. by apply elem_of_prefixes.
Qed.

Lemma closed_check f :
  forallb (λ p, forallb (dir_at f) (prefixes p)) (map_to_list f).*1 = true → closed f.
Proof.
  rewrite forallb_forall. intros H p q [n Hq] Hpre Hneq Hne.
  assert (parents_ok f q) as Hpar; [|by apply Hpar].
  apply parents_ok_check, H, list_elem_of_In, list_elem_of_fmap. exists (q, n).
  split; [done|]. by apply elem_of_map_to_list.
Qed.

Definition file_entry : WorkspaceEntry := mkWorkspaceEntry "d/x" "file" 420 5 "" (sha256_hex "hello") "".
Definition sample_manifest : WorkspaceManifest :=
  mkWorkspaceManifest "/tmp/r" [mkWorkspaceEntry "d" "dir" 493 0 "" "" ""; file_entry] 2 5 "".

Lemma sample_empty : empty_root sample_fs ["tmp"; "r"].
Proof.
  split.
  - repeat constructor; done.
  - done.
  - eexists. reflexivity.
  - apply parents_ok_check. vm_compute. reflexivity.
  - intros q Hq Hne. unfold sample_fs.
    rewrite lookup_insert_ne; [rewrite lookup_singleton_ne; [done|]|].
    + intros <-. destruct Hne. done.
    + intros <-. by apply prefix_length in Hq; cbn in Hq; lia.
Qed.

Lemma searchable_check `{USER : User} f p :
  permits f owner_x [] && forallb (permits f owner_x) (prefixes p) = true → searchable f p.
Proof.
  intros [H1 H2]%andb_prop pre Hpre Hne. destruct (decide (pre = [])) as [->|]; [done|].
  rewrite forallb_forall in H2. apply H2, list_elem_of_In. by apply elem_of_prefixes.
Qed.

Lemma one_dir_ok `{!Gzip} blobs d e :
  unsafeRelative (Entry_Path d) = false → unsafeRelative (Entry_Path e) = false →
  is_Some (entry_node blobs (Entry_Path d) d) → is_Some (entry_node blobs (Entry_Path e) e) →
  Entry_Path d ≠ Entry_Path e → Entry_Type d = "dir" → length (path_comps (Entry_Path d)) = 1 →
  prefixes (path_comps (Entry_Path e)) = [path_comps (Entry_Path d)] → manifest_ok blobs [d; e].
Proof.
  intros H1 H2 H3 H4 Hne Hty Hlen Hpre. split.
  - intros x [->|[->|[]%elem_of_nil]%elem_of_cons]%elem_of_cons; done.
  - intros x [->|[->|[]%elem_of_nil]%elem_of_cons]%elem_of_cons; done.
  - cbn. repeat constructor; set_solver.
  - intros x pre Hx Hp Hpne Hpx. exists d. split; [by left|]. split; [|done].
    apply elem_of_cons in Hx as [->|[->|[]%elem_of_nil]%elem_of_cons].
    + exfalso. apply Hpx. apply prefix_length in Hp as Hl. apply prefix_length_eq; [done|].
      rewrite Hlen. destruct pre; cbn; [done|lia].
    + apply elem_of_prefixes in Hp; [|done..]. rewrite Hpre in Hp.
      by apply list_elem_of_singleton in Hp as ->.
Qed.

Lemma Materialize_faithful_witness :
  (∃ f', @Materialize false stored_gzip sample_fs hello_blobs (abs_path ["tmp"; "r"]) sample_manifest
       = (f', Ok tt) ∧
    (∀ e, e ∈ Manifest_Entries sample_manifest → f' !! (["tmp"; "r"] ++ path_comps (Entry_Path e)) =
       @entry_node stored_gzip hello_blobs (Entry_Path e) e) ∧
    (∀ q, (∀ e, e ∈ Manifest_Entries sample_manifest → q ≠ ["tmp"; "r"] ++ path_comps (Entry_Path e)) →
       f' !! q = sample_fs !! q)) ∧
  (∃ f', @Materialize false stored_gzip sample_fs hello_blobs (abs_path ["tmp"; "r"]) readonly_manifest
       = (f', Err ErrPermission)).
Proof.
  assert (closed sample_fs) by (apply closed_check; vm_compute; reflexivity).
  assert (@searchable false sample_fs ["tmp"; "r"]) by (apply searchable_check; vm_compute; reflexivity).
  split.
  - refine (proj1 (@Materialize_faithful false stored_gzip sample_fs hello_blobs ["tmp"; "r"] sample_manifest
      _ sample_empty _ _ _) _); [done| |done|vm_compute; reflexivity|].
    + apply one_dir_ok; try (vm_compute; reflexivity); try (vm_compute; by eexists). discriminate.
    + intros d e [->|[->|[]%elem_of_nil]%elem_of_cons]%elem_of_cons He [Hp Hne]; [vm_compute; reflexivity|].
      exfalso. apply elem_of_cons in He as [->|[->|[]%elem_of_nil]%elem_of_cons]; [|done].
      apply prefix_length in Hp. vm_compute in Hp. lia.
  - refine (proj2 (@Materialize_faithful false stored_gzip sample_fs hello_blobs ["tmp"; "r"] readonly_manifest
      _ sample_empty _ _ _) (mkWorkspaceEntry "d" "dir" 365 0 "" "" "")
      (mkWorkspaceEntry "d/x" "file" 292 5 "" (sha256_hex "hello") "") _ _ _ _);
      [done| |done|vm_compute; reflexivity|by left|by right; left| |vm_compute; reflexivity].
    + apply one_dir_ok; try (vm_compute; reflexivity); try (vm_compute; by eexists). discriminate.
    + split; [exists ["x"]; reflexivity|discriminate].
Defined.

Lemma Apply_exact_witness :
  ∃ f', @Apply false stored_gzip sample_fs hello_blobs (abs_path ["tmp"; "r"]) "x" file_entry true
      = (f', Ok tt) ∧
    ∀ q, f' !! q = if decide (q = ["tmp"; "r"] ++ path_comps "x") then Some (NFile 420 "hello")
                   else if decide (["tmp"; "r"] ++ path_comps "x" `prefix_of` q) then None
                   else sample_fs !! q.
Proof.
  apply (@Apply_exact false stored_gzip hello_blobs ["tmp"; "r"] sample_fs "x" file_entry true
    (NFile 420 "hello")).
  - repeat constructor; done.
  - discriminate.
  - vm_compute. reflexivity.
  - apply closed_check. vm_compute. reflexivity.
  - apply parents_ok_check. vm_compute. reflexivity.
  - apply searchable_check. vm_compute. reflexivity.
  - apply clearable_absent; [apply closed_check; vm_compute; reflexivity|discriminate|reflexivity].
  - vm_compute. reflexivity.
  - vm_compute. reflexivity.
Defined.
