(* ===== verification/Scan.v ===== *)
(** * Scan: scanning through a directory descriptor, and what a scan records

    Models [src/internal/workspace/scan_bound.go]: the scan of a workspace that
    was opened before, with its bounded directory reader.  The theorems relate
    it to the scan of [Workspace], and show that rebuilding what a scan
    recorded gives the scanned tree.  A root descriptor is the list of elements
    of the directory it was opened on. *)

From S2P Require Import Prelude Sha256 Model Json Paths Fs Store Workspace.

(** ** Scanning below a descriptor *)

Definition err_file_quota : error := ErrMsg "workspace file quota exceeded".

(** The entries of a directory *)
Definition children (f : fs) (p : list string) : list (list string) :=
  filter (λ q, q ≠ [] ∧ parent q = p) (map_to_list f).*1.

Section bound.
Context `{PGzip : !Gzip}.
Variables (dir_size : list string → Z) (hardlinked : list string → bool) (put_fail : string → option error).
Variables (maxFiles maxBytes : Z).

(** [boundScanFS.ReadDir] *)
Definition bound_read_dir (f : fs) (p : list string) : result unit :=
  fail? bool_decide (maxFiles < Z.of_nat (length (children f p)))%Z with err_file_quota in Ok tt.

(** The function that [ScanRoot] gives to [fs.WalkDir], and the reading of a
    directory that follows it; names below the root are looked up through the
    descriptor. *)
Definition bound_visit (f : fs) (rcs : list string) (s : scan_state) (p : list string) : result scan_state :=
  let relative := join "/" (drop (length rcs) p) in
  fail? unsafeRelative relative with ErrMsg ("unsafe workspace path " +:+ relative) in
  match f !! p with
  | None => Err ErrNotExist
  | Some n =>
      let? (item, bytes, blobs) := scan_item dir_size hardlinked put_fail maxBytes f s relative p n in
      let s := mkScan (scan_entries s ++ [item]) (scan_files s + 1) bytes blobs in
      fail? bool_decide (maxFiles < scan_files s)%Z with err_file_quota in
      match n with
      | NDir _ => let? _ := bound_read_dir f p in Ok s
      | _ => Ok s
      end
  end.

Fixpoint bound_walk (f : fs) (rcs : list string) (s : scan_state) (paths : list (list string)) : result scan_state :=
  match paths with
  | [] => Ok s
  | p :: paths => let? s := bound_visit f rcs s p in bound_walk f rcs s paths
  end.

Definition ScanRoot (f : fs) (blobs : files) (rcs : list string) (displayRoot : string) :
    result (WorkspaceManifest * files) :=
  let? _ := bound_read_dir f rcs in
  let? s := bound_walk f rcs (mkScan [] 0 0 blobs) (walk_order f rcs) in
  let entries := sort_by Entry_Path (scan_entries s) in
  Ok (mkWorkspaceManifest displayRoot entries (scan_files s) (scan_bytes s) (manifest_digest entries), scan_blobs s).

(** ** Lemmas: one visit *)

(** The directory that is scanned, as [CanonicalRoot] leaves it *)
Record scan_root (f : fs) (rcs : list string) : Prop := {
  sr_plain : Forall plain rcs;
  sr_ne : rcs ≠ [];
  sr_dir : ∃ m, f !! rcs = Some (NDir m);
  sr_closed : closed f;
  sr_names q : below rcs q → is_Some (f !! q) → Forall plain q;
}.

Lemma elem_of_walk_order f rcs p : p ∈ walk_order f rcs ↔ below rcs p ∧ p ≠ rcs ∧ is_Some (f !! p).
Proof.
  unfold walk_order. rewrite elem_of_sort_by, list_elem_of_filter, list_elem_of_fmap. split.
  - intros [[? ?] ([q n] & -> & Hq%elem_of_map_to_list)]. split_and!; [done..|by eexists].
  - intros (? & ? & [n Hn]). split; [done|]. exists (p, n). by rewrite elem_of_map_to_list.
Qed.

Lemma NoDup_walk_order f rcs : NoDup (walk_order f rcs).
Proof. unfold walk_order. apply NoDup_sort_by, NoDup_filter, NoDup_fst_map_to_list. Qed.

Lemma Rel_below rcs q : Forall plain rcs → Forall plain q → q ≠ [] →
  Rel (abs_path rcs) (abs_path (rcs ++ q)) = Ok (join "/" q).
Proof.
  intros Hr Hq Hne. assert (Forall plain (rcs ++ q)) by by apply Forall_app.
  unfold Rel, clean_elems. rewrite !IsAbs_abs, bool_decide_eq_true_2 by done. cbn [negb].
  rewrite !path_comps_abs, !clean_comps_plain by first [done|apply plain_path_elem; done].
  rewrite strip_common_app. cbn [head]. rewrite bool_decide_eq_false_2 by done. by destruct q.
Qed.

(** A path that is visited *)
Lemma visited f rcs p : scan_root f rcs → p ∈ walk_order f rcs →
  ∃ q n, p = rcs ++ q ∧ q ≠ [] ∧ Forall plain q ∧ f !! p = Some n ∧ drop (length rcs) p = q ∧
    Rel (abs_path rcs) (abs_path p) = Ok (join "/" q) ∧ Lstat f (abs_path p) = Ok n.
Proof.
  intros Hr (Hb & Hne & [n Hn])%elem_of_walk_order. pose proof (sr_names _ _ Hr _ Hb) as Hplain.
  destruct Hb as [q ->]. apply Forall_app in Hplain as [Hp Hq]; [|by eexists]. assert (q ≠ []) as Hqne.
  { intros ->. by rewrite app_nil_r in Hne. }
  exists q, n. split_and!; [done..|by rewrite drop_app_length|by apply Rel_below|].
  apply stat_some; [by apply Forall_app|by destruct rcs; [|]| |done|by left].
  intros pre Hpre Hpne Hneq. by apply (sr_closed _ _ Hr pre (rcs ++ q)).
Qed.

Lemma scan_visit_eq f rcs s p : scan_root f rcs → p ∈ walk_order f rcs →
  bound_visit f rcs s p =
    (let? s := scan_visit dir_size hardlinked put_fail maxFiles maxBytes f (abs_path rcs) s p in
     match f !! p with Some (NDir _) => let? _ := bound_read_dir f p in Ok s | _ => Ok s end).
Proof.
  intros Hr (q & n & -> & Hne & Hq & Hn & Hdrop & Hrel & Hstat)%visited; [|done].
  unfold bound_visit, scan_visit. rewrite Hdrop, Hrel. cbn [rbind]. destruct (unsafeRelative _); [done|].
  rewrite Hstat, Hn. cbn [rbind]. destruct (scan_item _ _ _ _ _ _ _ _ _) as [[[item bytes] blobs]|]; [|done].
  cbn [rbind]. cbn [scan_files]. unfold err_file_quota. case_bool_decide; [done|]. by destruct n.
Qed.

(** ** Both scans agree *)

Lemma scan_walk_files f root paths : ∀ s s',
  scan_walk dir_size hardlinked put_fail maxFiles maxBytes f root s paths = Ok s' →
  scan_files s' = (scan_files s + Z.of_nat (length paths))%Z ∧ (paths = [] ∨ (scan_files s' ≤ maxFiles)%Z).
Proof.
  induction paths as [|p paths IH]; intros s s' Hw; cbn [scan_walk] in Hw.
  { injection Hw as <-. cbn. split; [lia|by left]. }
  destruct (scan_visit _ _ _ _ _ _ _ _ _) as [s1|] eqn:Hv; [|done]. cbn [rbind] in Hw.
  apply IH in Hw as [Hf Hor]. unfold scan_visit in Hv. destruct (Rel _ _); [|done]. cbn [rbind] in Hv. step_ok Hv.
  destruct (Lstat _ _); [|done]. cbn [rbind] in Hv. destruct (scan_item _ _ _ _ _ _ _ _ _) as [[[item bytes] blobs]|]; [|done].
  cbn [rbind scan_files] in Hv. destruct (bool_decide (maxFiles < _)%Z) eqn:Hq; [done|]. injection Hv as <-.
  apply bool_decide_eq_false in Hq. cbn [scan_files length] in *. split; [lia|]. right.
  destruct Hor as [->|?]; [cbn in *; lia|done].
Qed.

Lemma children_bound f rcs p : scan_root f rcs → below rcs p →
  length (children f p) ≤ length (walk_order f rcs).
Proof.
  intros Hr Hb. apply submseteq_length, NoDup_submseteq; [apply NoDup_filter, NoDup_fst_map_to_list|].
  intros q [[Hne Hp] Hin]%list_elem_of_filter. apply list_elem_of_fmap in Hin as ([q' n] & -> & Hq%elem_of_map_to_list).
  cbn in *. apply elem_of_walk_order. subst p. assert (below rcs q') as Hbq.
  { etrans; [exact Hb|]. unfold parent. apply prefix_take. }
  split_and!; [done| |by eexists]. intros ->. apply prefix_length in Hb. unfold parent in Hb.
  rewrite length_take in Hb. destruct rcs; [done|cbn in Hb; lia].
Qed.

Lemma bound_walk_scan f rcs paths : ∀ s s', scan_root f rcs → (∀ p, p ∈ paths → p ∈ walk_order f rcs) →
  (bound_walk f rcs s paths = Ok s' →
     scan_walk dir_size hardlinked put_fail maxFiles maxBytes f (abs_path rcs) s paths = Ok s') ∧
  ((∀ p, p ∈ paths → (Z.of_nat (length (children f p)) ≤ maxFiles)%Z) →
     scan_walk dir_size hardlinked put_fail maxFiles maxBytes f (abs_path rcs) s paths = Ok s' →
     bound_walk f rcs s paths = Ok s').
Proof.
  induction paths as [|p paths IH]; intros s s' Hr Hin; cbn [bound_walk scan_walk]; [done|].
  rewrite scan_visit_eq by (try done; apply Hin; by left).
  destruct (scan_visit _ _ _ _ _ _ _ _ _) as [s1|]; [|done]. cbn [rbind].
  assert (∀ q, q ∈ paths → q ∈ walk_order f rcs) as Hin' by (intros q Hq; apply Hin; by right).
  destruct (IH s1 s' Hr Hin') as [IH1 IH2]. split.
  - destruct (f !! p) as [[| |]|]; try done. unfold bound_read_dir. by case_bool_decide.
  - intros Hsmall Hw. assert (bound_read_dir f p = Ok tt) as Hp.
    { unfold bound_read_dir. rewrite bool_decide_eq_false_2; [done|]. specialize (Hsmall p ltac:(by left)). lia. }
    assert (bound_walk f rcs s1 paths = Ok s') as Hb by (apply IH2; [intros q Hq; apply Hsmall; by right|done]).
    destruct (f !! p) as [[| |]|]; by rewrite ?Hp.
Qed.

(** ** What a scan records *)

(** What can be rebuilt of a node: permissions without the special bits *)
Definition rebuilt (n : node) : node :=
  match n with
  | NFile mode content => NFile (perm mode) content
  | NDir mode => NDir (perm mode)
  | NSymlink target => NSymlink target
  end.

(** The entry of the path [p] *)
Definition recorded (f : fs) (rcs : list string) (blobs : files) (p : list string) (item : WorkspaceEntry) : Prop :=
  ∃ q n, p = rcs ++ q ∧ q ≠ [] ∧ Forall plain q ∧ f !! p = Some n ∧ Entry_Path item = join "/" q ∧
    unsafeRelative (Entry_Path item) = false ∧
    ((∃ m, n = NDir m) → Entry_Type item = "dir") ∧
    (Entry_Supported item = true → entry_node blobs (Entry_Path item) item = Some (rebuilt n) ∨ collision).

Lemma perm_lor_dir m : perm (Z.lor ModeDir m) = perm m.
Proof. unfold perm, ModeDir. rewrite Z.land_lor_distr_l. by change (Z.land 2147483648 511) with 0%Z; rewrite Z.lor_0_l. Qed.

Lemma entry_node_mono blobs blobs' relative item n : blobs ⊆ blobs' →
  entry_node blobs relative item = Some n → entry_node blobs' relative item = Some n.
Proof.
  intros Hsub. unfold entry_node. repeat (case_bool_decide; [done|]). case_bool_decide; [|done].
  destruct (GetBlob blobs _) as [content|] eqn:Hg; [|done].
  assert (GetBlob blobs' (Entry_BlobDigest item) = Ok content) as ->; [|done].
  unfold GetBlob in *. destruct (negb _); [done|]. destruct (blobs !! _) as [file|] eqn:Hb; [|done].
  by rewrite (lookup_weaken _ _ _ _ Hb Hsub).
Qed.

Lemma recorded_mono f rcs blobs blobs' p item : blobs ⊆ blobs' → recorded f rcs blobs p item → recorded f rcs blobs' p item.
Proof.
  intros Hsub (q & n & ? & ? & ? & ? & ? & ? & ? & Hs). exists q, n. split_and!; [done..|].
  intros Hsup. destruct (Hs Hsup) as [?|?]; [left; by eapply entry_node_mono|by right].
Qed.

Lemma limit_reader_length limit content : (0 ≤ limit)%Z →
  (Z.of_nat (String.length (limit_reader limit content)) < limit)%Z → limit_reader limit content = content.
Proof.
  unfold limit_reader. case_bool_decide as Hl; [done|]. intros Hpos Hlt. exfalso.
  assert (∀ n s, n ≤ String.length s → String.length (string_take n s) = n) as Htake.
  { intros n. induction n as [|n IH]; intros [|? s]; cbn; intros; try done; try lia. f_equal. apply IH. lia. }
  rewrite Htake in Hlt; lia.
Qed.

(** Content within the quota is read in full, unless [maxBytes+1] overflows. *)
Lemma quota_content max used content : (0 ≤ used)%Z → (max < max_int64)%Z →
  ¬ (max < used + Z.of_nat (String.length (limit_reader (wrap_int64 (max + 1)) content)))%Z →
  limit_reader (wrap_int64 (max + 1)) content = content.
Proof.
  unfold max_int64. intros Hused Hmax Hq.
  rewrite wrap_int64_id in Hq |- * by lia. apply limit_reader_length; lia.
Qed.

(** The item of one node *)
Lemma scan_item_recorded f s relative p n item bytes blobs : (0 ≤ scan_bytes s)%Z → (maxBytes ≤ 2 ^ 30)%Z →
  blobs_sound (scan_blobs s) →
  scan_item dir_size hardlinked put_fail maxBytes f s relative p n = Ok (item, bytes, blobs) →
  Entry_Path item = relative ∧ (0 ≤ bytes)%Z ∧ blobs_sound blobs ∧ scan_blobs s ⊆ blobs ∧
  ((∃ m, n = NDir m) → Entry_Type item = "dir") ∧
  (Entry_Supported item = true → entry_node blobs relative item = Some (rebuilt n) ∨ collision).
Proof.
  intros Hpos Hmax Hsound Hitem. destruct n as [mode content|mode|target]; cbn [scan_item] in Hitem.
  - destruct (hardlinked p); [injection Hitem as <- <- <-; split_and!; try done; by intros [? [=]]|].
    destruct (bool_decide (maxBytes < _)%Z) eqn:Hq; [done|]. apply bool_decide_eq_false in Hq.
    rewrite (quota_content _ _ _ Hpos) in Hitem, Hq by (done || (unfold max_int64; lia)).
    destruct (PutBlob _ _ _) as [blobs1 [digest|]] eqn:Hput; [|done]. cbn [rbind] in Hitem.
    destruct (PutBlob_sound _ _ _ _ _ Hsound Hput) as (Hs & Hsub & Hd). destruct (Hd _ eq_refl) as [-> [file Hf]].
    injection Hitem as <- <- <-. split_and!; try done; [lia|by intros [? [=]]|]. intros _.
    destruct (Hs _ _ Hf) as (c & -> & Hc). destruct (decide (c = content)) as [->|Hne]; [left|right; by exists c, content].
    unfold entry_node. cbn. by rewrite GetBlob_content by (done || lia).
  - injection Hitem as <- <- <-. split_and!; try done. intros _. left. unfold entry_node. cbn. by rewrite perm_lor_dir.
  - injection Hitem as <- <- <-. split_and!; try done; [by intros [? [=]]|]. intros Hsup. left.
    destruct (validateLinkTarget relative target) as [[]|] eqn:Hv; [|done]. unfold entry_node. cbn [Entry_Type Entry_LinkTarget].
    rewrite (bool_decide_eq_false_2 ("symlink" = "dir")), bool_decide_eq_true_2 by done. rewrite Hv.
    case_bool_decide as He; [|done]. by subst target.
Qed.

Lemma scan_walk_recorded f rcs paths : ∀ s s', scan_root f rcs → (∀ p, p ∈ paths → p ∈ walk_order f rcs) →
  (0 ≤ scan_bytes s)%Z → (maxBytes ≤ 2 ^ 30)%Z → blobs_sound (scan_blobs s) →
  scan_walk dir_size hardlinked put_fail maxFiles maxBytes f (abs_path rcs) s paths = Ok s' →
  ∃ items, scan_entries s' = scan_entries s ++ items ∧ blobs_sound (scan_blobs s') ∧ scan_blobs s ⊆ scan_blobs s' ∧
    Forall2 (recorded f rcs (scan_blobs s')) paths items.
Proof.
  induction paths as [|p paths IH]; intros s s' Hr Hin Hpos Hmax Hsound Hw; cbn [scan_walk] in Hw.
  { injection Hw as <-. exists []. rewrite app_nil_r. split_and!; [done..|constructor]. }
  destruct (scan_visit _ _ _ _ _ _ _ _ _) as [s1|] eqn:Hv; [|done]. cbn [rbind] in Hw.
  destruct (visited f rcs p Hr) as (q & n & Hp & Hne & Hq & Hn & _ & Hrel & Hstat); [apply Hin; by left|].
  unfold scan_visit in Hv. rewrite Hrel, Hstat in Hv. cbn [rbind] in Hv. destruct (unsafeRelative _) eqn:Hsafe; [done|].
  destruct (scan_item _ _ _ _ _ _ _ _ _) as [[[item bytes] blobs]|] eqn:Hitem; [|done]. cbn [rbind scan_files] in Hv.
  step_ok Hv. injection Hv as <-.
  apply scan_item_recorded in Hitem as (Hpath & Hb & Hs & Hsub & Hdir & Hnode); [|done..].
  apply IH in Hw as (items & Hitems & Hs' & Hsub' & Hall); [|done|intros ? ?; apply Hin; by right|done..].
  cbn [scan_entries scan_blobs] in *. exists (item :: items). split_and!; [by rewrite Hitems, <-app_assoc|done|by etrans|].
  constructor; [|done]. exists q, n. rewrite Hpath. split_and!; [done..|].
  intros Hsup. destruct (Hnode Hsup) as [?|?]; [left; by eapply entry_node_mono|by right].
Qed.
End bound.

(** ** Lemmas: the manifest of a scan *)

Section manifest.
Context `{PGzip : !Gzip}.
Variables (dir_size : list string → Z) (hardlinked : list string → bool) (put_fail : string → option error).
Variables (maxFiles maxBytes : Z).

(** The items of a walk, by path *)
Lemma recorded_at f rcs blobs paths items p : Forall2 (recorded f rcs blobs) paths items → p ∈ paths →
  ∃ item, item ∈ items ∧ recorded f rcs blobs p item.
Proof.
  intros Hall Hp. apply list_elem_of_lookup in Hp as [i Hi]. destruct (Forall2_lookup_l _ _ _ _ _ Hall Hi) as (item & Hl & Hrec).
  exists item. split; [by eapply list_elem_of_lookup_2|done].
Qed.
Lemma recorded_of f rcs blobs paths items item : Forall2 (recorded f rcs blobs) paths items → item ∈ items →
  ∃ p, p ∈ paths ∧ recorded f rcs blobs p item.
Proof.
  intros Hall Hi. apply list_elem_of_lookup in Hi as [i Hi]. destruct (Forall2_lookup_r _ _ _ _ _ Hall Hi) as (p & Hl & Hrec).
  exists p. split; [by eapply list_elem_of_lookup_2|done].
Qed.

Lemma recorded_path f rcs blobs p item : recorded f rcs blobs p item → p = rcs ++ path_comps (Entry_Path item).
Proof.
  intros (q & n & -> & _ & Hq & _ & -> & _). by rewrite path_comps_join by by apply plain_path_elem.
Qed.

Lemma recorded_nodup f rcs blobs paths items : Forall2 (recorded f rcs blobs) paths items → NoDup paths →
  NoDup (Entry_Path <$> items).
Proof.
  induction 1 as [|p item paths items Hrec Hall IH]; intros Hnd; cbn; [constructor|].
  apply NoDup_cons in Hnd as [Hnot Hnd]. apply NoDup_cons. split; [|by apply IH].
  intros (item' & Heq & Hin)%list_elem_of_fmap. destruct (recorded_of _ _ _ _ _ _ Hall Hin) as (p' & Hp' & Hrec').
  apply Hnot. apply recorded_path in Hrec as ->. apply recorded_path in Hrec' as Heq'. rewrite Heq, <-Heq'. done.
Qed.

Lemma recorded_manifest f rcs blobs items : scan_root f rcs →
  Forall2 (recorded f rcs blobs) (walk_order f rcs) items → Forall (λ e, Entry_Supported e = true) items →
  manifest_ok blobs (sort_by Entry_Path items) ∨ collision.
Proof.
  intros Hr Hall Hsup. destruct (decide (Forall (λ e, is_Some (entry_node blobs (Entry_Path e) e)) items)) as [Hnodes|Hno].
  - left. split.
    + intros e He%elem_of_sort_by. destruct (recorded_of _ _ _ _ _ _ Hall He) as (p & _ & q & n & ? & ? & ? & ? & ? & ? & _). done.
    + intros e He%elem_of_sort_by. rewrite Forall_forall in Hnodes. by apply Hnodes.
    + rewrite (sort_by_perm Entry_Path items). eapply recorded_nodup; [done|apply NoDup_walk_order].
    + intros e pre He%elem_of_sort_by Hpre Hne Hneq. destruct (recorded_of _ _ _ _ _ _ Hall He) as (p & Hp & Hrec).
      pose proof (recorded_path _ _ _ _ _ Hrec) as Hpath. apply elem_of_walk_order in Hp as (Hb & Hpne & Hsome).
      destruct (sr_closed _ _ Hr (rcs ++ pre) p) as [m Hm]; [done| | | |].
      { rewrite Hpath. by apply prefix_app. }
      { rewrite Hpath. intros Heq%app_inv_head. done. }
      { pose proof (sr_ne _ _ Hr). by destruct rcs. }
      destruct (recorded_at _ _ _ _ _ (rcs ++ pre) Hall) as (d & Hd & Hrec').
      { apply elem_of_walk_order. split_and!; [by apply prefix_app_r| |by eexists].
        intros Heq. apply Hne. rewrite <-(app_nil_r rcs) in Heq at 2. by apply app_inv_head in Heq. }
      exists d. split; [by apply elem_of_sort_by|]. pose proof (recorded_path _ _ _ _ _ Hrec') as Heq%app_inv_head.
      split; [done|]. destruct Hrec' as (q & n & _ & _ & _ & Hn & _ & _ & Hdir & _). apply Hdir. exists m. congruence.
  - right. apply not_Forall_Exists, Exists_exists in Hno as (e & He & Hnone); [|apply _].
    destruct (recorded_of _ _ _ _ _ _ Hall He) as (p & _ & q & n & _ & _ & _ & _ & _ & _ & _ & Hs).
    rewrite Forall_forall in Hsup. destruct (Hs (Hsup _ He)) as [Hn|?]; [|done]. destruct Hnone. by rewrite Hn.
Qed.
End manifest.

(** ** Lemmas: the entries of a scan *)

Section scanned.
Context `{PGzip : !Gzip}.
Variables (dir_size : list string → Z) (hardlinked : list string → bool) (put_fail : string → option error).
Variables (maxFiles maxBytes : Z).
Hypothesis Hquota : (maxBytes < max_int64)%Z.

(** [item] is what a scan records of the node at [p]. *)
Definition scanned (f : fs) (rcs p : list string) (item : WorkspaceEntry) : Prop :=
  ∃ q n s bytes blobs, p = rcs ++ q ∧ Forall plain q ∧ f !! p = Some n ∧ (0 ≤ scan_bytes s)%Z ∧
    scan_item dir_size hardlinked put_fail maxBytes f s (join "/" q) p n = Ok (item, bytes, blobs).

Lemma scan_item_spec f s relative p n item bytes blobs : (0 ≤ scan_bytes s)%Z →
  scan_item dir_size hardlinked put_fail maxBytes f s relative p n = Ok (item, bytes, blobs) →
  Entry_Path item = relative ∧ (0 ≤ bytes)%Z ∧
  match n with
  | NFile _ content => if hardlinked p then Entry_Type item = "unsupported"
                       else Entry_Type item = "file" ∧ Entry_Digest item = sha256_hex content
  | _ => Entry_Type item ≠ "file"
  end.
Proof.
  intros Hpos Hitem. destruct n as [mode content|mode|target]; cbn [scan_item] in Hitem.
  - destruct (hardlinked p); [injection Hitem as <- <- <-; by split_and!|].
    destruct (bool_decide (maxBytes < _)%Z) eqn:Hq; [done|]. apply bool_decide_eq_false in Hq.
    rewrite (quota_content _ _ _ Hpos) in Hitem, Hq by (done || (unfold max_int64; lia)).
    destruct (PutBlob _ _ _) as [blobs1 [digest|]]; [|done]. cbn [rbind] in Hitem.
    injection Hitem as <- <- <-. cbn. split_and!; [done|lia|done|done].
  - injection Hitem as <- <- <-. by split_and!.
  - injection Hitem as <- <- <-. cbn. split_and!; [done|done|]. by case_match.
Qed.

Lemma scan_walk_scanned f rcs paths : ∀ s s', scan_root f rcs → (∀ p, p ∈ paths → p ∈ walk_order f rcs) →
  (0 ≤ scan_bytes s)%Z →
  scan_walk dir_size hardlinked put_fail maxFiles maxBytes f (abs_path rcs) s paths = Ok s' →
  ∃ items, scan_entries s' = scan_entries s ++ items ∧ Forall2 (scanned f rcs) paths items.
Proof.
  induction paths as [|p paths IH]; intros s s' Hr Hin Hpos Hw; cbn [scan_walk] in Hw.
  { injection Hw as <-. exists []. rewrite app_nil_r. split; [done|constructor]. }
  destruct (scan_visit _ _ _ _ _ _ _ _ _) as [s1|] eqn:Hv; [|done]. cbn [rbind] in Hw.
  destruct (visited f rcs p Hr) as (q & n & Hp & _ & Hq & Hn & _ & Hrel & Hstat); [apply Hin; by left|].
  unfold scan_visit in Hv. rewrite Hrel, Hstat in Hv. cbn [rbind] in Hv. step_ok Hv.
  destruct (scan_item _ _ _ _ _ _ _ _ _) as [[[item bytes] blobs]|] eqn:Hitem; [|done]. cbn [rbind scan_files] in Hv.
  step_ok Hv. injection Hv as <-. pose proof (scan_item_spec _ _ _ _ _ _ _ _ Hpos Hitem) as (_ & Hbytes & _).
  apply IH in Hw as (items & Hitems & Hall); [|done|intros ? ?; apply Hin; by right|done].
  cbn [scan_entries] in *. exists (item :: items). split; [by rewrite Hitems, <-app_assoc|].
  constructor; [|done]. exists q, n, s, bytes, blobs. by split_and!.
Qed.

(** The entries of a manifest are those of the paths below the root, each once. *)
Lemma Scan_scanned f blobs rcs manifest blobs' : scan_root f rcs →
  Scan dir_size hardlinked put_fail maxFiles maxBytes f blobs (abs_path rcs) = Ok (manifest, blobs') →
  ∃ items, Manifest_Entries manifest ≡ₚ items ∧ Forall2 (scanned f rcs) (walk_order f rcs) items ∧
    NoDup (Entry_Path <$> Manifest_Entries manifest).
Proof.
  intros Hr Hscan. unfold Scan in Hscan.
  rewrite path_comps_abs in Hscan by apply plain_path_elem, (sr_plain _ _ Hr).
  destruct (scan_walk _ _ _ _ _ _ _ _ _) as [s'|] eqn:Hw; [|done]. cbn [rbind] in Hscan. injection Hscan as <- _.
  apply scan_walk_scanned in Hw as (items & Hitems & Hall); [|done..]. cbn [scan_entries app Manifest_Entries] in *.
  rewrite Hitems. exists items. split_and!; [apply sort_by_perm|done|]. rewrite sort_by_perm.
  pose proof (NoDup_walk_order f rcs) as Hnd. clear Hitems. induction Hall as [|p item paths items Hi Hall IH]; cbn; [constructor|].
  apply NoDup_cons in Hnd as [Hnot Hnd]. apply NoDup_cons. split; [|by apply IH].
  intros (item' & Heq & Hin)%list_elem_of_fmap. apply Hnot.
  apply list_elem_of_lookup in Hin as [i Hi']. destruct (Forall2_lookup_r _ _ _ _ _ Hall Hi') as (p' & Hp' & Hs').
  destruct Hi as (q & n & s & bytes & b & -> & Hq & _ & Hs & Hitem), Hs' as (q' & n' & t & bytes' & b' & -> & Hq' & _ & Ht & Hitem').
  apply scan_item_spec in Hitem as [Hp _], Hitem' as [Hp'' _]; [|done..].
  rewrite Hp, Hp'' in Heq. apply join_plain_inj in Heq as ->; [|done..]. by eapply list_elem_of_lookup_2.
Qed.

Lemma scanned_of f rcs items q : scan_root f rcs → Forall2 (scanned f rcs) (walk_order f rcs) items →
  Forall plain q → q ≠ [] →
  (∀ n, f !! (rcs ++ q) = Some n → ∃ item, item ∈ items ∧ Entry_Path item = join "/" q ∧
     match n with
     | NFile _ content => if hardlinked (rcs ++ q) then Entry_Type item = "unsupported"
                          else Entry_Type item = "file" ∧ Entry_Digest item = sha256_hex content
     | _ => Entry_Type item ≠ "file"
     end) ∧
  (∀ item, item ∈ items → Entry_Path item = join "/" q → is_Some (f !! (rcs ++ q))).
Proof.
  intros Hr Hall Hq Hne. split.
  - intros n Hn. assert (rcs ++ q ∈ walk_order f rcs) as Hin.
    { apply elem_of_walk_order. split_and!; [by apply prefix_app_r| |by eexists].
      intros Heq. apply Hne. rewrite <-(app_nil_r rcs) in Heq at 2. by apply app_inv_head in Heq. }
    apply list_elem_of_lookup in Hin as [i Hi]. destruct (Forall2_lookup_l _ _ _ _ _ Hall Hi) as (item & Hl & Hs).
    exists item. split; [by eapply list_elem_of_lookup_2|].
    destruct Hs as (q' & n' & s & bytes & b & Heq%app_inv_head & _ & Hn' & Hpos & Hitem). subst q'.
    assert (n' = n) as -> by congruence. apply scan_item_spec in Hitem as (? & _ & ?); [|done]. by split.
  - intros item Hi Hp. apply list_elem_of_lookup in Hi as [i Hi]. destruct (Forall2_lookup_r _ _ _ _ _ Hall Hi) as (p & Hl & Hs).
    destruct Hs as (q' & n' & s & bytes & b & -> & Hq' & Hn' & Hpos & Hitem).
    apply scan_item_spec in Hitem as (Hp' & _); [|done]. rewrite Hp' in Hp. apply join_plain_inj in Hp as ->; [|done..]. by eexists.
Qed.
End scanned.

(** ** Lemmas: the properties *)

Lemma ScanRoot_iff `{PGzip : !Gzip} dir_size hardlinked put_fail maxFiles maxBytes f blobs rcs r
    (Hroot : scan_root f rcs) (Hquota : (0 ≤ maxFiles)%Z) :
  ScanRoot dir_size hardlinked put_fail maxFiles maxBytes f blobs rcs (abs_path rcs) = Ok r ↔
  Scan dir_size hardlinked put_fail maxFiles maxBytes f blobs (abs_path rcs) = Ok r.
Proof.
  assert (path_comps (abs_path rcs) = rcs) as Hcomps by by apply path_comps_abs, plain_path_elem, (sr_plain _ _ Hroot).
  unfold ScanRoot, Scan. rewrite Hcomps.
  pose proof (λ s', bound_walk_scan dir_size hardlinked put_fail maxFiles maxBytes f rcs (walk_order f rcs)
    (mkScan [] 0 0 blobs) s' Hroot (λ p H, H)) as Hagree. split.
  - destruct (bound_read_dir _ _ _); [|done]. cbn [rbind]. destruct (bound_walk _ _ _ _ _ _ _ _ _) as [s'|]; [|done].
    cbn [rbind]. destruct (Hagree s') as [-> _]; done.
  - destruct (scan_walk _ _ _ _ _ _ _ _ _) as [s'|] eqn:Hw; [|done].
    pose proof (scan_walk_files _ _ _ _ _ _ _ _ _ _ Hw) as [Hfiles Hor].
    assert (∀ p, below rcs p → (Z.of_nat (length (children f p)) ≤ maxFiles)%Z) as Hsmall.
    { intros p Hp. pose proof (children_bound f rcs p Hroot Hp). cbn [scan_files] in Hfiles.
      destruct Hor as [Hnil|?]; [rewrite Hnil in *; cbn in *; lia|lia]. }
    unfold bound_read_dir. rewrite bool_decide_eq_false_2 by (specialize (Hsmall rcs ltac:(done)); lia). cbn [rbind].
    destruct (Hagree s') as [_ Hb]. rewrite Hb; [done| |done]. intros p [Hp _]%elem_of_walk_order. by apply Hsmall.
Qed.

(** ** Who may rebuild a tree *)

(** The user can make names in this directory. *)
Definition open_dir {USER : User} (mode : Z) : bool := privileged || has_bits mode (owner_w + owner_x).

(** [q] is a directory of the tree at [rcs], and [q'] is in it. *)
Definition holds_path (f : fs) (rcs q q' : list string) (mode : Z) : Prop :=
  q ≠ [] ∧ f !! (rcs ++ q) = Some (NDir mode) ∧ q `prefix_of` q' ∧ q ≠ q' ∧ is_Some (f !! (rcs ++ q')).

(** Every directory of the tree that holds something is open to the user. *)
Definition open_tree {USER : User} (f : fs) (rcs : list string) : Prop :=
  ∀ q q' mode, holds_path f rcs q q' mode → open_dir mode = true.

Lemma has_bits_perm mode : has_bits (perm mode) (owner_w + owner_x) = has_bits mode (owner_w + owner_x).
Proof. unfold has_bits, perm. by rewrite <-Z.land_assoc. Qed.

Lemma entry_node_dir `{PGzip : !Gzip} blobs relative e mode :
  entry_node blobs relative e = Some (NDir mode) → mode = perm (Entry_Mode e).
Proof. unfold entry_node. intros Hn. by repeat (case_bool_decide || case_match); simplify_eq. Qed.

Section rebuild.
Context {USER : User} `{PGzip : !Gzip}.
Variables (f : fs) (rcs : list string) (blobs : files) (items : list WorkspaceEntry).
Hypothesis Hroot : scan_root f rcs.
Hypothesis Hall : Forall2 (recorded f rcs blobs) (walk_order f rcs) items.
Hypothesis Hsame : Forall (λ e, entry_node blobs (Entry_Path e) e =
  rebuilt <$> f !! (rcs ++ path_comps (Entry_Path e))) items.

Lemma item_there e : e ∈ items → is_Some (f !! (rcs ++ path_comps (Entry_Path e))) ∧ path_comps (Entry_Path e) ≠ [].
Proof.
  intros He. destruct (recorded_of _ _ _ _ _ _ Hall He) as (p & _ & Hrec).
  pose proof (recorded_path _ _ _ _ _ Hrec) as Hpath. destruct Hrec as (q & n & Hpq & Hq & _ & Hn & _).
  rewrite Hpath in Hpq, Hn. apply app_inv_head in Hpq. subst q. split; [by eexists|done].
Qed.

Lemma item_at q : q ≠ [] → is_Some (f !! (rcs ++ q)) → ∃ e, e ∈ items ∧ path_comps (Entry_Path e) = q.
Proof.
  intros Hq Hn. destruct (recorded_at _ _ _ _ _ (rcs ++ q) Hall) as (e & He & Hrec).
  { apply elem_of_walk_order. split_and!; [by apply prefix_app_r| |done].
    intros Heq. apply Hq. rewrite <-(app_nil_r rcs) in Heq at 2. by apply app_inv_head in Heq. }
  exists e. split; [done|]. pose proof (recorded_path _ _ _ _ _ Hrec) as Heq. by apply app_inv_head in Heq.
Qed.

Lemma item_writable d mode : d ∈ items → f !! (rcs ++ path_comps (Entry_Path d)) = Some (NDir mode) →
  writable d = open_dir mode.
Proof.
  intros Hd Hn. rewrite Forall_forall in Hsame. pose proof (Hsame d Hd) as Hnode. rewrite Hn in Hnode.
  apply entry_node_dir in Hnode. unfold writable, open_dir. by rewrite <-Hnode, has_bits_perm.
Qed.

(** Directories of the tree that hold something are entries that do. *)
Lemma holds_path_entries q q' mode : holds_path f rcs q q' mode →
  ∃ d e, d ∈ items ∧ e ∈ items ∧ holds_entry d e ∧ writable d = open_dir mode.
Proof.
  intros (Hq & Hn & Hpre & Hne & Hn').
  destruct (item_at q) as (d & Hd & Hdq); [done|by eexists|].
  destruct (item_at q') as (e & He & Heq); [|done|].
  { intros ->. by apply prefix_nil_inv in Hpre. }
  exists d, e. unfold holds_entry. rewrite Hdq, Heq. split_and!; try done.
  apply item_writable; [done|]. by rewrite Hdq.
Qed.

Lemma holds_entry_path d e : d ∈ items → e ∈ items → holds_entry d e →
  ∃ mode, holds_path f rcs (path_comps (Entry_Path d)) (path_comps (Entry_Path e)) mode ∧ writable d = open_dir mode.
Proof.
  intros Hd He [Hpre Hne]. destruct (item_there d Hd) as [_ Hdne]. destruct (item_there e He) as [Hen _].
  destruct (sr_closed _ _ Hroot (rcs ++ path_comps (Entry_Path d)) (rcs ++ path_comps (Entry_Path e)) Hen)
    as [mode Hm]; [by apply prefix_app|by intros ?%app_inv_head|by destruct rcs|].
  exists mode. split; [done|by apply item_writable].
Qed.

Lemma open_tree_writable d e :
  open_tree f rcs → d ∈ items → e ∈ items → holds_entry d e → writable d = true.
Proof.
  intros Ho Hd He Hh. destruct (holds_entry_path d e Hd He Hh) as (mode & Hp & ->). by eapply Ho.
Qed.
End rebuild.

Lemma Scan_rebuilds `{USER : User} `{PGzip : !Gzip} dir_size hardlinked put_fail maxFiles maxBytes f blobs rcs manifest blobs' g tcs
    (Hroot : scan_root f rcs) (Hsound : blobs_sound blobs) (Hbytes : (maxBytes ≤ 2 ^ 30)%Z)
    (Hscan : Scan dir_size hardlinked put_fail maxFiles maxBytes f blobs (abs_path rcs) = Ok (manifest, blobs'))
    (Hsupported : Forall (λ e, Entry_Supported e = true) (Manifest_Entries manifest))
    (Hclosed : closed g) (Hempty : empty_root g tcs)
    (Hsearch : searchable g tcs) (Hwrite : permits g (owner_w + owner_x) tcs = true) :
  collision ∨
  (open_tree f rcs →
   ∃ g', Materialize g blobs' (abs_path tcs) manifest = (g', Ok tt) ∧
    (∀ q, q ≠ [] → g' !! (tcs ++ q) = rebuilt <$> f !! (rcs ++ q)) ∧
    ∀ p, ¬ below tcs p ∨ p = tcs → g' !! p = g !! p) ∧
  (∀ q q' mode, holds_path f rcs q q' mode → open_dir mode = false →
   ∃ g', Materialize g blobs' (abs_path tcs) manifest = (g', Err ErrPermission)).
Proof.
  unfold Scan in Hscan. rewrite path_comps_abs in Hscan by apply plain_path_elem, (sr_plain _ _ Hroot).
  destruct (scan_walk _ _ _ _ _ _ _ _ _) as [s'|] eqn:Hw; [|done]. cbn [rbind] in Hscan. injection Hscan as <- <-.
  apply scan_walk_recorded in Hw as (items & Hitems & _ & _ & Hall); [|done..]. cbn [scan_entries app] in Hitems.
  cbn [Manifest_Entries] in Hsupported. rewrite Hitems in *. rewrite (sort_by_perm Entry_Path items) in Hsupported.
  destruct (recorded_manifest f rcs (scan_blobs s') items Hroot Hall Hsupported) as [Hok|?]; [|by left].
  destruct (decide (Forall (λ e, entry_node (scan_blobs s') (Entry_Path e) e =
    rebuilt <$> f !! (rcs ++ path_comps (Entry_Path e))) items)) as [Hsame|Hdiff]; last first.
  { left. apply not_Forall_Exists, Exists_exists in Hdiff as (e & He & Hne); [|apply _].
    destruct (recorded_of _ _ _ _ _ _ Hall He) as (p & _ & Hrec). pose proof (recorded_path _ _ _ _ _ Hrec) as Hpath.
    destruct Hrec as (q & n & _ & _ & _ & Hn & _ & _ & _ & Hs). rewrite Forall_forall in Hsupported.
    destruct (Hs (Hsupported _ He)) as [Hnode|?]; [|done]. destruct Hne. by rewrite Hnode, <-Hpath, Hn. }
  right. set (manifest := mkWorkspaceManifest _ _ _ _ _). split.
  2: { intros q q' mode Hp Hopen.
    destruct (holds_path_entries f rcs (scan_blobs s') items Hall Hsame q q' mode Hp) as (d & e & Hd & He & Hh & Hw).
    rewrite Hopen in Hw. apply (Materialize_denied g (scan_blobs s') tcs manifest d e); try done;
      cbn; by apply elem_of_sort_by. }
  intros Hopen. destruct (Materialize_exact g (scan_blobs s') tcs manifest Hclosed Hempty Hok) as (g' & Hrun & Hin & Hout).
  { split; [done|done|]. intros d e Hd%elem_of_sort_by He%elem_of_sort_by Hh.
    by apply (open_tree_writable f rcs (scan_blobs s') items Hroot Hall Hsame d e). }
  cbn [manifest Manifest_Entries] in Hin, Hout. exists g'. split_and!; [done|..].
  - intros q Hq. destruct (f !! (rcs ++ q)) as [n|] eqn:Hn.
    + destruct (item_at f rcs (scan_blobs s') items Hall q Hq) as (e & He & Heq); [by eexists|].
      rewrite <-Heq, Hin by by apply elem_of_sort_by. rewrite Forall_forall in Hsame. by rewrite (Hsame _ He), Heq, Hn.
    + rewrite Hout; [apply (er_empty _ _ Hempty); [by apply prefix_app_r|]|].
      * intros Heq. apply Hq. rewrite <-(app_nil_r tcs) in Heq at 2. by apply app_inv_head in Heq.
      * intros e He%elem_of_sort_by Heq%app_inv_head.
        destruct (item_there f rcs (scan_blobs s') items Hall e He) as [[n' Hn'] _]. congruence.
  - intros p Hp. apply Hout. intros e He%elem_of_sort_by ->.
    destruct (item_there f rcs (scan_blobs s') items Hall e He) as [_ Hne].
    destruct Hp as [Hp|Hp]; [destruct Hp; by apply prefix_app_r|].
    rewrite <-(app_nil_r tcs) in Hp at 2. by apply app_inv_head in Hp.
Qed.

(** ** Properties *)

(** the scan through a directory descriptor is the scan by path name.  On a
    workspace that nobody changes both record the same manifest and store the
    same blobs, and one is refused whenever the other is: the bounded directory
    reader, which stops at directories of more than [maxFiles] entries, refuses
    nothing that the quota would let pass. *)
Theorem ScanRoot_Scan `{PGzip : !Gzip} dir_size hardlinked put_fail maxFiles maxBytes f blobs rcs r
    (Hroot : scan_root f rcs) (Hquota : (0 ≤ maxFiles)%Z) :
  ScanRoot dir_size hardlinked put_fail maxFiles maxBytes f blobs rcs (abs_path rcs) = Ok r ↔
  Scan dir_size hardlinked put_fail maxFiles maxBytes f blobs (abs_path rcs) = Ok r.
Proof. by apply ScanRoot_iff. Qed.

(** what a scan records can be rebuilt.  If a workspace was scanned into a
    sound blob directory, within a byte quota of at most a gigabyte, and every
    entry is supported, then rebuilding the manifest in an empty directory of
    any machine that the user may write succeeds and gives the same tree -
    contents, links and permission bits - and changes nothing else there, if
    every directory that holds something is open to its owner or the process is
    privileged, and is refused otherwise; the only other possibility is a
    collision of SHA-256. *)
Theorem Scan_Materialize `{USER : User} `{PGzip : !Gzip} dir_size hardlinked put_fail maxFiles maxBytes f blobs rcs manifest blobs' g tcs
    (Hroot : scan_root f rcs) (Hsound : blobs_sound blobs) (Hbytes : (maxBytes ≤ 2 ^ 30)%Z)
    (Hscan : Scan dir_size hardlinked put_fail maxFiles maxBytes f blobs (abs_path rcs) = Ok (manifest, blobs'))
    (Hsupported : Forall (λ e, Entry_Supported e = true) (Manifest_Entries manifest))
    (Hclosed : closed g) (Hempty : empty_root g tcs)
    (Hsearch : searchable g tcs) (Hwrite : permits g (owner_w + owner_x) tcs = true) :
  collision ∨
  (open_tree f rcs →
   ∃ g', Materialize g blobs' (abs_path tcs) manifest = (g', Ok tt) ∧
    (∀ q, q ≠ [] → g' !! (tcs ++ q) = rebuilt <$> f !! (rcs ++ q)) ∧
    ∀ p, ¬ below tcs p ∨ p = tcs → g' !! p = g !! p) ∧
  (∀ q q' mode, holds_path f rcs q q' mode → open_dir mode = false →
   ∃ g', Materialize g blobs' (abs_path tcs) manifest = (g', Err ErrPermission)).
Proof. by eapply Scan_rebuilds. Qed.

(** ** Witnesses *)

Lemma scan_root_check f rcs :
  bool_decide (Forall plain rcs) && negb (bool_decide (rcs = [])) && dir_at f rcs &&
  forallb (λ p, forallb (dir_at f) (prefixes p)) (map_to_list f).*1 &&
  forallb (λ p, bool_decide (Forall plain p)) (map_to_list f).*1 = true → scan_root f rcs.
Proof.
  rewrite !andb_true_iff, forallb_forall, bool_decide_eq_true, negb_true_iff, bool_decide_eq_false.
  intros [[[[Hplain Hne] Hdir] Hclosed] Hnames]. split; [done..|by apply dir_at_true| |].
  - apply closed_check. by rewrite forallb_forall.
  - intros q _ [n Hn]. rewrite forallb_forall in Hnames. specialize (Hnames q). rewrite bool_decide_eq_true in Hnames.
    apply Hnames, list_elem_of_In, list_elem_of_fmap. exists (q, n). by rewrite elem_of_map_to_list.
Qed.

(** A workspace with a directory, a file and a link *)
Definition scan_fs : fs :=
  {[["w"] := NDir 493; ["w"; "d"] := NDir 448; ["w"; "d"; "x"] := NFile 420 "hello";
    ["w"; "l"] := NSymlink "d/x"]}.

(** A check for small trees *)
Lemma open_tree_check `{USER : User} f rcs :
  forallb (λ kv, match kv.2 with NDir mode => open_dir mode | _ => true end) (map_to_list f) = true →
  open_tree f rcs.
Proof.
  rewrite forallb_forall. intros Hall q q' mode (_ & Hn & _).
  apply (Hall (rcs ++ q, NDir mode)), list_elem_of_In. by apply elem_of_map_to_list.
Qed.

Definition scan_demo : result (WorkspaceManifest * files) :=
  @Scan stored_gzip (λ _, 4096%Z) (λ _, false) (λ _, None) 100 1024 scan_fs ∅ (abs_path ["w"]).
Definition scan_demo_result : WorkspaceManifest * files :=
  match scan_demo with Ok r => r | Err _ => (mkWorkspaceManifest "" [] 0 0 "", ∅) end.

Lemma ScanRoot_Scan_witness :
  @ScanRoot stored_gzip (λ _, 4096%Z) (λ _, false) (λ _, None) 100 1024 scan_fs ∅ ["w"] (abs_path ["w"])
    = Ok scan_demo_result ↔ scan_demo = Ok scan_demo_result.
Proof.
  apply (@ScanRoot_Scan stored_gzip (λ _, 4096%Z) (λ _, false) (λ _, None) 100 1024 scan_fs ∅ ["w"] scan_demo_result).
  - apply scan_root_check. vm_compute. reflexivity.
  - lia.
Defined.

(** The user of the witnesses is not root. *)
Definition ordinary : User := false.

Lemma Scan_Materialize_witness :
  collision ∨
  (@open_tree ordinary scan_fs ["w"] →
   ∃ g', @Materialize ordinary stored_gzip sample_fs scan_demo_result.2 (abs_path ["tmp"; "r"]) scan_demo_result.1
       = (g', Ok tt) ∧
    (∀ q, q ≠ [] → g' !! (["tmp"; "r"] ++ q) = rebuilt <$> scan_fs !! (["w"] ++ q)) ∧
    ∀ p, ¬ below ["tmp"; "r"] p ∨ p = ["tmp"; "r"] → g' !! p = sample_fs !! p) ∧
  (∀ q q' mode, holds_path scan_fs ["w"] q q' mode → @open_dir ordinary mode = false →
   ∃ g', @Materialize ordinary stored_gzip sample_fs scan_demo_result.2 (abs_path ["tmp"; "r"]) scan_demo_result.1
       = (g', Err ErrPermission)).
Proof.
  apply (@Scan_Materialize ordinary stored_gzip (λ _, 4096%Z) (λ _, false) (λ _, None) 100 1024 scan_fs ∅ ["w"]
    scan_demo_result.1 scan_demo_result.2 sample_fs ["tmp"; "r"]).
  - apply scan_root_check. vm_compute. reflexivity.
  - done.
  - lia.
  - vm_compute. reflexivity.
  - apply (bool_decide_unpack _). vm_compute. exact I.
  - apply closed_check. vm_compute. reflexivity.
  - exact sample_empty.
  - apply searchable_check. vm_compute. reflexivity.
  - vm_compute. reflexivity.
Defined.
