(* ===== verification/Oracle.v ===== *)
(** * Oracle: what counts as success

    Models [src/internal/oracle/oracle.go] ([Parse], [Evaluate]) and
    [src/internal/redact/redact.go].  Package [regexp] is the interface
    [Regexp] for user-supplied patterns; the fixed pattern [secretName] of the
    redaction is translated. *)

From S2P Require Import Prelude Sha256 Text Model Json Paths Fs.

(** package regexp: whether a pattern compiles, and what it matches *)
Class Regexp := {
  re_compile : string → option error;
  re_match : string → string → bool;
}.

(** regexp.MatchString *)
Definition MatchString `{!Regexp} (pattern s : string) : result bool :=
  match re_compile pattern with
  | Some err => Err err
  | None => Ok (re_match pattern s)
  end.

(** ** strconv.Atoi *)

Definition invalid_syntax : error := ErrMsg "invalid syntax".
Definition out_of_range : error := ErrMsg "value out of range".

Definition Atoi (s : string) : result Z :=
  let '(negative, digits) :=
    match s with
    | String c rest => if bool_decide (c = "-"%char) then (true, rest)
                       else if bool_decide (c = "+"%char) then (false, rest) else (false, s)
    | EmptyString => (false, s)
    end in
  fail? bool_decide (digits = EmptyString) with invalid_syntax in
  match digits_value 0 digits with
  | None => Err invalid_syntax
  | Some n =>
      let n := if (negative : bool) then (- n)%Z else n in
      fail? bool_decide (n < - 2 ^ 63)%Z || bool_decide (2 ^ 63 ≤ n)%Z with out_of_range in Ok n
  end.

Example Atoi_examples :
  Atoi "0" = Ok 0%Z ∧ Atoi "-17" = Ok (-17)%Z ∧ Atoi "+5" = Ok 5%Z ∧ Atoi "" = Err invalid_syntax ∧
  Atoi "1x" = Err invalid_syntax ∧ Atoi "9223372036854775808" = Err out_of_range.
Proof. by vm_compute. Qed.

(** ** Parse *)

Section oracle.
Context `{!Regexp}.

Definition Parse (value : string) : result Oracle :=
  if bool_decide (value = "timeout") then Ok (mkOracle "timeout" None "" "" "")
  else
    match cut value "=" with
    | None => Err (ErrMsg "oracle must be kind=value or timeout")
    | Some (kind, content) =>
        if bool_decide (kind = "exit") then
          let? code := Atoi content in Ok (mkOracle kind (Some code) "" "" "")
        else if bool_decide (kind = "stdout_regex") || bool_decide (kind = "stderr_regex") then
          match re_compile content with
          | Some err => Err err
          | None => Ok (mkOracle kind None content "" "")
          end
        else if bool_decide (kind = "file_digest") then
          match cut content ":sha256:" with
          | None => Err (ErrMsg "file_digest requires <relative-path>:sha256:<hex>")
          | Some (path, digest) =>
              fail? bool_decide (path = "") || negb (bool_decide (String.length digest = 64))
                with ErrMsg "file_digest requires <relative-path>:sha256:<hex>" in
              Ok (mkOracle kind None "" path digest)
          end
        else Err (ErrMsg ("unsupported oracle " +:+ kind))
    end.

(** ** Evaluate *)

Definition Evaluate (f : fs) (spec : Oracle) (res : ProcessResult) (workspace : string)
    : OracleResult :=
  let kind := Oracle_Kind spec in
  if bool_decide (kind = "exit") then
    match Oracle_ExpectedExitCode spec with
    | None => mkOracleResult false "expected exit code missing"
    | Some expected =>
        mkOracleResult
          (negb (ProcessResult_TimedOut res) && bool_decide (ProcessResult_ExitCode res = expected))
          ("exit=" +:+ show_Z (ProcessResult_ExitCode res) +:+ " expected=" +:+ show_Z expected)
    end
  else if bool_decide (kind = "timeout") then
    mkOracleResult (ProcessResult_TimedOut res) ("timed_out=" +:+ show_bool (ProcessResult_TimedOut res))
  else if bool_decide (kind = "stdout_regex") then
    match MatchString (Oracle_Pattern spec) (ProcessResult_Stdout res) with
    | Err err => mkOracleResult false (error_text err)
    | Ok matched => mkOracleResult matched "stdout regex evaluated"
    end
  else if bool_decide (kind = "stderr_regex") then
    match MatchString (Oracle_Pattern spec) (ProcessResult_Stderr res) with
    | Err err => mkOracleResult false (error_text err)
    | Ok matched => mkOracleResult matched "stderr regex evaluated"
    end
  else if bool_decide (kind = "file_digest") then
    match safeWorkspacePath workspace (Oracle_File spec) with
    | Err err => mkOracleResult false (error_text err)
    | Ok path =>
        match ReadFile f path with
        | Err err => mkOracleResult false (error_text err)
        | Ok content =>
            let actual := sha256_hex content in
            mkOracleResult (bool_decide (actual = Oracle_Digest spec)) ("file sha256=" +:+ actual)
        end
    end
  else mkOracleResult false "unsupported oracle".
End oracle.

(** ** Redaction *)

Definition lower (c : ascii) : ascii :=
  if is_upper c then ascii_of_N (N_of_ascii c + 32) else c.
Fixpoint string_lower (s : string) : string :=
  match s with EmptyString => EmptyString | String c s => String (lower c) (string_lower s) end.

(** The pattern [secretName]: case-insensitive, unanchored alternatives.
    Go's case folding also accepts the long s and the Kelvin sign for s and
    k; names with these characters are not translated. *)
Definition secretName (name : string) : bool :=
  let name := string_lower name in
  existsb (contains name)
    ["secret"; "token"; "password"; "passwd"; "apikey"; "api_key"; "api-key"; "privatekey";
     "private_key"; "private-key"; "authorization"; "cookie"; "credential"; "session"].

Definition hmacFingerprint (key value : string) : string :=
  string_take 24 (EncodeToString (hmac_sha256 key value)).

Arguments hmacFingerprint : simpl never.
Arguments secretName : simpl never.

(** The [range] over the map sees each name once, in some order; the evidence
    is sorted afterwards. *)
Definition redact_one (key : string) (acc : gmap string string * list SecretEvidence)
    (entry : string * string) : gmap string string * list SecretEvidence :=
  let '(result, evidence) := acc in
  let '(name, value) := entry in
  if secretName name then
    let fingerprint := hmacFingerprint key value in
    (<[name := "redacted:hmac:" +:+ fingerprint]> result,
     evidence ++ [mkSecretEvidence name fingerprint])
  else (<[name := value]> result, evidence).

Definition redact_environment (values : gmap string string) (key : string)
    : gmap string string * list SecretEvidence :=
  let '(result, evidence) := foldl (redact_one key) (∅, []) (map_to_list values) in
  (result, sort_by Secret_Name evidence).

(** ** Properties *)

Lemma string_app_inj_l p s1 s2 : p +:+ s1 = p +:+ s2 → s1 = s2.
Proof. induction p as [|c p IH]; [done|]. rewrite !string_app_cons. intros [=]. by apply IH. Qed.

Lemma cut_spec sep s before after : cut s sep = Some (before, after) → s = before +:+ sep +:+ after.
Proof.
  assert (∀ s, has_prefix s sep = true → s = sep +:+ string_drop (String.length sep) s) as Hp.
  { intros s' (t & ->)%has_prefix_true. by rewrite string_drop_app. }
  revert before after. induction s as [|c s IH]; intros before after; cbn [cut].
  - destruct (has_prefix "" sep) eqn:Hpre; [|done]. intros [= <- <-]. by apply Hp.
  - destruct (has_prefix (String c s) sep) eqn:Hpre; [intros [= <- <-]; by apply Hp|].
    destruct (cut s sep) as [[b a]|]; [|done]. intros [= <- <-].
    rewrite string_app_cons. f_equal. by apply IH.
Qed.

(** What the text of an oracle means, for a process result and a workspace *)
Definition oracle_meaning `{!Regexp} (value : string) (f : fs) (res : ProcessResult)
    (workspace : string) : Prop :=
  (value = "timeout" ∧ ProcessResult_TimedOut res = true) ∨
  (∃ n, value = "exit=" +:+ n ∧ ProcessResult_TimedOut res = false ∧
     Atoi n = Ok (ProcessResult_ExitCode res)) ∨
  (∃ p, value = "stdout_regex=" +:+ p ∧ re_match p (ProcessResult_Stdout res) = true) ∨
  (∃ p, value = "stderr_regex=" +:+ p ∧ re_match p (ProcessResult_Stderr res) = true) ∨
  (∃ path p content, value = "file_digest=" +:+ path +:+ ":sha256:" +:+ sha256_hex content ∧
     safeWorkspacePath workspace path = Ok p ∧ ReadFile f p = Ok content ∧
     cut (path +:+ ":sha256:" +:+ sha256_hex content) ":sha256:" = Some (path, sha256_hex content)).

Section parse.
Context `{!Regexp}.

(** The kinds of oracle, one at a time: what [Parse] makes of the text. *)
Lemma Parse_inv value o : Parse value = Ok o →
  (value = "timeout" ∧ o = mkOracle "timeout" None "" "" "") ∨
  ∃ kind content, value = kind +:+ "=" +:+ content ∧ cut value "=" = Some (kind, content) ∧
    ((kind = "exit" ∧ ∃ n, Atoi content = Ok n ∧ o = mkOracle "exit" (Some n) "" "" "") ∨
     (kind = "stdout_regex" ∧ re_compile content = None ∧ o = mkOracle kind None content "" "") ∨
     (kind = "stderr_regex" ∧ re_compile content = None ∧ o = mkOracle kind None content "" "") ∨
     (kind = "file_digest" ∧ ∃ path digest, cut content ":sha256:" = Some (path, digest) ∧
        String.length digest = 64 ∧ o = mkOracle kind None "" path digest)).
Proof.
  unfold Parse. case_bool_decide as Ht; [intros [= <-]; by left|].
  destruct (cut value "=") as [[kind content]|] eqn:Hcut; [|done]. intros Hp.
  right. exists kind, content. split; [by apply cut_spec in Hcut|]. split; [done|]. revert Hp.
  destruct (bool_decide (kind = "exit")) eqn:H1.
  { apply bool_decide_eq_true in H1 as ->. destruct (Atoi content) as [n|]; [|done].
    intros [= <-]. left. eauto. }
  destruct (bool_decide (kind = "stdout_regex")) eqn:H2; cbn [orb].
  { apply bool_decide_eq_true in H2 as ->. destruct (re_compile content); [done|].
    intros [= <-]. right; left. auto. }
  destruct (bool_decide (kind = "stderr_regex")) eqn:H3; cbn [orb].
  { apply bool_decide_eq_true in H3 as ->. destruct (re_compile content); [done|].
    intros [= <-]. right; right; left. auto. }
  destruct (bool_decide (kind = "file_digest")) eqn:H4; [|done].
  apply bool_decide_eq_true in H4 as ->.
  destruct (cut content ":sha256:") as [[path digest]|]; [|done].
  destruct (bool_decide (path = "")); [done|]. cbn [orb].
  destruct (bool_decide (String.length digest = 64)) eqn:Hlen; [|done].
  apply bool_decide_eq_true in Hlen. intros [= <-]. right; right; right. eauto 10.
Qed.

(** Texts with different kinds are different. *)
Lemma cut_exit n : cut ("exit=" +:+ n) "=" = Some ("exit", n).
Proof. by apply (cut_byte_app "=" "exit" n). Qed.
Lemma cut_stdout n : cut ("stdout_regex=" +:+ n) "=" = Some ("stdout_regex", n).
Proof. by apply (cut_byte_app "=" "stdout_regex" n). Qed.
Lemma cut_stderr n : cut ("stderr_regex=" +:+ n) "=" = Some ("stderr_regex", n).
Proof. by apply (cut_byte_app "=" "stderr_regex" n). Qed.
Lemma cut_file n : cut ("file_digest=" +:+ n) "=" = Some ("file_digest", n).
Proof. by apply (cut_byte_app "=" "file_digest" n). Qed.

(** The meaning of a text, by its kind *)
Lemma meaning_kind value kind content f res ws :
  cut value "=" = Some (kind, content) →
  oracle_meaning value f res ws ↔
    (kind = "exit" ∧ ProcessResult_TimedOut res = false ∧
       Atoi content = Ok (ProcessResult_ExitCode res)) ∨
    (kind = "stdout_regex" ∧ re_match content (ProcessResult_Stdout res) = true) ∨
    (kind = "stderr_regex" ∧ re_match content (ProcessResult_Stderr res) = true) ∨
    (kind = "file_digest" ∧ ∃ path p text, cut content ":sha256:" = Some (path, sha256_hex text) ∧
       safeWorkspacePath ws path = Ok p ∧ ReadFile f p = Ok text).
Proof.
  intros Hcut. pose proof (cut_spec _ _ _ _ Hcut) as Hv. unfold oracle_meaning. split.
  - intros [[-> _]|[(n & -> & ? & ?)|[(p & -> & ?)|[(p & -> & ?)|(path & p & text & -> & ? & ? & ?)]]]].
    + vm_compute in Hcut. discriminate.
    + rewrite cut_exit in Hcut. simplify_eq. left. auto.
    + rewrite cut_stdout in Hcut. simplify_eq. right; left. auto.
    + rewrite cut_stderr in Hcut. simplify_eq. right; right; left. auto.
    + rewrite cut_file in Hcut. simplify_eq. do 3 right. eauto 10.
  - intros [(-> & ? & ?)|[(-> & ?)|[(-> & ?)|(-> & path & p & text & Hc & ? & ?)]]].
    + right; left. exists content. split_and!; [exact Hv|done|done].
    + right; right; left. exists content. split; [exact Hv|done].
    + right; right; right; left. exists content. split; [exact Hv|done].
    + do 4 right. exists path, p, text. pose proof (cut_spec _ _ _ _ Hc) as ->.
      split_and!; [exact Hv|done..].
Qed.
End parse.

(** An accepted oracle decides what its text says: for every text that
    [Parse] accepts, [Evaluate] passes a process result and workspace exactly
    when the text's condition holds - the exit code of a process that did not
    time out, the time-out, the pattern on the named stream, or the digest of
    the named file of the workspace. *)
Theorem Evaluate_Parse `{!Regexp} value o f res workspace (Hparse : Parse value = Ok o) :
  OracleResult_Passed (Evaluate f o res workspace) = true ↔ oracle_meaning value f res workspace.
Proof.
  apply Parse_inv in Hparse as [[-> ->]|(kind & content & Hv & Hcut & Hkind)].
  { cbn. split; [intros; left; done|].
    intros [[_ ?]|[(? & [=] & _)|[(? & [=] & _)|[(? & [=] & _)|(? & ? & ? & [=] & _)]]]]. done. }
  rewrite (meaning_kind value kind content) by done.
  destruct Hkind as [(-> & n & Hn & ->)|[(-> & Hre & ->)|[(-> & Hre & ->)|(-> & path & digest & Hc & Hlen & ->)]]].
  - unfold Evaluate; cbn. rewrite Hn. split.
    + intros [?%negb_true_iff ->%bool_decide_eq_true]%andb_prop. by left.
    + intros [(_ & -> & [= ->])|[([=] & _)|[([=] & _)|([=] & _)]]]. cbn. by apply bool_decide_eq_true.
  - unfold Evaluate; cbn. unfold MatchString. rewrite Hre. cbn. split; [by right; left|].
    by intros [([=] & _)|[(_ & ->)|[([=] & _)|([=] & _)]]].
  - unfold Evaluate; cbn. unfold MatchString. rewrite Hre. cbn. split; [by right; right; left|].
    by intros [([=] & _)|[([=] & _)|[(_ & ->)|([=] & _)]]].
  - unfold Evaluate; cbn. rewrite Hc. split.
    + destruct (safeWorkspacePath workspace path) as [p|] eqn:Hp; cbn; [|done].
      destruct (ReadFile f p) as [text|] eqn:Hf; cbn; [|done].
      intros <-%bool_decide_eq_true. do 3 right. eauto 10.
    + intros [([=] & _)|[([=] & _)|[([=] & _)|(_ & path' & p & text & [= <- ->] & -> & ->)]]].
      cbn. by apply bool_decide_eq_true.
Qed.

Lemma redact_loop_spec key values : ∀ acc,
  NoDup values.*1 → (∀ name, name ∈ values.*1 → name ∉ Secret_Name <$> acc.2) →
  let '(result, evidence) := foldl (redact_one key) acc values in
  (∀ name, name ∉ values.*1 → result !! name = acc.1 !! name) ∧
  (∀ name value, (name, value) ∈ values → result !! name =
     Some (if secretName name then "redacted:hmac:" +:+ hmacFingerprint key value else value)) ∧
  evidence = acc.2 ++ ((λ nv, mkSecretEvidence nv.1 (hmacFingerprint key nv.2)) <$>
                       filter (λ nv, secretName nv.1 = true) values).
Proof.
  induction values as [|[name value] values IH]; intros [result evidence] Hnd Hnot; cbn [foldl].
  { split_and!; [done|intros ? ? []%elem_of_nil|by rewrite app_nil_r]. }
  cbn in Hnd. apply NoDup_cons in Hnd as [Hname Hnd].
  destruct (redact_one key (result, evidence) (name, value)) as [result1 evidence1] eqn:Hone.
  assert (evidence1 = evidence ++ (if secretName name
    then [mkSecretEvidence name (hmacFingerprint key value)] else []) ∧
    result1 = <[name := if secretName name then "redacted:hmac:" +:+ hmacFingerprint key value
                        else value]> result) as [He Hr].
  { revert Hone. unfold redact_one. destruct (secretName name); intros [= <- <-];
      by rewrite ?app_nil_r. }
  specialize (IH (result1, evidence1) Hnd). destruct (foldl _ _ _) as [result2 evidence2].
  destruct IH as (Hout & Hin & Hev).
  { intros n Hn. cbn. rewrite He, fmap_app, elem_of_app. intros [Hx|Hx].
    - revert Hx. apply Hnot. cbn. by right.
    - destruct (secretName name); cbn in Hx; [|by apply elem_of_nil in Hx].
      apply list_elem_of_singleton in Hx as ->. done. }
  cbn in Hout, Hev. split_and!.
  - intros n Hn. cbn in Hn. rewrite Hout by set_solver. rewrite Hr. cbn.
    rewrite lookup_insert_ne by set_solver. done.
  - intros n v [Heq|Hx]%elem_of_cons; [|by apply Hin]. injection Heq as -> ->.
    rewrite Hout by done. rewrite Hr. apply lookup_insert_eq.
  - rewrite Hev, He. cbn [snd]. rewrite filter_cons. cbn [fst].
    destruct (secretName name); [rewrite decide_True by done|rewrite decide_False by done].
    + by rewrite <-app_assoc.
    + by rewrite app_nil_r.
Qed.

(** Redaction leaves no secret value: in the redacted environment exactly
    the names that look secret carry a marked fingerprint instead of their
    value, all other variables are unchanged, and the evidence lists each
    secret name once, in order, with the fingerprint of its value. *)
Theorem redact_environment_spec values key :
  let '(result, evidence) := redact_environment values key in
  (∀ name, result !! name =
     (λ value, if secretName name then "redacted:hmac:" +:+ hmacFingerprint key value else value)
       <$> values !! name) ∧
  (∀ name value, secretName name = true → result !! name = Some value → IsRedactedValue value = true) ∧
  StronglySorted (key_le Secret_Name) evidence ∧ NoDup (Secret_Name <$> evidence) ∧
  ∀ ev, ev ∈ evidence ↔ ∃ value, values !! Secret_Name ev = Some value ∧
    secretName (Secret_Name ev) = true ∧ Secret_Fingerprint ev = hmacFingerprint key value.
Proof.
  unfold redact_environment.
  pose proof (redact_loop_spec key (map_to_list values) (∅, [])
    (NoDup_fst_map_to_list values) ltac:(cbn; intros; apply not_elem_of_nil)) as Hspec.
  destruct (foldl _ _ _) as [result evidence]. destruct Hspec as (Hout & Hin & ->). cbn [app snd fst] in *.
  assert (∀ name, result !! name =
     (λ value, if secretName name then "redacted:hmac:" +:+ hmacFingerprint key value else value)
       <$> values !! name) as Hres.
  { intros name. destruct (values !! name) as [value|] eqn:Hv; cbn.
    - apply Hin. by apply elem_of_map_to_list.
    - rewrite Hout; [apply lookup_empty|].
      intros ([n v] & -> & Hnv%elem_of_map_to_list)%list_elem_of_fmap. cbn in Hv. congruence. }
  split_and!.
  - done.
  - intros name value Hs. rewrite Hres, Hs. destruct (values !! name); cbn; [|done].
    intros [= <-]. unfold IsRedactedValue. apply has_prefix_app.
  - apply sort_by_sorted.
  - rewrite sort_by_perm. rewrite <-list_fmap_compose.
    eapply (sublist_NoDup _ (map_to_list values).*1); [apply NoDup_fst_map_to_list|].
    clear. induction (map_to_list values) as [|[n v] l IH]; [done|]. rewrite filter_cons.
    case_decide; cbn; [by apply sublist_skip|by apply sublist_cons].
  - intros [name fp]. rewrite elem_of_sort_by, list_elem_of_fmap. cbn. split.
    + intros ([n v] & Heq & [Hs Hnv%elem_of_map_to_list]%list_elem_of_filter). 
      cbn in Hs, Hnv. injection Heq as -> ->. exists v. auto.
    + intros (value & Hv & Hs & ->). exists (name, value). split; [done|].
      apply list_elem_of_filter. split; [done|]. by apply elem_of_map_to_list.
Qed.

(** ** Witnesses *)

Definition literal_regexp : Regexp := {| re_compile _ := None; re_match p s := contains s p |}.

Lemma Evaluate_Parse_witness :
  let res := mkProcessResult 3 "" false 0 0 0 "" "" false [] [] in
  OracleResult_Passed (@Evaluate literal_regexp ∅ (mkOracle "exit" (Some 3%Z) "" "" "") res "/w") = true ↔
  @oracle_meaning literal_regexp "exit=3" ∅ res "/w".
Proof.
  apply (@Evaluate_Parse literal_regexp "exit=3" (mkOracle "exit" (Some 3%Z) "" "" "") ∅).
  vm_compute. reflexivity.
Defined.
