(* ===== verification/Runner.v ===== *)
(** * Runner: running the command

    Models [src/internal/runner/runner.go]: [Run], the bounded output buffer
    [limitedBuffer], the translation of the way a process ends, and the
    binding of a run to an open executable and directory.  What the process
    does and how its run ends, and what the kernel says about an open file, are
    arguments; the two ways to run it are modelled on their own, [startAndWait]
    in [Wait] and [runTraced] in [Tracer]. *)

From S2P Require Import Prelude Sha256 Model Json Compare.

(** ** limitedBuffer *)

Record limitedBuffer := mkBuffer {
  buffer_content : string;
  buffer_remaining : Z;
  buffer_truncated : bool;
}.

Definition newLimitedBuffer (limit : Z) : limitedBuffer := mkBuffer "" limit false.

(** The number of bytes reported is always [len(content)]. *)
Definition Write (b : limitedBuffer) (content : string) : limitedBuffer :=
  if bool_decide (buffer_remaining b ≤ 0)%Z
  then mkBuffer (buffer_content b) (buffer_remaining b) true
  else
    let over := bool_decide (buffer_remaining b < Z.of_nat (String.length content))%Z in
    let content := if over then string_take (Z.to_nat (buffer_remaining b)) content else content in
    mkBuffer (buffer_content b +:+ content)
      (buffer_remaining b - Z.of_nat (String.length content)) (buffer_truncated b || over).

Definition write_all (limit : Z) (chunks : list string) : limitedBuffer :=
  foldl Write (newLimitedBuffer limit) chunks.

(** ** How a run ends *)

Inductive run_error :=
  | RunExit (code : Z)                        (** *exec.ExitError, exited *)
  | RunSignaled (signal : string)             (** *exec.ExitError, killed by a signal *)
  | RunTraced (code : Z) (signal : string)    (** tracedExitError *)
  | RunDeadline                               (** context.DeadlineExceeded *)
  | RunCanceled                               (** context.Canceled *)
  | RunFailed (message : string).             (** the process could not be started or traced *)

#[export] Instance run_error_eq_dec : EqDecision run_error.
Proof. solve_decision. Defined.

(** Both ExitError and tracedExitError have a method [ExitCode]; for a
    signalled process the former returns -1. *)
Definition exitCode (err : option run_error) : Z :=
  match err with
  | None => 0
  | Some (RunExit code) => code
  | Some (RunTraced code _) => code
  | Some _ => -1
  end.

Definition signalName (err : option run_error) : string :=
  match err with
  | Some (RunSignaled signal) => signal
  | Some (RunTraced _ signal) => signal
  | _ => ""
  end.

Definition traced_exit (err : run_error) : bool :=
  match err with RunTraced _ _ => true | _ => false end.

Definition show_run_error (err : run_error) : string :=
  match err with
  | RunExit code => "exit status " +:+ show_Z code
  | RunSignaled signal => "signal: " +:+ signal
  | RunTraced code signal =>
      if bool_decide (signal = "") then "process exited with code " +:+ show_Z code
      else "process terminated by " +:+ signal
  | RunDeadline => "context deadline exceeded"
  | RunCanceled => "context canceled"
  | RunFailed message => message
  end.

(** One run of the process: the chunks it wrote and how it ended *)
Record outcome := mkOutcome {
  out_stdout : list string;
  out_stderr : list string;
  out_error : option run_error;
}.

(** [runTraced] also returns the paths and boundaries it has seen. *)
Record traced_outcome := mkTraced {
  tr_outcome : outcome;
  tr_consulted : list string;
  tr_boundaries : list string;
}.

(** ** Execution bindings *)

(** fstat(2) *)
Record file_status := mkStatus {
  status_Device : Z;
  status_Inode : Z;
  status_Size : Z;
  status_Mode : Z;
  status_UID : Z;
  status_GID : Z;
  status_ModTimeNS : Z;
  status_ChangeNS : Z;
}.

Record FileIdentity := mkFileIdentity {
  Identity_Device : Z;
  Identity_Inode : Z;
  Identity_Size : Z;
  Identity_Mode : Z;
  Identity_UID : Z;
  Identity_GID : Z;
  Identity_ModTimeNS : Z;
  Identity_ChangeNS : Z;
  Identity_Digest : string;
}.

#[export] Instance FileIdentity_eq_dec : EqDecision FileIdentity.
Proof. solve_decision. Defined.

(** What the kernel says about an open file at one moment: the link
    [/proc/self/fd/<n>], the content that is read, and the status *)
Record fd_view := mkView {
  view_link : result string;
  view_content : result string;
  view_status : result file_status;
}.

(** A descriptor that is not open *)
Definition no_view : fd_view := mkView (Err ErrNotExist) (Err ErrNotExist) (Err ErrNotExist).

Definition fd_path (fd : Z) : string := "/proc/self/fd/" +:+ show_Z fd.

(** Files are given by their descriptors; [None] is a nil pointer. *)
Record ExecutionBinding := mkBinding {
  Binding_ExecutableFile : option Z;
  Binding_DirectoryFile : option Z;
  Binding_ExecutablePath : string;
  Binding_DirectoryPath : string;
  Binding_Identity : FileIdentity;
}.

Definition Identity (view : fd_view) : result FileIdentity :=
  let? content := view_content view in
  let? stat := view_status view in
  Ok (mkFileIdentity (status_Device stat) (status_Inode stat) (status_Size stat) (status_Mode stat)
        (status_UID stat) (status_GID stat) (status_ModTimeNS stat) (status_ChangeNS stat)
        (sha256_hex content)).

Definition err_incomplete : error := ErrMsg "execution binding is incomplete".
Definition err_changed : error := ErrMsg "authorized executable changed before execution".
Definition err_path_changed : error := ErrMsg "authorized execution path changed".

Definition validateBinding (views : Z → fd_view) (binding : ExecutionBinding) : result unit :=
  match Binding_ExecutableFile binding, Binding_DirectoryFile binding with
  | Some executable, Some directory =>
      let? identity := Identity (views executable) in
      fail? negb (bool_decide (identity = Binding_Identity binding)) with err_changed in
      let? resolvedExecutable := view_link (views executable) in
      let? resolvedDirectory := view_link (views directory) in
      fail? negb (bool_decide (resolvedExecutable = Binding_ExecutablePath binding)) ||
            negb (bool_decide (resolvedDirectory = Binding_DirectoryPath binding)) with err_path_changed in
      Ok tt
  | _, _ => Err err_incomplete
  end.

(** ** Run *)

Record run_request := mkRunRequest {
  Run_Command : list string;
  Run_Directory : string;
  Run_Environment : list string;
  Run_Timeout : Z;
  Run_MaxOutputBytes : Z;
  Run_Trace : bool;
  Run_Executable : option ExecutionBinding;
}.

(** The process that [newCommand] prepares: the program, the arguments after
    its name, the directory, the environment, and the descriptors it inherits
    as 3 and 4 *)
Record process_start := mkStart {
  Start_Path : string;
  Start_Arguments : list string;
  Start_Directory : string;
  Start_Environment : list string;
  Start_Files : list (option Z);
}.

Definition newCommand (r : run_request) : process_start :=
  match Run_Executable r with
  | None =>
      mkStart (default "" (head (Run_Command r))) (tail (Run_Command r)) (Run_Directory r) (Run_Environment r) []
  | Some binding =>
      mkStart "/proc/self/fd/3" (tail (Run_Command r)) (fd_path (default 0%Z (Binding_DirectoryFile binding)))
        (Run_Environment r) [Binding_ExecutableFile binding; Binding_DirectoryFile binding]
  end.

(** The world of one call: what the kernel says about open files, whether the
    native tracer can be used, what the runs do, and the clock. *)
Record run_io := mkRunIO {
  rio_views : Z → fd_view;
  rio_tracer : bool;
  rio_traced : traced_outcome;
  rio_basic : outcome;
  rio_started : time;
  rio_finished : time;
}.

Definition default_timeout (r : run_request) : Z :=
  if bool_decide (Run_Timeout r ≤ 0)%Z then 2 * Minute else Run_Timeout r.
Definition default_output (r : run_request) : Z :=
  if bool_decide (Run_MaxOutputBytes r ≤ 0)%Z then 8 * 2 ^ 20 else Run_MaxOutputBytes r.

(** A tracer that failed, rather than the process it traced *)
Definition tracer_failure (io : run_io) (r : run_request) : option run_error :=
  if Run_Trace r && rio_tracer io then
    match out_error (tr_outcome (rio_traced io)) with
    | Some err => if negb (traced_exit err) && negb (bool_decide (err = RunDeadline)) then Some err else None
    | None => None
    end
  else None.

(** What was run, with the traced paths and boundaries: a failing tracer is
    replaced by a second, untraced run. *)
Definition run_choice (io : run_io) (r : run_request) : outcome * list string * list string :=
  if Run_Trace r && rio_tracer io then
    let t := rio_traced io in
    match tracer_failure io r with
    | Some err =>
        (rio_basic io, [],
         tr_boundaries t ++ ["native syscall tracing failed; basic capture rerun used: " +:+ show_run_error err])
    | None => (tr_outcome t, tr_consulted t, tr_boundaries t)
    end
  else
    (rio_basic io, [],
     if Run_Trace r then ["native syscall tracing unavailable; basic capture used"] else []).

Definition is_deadline (err : option run_error) : bool := bool_decide (err = Some RunDeadline).

(** Whether the binding of a request is refused *)
Definition binding_refused (io : run_io) (r : run_request) : option error :=
  match Run_Executable r with
  | None => None
  | Some binding => match validateBinding (rio_views io) binding with Ok _ => None | Err err => Some err end
  end.

(** The processes started, and what [Run] returns.
    [uniqueSorted] of runner.go is the one of compare.go. *)
Definition run_course (io : run_io) (r : run_request) :
    list process_start * (option ProcessResult * option run_error) :=
  if bool_decide (Run_Command r = []) then ([], (None, Some (RunFailed "command is required")))
  else
    match binding_refused io r with
    | Some err => ([], (None, Some (RunFailed (error_text err))))
    | None =>
        let '(o, consulted, boundaries) := run_choice io r in
        let stdout := write_all (default_output r) (out_stdout o) in
        let stderr := write_all (default_output r) (out_stderr o) in
        let runErr := out_error o in
        (newCommand r :: (if tracer_failure io r is Some _ then [newCommand r] else []),
         (Some (mkProcessResult (exitCode runErr) (signalName runErr) (is_deadline runErr)
                 (rio_started io) (rio_finished io)
                 ((rio_finished io - rio_started io) / 1000000)
                 (buffer_content stdout) (buffer_content stderr)
                 (buffer_truncated stdout || buffer_truncated stderr)
                 (uniqueSorted consulted) (uniqueSorted boundaries)),
          if is_deadline runErr then Some RunDeadline else runErr))
    end.

Definition Run (io : run_io) (r : run_request) : option ProcessResult * option run_error := (run_course io r).2.
Definition run_starts (io : run_io) (r : run_request) : list process_start := (run_course io r).1.

(** The error that a caller of [Run] sees *)
Definition run_failure (err : run_error) : error :=
  match err with
  | RunDeadline => ErrDeadlineExceeded
  | RunCanceled => ErrCanceled
  | err => ErrMsg (show_run_error err)
  end.

(** ** Properties *)

(** All the bytes written *)
Definition written (chunks : list string) : string := foldr (λ c rest, c +:+ rest) "" chunks.

Lemma written_snoc chunks c : written (chunks ++ [c]) = written chunks +:+ c.
Proof.
  unfold written. induction chunks as [|d chunks IH]; cbn [app foldr]; [by rewrite string_app_nil_r|].
  by rewrite IH, string_app_assoc.
Qed.

(** The output buffer holds exactly the first [limit] bytes of what was
    written, however it was split into writes, and says it is truncated
    exactly when more than [limit] bytes were written. *)
Theorem limitedBuffer_prefix limit chunks
    (Hlimit : (0 < limit)%Z) (Hchunks : Forall (λ c, c ≠ "") chunks) :
  let b := write_all limit chunks in
  buffer_content b = string_take (Z.to_nat limit) (written chunks) ∧
  buffer_truncated b = bool_decide (limit < Z.of_nat (String.length (written chunks)))%Z ∧
  buffer_remaining b = (limit - Z.of_nat (String.length (buffer_content b)))%Z.
Proof.
  unfold write_all. induction chunks as [|c chunks IH] using rev_ind.
  { cbn. rewrite bool_decide_eq_false_2 by lia. split_and!; [|done|lia]. by destruct (Z.to_nat limit). }
  apply Forall_app in Hchunks as [Hchunks [Hc _]%Forall_cons].
  rewrite foldl_app. cbn [foldl]. destruct (IH Hchunks) as (Hcont & Htrunc & Hrem).
  set (b := foldl Write _ chunks) in *. clearbody b. clear IH.
  rewrite written_snoc, string_take_app, string_length_append. rewrite Hcont, string_length_take in Hrem.
  assert (0 < String.length c) by (destruct c; [done|cbn; lia]).
  set (w := String.length (written chunks)) in *. unfold Write. rewrite Htrunc.
  destruct (decide (buffer_remaining b ≤ 0)%Z) as [Hfull|Hfull];
    [rewrite (bool_decide_eq_true_2 (_ ≤ _)%Z) by done
    |rewrite (bool_decide_eq_false_2 (_ ≤ _)%Z) by done];
    cbn [buffer_content buffer_truncated buffer_remaining]; rewrite ?Hcont.
  - replace (Z.to_nat limit - w) with 0 by lia. cbn [string_take].
    rewrite string_app_nil_r, string_length_take, bool_decide_eq_true_2 by lia. fold w.
    split_and!; [done|done|lia].
  - rewrite (bool_decide_eq_false_2 (limit < _)%Z) by lia. cbn [orb].
    rewrite string_length_append, string_length_take. fold w.
    destruct (decide (buffer_remaining b < Z.of_nat (String.length c))%Z) as [Hover|Hover];
      [rewrite !bool_decide_eq_true_2 by lia|rewrite !bool_decide_eq_false_2 by lia].
    + rewrite string_length_take.
      replace (Z.to_nat (buffer_remaining b)) with (Z.to_nat limit - w) by lia.
      split_and!; [done|done|lia].
    + rewrite (string_take_ge _ c) by lia. split_and!; [done|done|lia].
Qed.

(** A run is observed exactly when it could be started: with a command
    and an intact binding there is always a result; the error returned is the
    way the chosen run ended, a time-out is recorded if and only if the
    deadline ended it, success gives exit code 0 and no signal, a process that
    could not be started exit code -1, and without tracing the basic run is
    the one observed. *)
Theorem Run_observes io r :
  match Run io r with
  | (None, err) => (Run_Command r = [] ∨ is_Some (binding_refused io r)) ∧ is_Some err
  | (Some result, err) =>
      Run_Command r ≠ [] ∧ binding_refused io r = None ∧
      err = out_error (run_choice io r).1.1 ∧
      (ProcessResult_TimedOut result = true ↔ err = Some RunDeadline) ∧
      (err = None → ProcessResult_ExitCode result = 0%Z ∧ ProcessResult_Signal result = "") ∧
      (∀ m, err = Some (RunFailed m) → ProcessResult_ExitCode result = (-1)%Z) ∧
      (Run_Trace r = false → out_error (rio_basic io) = err ∧ ProcessResult_ConsultedPaths result = [])
  end.
Proof.
  unfold Run, run_course. case_bool_decide as Hcmd; [cbn; by eauto|].
  destruct (binding_refused io r) as [e|] eqn:Hb; [cbn; by eauto|].
  destruct (run_choice io r) as [[o consulted] boundaries] eqn:Hc. cbn.
  assert ((if is_deadline (out_error o) then Some RunDeadline else out_error o) = out_error o) as ->.
  { unfold is_deadline. by case_bool_decide. }
  split_and!; try done.
  - unfold is_deadline. by rewrite bool_decide_eq_true.
  - by intros ->.
  - by intros m ->.
  - intros Ht. unfold run_choice in Hc. rewrite Ht in Hc. cbn in Hc. by simplify_eq.
Qed.

(** ** Witnesses *)

Lemma limitedBuffer_prefix_witness :
  let b := write_all 5 ["abc"; "def"; "g"] in
  buffer_content b = "abcde" ∧ buffer_truncated b = true ∧ buffer_remaining b = 0%Z.
Proof.
  apply (limitedBuffer_prefix 5 ["abc"; "def"; "g"]).
  - lia.
  - repeat constructor; discriminate.
Defined.
