(* ===== verification/Wait.v ===== *)
(** * Wait: the untraced run of a process

    Models [startAndWait] of [src/internal/runner/runner.go]: the command in a process group of its own, what it and its
    descendants do meanwhile, the goroutine in [command.Wait], and the group that
    is killed when the context ends.

    [command.Wait] returns when the command has ended and its two output pipes
    are at their end, that is when no living process has one of them open: the
    command is started without a [WaitDelay].  The processes are the living ones;
    the two pipes count as one.  A process that is killed does nothing more.
    [Runner.Run] takes the result of this wait as an answer of the machine. *)
From S2P Require Import Prelude Runner.

Record process := mkProcess {
  proc_group : Z;
  proc_output : bool;       (** has an end of the output pipes open *)
  proc_killable : bool;     (** the runner may send it a signal *)
}.

Record wait_state := mkWait {
  wait_processes : gmap Z process;
  wait_exit : option (option run_error);       (** how the command ended *)
  wait_context : option run_error;             (** [ctx.Err()] *)
  wait_killed : bool;                          (** the select took [ctx.Done()] *)
  wait_returned : option (option run_error);   (** what the function returned *)
}.

(** What can happen: something that the processes do, the end of the context, or
    a turn of the function itself.  When both cases of the select are ready, Go
    takes either. *)
Inductive wait_event :=
  | Fork (parent child : Z)
  | JoinGroup (pid group : Z)             (** setsid, setpgid *)
  | ChangeUser (pid : Z)                  (** a set-user-ID program *)
  | CloseOutput (pid : Z)
  | PassOutput (from to : Z)
  | Exit (pid : Z) (status : option run_error)
  | ContextEnds (err : run_error)
  | Turn (context_first : bool).

Section wait.
Context (command : Z).

Definition with_processes (s : wait_state) (processes : gmap Z process) : wait_state :=
  mkWait processes (wait_exit s) (wait_context s) (wait_killed s) (wait_returned s).
Definition change (s : wait_state) (pid : Z) (f : process → process) : wait_state :=
  with_processes s (alter f pid (wait_processes s)).

(** [Setpgid]: the command starts as the leader of its own group. *)
Definition started : wait_state :=
  mkWait {[command := mkProcess command true true]} None None false None.

(** *** Signals *)

Definition reached (p : process) : bool := bool_decide (proc_group p = command) && proc_killable p.

(** [syscall.Kill(-pid, SIGKILL)] *)
Definition kill_group (s : wait_state) : wait_state :=
  mkWait (filter (λ '(_, p), reached p = false) (wait_processes s))
    match wait_processes s !! command with
    | Some p => if reached p then Some (Some (RunSignaled "killed")) else wait_exit s
    | None => wait_exit s
    end
    (wait_context s) true (wait_returned s).

(** *** [command.Wait] *)

Definition silent (s : wait_state) : Prop := map_Forall (λ _ p, proc_output p = false) (wait_processes s).

#[local] Instance silent_dec s : Decision (silent s).
Proof. unfold silent. apply _. Defined.

(** The error of [command.Wait], once it returns *)
Definition Wait (s : wait_state) : option (option run_error) :=
  match wait_exit s with
  | Some err => if bool_decide (silent s) then Some err else None
  | None => None
  end.

(** *** The function *)

Definition return_with (s : wait_state) (err : option run_error) : wait_state :=
  mkWait (wait_processes s) (wait_exit s) (wait_context s) (wait_killed s) (Some err).

Definition wait_turn (context_first : bool) (s : wait_state) : wait_state :=
  match wait_returned s with
  | Some _ => s
  | None =>
      if wait_killed s then
        match Wait s, wait_context s with
        | Some _, Some err => return_with s (Some err)
        | _, _ => s
        end
      else
        match Wait s, wait_context s with
        | Some err, None => return_with s err
        | None, Some _ => kill_group s
        | Some err, Some _ => if context_first then kill_group s else return_with s err
        | None, None => s
        end
  end.

Definition wait_step (s : wait_state) (e : wait_event) : wait_state :=
  match e with
  | Fork parent child =>
      match wait_processes s !! parent, wait_processes s !! child with
      | Some p, None =>
          if bool_decide (child = command) then s
          else with_processes s (<[child := p]> (wait_processes s))
      | _, _ => s
      end
  | JoinGroup pid group => change s pid (λ p, mkProcess group (proc_output p) (proc_killable p))
  | ChangeUser pid => change s pid (λ p, mkProcess (proc_group p) (proc_output p) false)
  | CloseOutput pid => change s pid (λ p, mkProcess (proc_group p) false (proc_killable p))
  | PassOutput from to =>
      match wait_processes s !! from with
      | Some p =>
          if proc_output p then change s to (λ p, mkProcess (proc_group p) true (proc_killable p)) else s
      | None => s
      end
  | Exit pid status =>
      match wait_processes s !! pid with
      | Some _ =>
          mkWait (delete pid (wait_processes s)) (if bool_decide (pid = command) then Some status else wait_exit s)
            (wait_context s) (wait_killed s) (wait_returned s)
      | None => s
      end
  | ContextEnds err =>
      mkWait (wait_processes s) (wait_exit s) (Some (default err (wait_context s))) (wait_killed s) (wait_returned s)
  | Turn context_first => wait_turn context_first s
  end.

Definition waiting (events : list wait_event) : wait_state := foldl wait_step started events.

(** [None] while it has not returned *)
Definition startAndWait (start : option run_error) (events : list wait_event) : option (option run_error) :=
  match start with
  | Some err => Some (Some err)
  | None => wait_returned (waiting events)
  end.

(** ** Properties *)

(** The kill reaches the command and everyone who has its output. *)
Definition contained (s : wait_state) : Prop :=
  ∀ pid p, wait_processes s !! pid = Some p → pid = command ∨ proc_output p = true → reached p = true.

(** The command has ended, and nobody has its output. *)
Definition ended (s : wait_state) : Prop := is_Some (wait_exit s) ∧ silent s.

Definition is_turn (e : wait_event) : bool := match e with Turn _ => true | _ => false end.
Definition turns (events : list wait_event) : nat := sum_list_with (λ e, if is_turn e then 1 else 0) events.

Lemma waiting_snoc events e : waiting (events ++ [e]) = wait_step (waiting events) e.
Proof. unfold waiting. by rewrite foldl_app. Qed.

Lemma Wait_Some s err : Wait s = Some err ↔ wait_exit s = Some err ∧ silent s.
Proof. unfold Wait. destruct (wait_exit s); [case_bool_decide|]; naive_solver. Qed.

Lemma ended_Wait s : ended s → is_Some (Wait s).
Proof. intros [[err He] Hs]. exists err. by apply Wait_Some. Qed.

(** An ended command stays ended: nobody is left to pass its output on. *)
Lemma silent_change s pid f : (∀ p, proc_output p = false → proc_output (f p) = false) →
  silent s → silent (change s pid f).
Proof.
  intros Hf Hs q p. unfold change. cbn. rewrite lookup_alter_Some. intros [(-> & p' & Hp & ->)|[_ Hp]]; [apply Hf|]; by eapply Hs.
Qed.

Lemma silent_kill s : silent s → silent (kill_group s).
Proof. intros Hs pid p [Hp _]%map_lookup_filter_Some. by eapply Hs. Qed.

Lemma kill_exit s : is_Some (wait_exit s) → is_Some (wait_exit (kill_group s)).
Proof. unfold kill_group. cbn. intros [err ->]. destruct (wait_processes s !! _) as [p|]; [destruct (reached p)|]; by eexists. Qed.

Lemma wait_turn_cases b s :
  wait_turn b s = s ∨ wait_turn b s = kill_group s ∨ ∃ err, wait_turn b s = return_with s err.
Proof. unfold wait_turn. repeat case_match; eauto. Qed.

Lemma ended_step s e : ended s → ended (wait_step s e).
Proof.
  intros [He Hs]. destruct e as [parent child|pid group|pid|pid|from to|pid status|err|b]; cbn [wait_step].
  - destruct (wait_processes s !! parent) as [p|] eqn:Hp, (wait_processes s !! child); try done. case_bool_decide; [done|]. split; [done|].
    intros q p'. cbn. intros [[-> ->]|[_ Hq]]%lookup_insert_Some; by eapply Hs.
  - split; [done|]. by apply silent_change.
  - split; [done|]. by apply silent_change.
  - split; [done|]. by apply silent_change.
  - destruct (wait_processes s !! from) as [p|] eqn:Hp; [|done]. by rewrite (Hs _ _ Hp).
  - destruct (wait_processes s !! pid); [|done]. split; [cbn; case_bool_decide; [by eexists|done]|].
    intros q p'. cbn. intros [_ Hq]%lookup_delete_Some. by eapply Hs.
  - done.
  - destruct (wait_turn_cases b s) as [->|[->|[err ->]]]; [done| |done]. split; [by apply kill_exit|by apply silent_kill].
Qed.

(** The command is among the living processes exactly until it has ended. *)
Definition accounted (s : wait_state) : Prop := wait_exit s = None ↔ is_Some (wait_processes s !! command).

Lemma accounted_change s pid f : accounted s → accounted (change s pid f).
Proof.
  unfold accounted. intros ->. cbn. destruct (decide (pid = command)) as [->|]; [rewrite lookup_alter_eq|by rewrite lookup_alter_ne].
  by rewrite fmap_is_Some.
Qed.

Lemma accounted_kill s : accounted s → accounted (kill_group s).
Proof.
  unfold accounted, kill_group. cbn. rewrite map_lookup_filter. intros Ha.
  destruct (wait_processes s !! command) as [p|]; cbn; [|done].
  destruct (reached p); cbn; [|by rewrite option_guard_True].
  rewrite option_guard_False by done. split; [done|by intros [? ?]].
Qed.

Lemma accounted_step s e : accounted s → accounted (wait_step s e).
Proof.
  intros Ha. destruct e as [parent child|pid group|pid|pid|from to|pid status|err|b]; cbn [wait_step];
    try by apply accounted_change.
  - destruct (wait_processes s !! parent), (wait_processes s !! child); try done. case_bool_decide; [done|].
    unfold accounted. cbn. by rewrite lookup_insert_ne.
  - destruct (wait_processes s !! from) as [p|]; [|done]. destruct (proc_output p); [by apply accounted_change|done].
  - destruct (wait_processes s !! pid); [|done]. unfold accounted. cbn. case_bool_decide as Hp; [|by rewrite lookup_delete_ne].
    subst. rewrite lookup_delete_eq. split; [done|by intros [? ?]].
  - done.
  - destruct (wait_turn_cases b s) as [->|[->|[err ->]]]; [done|by apply accounted_kill|done].
Qed.

(** A kill that reaches everyone ends the command. *)
Lemma kill_ends s : accounted s → contained s → ended (kill_group s).
Proof.
  intros Ha Hc. split.
  - unfold kill_group. cbn. destruct (wait_exit s) eqn:He.
    + destruct (wait_processes s !! command) as [p|]; [destruct (reached p)|]; by eexists.
    + destruct (proj1 Ha He) as [p Hp]. rewrite Hp, (Hc _ _ Hp) by by left. by eexists.
  - intros pid p. cbn. intros [Hp Hr]%map_lookup_filter_Some. cbn in Hr. destruct (proc_output p) eqn:Ho; [|done].
    rewrite (Hc _ _ Hp) in Hr by by right. done.
Qed.

(** *** Progress *)

(** How far the function has come after the end of the context: it has killed
    the group, and it has returned. *)
Definition progress (s : wait_state) : nat :=
  match wait_returned s with Some _ => 2 | None => if wait_killed s then 1 else 0 end.

Definition context_over (s : wait_state) (err : run_error) : Prop := wait_context s = Some err.

Lemma context_over_step s e err : context_over s err → context_over (wait_step s e) err.
Proof.
  unfold context_over. intros Hc. destruct e as [| | | | | | |b]; cbn [wait_step]; repeat case_match; try done; [by cbn; rewrite Hc|].
  by destruct (wait_turn_cases b s) as [->|[->|[? ->]]].
Qed.

Lemma progress_step s e : progress s ≤ progress (wait_step s e).
Proof.
  destruct e as [| | | | | | |b]; cbn [wait_step]; repeat case_match; try done.
  destruct (wait_turn_cases b s) as [->|[->|[err ->]]]; [done| |unfold progress; cbn; repeat case_match; lia].
  unfold progress. cbn. repeat case_match; lia.
Qed.

Lemma progress_turn s b err : context_over s err → (wait_killed s = true → ended s) →
  2 ≤ progress (wait_turn b s) ∨ S (progress s) ≤ progress (wait_turn b s).
Proof.
  intros Hc Hk. unfold wait_turn, progress. rewrite Hc. destruct (wait_returned s) eqn:Hr; [rewrite Hr; by left|].
  destruct (wait_killed s) eqn:Hkilled.
  - destruct (ended_Wait _ (Hk eq_refl)) as [x ->]. left. done.
  - destruct (Wait s); [destruct b|]; cbn; rewrite ?Hr; lia.
Qed.

Lemma accounted_started : accounted started.
Proof. split; [|done]. intros _. exists (mkProcess command true true). apply lookup_singleton_eq. Qed.

(** What is true as long as everyone who has the output stays in reach: the
    group is only killed with the command and all of them. *)
Lemma killed_ended events : (∀ early, early `prefix_of` events → contained (waiting early)) →
  accounted (waiting events) ∧ (wait_killed (waiting events) = true → ended (waiting events)).
Proof.
  induction events as [|e events IH] using rev_ind; intros Hc.
  { split; [apply accounted_started|done]. }
  destruct IH as [Ha Hk]; [intros early [more ->]; apply Hc; rewrite <-app_assoc; by eexists|].
  rewrite waiting_snoc. split; [by apply accounted_step|]. intros Hkilled.
  destruct (wait_killed (waiting events)) eqn:Hbefore; [by apply ended_step, Hk|].
  destruct e as [| | | | | | |b]; cbn [wait_step] in Hkilled |- *;
    try (exfalso; revert Hkilled; repeat case_match; cbn; rewrite Hbefore; done).
  destruct (wait_turn_cases b (waiting events)) as [Heq|[Heq|[err Heq]]]; rewrite Heq in Hkilled |- *.
  - by rewrite Hbefore in Hkilled.
  - apply kill_ends; [done|]. apply Hc. by eexists.
  - cbn in Hkilled. by rewrite Hbefore in Hkilled.
Qed.

Lemma turns_progress before err after :
  (∀ early, early `prefix_of` before ++ after → contained (waiting early)) → context_over (waiting before) err →
  context_over (waiting (before ++ after)) err ∧ Nat.min 2 (turns after) ≤ progress (waiting (before ++ after)).
Proof.
  induction after as [|e after IH] using rev_ind; intros Hc Ho.
  { rewrite app_nil_r. split; [done|]. cbn. lia. }
  destruct IH as [Hover Hp]; [intros early [more Hm]; apply Hc; rewrite app_assoc, Hm, <-app_assoc; by eexists|done|].
  rewrite app_assoc, waiting_snoc. split; [by apply context_over_step|].
  pose proof (progress_step (waiting (before ++ after)) e) as Hmono.
  unfold turns in *. rewrite sum_list_with_app. destruct e as [| | | | | | |b]; cbn [sum_list_with is_turn]; try lia.
  cbn [wait_step] in *.
  edestruct (progress_turn (waiting (before ++ after)) b err Hover) as [?|?]; [|lia..].
  apply killed_ended. intros early [more Hm]. apply Hc. rewrite app_assoc, Hm, <-app_assoc. by eexists.
Qed.

(** What it returns is the error of the command or of the context, and it does
    not return before the command has ended and its output is complete. *)
Definition answered (s : wait_state) : Prop :=
  ∀ r, wait_returned s = Some r → ended s ∧ (wait_exit s = Some r ∨ ∃ err, r = Some err ∧ wait_context s = Some err).

(** A result that has been recorded stays. *)
Lemma returned_step s e r : accounted s → wait_returned s = Some r → ended s →
  wait_returned (wait_step s e) = Some r ∧ wait_exit (wait_step s e) = wait_exit s.
Proof.
  intros Ha Hr [[x Hx] _]. destruct e as [| | | | |pid status| |b]; cbn [wait_step]; repeat case_match; try done.
  - subst. split; [done|]. cbn. case_bool_decide; [|done]. subst.
    assert (wait_exit s = None) as Hn by (apply Ha; by eexists). congruence.
  - unfold wait_turn. by rewrite Hr.
Qed.

Lemma turn_answers s b : wait_returned s = None → answered (wait_turn b s).
Proof.
  intros Hn r. unfold wait_turn. rewrite Hn. destruct (Wait s) as [x|] eqn:Hw;
    [apply Wait_Some in Hw as [Hx Hs]|]; repeat case_match; cbn; intros Hr; simplify_eq/=; (split; [by split; [eexists|]|]); eauto.
Qed.

Lemma answered_step s e : accounted s → answered s → answered (wait_step s e).
Proof.
  intros Ha Hans. destruct (wait_returned s) as [r|] eqn:Hr.
  - destruct (Hans r Hr) as [He Hwhy]. destruct (returned_step s e r Ha Hr He) as [Hr' Hx]. intros r' Hr''.
    rewrite Hr' in Hr''. injection Hr'' as <-. split; [by apply ended_step|]. rewrite Hx.
    destruct Hwhy as [?|(err & -> & Hc)]; [by left|right]. exists err. split; [done|]. by apply context_over_step.
  - destruct e as [| | | | | | |b]; [..|by apply turn_answers]; intros r; cbn [wait_step]; repeat case_match; cbn; congruence.
Qed.

Lemma waiting_answered events : accounted (waiting events) ∧ answered (waiting events).
Proof.
  induction events as [|e events [Ha Hans]] using rev_ind; [split; [apply accounted_started|done]|].
  rewrite waiting_snoc. split; [by apply accounted_step|by apply answered_step].
Qed.

(** C39: a run that has a time limit comes to an end.  As long as the command
    and every process that has its output stay in the process group of the
    command, and are processes that the runner may signal, the function returns
    with its second turn after the end of the context at the latest, whatever
    the processes do and however they ignore the runner.  What it returns is
    the error with which the command ended or the one of the context, and at
    that time the command has ended and no living process has its output, so
    that the output is complete.  A command that could not be started is
    answered at once. *)
Theorem startAndWait_returns start before after err
    (Hcontained : ∀ early, early `prefix_of` before ++ after → contained (waiting early))
    (Hcontext : wait_context (waiting before) = Some err) (Hturns : 2 ≤ turns after) :
  ∃ r, startAndWait start (before ++ after) = Some r ∧
    match start with
    | Some failure => r = Some failure
    | None => ended (waiting (before ++ after)) ∧
              (wait_exit (waiting (before ++ after)) = Some r ∨ r = Some err)
    end.
Proof.
  destruct start as [failure|]; [by eexists|]. cbn [startAndWait].
  destruct (turns_progress before err after Hcontained Hcontext) as [Hover Hp].
  unfold progress in Hp. destruct (wait_returned _) as [r|] eqn:Hr; [|destruct (wait_killed _); lia].
  exists r. split; [done|]. destruct (proj2 (waiting_answered _) r Hr) as [He [Hx|(err' & -> & Hc)]]; split; [done|by left|done|].
  right. unfold context_over in Hover. congruence.
Qed.

(** A process that has the output keeps the function waiting, wherever it is:
    it is not reached by the kill once it has left the group, and there is no
    other limit to the wait. *)
Theorem holder_blocks events pid p
    (Hp : wait_processes (waiting events) !! pid = Some p) (Hout : proc_output p = true) :
  startAndWait None events = None.
Proof.
  cbn. destruct (wait_returned _) as [r|] eqn:Hr; [|done].
  destruct (proj2 (waiting_answered _) r Hr) as [[_ Hs] _]. by rewrite (Hs _ _ Hp) in Hout.
Qed.
End wait.

(** ** Witnesses and examples *)

(** The command 7 starts 8, closes its own output and sleeps; the time limit ends
    it. *)
Definition obedient : list wait_event := [Fork 7 8; CloseOutput 7; Turn false; ContextEnds RunDeadline]%Z.
Definition two_turns : list wait_event := [Turn false; Turn false].

#[export] Instance contained_dec command s : Decision (contained command s).
Proof.
  exact (_ : Decision (map_Forall (λ pid p, pid = command ∨ proc_output p = true → reached command p = true) (wait_processes s))).
Defined.

Lemma prefix_take {A} (early l : list A) : early `prefix_of` l → ∃ n, n ∈ seq 0 (S (length l)) ∧ early = take n l.
Proof.
  intros [k ->]. exists (length early). rewrite take_app_length, elem_of_seq, length_app. split; [lia|done].
Qed.

(** Every moment of a concrete run is checked. *)
Lemma contained_always command events :
  forallb (λ n, bool_decide (contained command (waiting command (take n events)))) (seq 0 (S (length events))) = true →
  ∀ early, early `prefix_of` events → contained command (waiting command early).
Proof.
  intros Hall early (n & Hn & ->)%prefix_take. rewrite forallb_forall in Hall.
  apply (bool_decide_eq_true_1 (contained _ _)), Hall. by apply list_elem_of_In.
Qed.

Lemma startAndWait_returns_witness :
  ∃ r, startAndWait 7 None (obedient ++ two_turns) = Some r ∧
    (ended (waiting 7 (obedient ++ two_turns)) ∧
     (wait_exit (waiting 7 (obedient ++ two_turns)) = Some r ∨ r = Some RunDeadline)).
Proof.
  apply (startAndWait_returns 7 None obedient two_turns RunDeadline).
  - apply contained_always. vm_compute. reflexivity.
  - vm_compute. reflexivity.
  - vm_compute. lia.
Defined.

Example obedient_deadline : startAndWait 7 None (obedient ++ two_turns) = Some (Some RunDeadline).
Proof. vm_compute. reflexivity. Qed.

(** The command 7 leaves a daemon 8 behind, which has a session of its own and
    keeps its output open.  The command has ended and the time limit has passed,
    and the function waits for the daemon. *)
Definition daemon : list wait_event := [Fork 7 8; JoinGroup 8 8; Exit 7 None; ContextEnds RunDeadline]%Z.

Definition killed_daemon : wait_state := waiting 7 (daemon ++ [Turn false]).

Lemma killed_daemon_waits n : foldl (wait_step 7) killed_daemon (replicate n (Turn false)) = killed_daemon.
Proof. induction n as [|n IH]; [done|]. exact IH. Qed.

Theorem daemon_blocks n : startAndWait 7 None (daemon ++ replicate n (Turn false)) = None.
Proof.
  destruct n as [|n]; [done|]. apply (holder_blocks 7 _ 8 (mkProcess 8 true true)); [|done].
  assert (waiting 7 (daemon ++ replicate (S n) (Turn false)) = killed_daemon) as ->; [|done].
  unfold waiting. rewrite foldl_app. exact (killed_daemon_waits n).
Qed.

Lemma holder_blocks_witness : startAndWait 7 None daemon = None.
Proof. apply (holder_blocks 7 daemon 8 (mkProcess 8 true true)); reflexivity. Defined.
