(* ===== verification/StableRead.v ===== *)
(** * StableRead: reading files that others may change

    Models [readStableFile], [readStableRootFile], [sameFileState] and
    [OpenBoundRoot] of [src/internal/workspace/], which the scans of
    [Workspace] and [Scan] use.  Here the file system changes while they run:
    their system calls happen at moments numbered from 0, between which other
    processes do what they like.  A file is known by its device and number; the
    history says which file a path opens and what a file is at each moment. *)

From S2P Require Import Prelude Sha256 Model Fs Store Workspace Runner.

(** ** Files through time *)

Definition file_id : Type := Z * Z.

Record version := mkVersion {
  version_mode : Z;
  version_mtime : Z;
  version_nlink : Z;
  version_content : string;
}.

Record kernel := mkKernel {
  kernel_open : string → result file_id;     (** open(2) *)
  kernel_file : file_id → version;
}.

(** [os.FileInfo], with the device, the number and the links of [Sys] *)
Record FileInfo := mkFileInfo {
  info_id : file_id;
  info_mode : Z;
  info_size : Z;
  info_mtime : Z;
  info_nlink : Z;
}.

Definition file_info (k : kernel) (id : file_id) : FileInfo :=
  let v := kernel_file k id in
  mkFileInfo id (version_mode v) (Z.of_nat (String.length (version_content v))) (version_mtime v) (version_nlink v).

(** [fs.ModeType]: the bits of everything that is not a regular file *)
Definition ModeType : Z := 2401763328.
Definition IsRegular (mode : Z) : bool := bool_decide (Z.land mode ModeType = 0%Z).
Definition IsDir (mode : Z) : bool := negb (bool_decide (Z.land mode ModeDir = 0%Z)).
Definition SameFile (a b : FileInfo) : bool := bool_decide (info_id a = info_id b).

Definition hardlinkCount (info : FileInfo) : Z := info_nlink info.

Definition sameFileState (expected actual : FileInfo) : bool :=
  SameFile expected actual && bool_decide (info_mode expected = info_mode actual) &&
  bool_decide (info_size expected = info_size actual) && bool_decide (info_mtime expected = info_mtime actual).

(** ** The readers *)

Definition err_before (path : string) : error := ErrMsg ("workspace file changed before read: " +:+ path).
Definition err_during (path : string) : error := ErrMsg ("workspace file changed during read: " +:+ path).
Definition err_no_directory : error := ErrMsg "bound workspace directory is required".
Definition err_not_directory : error := ErrMsg "bound workspace is not a directory".
Definition err_bound_changed : error := ErrMsg "bound workspace directory identity changed".

Section readers.
(** The history, the failures of the calls, and how much a read returns at most *)
Variables (world : nat → kernel) (fail : nat → option error) (chunk : nat → nat).

(** [file.Stat] *)
Definition stat_at (moment : nat) (id : file_id) : result FileInfo :=
  match fail moment with Some err => Err err | None => Ok (file_info (world moment) id) end.

(** [io.ReadAll] of [io.LimitReader]: the next moment and what was read.  A
    read returns at least a byte before the end of the file. *)
Fixpoint read_all (fuel : nat) (id : file_id) (moment offset remaining : nat) : option (nat * result string) :=
  match fuel with
  | O => None
  | S fuel =>
      if bool_decide (remaining = 0) then Some (moment, Ok "")
      else
        match fail moment with
        | Some err => Some (S moment, Err err)
        | None =>
            let rest := string_drop offset (version_content (kernel_file (world moment) id)) in
            if bool_decide (rest = "") then Some (S moment, Ok "")
            else
              let n := Nat.max 1 (Nat.min (chunk moment) (Nat.min remaining (String.length rest))) in
              match read_all fuel id (S moment) (offset + n) (remaining - n) with
              | Some (moment, Ok more) => Some (moment, Ok (string_take n rest +:+ more))
              | failed => failed
              end
        end
  end.

(** What both readers do, with the checks of the file before and after *)
Definition read_checked (before after : FileInfo → bool) (path : string) (maxBytes : Z) : option (result string) :=
  match kernel_open (world 1) path with
  | Err err => Some (Err err)
  | Ok id =>
      match stat_at 2 id with
      | Err err => Some (Err err)
      | Ok opened =>
          if negb (before opened) then Some (Err (err_before path))
          else
            let limit := Z.to_nat (wrap_int64 (maxBytes + 1)) in
            match read_all (S limit) id 3 0 limit with
            | None => None
            | Some (_, Err err) => Some (Err err)
            | Some (moment, Ok content) =>
                match stat_at moment id with
                | Err err => Some (Err err)
                | Ok finished => if negb (after finished) then Some (Err (err_during path)) else Some (Ok content)
                end
            end
      end
  end.

Definition readStableFile (path : string) (expected : FileInfo) (maxBytes : Z) : option (result string) :=
  read_checked (sameFileState expected) (sameFileState expected) path maxBytes.

Definition readStableRootFile (relative : string) (expected : FileInfo) (maxBytes : Z) : option (result string) :=
  read_checked
    (λ opened, IsRegular (info_mode opened) && negb (bool_decide (1 < hardlinkCount opened)%Z) && sameFileState expected opened)
    (λ finished, negb (bool_decide (1 < hardlinkCount finished)%Z) && sameFileState expected finished)
    relative maxBytes.

(** [OpenBoundRoot]: the descriptor and the file it refers to are given *)
Definition OpenBoundRoot (directory : option (Z * file_id)) : result file_id :=
  match directory with
  | None => Err err_no_directory
  | Some (fd, id) =>
      let? expected := stat_at 0 id in
      fail? negb (IsDir (info_mode expected)) with err_not_directory in
      let? root := kernel_open (world 1) (fd_path fd) in
      match stat_at 2 root with
      | Err _ => Err err_bound_changed
      | Ok actual => fail? negb (SameFile expected actual) with err_bound_changed in Ok root
      end
  end.
End readers.

(** ** Lemmas *)

Lemma sameFileState_true a b : sameFileState a b = true ↔
  info_id a = info_id b ∧ info_mode a = info_mode b ∧ info_size a = info_size b ∧ info_mtime a = info_mtime b.
Proof. unfold sameFileState, SameFile. rewrite !andb_true_iff, !bool_decide_eq_true. tauto. Qed.

(** The modification times of a file tell of every change of its content: they
    never go back, and a new content comes with a later time. *)
Definition honest (world : nat → kernel) (id : file_id) : Prop := ∀ k,
  let v := kernel_file (world k) id in
  let v' := kernel_file (world (S k)) id in
  (version_mtime v ≤ version_mtime v')%Z ∧
  (version_content v' = version_content v ∨ (version_mtime v < version_mtime v')%Z).

Section history.
Context (world : nat → kernel) (id : file_id) (Hhonest : honest world id).

Local Lemma mtime_mono i j : i ≤ j → (version_mtime (kernel_file (world i) id) ≤ version_mtime (kernel_file (world j) id))%Z.
Proof. induction 1 as [|j Hij IH]; [lia|]. destruct (Hhonest j) as [? _]. lia. Qed.

(** The same time at both ends: the same content throughout *)
Lemma honest_between i j k : i ≤ k ≤ j →
  version_mtime (kernel_file (world i) id) = version_mtime (kernel_file (world j) id) →
  version_content (kernel_file (world k) id) = version_content (kernel_file (world i) id).
Proof.
  intros [Hik Hkj] Htime. induction Hik as [|k Hik IH]; [done|].
  destruct (Hhonest k) as [_ [->|Hlt]]; [apply IH; lia|].
  pose proof (mtime_mono i k ltac:(lia)). pose proof (mtime_mono (S k) j Hkj). lia.
Qed.
End history.

Section proofs.
Context (world : nat → kernel) (fail : nat → option error) (chunk : nat → nat).

Lemma read_all_ends id fuel : ∀ moment offset remaining, remaining < fuel →
  ∃ moment' r, read_all world fail chunk fuel id moment offset remaining = Some (moment', r) ∧ moment ≤ moment' ∧
    ((∀ k, fail k = None) → is_Ok r) ∧
    ∀ content, (∀ k, moment ≤ k < moment' → version_content (kernel_file (world k) id) = content) →
      ∀ s, r = Ok s → s = string_take remaining (string_drop offset content).
Proof.
  induction fuel as [|fuel IH]; intros moment offset remaining Hfuel; [lia|]. cbn [read_all].
  case_bool_decide as Hrem.
  { exists moment, (Ok ""). split_and!; [done|lia|by eexists|]. intros content _ s [= <-]. by rewrite Hrem, string_take_0. }
  destruct (fail moment) as [err|] eqn:Hfail.
  { exists (S moment), (Err err). split_and!; [done|lia|intros Hno; by rewrite Hno in Hfail|done]. }
  set (rest := string_drop offset (version_content (kernel_file (world moment) id))).
  case_bool_decide as Hrest.
  { exists (S moment), (Ok ""). split_and!; [done|lia|by eexists|]. intros content Hc s [= <-].
    rewrite <-(Hc moment) by lia. fold rest. rewrite Hrest. by destruct remaining. }
  set (n := Nat.max 1 _). destruct (IH (S moment) (offset + n) (remaining - n)) as (moment' & r & -> & Hle & Hok & Hs); [lia|].
  assert (n ≤ remaining) as Hn.
  { assert (0 < String.length rest) by (destruct rest; cbn; [done|lia]). subst n. lia. }
  destruct r as [more|err]; (eexists _, _; split_and!; [done|lia| |]).
  - intros _. by eexists.
  - intros content Hc s [= <-]. rewrite (Hs content) with (s := more); [|intros; apply Hc; lia|done].
    unfold rest. rewrite (Hc moment), <-string_drop_drop, string_take_drop by lia. f_equal. lia.
  - intros Hno. by apply Hok in Hno as [? ?].
  - done.
Qed.

Lemma limit_reader_take limit s : limit_reader limit s = string_take (Z.to_nat limit) s.
Proof. unfold limit_reader. case_bool_decide; [|done]. symmetry. apply string_take_ge. lia. Qed.

(** The file, from the [Lstat] of the scan on, does not change. *)
Record quiet (path : string) (id : file_id) : Prop := {
  quiet_calls k : fail k = None;
  quiet_path : kernel_open (world 1) path = Ok id;
  quiet_file k : kernel_file (world k) id = kernel_file (world 0) id;
}.

(** What the readers share, for checks that imply [sameFileState] *)
Lemma read_checked_spec before after path id maxBytes : let expected := file_info (world 0) id in
  let content := limit_reader (wrap_int64 (maxBytes + 1)) (version_content (kernel_file (world 0) id)) in
  (∀ info, before info = true → sameFileState expected info = true) →
  (∀ info, after info = true → sameFileState expected info = true) → honest world id →
  ∃ r, read_checked world fail chunk before after path maxBytes = Some r ∧
    (∀ s, r = Ok s → s = content ∧ kernel_open (world 1) path = Ok id ∧ before (file_info (world 2) id) = true) ∧
    (quiet path id → before expected = true → after expected = true → r = Ok content).
Proof.
  intros expected content Hbefore Hafter Hhonest. unfold read_checked.
  destruct (kernel_open (world 1) path) as [id'|err] eqn:Hopen; [|eexists; split_and!; [done..|]]; last first.
  { intros Hq. rewrite (quiet_path _ _ Hq) in Hopen. done. }
  unfold stat_at at 1. destruct (fail 2) as [err|] eqn:H2.
  { eexists; split_and!; [done..|]. intros Hq. by rewrite (quiet_calls _ _ Hq) in H2. }
  destruct (before (file_info (world 2) id')) eqn:Hb; cbn [negb]; last first.
  { eexists; split_and!; [done..|]. intros Hq. rewrite (quiet_path _ _ Hq) in Hopen. injection Hopen as <-.
    unfold file_info in Hb. rewrite (quiet_file _ _ Hq) in Hb. intros Hb'. unfold expected, file_info in Hb'. congruence. }
  pose proof (Hbefore _ Hb) as (Hid & _)%sameFileState_true. cbn in Hid. subst id'.
  destruct (read_all_ends id (S (Z.to_nat (wrap_int64 (maxBytes + 1)))) 3 0 (Z.to_nat (wrap_int64 (maxBytes + 1))))
    as (moment & r & -> & Hle & Hok & Hs); [lia|]. destruct r as [s|err]; last first.
  { eexists; split_and!; [done..|]. intros Hq. by destruct Hok as [? ?]; [apply (quiet_calls _ _ Hq)|]. }
  unfold stat_at. destruct (fail moment) as [err|] eqn:Hm.
  { eexists; split_and!; [done..|]. intros Hq. by rewrite (quiet_calls _ _ Hq) in Hm. }
  assert ((∀ k, 3 ≤ k < moment → version_content (kernel_file (world k) id) = version_content (kernel_file (world 0) id)) →
    s = content) as Hcontent.
  { intros Hsame. rewrite (Hs _ Hsame s eq_refl). unfold content. by rewrite limit_reader_take. }
  destruct (after (file_info (world moment) id)) eqn:Ha; cbn [negb]; eexists; (split_and!; [done| |]).
  - intros s' [= <-]. split_and!; [|done..]. apply Hcontent. intros k Hk.
    apply (honest_between world id Hhonest 0 moment); [lia|]. by apply Hafter, sameFileState_true in Ha as (_ & _ & _ & ?).
  - intros Hq _ _. f_equal. apply Hcontent. intros k _. by rewrite (quiet_file _ _ Hq).
  - done.
  - intros Hq _. unfold file_info in Ha. rewrite (quiet_file _ _ Hq) in Ha. unfold expected, file_info. congruence.
Qed.
End proofs.

(** ** Property: what is read is what was there *)

(** C34: the two readers of the scans.  Both end with an answer.  When the
    modification times of files are honest, an accepted content is the content
    the file had when the scan looked at it, up to the quota, although others
    may write, replace or truncate the file between any two system calls; the
    reader below a descriptor accepts regular files with one name only.  A file
    that is left alone is read. *)
Theorem stable_read world fail chunk path id maxBytes
    (Hhonest : honest world id) :
  let expected := file_info (world 0) id in
  let content := limit_reader (wrap_int64 (maxBytes + 1)) (version_content (kernel_file (world 0) id)) in
  let regular := IsRegular (info_mode expected) in
  (∃ r, readStableFile world fail chunk path expected maxBytes = Some r ∧
    (∀ s, r = Ok s → s = content ∧ kernel_open (world 1) path = Ok id) ∧
    (quiet world fail path id → r = Ok content)) ∧
  (∃ r, readStableRootFile world fail chunk path expected maxBytes = Some r ∧
    (∀ s, r = Ok s → s = content ∧ kernel_open (world 1) path = Ok id ∧ regular = true ∧
       (version_nlink (kernel_file (world (2%nat)) id) ≤ 1)%Z) ∧
    (quiet world fail path id → regular = true → (info_nlink expected ≤ 1)%Z → r = Ok content)).
Proof.
  intros expected content regular. split.
  - destruct (read_checked_spec world fail chunk (sameFileState expected) (sameFileState expected) path id maxBytes)
      as (r & Hr & Hok & Hq); [done..|].
    exists r. split_and!; [exact Hr| |].
    + intros s Hs. by apply Hok in Hs as (? & ? & _).
    + intros Hquiet. apply Hq; [done|..]; by apply sameFileState_true.
  - unfold readStableRootFile. edestruct (read_checked_spec world fail chunk) as (r & Hr & Hok & Hq); [| | |exists r; split_and!].
    4: exact Hr.
    + intros info. by rewrite !andb_true_iff; intros [_ ?].
    + intros info. by rewrite !andb_true_iff; intros [_ ?].
    + done.
    + intros s (? & ? & Hb)%Hok. apply andb_prop in Hb as [[Hreg Hlinks]%andb_prop Hsame].
      apply sameFileState_true in Hsame as (_ & Hmode & _). unfold regular. rewrite Hmode.
      apply negb_true_iff, bool_decide_eq_false in Hlinks. split_and!; [done..|]. cbn in Hlinks. lia.
    + intros Hquiet Hreg Hlinks.
      assert (sameFileState expected expected = true) as Hsame by by apply sameFileState_true.
      unfold hardlinkCount in Hq. subst expected regular.
      apply Hq; [done| |]; rewrite ?Hreg, Hsame, (bool_decide_eq_false_2 (1 < _)%Z) by lia; done.
Qed.

(** A descriptor that [OpenBoundRoot] returns is the given directory. *)
Lemma OpenBoundRoot_same world fail directory root : OpenBoundRoot world fail directory = Ok root →
  ∃ fd, directory = Some (fd, root) ∧ IsDir (version_mode (kernel_file (world 0) root)) = true.
Proof.
  unfold OpenBoundRoot, stat_at. destruct directory as [[fd id]|]; [|done]. destruct (fail 0); [done|]. cbn [rbind info_mode].
  destruct (IsDir _) eqn:Hdir; [|done]. cbn [negb]. destruct (kernel_open _ _) as [root'|]; [|done]. cbn [rbind].
  destruct (fail 2); [done|]. destruct (SameFile _ _) eqn:Hsame; [|done]. intros [= <-].
  apply bool_decide_eq_true in Hsame. cbn in Hsame. subst root'. by exists fd.
Qed.

(** ** What the checks do not see *)

(** A file of four bytes that is read in two parts and overwritten between
    them; [mtime] is the modification time after the write. *)
Definition a_file : file_id := (1, 7)%Z.
Definition overwritten (mtime : Z) (moment : nat) : kernel :=
  mkKernel (λ _, Ok a_file)
    (λ _, if bool_decide (moment ≤ 3) then mkVersion 420 1000 1 "aaaa" else mkVersion 420 mtime 1 "bbbb").

(** A later time is noticed.  When the time is the same - the write comes
    within the resolution of the clock of the file system, or the owner sets
    the time back - the readers accept a content that the file never had. *)
Lemma torn_read_accepted :
  let expected := file_info (overwritten 1000 0) a_file in
  readStableFile (overwritten 1001) (λ _, None) (λ _, 2) "f" expected 100 = Some (Err (err_during "f")) ∧
  readStableFile (overwritten 1000) (λ _, None) (λ _, 2) "f" expected 100 = Some (Ok "aabb") ∧
  readStableRootFile (overwritten 1000) (λ _, None) (λ _, 2) "f" expected 100 = Some (Ok "aabb").
Proof. split_and!; vm_compute; reflexivity. Qed.

(** With the largest quota the limit of the reader overflows, and every file is
    recorded as if it was empty. *)
Lemma largest_quota_reads_nothing `{!Gzip} dir_size hardlinked put_fail f s relative p mode content item bytes blobs :
  scan_item dir_size hardlinked put_fail max_int64 f s relative p (NFile mode content) = Ok (item, bytes, blobs) →
  hardlinked p = false → Entry_Digest item = sha256_hex "" ∧ Entry_Size item = Z.of_nat (String.length content) ∧ bytes = scan_bytes s.
Proof.
  cbn [scan_item]. intros Hitem Hlinks. rewrite Hlinks in Hitem.
  change (wrap_int64 (max_int64 + 1)) with (- 2 ^ 63)%Z in Hitem. rewrite limit_reader_take, string_take_0 in Hitem.
  destruct (bool_decide _); [done|]. destruct (PutBlob _ _ _) as [blobs' [blob|]]; [|done]. cbn [rbind] in Hitem.
  injection Hitem as <- <- <-. cbn. split_and!; [done..|lia].
Qed.

(** ** Witness *)

(** A file that is left alone *)
Definition left_alone (moment : nat) : kernel := mkKernel (λ _, Ok a_file) (λ _, mkVersion 420 1000 1 "hello world").

Lemma stable_read_witness :
  readStableFile left_alone (λ _, None) (λ moment, moment) "f" (file_info (left_alone 0) a_file) 100 = Some (Ok "hello world") ∧
  readStableRootFile left_alone (λ _, None) (λ moment, moment) "f" (file_info (left_alone 0) a_file) 3 = Some (Ok "hell").
Proof.
  assert (honest left_alone a_file) as Hhonest by (intros k; cbn; split; [lia|by left]).
  assert (quiet left_alone (λ _, None) "f" a_file) as Hquiet by by split.
  destruct (stable_read left_alone (λ _, None) (λ moment, moment) "f" a_file 100 Hhonest) as [(r & Hr & _ & Hq) _].
  destruct (stable_read left_alone (λ _, None) (λ moment, moment) "f" a_file 3 Hhonest) as [_ (r' & Hr' & _ & Hq')].
  split.
  - rewrite Hr, (Hq Hquiet). reflexivity.
  - rewrite Hr', (Hq' Hquiet eq_refl); [reflexivity|cbn; lia].
Defined.
