(* ===== verification/Tracer.v ===== *)
(** * Tracer: the native system call tracer

    Models [src/internal/runner/tracer_linux_amd64.go].  [runTraced] follows a
    process group with ptrace(2); every turn of its loop handles one report of
    wait4(2).  What the kernel answers in a turn is an event; the signals that
    the tracer sends, the processes it lets go on and those it collects are
    recorded as actions.  The goroutine that kills the group on cancellation is
    not modelled: what it leads to is part of the events. *)

From S2P Require Import Prelude Sha256 Model Json Compare Runner.

(** ** Reading the memory of a process *)

(** The bytes at the readable addresses *)
Definition memory : Type := Z → option ascii.

(** The aligned machine word at an address *)
Definition word_at (m : memory) (address : Z) : option (list ascii) := mapM (λ i, m (address + i)%Z) (seqZ 0 8).

(** [syscall.PtracePeekData] for eight bytes: it reads aligned words only.
    Its callers drop the bytes that it read before an error. *)
Definition PtracePeekData (m : memory) (address : Z) : option (list ascii) :=
  let offset := (address mod 8)%Z in
  if bool_decide (offset = 0)%Z then word_at m address
  else
    lead ← word_at m (address - offset)%Z;
    rest ← word_at m (wrap_uint64 (address - offset + 8));
    Some (drop (Z.to_nat offset) lead ++ take (Z.to_nat offset) rest).

Definition zero_byte : ascii := "000"%char.

(** 512 words are the 4096 bytes of the buffer. *)
Definition path_words : nat := 512.

(** The loop of [readPointerPaths], with the bytes read so far *)
Fixpoint read_words (words : nat) (m : memory) (address : Z) (content : list ascii) : list ascii :=
  match words with
  | O => content
  | S words =>
      match PtracePeekData m (wrap_uint64 (address + Z.of_nat (length content))) with
      | None => content
      | Some word =>
          match list_find (λ c, c = zero_byte) word with
          | Some (index, _) => content ++ take index word
          | None => read_words words m address (content ++ word)
          end
      end
  end.

Definition readPointerPaths (m : memory) (address : Z) : list string :=
  if bool_decide (address = 0)%Z then []
  else
    match read_words path_words m address [] with
    | [] => []
    | content => [String.string_of_list_ascii content]
    end.

(** ** System calls *)

Record registers := mkRegisters {
  Orig_rax : Z;
  Rdi : Z;
  Rsi : Z;
}.

Definition SYS_SETPGID : Z := 109.
Definition SYS_SETSID : Z := 112.
(** open, execve, stat, lstat, access, readlink *)
Definition path_in_rdi : list Z := [2; 59; 4; 6; 21; 89]%Z.
(** openat, newfstatat, readlinkat, execveat *)
Definition path_in_rsi : list Z := [257; 262; 267; 322]%Z.

Definition syscallPaths (m : memory) (r : registers) : list string :=
  if bool_decide (Orig_rax r ∈ path_in_rdi) then readPointerPaths m (Rdi r)
  else if bool_decide (Orig_rax r ∈ path_in_rsi) then readPointerPaths m (Rsi r)
  else [].

(** ** Events *)

Inductive wait_status :=
  | Exited (code : Z)
  | Signaled (signal : string)
  | Stopped (signal : Z) (cause : Z)     (** [StopSignal], and the event of [TrapCause] *)
  | Continued.

Inductive wait_result :=
  | Waited (pid : Z) (status : wait_status)
  | NoChild                              (** ECHILD *)
  | WaitFailed (message : string).

Inductive resume_result := Resumed | NoProcess | ResumeFailed (message : string).

(** One poll of [killAndReapTracees] with WNOHANG: a process that is reported,
    nothing yet, ECHILD, or another error *)
Inductive reap_poll := Collected (pid : Z) | NothingYet | NoneLeft | PollFailed.

(** One turn of the loop: whether the context is done, the report of wait4,
    the answers of ptrace about the stopped process, and the polls before the
    deadline of one second, should the turn end in [killAndReapTracees] *)
Record trace_event := mkTraceEvent {
  event_done : bool;
  event_wait : wait_result;
  event_registers : option registers;
  event_memory : memory;
  event_message : option Z;
  event_resume : resume_result;
  event_polls : list reap_poll;
}.

Definition SIGTRAP : Z := 5.
Definition SIGSTOP : Z := 19.
(** [SIGTRAP | 0x80] *)
Definition SYSCALL_STOP : Z := 133.
(** PTRACE_EVENT_FORK, _VFORK and _CLONE *)
Definition new_process_causes : list Z := [1; 2; 3]%Z.

Inductive action :=
  | Resume (pid signal : Z)              (** PTRACE_SYSCALL with the signal to deliver *)
  | KillGroup (pid : Z)
  | Kill (pid : Z)
  | Collect (pid : Z)                    (** a wait has reported it after the kill *)
  | GaveUp (childless : bool).           (** no child left, or the deadline has passed *)

(** ** The loop *)

Record trace_state := mkTraceState {
  ts_paths : list string;
  ts_inSyscall : gset Z;
  ts_processes : gset Z;
  ts_main : option wait_status;
  ts_actions : list action;
}.

Definition act (s : trace_state) (actions : list action) : trace_state :=
  mkTraceState (ts_paths s) (ts_inSyscall s) (ts_processes s) (ts_main s) (ts_actions s ++ actions).

(** The loop of [killAndReapTracees]; the polls end at the deadline. *)
Fixpoint reap (polls : list reap_poll) (processes : gset Z) : gset Z * list action :=
  if bool_decide (processes = ∅) then (processes, [])
  else
    match polls with
    | [] => (processes, [GaveUp false])
    | Collected pid :: polls =>
        let '(processes, actions) := reap polls (processes ∖ {[pid]}) in (processes, Collect pid :: actions)
    | NoneLeft :: _ => (processes, [GaveUp true])
    | NothingYet :: polls | PollFailed :: polls => reap polls processes
    end.

Definition killAndReapTracees (pid : Z) (polls : list reap_poll) (s : trace_state) : trace_state :=
  let '(processes, actions) := reap polls (ts_processes s) in
  mkTraceState (ts_paths s) (ts_inSyscall s) processes (ts_main s)
    (ts_actions s ++ KillGroup pid :: (Kill <$> elements (ts_processes s)) ++ actions).

(** How a turn ends *)
Inductive turn :=
  | Continue (s : trace_state)
  | Break (s : trace_state)
  | Return (s : trace_state) (err : run_error).

Definition err_groups : run_error := RunFailed "native tracing cannot follow process-group changes".
Definition err_no_status : run_error := RunFailed "traced process exit status unavailable".

(** The process has ended. *)
Definition ended (pid waited : Z) (status : wait_status) (s : trace_state) : trace_state :=
  mkTraceState (ts_paths s) (ts_inSyscall s) (ts_processes s ∖ {[waited]})
    (if bool_decide (waited = pid) then Some status else ts_main s) (ts_actions s).

Definition toggle (waited : Z) (set : gset Z) : gset Z := if bool_decide (waited ∈ set) then set ∖ {[waited]} else {[waited]} ∪ set.

Definition leaves_group (r : registers) : bool :=
  bool_decide (Orig_rax r = SYS_SETSID) || bool_decide (Orig_rax r = SYS_SETPGID).

(** A stop at a system call: [None] when the process would leave the group *)
Definition syscall_stop (waited : Z) (e : trace_event) (s : trace_state) : option trace_state :=
  let known := match event_registers e with
               | None => Some []
               | Some r => if leaves_group r then None
                           else Some (if bool_decide (waited ∈ ts_inSyscall s) then [] else syscallPaths (event_memory e) r)
               end in
  paths ← known;
  Some (mkTraceState (ts_paths s ++ paths) (toggle waited (ts_inSyscall s)) (ts_processes s) (ts_main s) (ts_actions s)).

(** A stop for an event of ptrace *)
Definition trap_stop (cause : Z) (e : trace_event) (s : trace_state) : trace_state :=
  match event_message e with
  | Some child =>
      if bool_decide (cause ∈ new_process_causes)
      then mkTraceState (ts_paths s) (ts_inSyscall s) ({[child]} ∪ ts_processes s) (ts_main s) (ts_actions s)
      else s
  | None => s
  end.

(** The signal that a stopped process is resumed with *)
Definition delivered (signal : Z) : Z :=
  if bool_decide (signal = SIGSTOP) || bool_decide (signal = SYSCALL_STOP) || bool_decide (signal = SIGTRAP) then 0 else signal.

Definition resume (pid waited signal : Z) (e : trace_event) (s : trace_state) : turn :=
  let s := act s [Resume waited (delivered signal)] in
  match event_resume e with
  | ResumeFailed message => Return (killAndReapTracees pid (event_polls e) s) (RunFailed message)
  | _ => Continue s
  end.

Definition stopped (pid waited signal cause : Z) (e : trace_event) (s : trace_state) : turn :=
  if bool_decide (signal = SYSCALL_STOP) then
    match syscall_stop waited e s with
    | None => Return (killAndReapTracees pid (event_polls e) s) err_groups
    | Some s => resume pid waited signal e s
    end
  else if bool_decide (signal = SIGTRAP) then resume pid waited signal e (trap_stop cause e s)
  else resume pid waited signal e s.

Definition trace_turn (pid : Z) (ctx : run_error) (e : trace_event) (s : trace_state) : turn :=
  if event_done e then Return (killAndReapTracees pid (event_polls e) s) ctx
  else
    match event_wait e with
    | NoChild => Break s
    | WaitFailed message => Return (killAndReapTracees pid (event_polls e) s) (RunFailed message)
    | Waited waited (Exited code) => Continue (ended pid waited (Exited code) s)
    | Waited waited (Signaled signal) => Continue (ended pid waited (Signaled signal) s)
    | Waited waited (Stopped signal cause) => stopped pid waited signal cause e s
    | Waited waited Continued => Continue s
    end.

(** The end of [runTraced] *)
Definition trace_result (ctx : option run_error) (s : trace_state) : option run_error :=
  match ctx with
  | Some err => Some err
  | None =>
      match ts_main s with
      | None => Some err_no_status
      | Some (Exited code) => if bool_decide (code = 0)%Z then None else Some (RunTraced code "")
      | Some (Signaled signal) => Some (RunTraced (-1) signal)
      | Some _ => None
      end
  end.

(** [ctx] is the error of the context once it is done; [late] says whether it
    is done after the loop.  [None]: the events do not say how it goes on. *)
Fixpoint trace_loop (pid : Z) (ctx : run_error) (late : bool) (events : list trace_event) (s : trace_state) :
    option (trace_state * option run_error) :=
  let after s := Some (s, trace_result (if late then Some ctx else None) s) in
  if bool_decide (ts_processes s = ∅) then after s
  else
    match events with
    | [] => None
    | e :: events =>
        match trace_turn pid ctx e s with
        | Continue s => trace_loop pid ctx late events s
        | Break s => after s
        | Return s err => Some (s, Some err)
        end
    end.

(** ** runTraced *)

(** The failures of the calls before the loop, the process, the context and
    the events *)
Record trace_io := mkTraceIO {
  tio_start : option string;
  tio_wait : option string;
  tio_options : option string;
  tio_resume : option string;
  tio_pid : Z;
  tio_ctx : run_error;
  tio_late : bool;
  tio_events : list trace_event;
  tio_polls : list reap_poll;
}.

Definition trace_start (pid : Z) : trace_state := mkTraceState [] ∅ {[pid]} None [].

(** The paths, the boundaries, the error and the actions *)
Definition runTraced (io : trace_io) : option (list string * list string * option run_error * list action) :=
  let pid := tio_pid io in
  let s := trace_start pid in
  let stop s boundaries message :=
    Some ([], boundaries, Some (RunFailed message), ts_actions (killAndReapTracees pid (tio_polls io) s)) in
  match tio_start io with
  | Some message => Some ([], [], Some (RunFailed message), [])
  | None =>
      match tio_wait io with
      | Some message => stop s [] message
      | None =>
          match tio_options io with
          | Some message => stop s ["ptrace options unavailable"] message
          | None =>
              let s := act s [Resume pid 0] in
              match tio_resume io with
              | Some message => stop s [] message
              | None =>
                  match trace_loop pid (tio_ctx io) (tio_late io) (tio_events io) s with
                  | None => None
                  | Some (s, err) => Some (ts_paths s, [], err, ts_actions s)
                  end
              end
          end
      end
  end.

(** What [Run] gets from a traced process that wrote these chunks *)
Definition traced (io : trace_io) (stdout stderr : list string) : option traced_outcome :=
  match runTraced io with
  | None => None
  | Some (paths, boundaries, err, _) => Some (mkTraced (mkOutcome stdout stderr err) paths boundaries)
  end.

(** ** Lemmas: memory *)

(** The bytes of memory from an address on *)
Definition bytes (m : memory) (address : Z) (n : nat) : list ascii :=
  (λ i : nat, default zero_byte (m (address + Z.of_nat i)%Z)) <$> seq 0 n.
Definition readable (m : memory) (from to : Z) : Prop := ∀ a, (from ≤ a < to)%Z → is_Some (m a).

(** A C string: the bytes before the first NUL *)
Fixpoint cstring (l : list ascii) : list ascii :=
  match l with
  | [] => []
  | c :: l => if decide (c = zero_byte) then [] else c :: cstring l
  end.

Lemma length_bytes m a n : length (bytes m a n) = n.
Proof. unfold bytes. by rewrite length_fmap, length_seq. Qed.

Lemma lookup_bytes m a n i : i < n → bytes m a n !! i = Some (default zero_byte (m (a + Z.of_nat i)%Z)).
Proof. intros Hi. unfold bytes. by rewrite list_lookup_fmap, lookup_seq_lt. Qed.

Lemma bytes_app m a n k : bytes m a (n + k) = bytes m a n ++ bytes m (a + Z.of_nat n)%Z k.
Proof.
  apply list_eq. intros i. destruct (decide (i < n)) as [Hi|Hi].
  { rewrite lookup_app_l by (rewrite length_bytes; lia). by rewrite !lookup_bytes by lia. }
  rewrite lookup_app_r by (rewrite length_bytes; lia). rewrite length_bytes.
  destruct (decide (i < n + k)) as [Hk|Hk].
  - rewrite !lookup_bytes by lia. do 3 f_equal. lia.
  - rewrite !lookup_ge_None_2; [done|rewrite length_bytes; lia..].
Qed.

Lemma take_bytes m a n k : take n (bytes m a (n + k)) = bytes m a n.
Proof. rewrite bytes_app. by rewrite take_app_length' by (by rewrite length_bytes). Qed.
Lemma drop_bytes m a n k : drop n (bytes m a (n + k)) = bytes m (a + Z.of_nat n)%Z k.
Proof. rewrite bytes_app. by rewrite drop_app_length' by (by rewrite length_bytes). Qed.

Lemma word_at_readable m a : readable m a (a + 8) → word_at m a = Some (bytes m a 8).
Proof.
  intros Hr. unfold word_at. apply mapM_Some_2. unfold bytes. apply Forall2_fmap_r.
  change (seqZ 0 8) with (Z.of_nat <$> seq 0 8). apply Forall2_fmap_l, Forall_Forall2_diag, Forall_forall.
  intros i Hi%elem_of_seq. unfold compose. destruct (Hr (a + Z.of_nat i)%Z) as [c Hc]; [lia|]. by rewrite Hc.
Qed.

Lemma PtracePeekData_readable m a : (0 ≤ a)%Z → (a + 16 ≤ 2 ^ 64)%Z →
  readable m (a - a mod 8) (a - a mod 8 + 16) → PtracePeekData m a = Some (bytes m a 8).
Proof.
  intros Ha Hmax Hr. unfold PtracePeekData. pose proof (Z.mod_pos_bound a 8 ltac:(lia)) as Hoff.
  set (off := (a mod 8)%Z) in *. case_bool_decide as H0.
  { apply word_at_readable. intros x Hx. apply Hr. lia. }
  rewrite (word_at_readable m (a - off)) by (intros x Hx; apply Hr; lia). cbn [mbind option_bind].
  replace (wrap_uint64 (a - off + 8)) with (a - off + 8)%Z by (unfold wrap_uint64; rewrite Z.mod_small; lia).
  rewrite (word_at_readable m (a - off + 8)) by (intros x Hx; apply Hr; lia). cbn [mbind option_bind]. f_equal.
  set (n := Z.to_nat off). assert (Z.of_nat n = off) as Hn by (unfold n; lia).
  pose proof (drop_bytes m (a - off) n (8 - n)) as Hd. pose proof (take_bytes m (a - off + 8) n (8 - n)) as Ht.
  pose proof (bytes_app m a (8 - n) n) as Happ.
  replace (n + (8 - n)) with 8 in Hd, Ht by lia. replace (8 - n + n) with 8 in Happ by lia.
  rewrite Hd, Ht, Happ, Hn. do 2 f_equal; lia.
Qed.

Lemma cstring_no_zero l : zero_byte ∉ cstring l.
Proof.
  induction l as [|c l IH]; cbn; [by intros []%elem_of_nil|]. destruct (decide _); [by intros []%elem_of_nil|].
  rewrite elem_of_cons. intros [?|?]; [by subst|done].
Qed.

Lemma cstring_app l k : zero_byte ∉ l → cstring (l ++ k) = l ++ cstring k.
Proof.
  induction l as [|c l IH]; [done|]. rewrite elem_of_cons. intros Hno. cbn.
  destruct (decide (c = zero_byte)) as [->|]; [tauto|]. f_equal. apply IH. tauto.
Qed.

Lemma cstring_find l k i c : list_find (λ c, c = zero_byte) l = Some (i, c) → take i l = cstring (l ++ k).
Proof.
  intros (Hi & -> & Hno)%list_find_Some.
  assert (zero_byte ∉ take i l) as Hz.
  { intros (j & Hj)%list_elem_of_lookup. apply lookup_take_Some in Hj as [Hj Hlt]. by eapply Hno. }
  rewrite <-(take_drop i l) at 2. rewrite <-app_assoc, cstring_app by done.
  rewrite (drop_S _ _ _ Hi). cbn. destruct (decide _); [|done]. by rewrite app_nil_r.
Qed.

(** The loop finds the C string, as far as its words can be read. *)
Lemma read_words_spec m address : ∀ words content,
  let from := (address + Z.of_nat (length content))%Z in
  (∀ k, k < words → zero_byte ∉ bytes m from (8 * k) →
     PtracePeekData m (wrap_uint64 (from + 8 * Z.of_nat k)) = Some (bytes m (from + 8 * Z.of_nat k) 8)) →
  read_words words m address content = content ++ cstring (bytes m from (8 * words)).
Proof.
  induction words as [|words IH]; intros content from Hread; [cbn; by rewrite app_nil_r|]. cbn [read_words].
  specialize (Hread 0) as H0. rewrite Z.add_0_r in H0. fold from. rewrite H0; [|lia|by intros []%elem_of_nil].
  replace (8 * S words) with (8 + 8 * words) by lia. rewrite bytes_app.
  destruct (list_find _ _) as [[i c]|] eqn:Hf; [by erewrite cstring_find|].
  assert (zero_byte ∉ bytes m from 8) as Hno.
  { apply list_find_None in Hf. intros Hin. rewrite Forall_forall in Hf. by apply (Hf zero_byte). }
  rewrite cstring_app, app_assoc by done.
  assert (address + Z.of_nat (length (content ++ bytes m from 8)) = from + Z.of_nat 8)%Z as Hlen.
  { rewrite length_app, length_bytes. unfold from. lia. }
  rewrite IH, Hlen; [done|]. intros k Hk Hz. rewrite Hlen in Hz |- *.
  replace (from + Z.of_nat 8 + 8 * Z.of_nat k)%Z with (from + 8 * Z.of_nat (S k))%Z by lia. apply Hread; [lia|].
  replace (8 * S k) with (8 + 8 * k) by lia. rewrite bytes_app, elem_of_app. tauto.
Qed.

Lemma PtracePeekData_length m a word : PtracePeekData m a = Some word → length word = 8.
Proof.
  assert (∀ b w, word_at m b = Some w → length w = 8) as Hw.
  { intros b w Hb%mapM_Some_1%Forall2_length. by rewrite <-Hb. }
  unfold PtracePeekData. pose proof (Z.mod_pos_bound a 8 ltac:(lia)) as Hoff. case_bool_decide; [apply Hw|].
  destruct (word_at m (a - a mod 8)) as [lead|] eqn:Hl; [|done]. destruct (word_at m (wrap_uint64 _)) as [rest|] eqn:Hr; [|done].
  cbn. intros [= <-]. apply Hw in Hl, Hr. rewrite length_app, length_drop, length_take. lia.
Qed.

Lemma read_words_bounds m address : ∀ words content, zero_byte ∉ content →
  zero_byte ∉ read_words words m address content ∧ length (read_words words m address content) ≤ length content + 8 * words.
Proof.
  induction words as [|words IH]; intros content Hno; cbn [read_words]; [split; [done|lia]|].
  destruct (PtracePeekData m _) as [word|] eqn:Hp; [|split; [done|lia]]. apply PtracePeekData_length in Hp.
  destruct (list_find _ word) as [[i c]|] eqn:Hf.
  - rewrite (cstring_find _ [] _ _ Hf). rewrite elem_of_app, length_app. split; [intros [?|?]; [done|by eapply cstring_no_zero]|].
    rewrite <-(cstring_find _ [] _ _ Hf), length_take. lia.
  - apply list_find_None in Hf. rewrite Forall_forall in Hf.
    destruct (IH (content ++ word)) as [H1 H2].
    { rewrite elem_of_app. intros [?|?]; [done|by apply (Hf zero_byte)]. }
    split; [done|]. rewrite length_app in H2. lia.
Qed.

(** ** Lemmas: the loop *)

(** [pid] makes a system call stop in this turn. *)
Definition stops_at_call (p : Z) (e : trace_event) : bool :=
  match event_wait e with
  | Waited waited (Stopped signal _) => bool_decide (waited = p) && bool_decide (signal = SYSCALL_STOP)
  | _ => false
  end.

Fixpoint stops (p : Z) (turns : list trace_event) : nat :=
  match turns with
  | [] => 0
  | e :: turns => (if stops_at_call p e then 1 else 0) + stops p turns
  end.

(** The call that a process enters in a turn, after these: at every other
    stop of the process, and when the registers can be read *)
Definition entered_call (before : list trace_event) (e : trace_event) : option registers :=
  match event_wait e, event_registers e with
  | Waited p (Stopped signal _), Some r =>
      if bool_decide (signal = SYSCALL_STOP) && Nat.even (stops p before) && negb (leaves_group r) then Some r else None
  | _, _ => None
  end.

Definition entry_paths (before : list trace_event) (e : trace_event) : list string :=
  match entered_call before e with Some r => syscallPaths (event_memory e) r | None => [] end.

Definition entries (turns : list trace_event) : list string := concat (imap (λ i e, entry_paths (take i turns) e) turns).

(** ** What a tracer should record

    Said without the code that reads it: which argument of a call is a path,
    and the string that this argument points to. *)

Definition path_argument (r : registers) : option Z :=
  match Orig_rax r with
  | 2 | 4 | 6 | 21 | 59 | 89 => Some (Rdi r)          (** open stat lstat access execve readlink *)
  | 257 | 262 | 267 | 322 => Some (Rsi r)             (** openat newfstatat readlinkat execveat *)
  | _ => None
  end%Z.

(** These bytes are in memory from an address on. *)
Definition in_memory (m : memory) (address : Z) (content : list ascii) : Prop :=
  ∀ i c, content !! i = Some c → m (address + Z.of_nat i)%Z = Some c.

(** A pointer of a process, with room behind it *)
Definition user_pointer (address : Z) : Prop := (0 < address ∧ address + 4112 ≤ 2 ^ 64)%Z.

(** The path at [address] ends with a NUL byte, and memory can be read as far
    as the aligned words that hold it. *)
Record path_at (m : memory) (address : Z) (path : list ascii) : Prop := {
  pa_nonempty : path ≠ [];
  pa_nul : zero_byte ∉ path;
  pa_length : length path < 4096;
  pa_bytes : in_memory m address (path ++ [zero_byte]);
  pa_readable : readable m (address - address mod 8) (address + Z.of_nat (length path) + 16);
}.

(** What may be recorded for an argument: nothing but one string that is there,
    and it is the whole path if the path can be read *)
Definition reads (m : memory) (address : Z) (paths : list string) : Prop :=
  (∀ path, path ∈ paths → paths = [path] ∧ in_memory m address (String.list_ascii_of_string path) ∧
     zero_byte ∉ String.list_ascii_of_string path ∧ 0 < String.length path ≤ 4096) ∧
  ∀ path, path_at m address path → paths = [String.string_of_list_ascii path].

(** What may be recorded in a turn *)
Definition records (before : list trace_event) (e : trace_event) (paths : list string) : Prop :=
  match entered_call before e ≫= path_argument with
  | Some address => user_pointer address → reads (event_memory e) address paths
  | None => paths = []
  end.

(** The end of a process that a turn reports *)
Definition reported_end (p : Z) (e : trace_event) : option wait_status :=
  match event_wait e with
  | Waited waited (Exited code) => if bool_decide (waited = p) then Some (Exited code) else None
  | Waited waited (Signaled signal) => if bool_decide (waited = p) then Some (Signaled signal) else None
  | _ => None
  end.

Definition announced (p : Z) (e : trace_event) : Prop :=
  ∃ waited cause, event_wait e = Waited waited (Stopped SIGTRAP cause) ∧ cause ∈ new_process_causes ∧ event_message e = Some p.

Definition followed (pid : Z) (turns : list trace_event) (p : Z) : Prop := p = pid ∨ ∃ e, e ∈ turns ∧ announced p e.
Definition reported (turns : list trace_event) (p : Z) : Prop := ∃ e, e ∈ turns ∧ is_Some (reported_end p e).

(** The last report of the end of a process *)
Fixpoint last_report (p : Z) (turns : list trace_event) : option wait_status :=
  match turns with
  | [] => None
  | e :: turns => match last_report p turns with Some status => Some status | None => reported_end p e end
  end.

(** The state of the loop after these turns *)
Record follows (pid : Z) (turns : list trace_event) (s : trace_state) : Prop := {
  fo_paths : ts_paths s = entries turns;
  fo_in : ∀ p, p ∈ ts_inSyscall s ↔ Nat.odd (stops p turns) = true;
  fo_processes : ∀ p, followed pid turns p → reported turns p ∨ p ∈ ts_processes s;
  fo_main : ts_main s = last_report pid turns;
}.

Lemma stops_snoc p turns e : stops p (turns ++ [e]) = stops p turns + (if stops_at_call p e then 1 else 0).
Proof. induction turns as [|x turns IH]; cbn; [lia|]. rewrite IH. lia. Qed.

Lemma last_report_snoc p turns e :
  last_report p (turns ++ [e]) = match reported_end p e with Some status => Some status | None => last_report p turns end.
Proof. induction turns as [|x turns IH]; cbn; [by destruct (reported_end p e)|]. rewrite IH. by destruct (reported_end p e). Qed.

Lemma entries_snoc turns e : entries (turns ++ [e]) = entries turns ++ entry_paths turns e.
Proof.
  unfold entries. rewrite imap_app, concat_app. f_equal.
  - f_equal. apply imap_ext. intros i x Hi%lookup_lt_Some. cbn. by rewrite take_app_le by lia.
  - cbn. rewrite Nat.add_0_r, take_app_length, app_nil_r. done.
Qed.

Lemma followed_snoc pid turns e p : followed pid (turns ++ [e]) p → followed pid turns p ∨ announced p e.
Proof.
  intros [->|(x & Hx & Hp)]; [left; by left|]. apply elem_of_app in Hx as [Hx|Hx%list_elem_of_singleton].
  - left. right. by exists x.
  - subst. by right.
Qed.

Lemma reported_snoc turns e p : reported turns p ∨ is_Some (reported_end p e) → reported (turns ++ [e]) p.
Proof.
  intros [(x & Hx & Hp)|Hp]; [exists x; split; [|done]|exists e; split; [|done]]; apply elem_of_app; [by left|by right; left].
Qed.

(** A turn that only goes on keeps the account. *)
Lemma follows_quiet pid turns s e : follows pid turns s → (∀ p, stops_at_call p e = false) → entry_paths turns e = [] →
  (∀ p, reported_end p e = None) → (∀ p, ¬ announced p e) → follows pid (turns ++ [e]) s.
Proof.
  intros [H1 H2 H3 H4] Hst Hen Hrep Han. split.
  - by rewrite entries_snoc, Hen, app_nil_r.
  - intros p. by rewrite stops_snoc, Hst, Nat.add_0_r.
  - intros p [Hp|Hp]%followed_snoc; [|by destruct (Han p)]. destruct (H3 p Hp) as [Hr|Hin]; [|by right].
    left. apply reported_snoc. by left.
  - by rewrite last_report_snoc, Hrep.
Qed.

Lemma follows_act pid turns s actions : follows pid turns s → follows pid turns (act s actions).
Proof. by intros [H1 H2 H3 H4]. Qed.

Lemma follows_ended pid turns s e waited status : follows pid turns s → event_wait e = Waited waited status →
  reported_end waited e = Some status → follows pid (turns ++ [e]) (ended pid waited status s).
Proof.
  intros [H1 H2 H3 H4] Hw Hr.
  assert (∀ p, reported_end p e = if bool_decide (waited = p) then Some status else None) as Hrep.
  { intros p. case_bool_decide as Hp; [by subst|]. unfold reported_end. rewrite Hw. unfold reported_end in Hr. rewrite Hw in Hr.
    destruct status; [by rewrite bool_decide_eq_false_2..|done|done]. }
  split.
  - rewrite entries_snoc. cbn. rewrite H1. unfold entry_paths, entered_call. rewrite Hw. unfold reported_end in Hr. rewrite Hw in Hr.
    destruct status; [by rewrite app_nil_r..|done|by rewrite app_nil_r].
  - intros p. rewrite stops_snoc. cbn. rewrite H2. unfold stops_at_call. rewrite Hw. unfold reported_end in Hr. rewrite Hw in Hr.
    destruct status; [by rewrite Nat.add_0_r..|done|by rewrite Nat.add_0_r].
  - intros p [Hp|(w & cause & Hp & _)]%followed_snoc.
    + destruct (decide (p = waited)) as [->|Hne]; [left; apply reported_snoc; right; by rewrite Hr|].
      destruct (H3 p Hp) as [Hrp|Hin]; [left; apply reported_snoc; by left|right]. cbn. set_solver.
    + unfold reported_end in Hr. rewrite Hp in Hr. done.
  - rewrite last_report_snoc, Hrep. cbn. rewrite H4. by destruct (bool_decide (waited = pid)).
Qed.

Lemma toggle_parity p waited set n : (waited ∈ set ↔ Nat.odd n = true) → p = waited → (p ∈ toggle waited set ↔ Nat.odd (n + 1) = true).
Proof.
  intros Hn ->. unfold toggle. rewrite Nat.add_1_r, Nat.odd_succ, <-Nat.negb_odd. destruct (Nat.odd n); case_bool_decide; set_solver.
Qed.

Lemma toggle_other p waited set : p ≠ waited → (p ∈ toggle waited set ↔ p ∈ set).
Proof. intros Hne. unfold toggle. case_bool_decide; set_solver. Qed.

Lemma follows_syscall pid turns s e waited cause s' : follows pid turns s → event_wait e = Waited waited (Stopped SYSCALL_STOP cause) →
  syscall_stop waited e s = Some s' → follows pid (turns ++ [e]) s'.
Proof.
  intros [H1 H2 H3 H4] Hw. unfold syscall_stop. intros Hs.
  assert (∃ paths, s' = mkTraceState (ts_paths s ++ paths) (toggle waited (ts_inSyscall s)) (ts_processes s) (ts_main s) (ts_actions s) ∧
    paths = entry_paths turns e) as (paths & -> & Hpaths).
  { unfold entry_paths, entered_call. rewrite Hw, bool_decide_eq_true_2 by done. cbn [andb].
    assert (bool_decide (waited ∈ ts_inSyscall s) = negb (Nat.even (stops waited turns))) as Hin.
    { rewrite <-Nat.negb_odd, negb_involutive. case_bool_decide as Hd; rewrite H2 in Hd; [done|]. by destruct (Nat.odd _). }
    rewrite Hin in Hs. destruct (event_registers e) as [r|]; [|by injection Hs as <-; eexists].
    destruct (leaves_group r); [done|]. injection Hs as <-. eexists; split; [done|]. by destruct (Nat.even _). }
  assert (∀ p, reported_end p e = None) as Hrep by (intros p; unfold reported_end; by rewrite Hw).
  split; cbn.
  - by rewrite entries_snoc, H1, Hpaths.
  - intros p. rewrite stops_snoc. unfold stops_at_call. rewrite Hw, (bool_decide_eq_true_2 (SYSCALL_STOP = SYSCALL_STOP)), andb_true_r by done.
    destruct (decide (waited = p)) as [Hp|Hp].
    + rewrite (bool_decide_eq_true_2 (waited = p)) by done. subst. by apply toggle_parity.
    + rewrite (bool_decide_eq_false_2 (waited = p)) by done. rewrite Nat.add_0_r, toggle_other by congruence. apply H2.
  - intros p [Hp|(w & c & Hp & _)]%followed_snoc; [|by rewrite Hw in Hp].
    destruct (H3 p Hp) as [Hr|Hin]; [left; apply reported_snoc; by left|by right].
  - by rewrite last_report_snoc, Hrep.
Qed.

Lemma follows_trap pid turns s e waited cause : follows pid turns s → event_wait e = Waited waited (Stopped SIGTRAP cause) →
  follows pid (turns ++ [e]) (trap_stop cause e s).
Proof.
  intros [H1 H2 H3 H4] Hw.
  assert (∀ p, reported_end p e = None) as Hrep by (intros p; unfold reported_end; by rewrite Hw).
  assert (entries (turns ++ [e]) = entries turns) as Hen.
  { rewrite entries_snoc. unfold entry_paths, entered_call. rewrite Hw. by destruct (event_registers e); rewrite app_nil_r. }
  assert (∀ p, stops p (turns ++ [e]) = stops p turns) as Hst.
  { intros p. rewrite stops_snoc. unfold stops_at_call. rewrite Hw, (bool_decide_eq_false_2 (SIGTRAP = SYSCALL_STOP)) by done.
    by rewrite andb_false_r, Nat.add_0_r. }
  assert (ts_paths (trap_stop cause e s) = ts_paths s ∧ ts_inSyscall (trap_stop cause e s) = ts_inSyscall s ∧
    ts_main (trap_stop cause e s) = ts_main s ∧ ts_processes s ⊆ ts_processes (trap_stop cause e s)) as (Hp & Hi & Hm & Hsub).
  { unfold trap_stop. destruct (event_message e) as [child|]; [|done]. case_bool_decide; [|done]. cbn. split_and!; [done..|set_solver]. }
  split.
  - by rewrite Hp, Hen.
  - intros p. by rewrite Hi, Hst.
  - intros p [Hf|(w & c & Hwc & Hc & Hmsg)]%followed_snoc.
    + destruct (H3 p Hf) as [Hr|Hin]; [left; apply reported_snoc; by left|right; set_solver].
    + right. rewrite Hw in Hwc. injection Hwc as <- <-. unfold trap_stop. rewrite Hmsg, bool_decide_eq_true_2 by done. cbn. set_solver.
  - by rewrite Hm, last_report_snoc, Hrep.
Qed.

Lemma follows_stop pid turns s e waited signal cause : follows pid turns s →
  event_wait e = Waited waited (Stopped signal cause) → signal ≠ SYSCALL_STOP → signal ≠ SIGTRAP → follows pid (turns ++ [e]) s.
Proof.
  intros Hf Hw Hn1 Hn2. apply follows_quiet; [done|..].
  - intros p. unfold stops_at_call. rewrite Hw, (bool_decide_eq_false_2 (signal = SYSCALL_STOP)) by done. apply andb_false_r.
  - unfold entry_paths, entered_call. rewrite Hw, (bool_decide_eq_false_2 (signal = SYSCALL_STOP)) by done. by destruct (event_registers e).
  - intros p. unfold reported_end. by rewrite Hw.
  - intros p (w & c & Hp & _). rewrite Hw in Hp. by injection Hp as _ ->.
Qed.

(** The account of what was killed: the process and its group were sent the
    signal, and a wait has reported it since, or no child was left to wait for,
    or the deadline has passed. *)
Definition killed (pid : Z) (actions : list action) (p : Z) : Prop :=
  KillGroup pid ∈ actions ∧ Kill p ∈ actions ∧
  (Collect p ∈ actions ∨ GaveUp true ∈ actions ∨ GaveUp false ∈ actions).

Lemma reap_spec polls p : ∀ processes, p ∈ processes →
  let '(_, actions) := reap polls processes in
  Collect p ∈ actions ∨ GaveUp true ∈ actions ∨ GaveUp false ∈ actions.
Proof.
  induction polls as [|poll polls IH]; intros processes Hp; cbn; rewrite bool_decide_eq_false_2 by set_solver.
  { right; right. by left. }
  destruct poll as [q| | |]; [|by apply IH|right; left; by left|by apply IH].
  destruct (decide (p = q)) as [->|Hne]; [destruct (reap _ _); left; by left|].
  specialize (IH (processes ∖ {[q]}) ltac:(set_solver)). destruct (reap _ _) as [processes' actions].
  set_solver.
Qed.

Lemma kill_all pid polls s p : p ∈ ts_processes s → killed pid (ts_actions (killAndReapTracees pid polls s)) p.
Proof.
  intros Hp. unfold killed, killAndReapTracees. pose proof (reap_spec polls p (ts_processes s) Hp) as Hr.
  destruct (reap _ _) as [processes actions]. cbn.
  split_and!.
  - apply elem_of_app. right. by left.
  - apply elem_of_app. right. right. apply elem_of_app. left. apply list_elem_of_fmap. exists p. by rewrite elem_of_elements.
  - set_solver.
Qed.

(** What holds when the loop returns before its end *)
Definition abandoned (pid : Z) (turns : list trace_event) (s : trace_state) : Prop :=
  ts_paths s = entries turns ∧ ∀ p, followed pid turns p → reported turns p ∨ killed pid (ts_actions s) p.

Lemma follows_abandoned pid turns polls s : follows pid turns s → abandoned pid turns (killAndReapTracees pid polls s).
Proof.
  intros [H1 _ H3 _]. split; [unfold killAndReapTracees; by destruct (reap _ _)|]. intros p [Hr|Hin]%H3; [by left|right]. by apply kill_all.
Qed.

Lemma resume_follows pid turns waited signal e s : follows pid turns s →
  match resume pid waited signal e s with
  | Continue s' => follows pid turns s'
  | Break _ => False
  | Return s' _ => abandoned pid turns s'
  end.
Proof.
  intros Hf%(follows_act _ _ _ [Resume waited (delivered signal)]). unfold resume.
  destruct (event_resume e); [done|done|by apply follows_abandoned].
Qed.

Lemma stopped_follows pid turns waited signal cause e s : follows pid turns s →
  event_wait e = Waited waited (Stopped signal cause) →
  match stopped pid waited signal cause e s with
  | Continue s' => follows pid (turns ++ [e]) s'
  | Break _ => False
  | Return s' _ => ∃ turns', turns' `prefix_of` turns ++ [e] ∧ abandoned pid turns' s'
  end.
Proof.
  intros Hf Hw. unfold stopped.
  assert (∀ s', follows pid (turns ++ [e]) s' → match resume pid waited signal e s' with
    | Continue s' => follows pid (turns ++ [e]) s' | Break _ => False
    | Return s' _ => ∃ turns', turns' `prefix_of` turns ++ [e] ∧ abandoned pid turns' s' end) as Hres.
  { intros s' Hf'. pose proof (resume_follows pid _ waited signal e s' Hf') as Hr.
    destruct (resume _ _ _ _ _); [done|done|]. exists (turns ++ [e]). by split. }
  destruct (decide (signal = SYSCALL_STOP)) as [->|Hn1].
  { rewrite (bool_decide_eq_true_2 (SYSCALL_STOP = SYSCALL_STOP)) by done. destruct (syscall_stop waited e s) as [s'|] eqn:Hs.
    - apply Hres. by eapply follows_syscall.
    - exists turns. split; [by apply prefix_app_r|by apply follows_abandoned]. }
  rewrite (bool_decide_eq_false_2 (signal = SYSCALL_STOP)) by done. destruct (decide (signal = SIGTRAP)) as [->|Hn2].
  - rewrite (bool_decide_eq_true_2 (SIGTRAP = SIGTRAP)) by done. apply Hres. by eapply follows_trap.
  - rewrite (bool_decide_eq_false_2 (signal = SIGTRAP)) by done. apply Hres. by eapply follows_stop.
Qed.

Lemma turn_follows pid ctx turns e s : follows pid turns s →
  match trace_turn pid ctx e s with
  | Continue s' => follows pid (turns ++ [e]) s'
  | Break s' => s' = s ∧ event_wait e = NoChild
  | Return s' _ => ∃ turns', turns' `prefix_of` turns ++ [e] ∧ abandoned pid turns' s'
  end.
Proof.
  intros Hf. unfold trace_turn.
  assert (∃ turns', turns' `prefix_of` turns ++ [e] ∧ abandoned pid turns' (killAndReapTracees pid (event_polls e) s)) as Hab.
  { exists turns. split; [by apply prefix_app_r|by apply follows_abandoned]. }
  destruct (event_done e); [exact Hab|].
  destruct (event_wait e) as [waited [code|signal|signal cause|]| |message] eqn:Hw; [..|done|exact Hab].
  - apply follows_ended; [done..|]. unfold reported_end. rewrite Hw. by rewrite bool_decide_eq_true_2.
  - apply follows_ended; [done..|]. unfold reported_end. rewrite Hw. by rewrite bool_decide_eq_true_2.
  - pose proof (stopped_follows pid turns waited signal cause e s Hf Hw). by destruct (stopped _ _ _ _ _ _).
  - apply follows_quiet; [done|..]; unfold stops_at_call, entry_paths, entered_call, reported_end, announced; rewrite Hw; [done| |done|].
    + by destruct (event_registers e).
    + by intros p (w & c & ? & _).
Qed.

Definition context_error (err : run_error) : Prop := err = RunDeadline ∨ err = RunCanceled.

(** How the loop ends, after these turns *)
Inductive loop_end (pid : Z) (ctx : run_error) (late : bool) (turns : list trace_event) (s : trace_state) (err : option run_error) :
    Prop :=
  | end_all : follows pid turns s → ts_processes s = ∅ → err = trace_result (if late then Some ctx else None) s →
      loop_end pid ctx late turns s err
  | end_childless e before : turns = before ++ [e] → event_wait e = NoChild → follows pid before s →
      err = trace_result (if late then Some ctx else None) s → loop_end pid ctx late turns s err
  | end_abandoned turns' : turns' `prefix_of` turns → abandoned pid turns' s → err ≠ None → default false (traced_exit <$> err) = false → loop_end pid ctx late turns s err.

Lemma turn_return pid ctx e s s' err : context_error ctx → trace_turn pid ctx e s = Return s' err → traced_exit err = false.
Proof.
  intros Hctx. unfold trace_turn, stopped, resume. destruct (event_done e); [intros [= _ <-]; by destruct Hctx as [-> | ->]|].
  destruct (event_wait e) as [w [| |signal cause|]| |]; try done; [|by intros [= _ <-]].
  destruct (bool_decide _); [destruct (syscall_stop _ _ _); [|by intros [= _ <-]]|destruct (bool_decide _)];
    (destruct (event_resume e); [done|done|by intros [= _ <-]]).
Qed.

Lemma trace_loop_end pid ctx late events : context_error ctx → ∀ turns s s' err, follows pid turns s →
  trace_loop pid ctx late events s = Some (s', err) →
  ∃ consumed, consumed `prefix_of` events ∧ loop_end pid ctx late (turns ++ consumed) s' err.
Proof.
  intros Hctx. induction events as [|e events IH]; intros turns s s' err Hf; cbn [trace_loop];
    (destruct (decide (ts_processes s = ∅)) as [He|He];
      [rewrite bool_decide_eq_true_2 by done; intros [= <- <-]; exists []; split; [apply prefix_nil|]; rewrite app_nil_r; by apply end_all
      |rewrite bool_decide_eq_false_2 by done]); [done|].
  pose proof (turn_follows pid ctx turns e s Hf) as Ht. destruct (trace_turn pid ctx e s) as [s1|s1|s1 err1] eqn:Hturn.
  - intros Hrun. destruct (IH _ _ _ _ Ht Hrun) as (consumed & Hpre & Hend). exists (e :: consumed).
    split; [by apply prefix_cons|]. by rewrite <-app_assoc in Hend.
  - destruct Ht as [-> Hw]. intros [= <- <-]. exists [e]. split; [by exists events|]. by eapply end_childless.
  - destruct Ht as (turns' & Hpre & Hab). intros [= <- <-]. exists [e]. split; [by exists events|].
    eapply end_abandoned; [done..|]. by eapply turn_return.
Qed.

Lemma follows_start pid : follows pid [] (trace_start pid).
Proof.
  split; [done| |intros p [->|(e & []%elem_of_nil & _)]; right; cbn; set_solver|done]. intros p. cbn. split; [set_solver|done].
Qed.

Lemma last_report_final p turns status : last_report p turns = Some status →
  (∃ code, status = Exited code) ∨ (∃ signal, status = Signaled signal).
Proof.
  induction turns as [|e turns IH]; [done|]. cbn. destruct (last_report p turns); [by intros [= ->]; apply IH|].
  unfold reported_end. destruct (event_wait e) as [w [| | |]| |]; try done; case_bool_decide; intros [= <-]; eauto.
Qed.

(** The error of the tracer says how the process ended. *)
Definition tells (p : Z) (turns : list trace_event) (err : option run_error) : Prop :=
  match err with
  | None => last_report p turns = Some (Exited 0)
  | Some (RunTraced code signal) =>
      (last_report p turns = Some (Exited code) ∧ code ≠ 0%Z ∧ signal = "") ∨
      (last_report p turns = Some (Signaled signal) ∧ code = (-1)%Z)
  | Some _ => True
  end.

Lemma trace_result_tells pid turns (late : bool) ctx s : context_error ctx → follows pid turns s →
  tells pid turns (trace_result (if late then Some ctx else None) s).
Proof.
  intros Hctx Hf. destruct late; cbn; [by destruct Hctx as [-> | ->]|]. rewrite (fo_main _ _ _ Hf).
  destruct (last_report pid turns) as [status|] eqn:Hl; [|exact I].
  destruct (last_report_final _ _ _ Hl) as [[code ->]|[signal ->]]; cbn; [|by rewrite Hl; right].
  case_bool_decide as Hc; cbn; rewrite Hl; [by rewrite Hc|by left].
Qed.

(** ** Properties *)

(** a path argument is read as it is.  When a process passes a path of less
    than 4096 bytes, and the memory around it can be read as far as the aligned
    words of the last read reach, the tracer records exactly this path. *)
Theorem readPointerPaths_string m address path
    (Haddress : (0 < address)%Z) (Hmax : (address + Z.of_nat (length path) + 16 ≤ 2 ^ 64)%Z)
    (Hpath : path ≠ []) (Hzero : zero_byte ∉ path) (Hlen : length path < 4096)
    (Hbytes : ∀ i c, (path ++ [zero_byte]) !! i = Some c → m (address + Z.of_nat i)%Z = Some c)
    (Hread : readable m (address - address mod 8) (address + Z.of_nat (length path) + 16)) :
  readPointerPaths m address = [String.string_of_list_ascii path].
Proof.
  assert (∀ n, length path < n → ∃ rest, bytes m address n = path ++ zero_byte :: rest) as Hprefix.
  { intros n Hn. exists (bytes m (address + Z.of_nat (S (length path))) (n - S (length path))).
    replace n with (S (length path) + (n - S (length path))) at 1 by lia. rewrite bytes_app, cons_middle, app_assoc. f_equal.
    apply list_eq. intros i. destruct (decide (i < S (length path))) as [Hi|Hi].
    - rewrite lookup_bytes by done. destruct (lookup_lt_is_Some_2 (path ++ [zero_byte]) i) as [c Hc].
      { rewrite length_app. cbn. lia. }
      by rewrite Hc, (Hbytes i c Hc).
    - rewrite !lookup_ge_None_2; [done|rewrite length_app; cbn; lia|rewrite length_bytes; lia]. }
  unfold readPointerPaths. rewrite bool_decide_eq_false_2 by lia. rewrite read_words_spec.
  { cbn [length app Z.of_nat]. rewrite Z.add_0_r. destruct (Hprefix (8 * path_words)) as [rest ->]; [unfold path_words; lia|].
    rewrite cstring_app by done. cbn. rewrite decide_True, app_nil_r by done. by destruct path. }
  cbn [length Z.of_nat]. rewrite Z.add_0_r. intros k Hk Hno.
  assert (8 * k ≤ length path) as Hle.
  { destruct (decide (8 * k ≤ length path)) as [|Hgt]; [done|]. destruct (Hprefix (8 * k)) as [rest Heq]; [lia|].
    destruct Hno. rewrite Heq. set_solver. }
  pose proof (Z.mod_pos_bound address 8 ltac:(lia)) as Hoff.
  assert ((address + 8 * Z.of_nat k) mod 8 = address mod 8)%Z as Hmod.
  { rewrite Z.mul_comm. apply Z_mod_plus_full. }
  replace (wrap_uint64 (address + 8 * Z.of_nat k)) with (address + 8 * Z.of_nat k)%Z
    by (unfold wrap_uint64; rewrite Z.mod_small; lia).
  apply PtracePeekData_readable; [lia|lia|]. rewrite Hmod. intros a Ha. apply Hread. lia.
Qed.

(** whatever is in memory, at most one path is recorded for a call; it is
    not empty, has no NUL byte and is at most 4096 bytes long. *)
Theorem readPointerPaths_bounded m address :
  ∀ path, path ∈ readPointerPaths m address → readPointerPaths m address = [path] ∧
    zero_byte ∉ String.list_ascii_of_string path ∧ 0 < String.length path ≤ 4096.
Proof.
  intros path. unfold readPointerPaths. case_bool_decide; [by intros ?%elem_of_nil|].
  destruct (read_words_bounds m address path_words []) as [H1 H2]; [by intros ?%elem_of_nil|].
  destruct (read_words _ _ _ _) as [|c content] eqn:Hw; [by intros ?%elem_of_nil|]. intros ->%list_elem_of_singleton.
  assert (String.length (String.string_of_list_ascii (c :: content)) = length (c :: content)) as Hl.
  { clear. induction (c :: content) as [|x l IH]; [done|]. cbn. by rewrite IH. }
  rewrite String.list_ascii_of_string_of_list_ascii, Hl. split_and!; [done|done|cbn; lia|].
  unfold path_words in H2. cbn [length] in H2 |- *. lia.
Qed.

(** ** Lemmas: what is recorded is what is in memory *)

Lemma word_at_memory m a w : word_at m a = Some w → in_memory m a w.
Proof.
  intros Hw%mapM_Some_1 i c Hc. destruct (Forall2_lookup_r _ _ _ _ _ Hw Hc) as (j & Hj & Hm).
  apply lookup_seqZ in Hj as [-> _]. exact Hm.
Qed.

Lemma PtracePeekData_memory m a word : (0 ≤ a)%Z → (a + 16 ≤ 2 ^ 64)%Z → PtracePeekData m a = Some word → in_memory m a word.
Proof.
  intros Ha Hmax. unfold PtracePeekData. pose proof (Z.mod_pos_bound a 8 ltac:(lia)) as Hoff. set (off := (a mod 8)%Z) in *.
  case_bool_decide; [apply word_at_memory|].
  destruct (word_at m (a - off)) as [lead|] eqn:Hl; [|done]. cbn [mbind option_bind].
  replace (wrap_uint64 (a - off + 8)) with (a - off + 8)%Z by (unfold wrap_uint64; rewrite Z.mod_small; lia).
  destruct (word_at m (a - off + 8)) as [rest|] eqn:Hr; [|done]. intros [= <-].
  assert (length lead = 8) as Hlen by (by apply mapM_Some_1, Forall2_length in Hl).
  apply word_at_memory in Hl, Hr. intros i c [Hi|[Hge Hi]]%lookup_app_Some.
  - rewrite lookup_drop in Hi. apply Hl in Hi. rewrite <-Hi. f_equal. lia.
  - apply lookup_take_Some in Hi as [Hi _]. apply Hr in Hi. rewrite length_drop, Hlen in Hi, Hge. rewrite <-Hi. f_equal. lia.
Qed.

Lemma in_memory_app m a l k : in_memory m a l → in_memory m (a + Z.of_nat (length l)) k → in_memory m a (l ++ k).
Proof.
  intros Hl Hk i c [Hi|[Hge Hi]]%lookup_app_Some; [by apply Hl|]. apply Hk in Hi. rewrite <-Hi. f_equal. lia.
Qed.

Lemma read_words_memory m a : (0 < a)%Z → ∀ words content, (a + Z.of_nat (length content + 8 * words) + 16 ≤ 2 ^ 64)%Z →
  in_memory m a content → in_memory m a (read_words words m a content).
Proof.
  intros Ha. induction words as [|words IH]; intros content Hmax Hc; [done|]. cbn [read_words].
  replace (wrap_uint64 (a + Z.of_nat (length content))) with (a + Z.of_nat (length content))%Z
    by (unfold wrap_uint64; rewrite Z.mod_small; lia).
  destruct (PtracePeekData _ _) as [word|] eqn:Hp; [|done].
  pose proof (PtracePeekData_length _ _ _ Hp) as Hlen. apply PtracePeekData_memory in Hp; [|lia..].
  destruct (list_find _ word) as [[i c]|].
  - apply in_memory_app; [done|]. intros j d [Hj _]%lookup_take_Some. by apply Hp.
  - apply IH; [rewrite length_app; lia|]. by apply in_memory_app.
Qed.

Lemma readPointerPaths_reads m address : user_pointer address → reads m address (readPointerPaths m address).
Proof.
  intros [Hpos Hmax]. split.
  - intros path Hin. destruct (readPointerPaths_bounded m address path Hin) as (Heq & Hno & Hlen).
    split_and!; [done| |done|lia|lia]. unfold readPointerPaths in Hin.
    rewrite bool_decide_eq_false_2 in Hin by lia.
    pose proof (read_words_memory m address Hpos path_words []) as Hm.
    destruct (read_words _ _ _ _) as [|c content]; [by apply elem_of_nil in Hin|].
    apply list_elem_of_singleton in Hin as ->. rewrite String.list_ascii_of_string_of_list_ascii.
    apply Hm; [unfold path_words; cbn [length]; lia|by intros i d ?].
  - intros path [H1 H2 H3 H4 H5]. apply readPointerPaths_string; try done. lia.
Qed.

Lemma path_argument_of r : path_argument r =
  if bool_decide (Orig_rax r ∈ path_in_rdi) then Some (Rdi r)
  else if bool_decide (Orig_rax r ∈ path_in_rsi) then Some (Rsi r) else None.
Proof.
  unfold path_argument. generalize (Orig_rax r) as call. intros [|n|n]; [reflexivity| |reflexivity].
  do 9 (destruct n as [n|n|]; try reflexivity).
Qed.

Lemma entry_paths_records before e : records before e (entry_paths before e).
Proof.
  unfold records, entry_paths. destruct (entered_call before e) as [r|]; [cbn [mbind option_bind]|done].
  rewrite path_argument_of. unfold syscallPaths. case_bool_decide; [by intros; apply readPointerPaths_reads|].
  case_bool_decide; [by intros; apply readPointerPaths_reads|done].
Qed.

Lemma entries_records turns : ∃ found : list (list string), entries turns = concat found ∧ length found = length turns ∧
  ∀ i e paths, turns !! i = Some e → found !! i = Some paths → records (take i turns) e paths.
Proof.
  exists (imap (λ i e, entry_paths (take i turns) e) turns). split_and!; [done|by rewrite length_imap|].
  intros i e paths He. rewrite list_lookup_imap, He. intros [= <-]. apply entry_paths_records.
Qed.

(** C35: the account of the tracer is complete.  When a traced run returns,
    what it recorded is made up, turn by turn up to the one in which tracing
    stopped, of one part for every turn: for the entry of a followed process
    into one of the ten calls that take a path, nothing but one string that is
    in its memory at this argument, and the whole path if it is shorter than
    4096 bytes and the aligned words around it can be read; nothing for any
    other turn.  Every process it followed - the command, and each one
    announced by a fork, vfork or clone - has been reported as ended; or the
    kernel has no child left; or the process and its group were killed, and
    then a wait has reported it, or no child was left to wait for, or the
    second that is allowed for it has passed.  Without an error the command ended
    with exit code 0; an exit error says how it ended. *)
Theorem runTraced_accounts io paths boundaries err actions
    (Hstart : tio_start io = None) (Hwait : tio_wait io = None) (Hoptions : tio_options io = None) (Hresume : tio_resume io = None)
    (Hctx : context_error (tio_ctx io)) (Hrun : runTraced io = Some (paths, boundaries, err, actions)) :
  ∃ turns rest found, tio_events io = turns ++ rest ∧
    paths = concat found ∧ length found = length turns ∧
    (∀ i e recorded, turns !! i = Some e → found !! i = Some recorded → records (take i turns) e recorded) ∧
    boundaries = [] ∧ tells (tio_pid io) turns err ∧
    ((∃ e, head rest = Some e ∧ event_wait e = NoChild) ∨
     ∀ p, followed (tio_pid io) turns p → reported turns p ∨ killed (tio_pid io) actions p).
Proof.
  assert (∃ turns rest, tio_events io = turns ++ rest ∧ paths = entries turns ∧ boundaries = [] ∧ tells (tio_pid io) turns err ∧
    ((∃ e, head rest = Some e ∧ event_wait e = NoChild) ∨
     ∀ p, followed (tio_pid io) turns p → reported turns p ∨ killed (tio_pid io) actions p))
    as (turns & rest & Hev & -> & Hb & Ht & Hend).
  { unfold runTraced in Hrun. rewrite Hstart, Hwait, Hoptions, Hresume in Hrun. set (s0 := act _ _) in Hrun.
    destruct (trace_loop _ _ _ _ s0) as [[s err']|] eqn:Hloop; [|done]. injection Hrun as <- <- <- <-.
    apply (trace_loop_end _ _ _ _ Hctx []) in Hloop as (consumed & [rest Hev] & Hend); [|by apply follows_act, follows_start].
    cbn [app] in Hend. destruct Hend as [Hf Hempty ->|e before -> Hw Hf ->|turns [more ->] [Hp Hab] Hne Hex].
    - exists consumed, rest. split_and!; [done|apply (fo_paths _ _ _ Hf)|done|by apply trace_result_tells|]. right.
      intros p [Hr|Hin]%(fo_processes _ _ _ Hf); [by left|]. rewrite Hempty in Hin. by apply elem_of_empty in Hin.
    - exists before, (e :: rest). rewrite Hev, <-app_assoc.
      split_and!; [done|apply (fo_paths _ _ _ Hf)|done|by apply trace_result_tells|]. left. by exists e.
    - exists turns, (more ++ rest). rewrite Hev, <-app_assoc. split_and!; [done|done|done| |by right].
      destruct err' as [[]|]; done. }
  destruct (entries_records turns) as (found & Hc & Hlen & Hrec). exists turns, rest, found. by split_and!.
Qed.

(** the tracer returns.  It does so at the latest in the first turn that
    finds its context done, or the kernel without a child, or fails to wait. *)
Theorem runTraced_returns io e
    (He : e ∈ tio_events io) (Hlast : event_done e = true ∨ event_wait e = NoChild ∨ ∃ message, event_wait e = WaitFailed message) :
  is_Some (runTraced io).
Proof.
  unfold runTraced. destruct (tio_start io); [by eexists|]. destruct (tio_wait io); [by eexists|].
  destruct (tio_options io); [by eexists|]. destruct (tio_resume io); [by eexists|].
  enough (∀ s, is_Some (trace_loop (tio_pid io) (tio_ctx io) (tio_late io) (tio_events io) s)) as Hs.
  { destruct (Hs (act (trace_start (tio_pid io)) [Resume (tio_pid io) 0])) as [[s err] ->]. by eexists. }
  induction (tio_events io) as [|x events IH]; [by apply elem_of_nil in He|]. intros s. cbn [trace_loop].
  case_bool_decide; [by eexists|]. apply elem_of_cons in He as [<-|He].
  - unfold trace_turn. destruct Hlast as [->|[->|[message ->]]]; [by eexists|..]; destruct (event_done e); by eexists.
  - destruct (trace_turn _ _ x s); [by apply IH|by eexists..].
Qed.

(** ** Witnesses *)

(** One readable page from 4096 on, with a path at [base] *)
Definition page (base : Z) (path : string) : memory := λ a,
  if bool_decide (4096 ≤ a)%Z && bool_decide (a < 8192)%Z
  then Some (if bool_decide (a < base)%Z then zero_byte
             else default zero_byte (String.list_ascii_of_string path !! Z.to_nat (a - base)))
  else None.

Lemma page_readable base path from to : (4096 ≤ from)%Z → (to ≤ 8192)%Z → readable (page base path) from to.
Proof. intros H1 H2 a Ha. unfold page. rewrite !bool_decide_eq_true_2 by lia. by eexists. Qed.

Lemma readPointerPaths_string_witness : readPointerPaths (page 4100 "/etc/hosts") 4100 = ["/etc/hosts"].
Proof.
  apply (readPointerPaths_string (page 4100 "/etc/hosts") 4100 (String.list_ascii_of_string "/etc/hosts")).
  - lia.
  - vm_compute. discriminate.
  - discriminate.
  - apply (bool_decide_unpack _). vm_compute. exact I.
  - cbn. lia.
  - intros i c Hi. destruct (lookup_lt_Some _ _ _ Hi) as [|Hlt]; do 11 (destruct i as [|i]; [by injection Hi as <-|]);
      by destruct i.
  - apply page_readable; vm_compute; discriminate.
Defined.

(** A path that ends within the last word of a page is lost when it does not
    start at a multiple of eight, although all of it can be read. *)
Example path_at_page_end :
  readPointerPaths (page 8189 "/a") 8189 = [] ∧
  page 8189 "/a" 8189%Z = Some "/"%char ∧ page 8189 "/a" 8190%Z = Some "a"%char ∧ page 8189 "/a" 8191%Z = Some zero_byte.
Proof. by vm_compute. Qed.

Lemma readPointerPaths_bounded_witness :
  readPointerPaths (page 4100 "/a") 4100 = ["/a"] ∧ zero_byte ∉ String.list_ascii_of_string "/a" ∧ 0 < String.length "/a" ≤ 4096.
Proof. apply (readPointerPaths_bounded (page 4100 "/a") 4100 "/a"). vm_compute. left. Defined.

Definition turn_of (wait : wait_result) (call : option registers) (child : option Z) : trace_event :=
  mkTraceEvent false wait call (page 4100 "/etc/hosts") child Resumed [].
(** The command 7 opens a file, forks 8, which ends, and exits with 3. *)
Definition demo_turns : list trace_event :=
  [turn_of (Waited 7 (Stopped 133 0)) (Some (mkRegisters 257 0 4100)) None;
   turn_of (Waited 7 (Stopped 133 0)) (Some (mkRegisters 257 0 4100)) None;
   turn_of (Waited 7 (Stopped 5 1)) None (Some 8);
   turn_of (Waited 8 (Stopped 19 0)) None None;
   turn_of (Waited 8 (Exited 0)) None None;
   turn_of (Waited 7 (Exited 3)) None None]%Z.
Definition demo_trace : trace_io := mkTraceIO None None None None 7 RunDeadline false demo_turns [].

Lemma demo_traced : runTraced demo_trace =
  Some (["/etc/hosts"], [], Some (RunTraced 3 ""), [Resume 7 0; Resume 7 0; Resume 7 0; Resume 7 0; Resume 8 0]%Z).
Proof. by vm_compute. Qed.

Lemma runTraced_accounts_witness :
  ∃ turns rest found, demo_turns = turns ++ rest ∧ ["/etc/hosts"] = concat found ∧ length found = length turns ∧
    (∀ i e recorded, turns !! i = Some e → found !! i = Some recorded → records (take i turns) e recorded) ∧
    tells 7 turns (Some (RunTraced 3 "")).
Proof.
  destruct (runTraced_accounts demo_trace _ _ _ _ eq_refl eq_refl eq_refl eq_refl (or_introl eq_refl) demo_traced)
    as (turns & rest & found & H1 & H2 & H3 & H4 & _ & H5 & _).
  exists turns, rest, found. exact (conj H1 (conj H2 (conj H3 (conj H4 H5)))).
Defined.

Lemma runTraced_returns_witness : is_Some (runTraced (mkTraceIO None None None None 7 RunDeadline false
  [mkTraceEvent true NoChild None (λ _, None) None Resumed []] [])).
Proof.
  apply (runTraced_returns (mkTraceIO None None None None 7 RunDeadline false
    [mkTraceEvent true NoChild None (λ _, None) None Resumed []] []) (mkTraceEvent true NoChild None (λ _, None) None Resumed [])).
  - left.
  - by left.
Defined.
