(* ===== verification/Engine.v ===== *)
(** * Engine: the causal analysis

    Models [src/internal/experiment/engine.go] and [cache.go]: [Analyze] with
    its baselines, the minimisation by [DDMin], the reverse and the minimality
    verification, every early return included, over the store, the workspace,
    the runner and the oracle.  What is outside the program - the clock, random
    identifiers, the context, the processes, failing writes - is the interface
    [World]; the state threads it through every call. *)

From S2P Require Import Prelude Sha256 Model Json Ddmin Compare AuditLog Paths Fs Store Workspace Oracle Runner.

(** ** The outside world *)

Class World := {
  world : Type;
  now : world → time * world;
  random_id : world → string * world;
  ctx_err : world → option error;
  mkdir_temp : world → result (list string) * world;
  process : run_request → fs → world → run_io * fs * world;
  cache_unreadable : world → option error;
  cache_fail : world → option error;
  analysis_fail : world → option error;
  audit_outcome : world → audit_fault;
  world_user : User;
}.
#[export] Existing Instance world_user.

(** ** The experiment cache key *)

Record cacheManifest := mkCacheManifest {
  cm_Digest : string;
  cm_Entries : list WorkspaceEntry;
}.

Record cacheInput := mkCacheInput {
  ci_Contract : string;
  ci_ToolVersion : string;
  ci_ToolCommit : string;
  ci_BaseWorld : cacheManifest;
  ci_SourceWorld : cacheManifest;
  ci_BaseEnvironment : gmap string string;
  ci_Command : list string;
  ci_TimeoutMS : Z;
  ci_Oracle : Oracle;
  ci_Factors : list Factor;
  ci_BaseIsGood : bool;
  ci_Kind : string;
}.

Definition manifestForCache (manifest : WorkspaceManifest) : cacheManifest :=
  mkCacheManifest (Manifest_Digest manifest) (sort_by Entry_Path (Manifest_Entries manifest)).

(** ** Requests and state *)

Record Request := mkRequest {
  Request_Good : option Capture;
  Request_Bad : option Capture;
  Request_Command : list string;
  Request_Repetitions : Z;
  Request_MaxExperiments : Z;
  Request_MaxFactors : Z;
  Request_MaxOutputBytes : Z;
}.

Record ProgressEvent := mkProgress {
  Progress_ExperimentID : string;
  Progress_Kind : string;
  Progress_CacheHit : bool;
}.

(** The fields that a cache hit replaces *)
Definition with_fields (e : Experiment) (id : string) (t : time) (base source : string)
    (factorIDs : list string) : Experiment :=
  mkExperiment id (Experiment_Kind e) true t t base source factorIDs (Experiment_Result e)
    (Experiment_OracleResult e) (Experiment_Error e).

Section engine.
Context `{!World, !Gzip, !Regexp}.
Context `{!Json cacheInput, !Json experimentCacheEntry, !Json Analysis, !Json AuditEvent}.
(** version.Version and version.Commit, set by the build *)
Variables (Version Commit : string).

Record state := mkState {
  st_fs : fs;
  st_blobs : files;
  st_cache : files;
  st_analyses : files;
  st_audit : audit_file;
  st_progress : list ProgressEvent;
  st_world : world;
}.

Definition set_fs (s : state) (f : fs) : state :=
  mkState f (st_blobs s) (st_cache s) (st_analyses s) (st_audit s) (st_progress s) (st_world s).
Definition set_cache (s : state) (c : files) : state :=
  mkState (st_fs s) (st_blobs s) c (st_analyses s) (st_audit s) (st_progress s) (st_world s).
Definition set_world (s : state) (w : world) : state :=
  mkState (st_fs s) (st_blobs s) (st_cache s) (st_analyses s) (st_audit s) (st_progress s) w.
Definition set_store (s : state) (analyses : files) (audit : audit_file) : state :=
  mkState (st_fs s) (st_blobs s) (st_cache s) analyses audit (st_progress s) (st_world s).

Definition notifyProgress (s : state) (event : ProgressEvent) : state :=
  mkState (st_fs s) (st_blobs s) (st_cache s) (st_analyses s) (st_audit s)
    (st_progress s ++ [event]) (st_world s).

Definition clock (s : state) : time * state :=
  let '(t, w) := now (st_world s) in (t, set_world s w).

(** id.New *)
Definition new_id (prefix : string) (s : state) : string * state :=
  let '(r, w) := random_id (st_world s) in (prefix +:+ "_" +:+ r, set_world s w).

(** What the key of an experiment is made of *)
Definition experiment_input (base source : Capture) (goodCaptureID : string)
    (command : list string) (selected : list Factor) (kind : string) : cacheInput :=
  mkCacheInput "worldbisect-experiment-cache-v1" Version Commit
    (manifestForCache (Capture_Workspace base)) (manifestForCache (Capture_Workspace source))
    (CommandSpec_Environment (Capture_Command base)) command
    (CommandSpec_TimeoutMS (Capture_Command base)) (Capture_Oracle base)
    (sort_by Factor_ID selected) (bool_decide (Capture_ID base = goodCaptureID)) kind.

Definition experimentCacheKey (base source : Capture) (goodCaptureID : string)
    (command : list string) (selected : list Factor) (kind : string) : string :=
  sha256_hex (json_marshal (experiment_input base source goodCaptureID command selected kind)).

(** ** runWorld *)

(** The [for _, factor := range selected] loop; after an error the state is
    the one at that point. *)
Fixpoint apply_factors (s : state) (root : string) (useGood : bool) (selected : list Factor)
    (environment : gmap string string) : result (gmap string string) * state :=
  match selected with
  | [] => (Ok environment, s)
  | factor :: selected =>
      match Factor_Type factor with
      | FactorEnvironment =>
          let '(present, value) :=
            if useGood then (Factor_GoodPresent factor, Factor_GoodValue factor)
            else (Factor_BadPresent factor, Factor_BadValue factor) in
          let environment := if (present : bool) then <[Factor_Key factor := value]> environment
                             else delete (Factor_Key factor) environment in
          apply_factors s root useGood selected environment
      | FactorWorkspace =>
          let '(entry, present) :=
            if useGood then (Factor_GoodEntry factor, Factor_GoodPresent factor)
            else (Factor_BadEntry factor, Factor_BadPresent factor) in
          match Apply (st_fs s) (st_blobs s) root (Factor_Key factor) entry present with
          | (f, Ok _) => apply_factors (set_fs s f) root useGood selected environment
          | (f, Err err) => (Err err, set_fs s f)
          end
      | FactorOther _ => apply_factors s root useGood selected environment
      end
  end.

(** From [start := time.Now()] to the end of [runWorld] *)
Definition observe (base source : Capture) (command : list string) (factorIDs : list string)
    (maxOutput : Z) (kind cacheKey root : string) (environment : gmap string string) (s : state)
    : Experiment * result bool * state :=
  let '(start, s) := clock s in
  let req := mkRunRequest command root (EnvironmentToList environment)
    (wrap_int64 (CommandSpec_TimeoutMS (Capture_Command base) * 1000000)) maxOutput false None in
  let '(io, f, w) := process req (st_fs s) (st_world s) in
  let s := set_world (set_fs s f) w in
  let '(res, runErr) := Run io req in
  let '(id, s) := new_id "exp" s in
  let '(finished, s) := clock s in
  let errText := match runErr with Some err => show_run_error err | None => "" end in
  match res with
  | Some r =>
      let record := mkExperiment id kind false start finished (Capture_ID base) (Capture_ID source)
        factorIDs r (Evaluate (st_fs s) (Capture_Oracle base) r root) errText in
      let s := if ProcessResult_TimedOut r then s
               else set_cache s (SaveExperimentCache MaxExperimentCacheBytes (st_cache s)
                                   (cache_fail (st_world s)) cacheKey record).1 in
      let s := notifyProgress s (mkProgress id kind false) in
      (record, Ok (OracleResult_Passed (Experiment_OracleResult record)), s)
  | None =>
      let record := mkExperiment id kind false start finished (Capture_ID base) (Capture_ID source)
        factorIDs zero_process_result zero_oracle_result errText in
      match runErr with
      | Some err => (record, Err (run_failure err), s)
      | None =>
          let s := notifyProgress s (mkProgress id kind false) in (record, Ok false, s)
      end
  end.

(** [defer os.RemoveAll(root)] *)
Definition remove_root (s : state) (root : list string) : state :=
  set_fs s (remove_all_as (st_fs s) (abs_path root)).1.

(** From [os.MkdirTemp] on: the world is built and run. *)
Definition run_new (base source : Capture) (goodCaptureID : string) (command : list string)
    (selected : list Factor) (factorIDs : list string) (maxOutput : Z) (kind cacheKey : string) (s : state)
    : Experiment * result bool * state :=
  let '(made, w) := mkdir_temp (st_world s) in
  let s := set_world s w in
  match made with
  | Err err => (zero_experiment, Err err, s)
  | Ok rootp =>
      let root := abs_path rootp in
      let s := set_fs s (<[rootp := NDir 448]> (st_fs s)) in
      match Materialize (st_fs s) (st_blobs s) root (Capture_Workspace base) with
      | (f, Err err) => (zero_experiment, Err err, remove_root (set_fs s f) rootp)
      | (f, Ok _) =>
          let s := set_fs s f in
          let useGood := negb (bool_decide (Capture_ID base = goodCaptureID)) in
          match apply_factors s root useGood selected
                  (CommandSpec_Environment (Capture_Command base)) with
          | (Err err, s) => (zero_experiment, Err err, remove_root s rootp)
          | (Ok environment, s) =>
              let '(record, passed, s) := observe base source command factorIDs maxOutput kind
                cacheKey root environment s in
              (record, passed, remove_root s rootp)
          end
      end
  end.

Definition runWorld (base source : Capture) (goodCaptureID : string) (command : list string)
    (selected : list Factor) (factorIDs : list string) (maxOutput : Z) (kind : string) (s : state)
    : Experiment * result bool * state :=
  let cacheKey := experimentCacheKey base source goodCaptureID command selected kind in
  let '(cache, loaded) := LoadExperimentCache (st_cache s) (cache_unreadable (st_world s)) cacheKey in
  let s := set_cache s cache in
  match loaded with
  | Ok (Some cached) =>
      let '(id, s) := new_id "exp" s in
      let '(t, s) := clock s in
      let cached := with_fields cached id t (Capture_ID base) (Capture_ID source) factorIDs in
      (cached, Ok (OracleResult_Passed (Experiment_OracleResult cached)),
       notifyProgress s (mkProgress id (Experiment_Kind cached) true))
  | _ => run_new base source goodCaptureID command selected factorIDs maxOutput kind cacheKey s
  end.

(** ** verifyBaseline and runIntervention *)

Definition unstable (index : nat) (expected passed : bool) : error :=
  ErrMsg ("repetition " +:+ show_nat (S index) +:+ " expected oracle=" +:+ show_bool expected +:+
          " got " +:+ show_bool passed).

Fixpoint baseline_loop (todo index : nat) (capture : Capture) (command : list string)
    (expected : bool) (maxOutput : Z) (records : list Experiment) (s : state)
    : list Experiment * option error * state :=
  match todo with
  | O => (records, None, s)
  | S todo =>
      let '(record, passed, s) := runWorld capture capture (Capture_ID capture) command [] []
        maxOutput "baseline" s in
      let records := records ++ [record] in
      match passed with
      | Err err => (records, Some err, s)
      | Ok passed =>
          if negb (eqb passed expected) then (records, Some (unstable index expected passed), s)
          else baseline_loop todo (S index) capture command expected maxOutput records s
      end
  end.

Definition verifyBaseline (capture : Capture) (command : list string) (expected : bool)
    (repetitions maxOutput : Z) (s : state) : list Experiment * option error * state :=
  baseline_loop (Z.to_nat repetitions) 0 capture command expected maxOutput [] s.

Fixpoint intervention_loop (todo : nat) (base source : Capture) (goodCaptureID : string)
    (command : list string) (selected : list Factor) (factorIDs : list string) (expected : bool)
    (maxOutput : Z) (results : list Experiment) (s : state)
    : list Experiment * result bool * state :=
  match todo with
  | O => (results, Ok true, s)
  | S todo =>
      let '(record, passed, s) := runWorld base source goodCaptureID command selected factorIDs
        maxOutput "intervention" s in
      let results := results ++ [record] in
      match passed with
      | Err err => (results, Err err, s)
      | Ok passed =>
          if negb (eqb passed expected) then (results, Ok false, s)
          else intervention_loop todo base source goodCaptureID command selected factorIDs expected
                 maxOutput results s
      end
  end.

Definition runIntervention (base source : Capture) (goodCaptureID : string)
    (command factorIDs : list string) (factors : gmap string Factor) (repetitions : Z)
    (expected : bool) (maxOutput : Z) (s : state) : list Experiment * result bool * state :=
  let selected := (λ id, default zero_factor (factors !! id)) <$> factorIDs in
  intervention_loop (Z.to_nat repetitions) base source goodCaptureID command selected factorIDs
    expected maxOutput [] s.

(** ** verifyMinimality *)

(** [before] is [minimized[:index]], [todo] is [minimized[index:]]. *)
Fixpoint minimality_loop (good bad : Capture) (r : Request) (before todo : list string)
    (factors : gmap string Factor) (records : list Experiment) (s : state)
    : result bool * list Experiment * state :=
  match todo with
  | [] => (Ok true, records, s)
  | x :: todo =>
      if bool_decide (Request_MaxExperiments r ≤ Z.of_nat (length records) +
           Z.of_nat (length (CommandSpec_Arguments (Capture_Command good))))%Z
      then (Err (ErrMsg "experiment budget exhausted"), records, s)
      else
        let subset := before ++ todo in
        if bool_decide (subset = []) then minimality_loop good bad r (before ++ [x]) todo factors records s
        else
          let '(trial, passes, s) := runIntervention bad good (Capture_ID good) (Request_Command r)
            subset factors (Request_Repetitions r) true (Request_MaxOutputBytes r) s in
          let records := records ++ trial in
          match passes with
          | Err err => (Err err, records, s)
          | Ok true => (Ok false, records, s)
          | Ok false => minimality_loop good bad r (before ++ [x]) todo factors records s
          end
  end.

Definition verifyMinimality (good bad : Capture) (r : Request) (minimized : list string)
    (factors : gmap string Factor) (s : state) : result bool * list Experiment * state :=
  minimality_loop good bad r [] minimized factors [] s.

(** ** finish *)

Definition add_experiments (a : Analysis) (es : list Experiment) : Analysis :=
  mkAnalysis (Analysis_SchemaVersion a) (Analysis_ID a) (Analysis_CreatedAt a)
    (Analysis_GoodCaptureID a) (Analysis_BadCaptureID a) (Analysis_Factors a)
    (Analysis_CausalFactors a) (Analysis_Experiments a ++ es) (Analysis_Status a)
    (Analysis_ForwardVerified a) (Analysis_ReverseVerified a) (Analysis_MinimalInModel a)
    (Analysis_Repetitions a) (Analysis_ExperimentBudget a) (Analysis_Summary a)
    (Analysis_EvidenceBoundaries a) (Analysis_Limitations a).

Definition add_limitation (a : Analysis) (text : string) : Analysis :=
  mkAnalysis (Analysis_SchemaVersion a) (Analysis_ID a) (Analysis_CreatedAt a)
    (Analysis_GoodCaptureID a) (Analysis_BadCaptureID a) (Analysis_Factors a)
    (Analysis_CausalFactors a) (Analysis_Experiments a) (Analysis_Status a)
    (Analysis_ForwardVerified a) (Analysis_ReverseVerified a) (Analysis_MinimalInModel a)
    (Analysis_Repetitions a) (Analysis_ExperimentBudget a) (Analysis_Summary a)
    (Analysis_EvidenceBoundaries a) (Analysis_Limitations a ++ [text]).

Definition set_outcome (a : Analysis) (status : ProofStatus) (causal : list string)
    (verified : bool) (summary : string) : Analysis :=
  mkAnalysis (Analysis_SchemaVersion a) (Analysis_ID a) (Analysis_CreatedAt a)
    (Analysis_GoodCaptureID a) (Analysis_BadCaptureID a) (Analysis_Factors a)
    causal (Analysis_Experiments a) status verified verified verified
    (Analysis_Repetitions a) (Analysis_ExperimentBudget a) summary
    (Analysis_EvidenceBoundaries a) (Analysis_Limitations a).

Abbreviation answer := (option Analysis * option error)%type (only parsing).

Definition finish (a : Analysis) (err : option error) (s : state) : answer * state :=
  let a := Analysis_Normalize a in
  let '(analyses, saved) := SaveAnalysis (st_analyses s) (analysis_fail (st_world s)) a in
  let a := Analysis_Normalize (with_schema a) in
  match saved with
  | Err saveErr => ((None, Some saveErr), set_store s analyses (st_audit s))
  | Ok _ =>
      let '(t, s) := clock s in
      let '(audit, r) := AppendAudit (st_audit s) (audit_outcome (st_world s)) t "analysis" "analysis"
        (Analysis_ID a)
        {["status" := JString (show_status (Analysis_Status a));
          "good_capture_id" := JString (Analysis_GoodCaptureID a);
          "bad_capture_id" := JString (Analysis_BadCaptureID a);
          "causal_factor_count" := JInt (Z.of_nat (length (Analysis_CausalFactors a)))]} in
      let s := set_store s analyses audit in
      match r with
      | Err auditErr => ((None, Some auditErr), s)
      | Ok _ => ((Some a, err), s)
      end
  end.

Definition finishInterrupted (a : Analysis) (err : error) (s : state) : answer * state :=
  finish (add_limitation a "analysis cancelled; completed experiments were retained and can be reused by the experiment cache")
    (Some err) s.

(** [if ctx.Err() != nil { finishInterrupted } else { note the limitation; finish }] *)
Definition abandon (a : Analysis) (limitation : string) (s : state) : answer * state :=
  match ctx_err (st_world s) with
  | Some err => finishInterrupted a err s
  | None => finish (add_limitation a limitation) None s
  end.

(** ** Analyze *)

Definition with_defaults (r : Request) (bad : Capture) : Request :=
  let positive n d := if bool_decide (n ≤ 0)%Z then d else n in
  mkRequest (Request_Good r) (Request_Bad r)
    (match Request_Command r with
     | [] => CommandSpec_Arguments (Capture_Command bad) | c => c end)
    (positive (Request_Repetitions r) 3%Z) (positive (Request_MaxExperiments r) 128%Z)
    (positive (Request_MaxFactors r) 512%Z) (positive (Request_MaxOutputBytes r) (8 * 2 ^ 20)%Z).

(** The closure given to [DDMin]; it appends to [analysis.Experiments]. *)
Definition forward_test (good bad : Capture) (r : Request) (factors : gmap string Factor)
    (candidate : list string) (st : Analysis * state) : result bool * (Analysis * state) :=
  let '(a, s) := st in
  let '(records, passes, s) := runIntervention bad good (Capture_ID good) (Request_Command r)
    candidate factors (Request_Repetitions r) true (Request_MaxOutputBytes r) s in
  (passes, (add_experiments a records, s)).

Definition proven_summary : string :=
  "smallest tested factor set repaired the bad world and reproduced the failure in the opposite direction".

(** After a successful minimisation: reverse verification, then minimality *)
Definition verify_causes (good bad : Capture) (r : Request) (factors : gmap string Factor)
    (minimized : list string) (a : Analysis) (s : state) : answer * state :=
  if bool_decide (Request_MaxExperiments r <
       Z.of_nat (length (Analysis_Experiments a)) + Request_Repetitions r)%Z
  then finish (add_limitation a "experiment budget does not permit reverse verification") None s
  else
    let '(reverseRecords, reversePasses, s) := runIntervention good bad (Capture_ID good)
      (Request_Command r) minimized factors (Request_Repetitions r) false
      (Request_MaxOutputBytes r) s in
    let a := add_experiments a reverseRecords in
    match reversePasses with
    | Err err => abandon a ("reverse verification failed: " +:+ error_text err) s
    | Ok false =>
        finish (add_limitation (set_outcome a StatusSupported minimized false "")
          "bad-to-good intervention repaired the failure but reverse intervention did not reproduce it")
          None s
    | Ok true =>
        let '(minimal, minimalityRecords, s) := verifyMinimality good bad r minimized factors s in
        let a := add_experiments a minimalityRecords in
        match minimal with
        | Err err =>
            match ctx_err (st_world s) with
            | Some cerr => finishInterrupted a cerr s
            | None => finish (set_outcome (add_limitation a
                ("minimality verification incomplete: " +:+ error_text err))
                StatusSupported minimized false "") None s
            end
        | Ok false =>
            finish (add_limitation (set_outcome a StatusSupported minimized false "")
              "strict subset also caused the intervention outcome") None s
        | Ok true => finish (set_outcome a StatusProven minimized true proven_summary) None s
        end
    end.

(** [factorByID] *)
Definition factor_map (factors : list Factor) : gmap string Factor :=
  foldl (λ m factor, <[Factor_ID factor := factor]> m) ∅ factors.

(** After the baselines: the minimisation.  [None] if [DDMin] had no result. *)
Definition minimize (good bad : Capture) (r : Request) (a : Analysis) (s : state)
    : option (answer * state) :=
  if bool_decide (length (Analysis_Factors a) = 0) then
    Some (finish (add_limitation a "no supported intervenable differences were found") None s)
  else
    let factors := factor_map (Analysis_Factors a) in
    let allIDs := Factor_ID <$> Analysis_Factors a in
    let remaining := (Request_MaxExperiments r - Z.of_nat (length (Analysis_Experiments a)))%Z in
    if bool_decide (remaining ≤ 0)%Z then
      Some (finish (add_limitation a "experiment budget exhausted by baseline verification") None s)
    else
      match DDMin (forward_test good bad r factors) remaining allIDs (a, s) with
      | None => None
      | Some (minimized, used, minimizeErr, (a, s)) =>
          Some (match minimizeErr with
                | Some err => abandon a (error_text err) s
                | None =>
                    if bool_decide (length minimized = 0)
                    then finish (add_limitation a "no factor set repaired the bad world") None s
                    else verify_causes good bad r factors minimized a s
                end)
      end.

Definition Analyze (request : Request) (s : state) : option (answer * state) :=
  match Request_Good request, Request_Bad request with
  | Some good, Some bad =>
      let r := with_defaults request bad in
      let '(factors, boundaries) := Compare good bad (Request_MaxFactors r) in
      let '(id, s) := new_id "ana" s in
      let '(created, s) := clock s in
      let a := mkAnalysis 3 id created (Capture_ID good) (Capture_ID bad) factors [] []
        StatusUnproven false false false (Request_Repetitions r) (Request_MaxExperiments r) ""
        boundaries [] in
      match ctx_err (st_world s) with
      | Some err => Some (finishInterrupted a err s)
      | None =>
          let '(goodBaseline, err, s) := verifyBaseline good (Request_Command r) true
            (Request_Repetitions r) (Request_MaxOutputBytes r) s in
          let a := add_experiments a goodBaseline in
          match err with
          | Some err => Some (abandon a ("good baseline is not stable: " +:+ error_text err) s)
          | None =>
              let '(badBaseline, err, s) := verifyBaseline bad (Request_Command r) false
                (Request_Repetitions r) (Request_MaxOutputBytes r) s in
              let a := add_experiments a badBaseline in
              match err with
              | Some err => Some (abandon a ("bad baseline is not stable: " +:+ error_text err) s)
              | None => minimize good bad r a s
              end
          end
      end
  | _, _ => Some ((None, Some (ErrMsg "good and bad captures are required")), s)
  end.

(** ** Evidence

    What it means that an experiment was made, said without the code that
    makes it. *)

(** The world that the factors take their values from *)
Inductive side := GoodSide | BadSide.

Definition side_value (w : side) (factor : Factor) : option string :=
  match w with
  | GoodSide => if Factor_GoodPresent factor then Some (Factor_GoodValue factor) else None
  | BadSide => if Factor_BadPresent factor then Some (Factor_BadValue factor) else None
  end.

Definition side_entry (w : side) (factor : Factor) : WorkspaceEntry * bool :=
  match w with
  | GoodSide => (Factor_GoodEntry factor, Factor_GoodPresent factor)
  | BadSide => (Factor_BadEntry factor, Factor_BadPresent factor)
  end.

(** The factors are set, one after the other, in the directory [root] and in
    the environment. *)
Inductive prepared (w : side) (root : string) (blobs : files) :
    list Factor → fs → gmap string string → fs → gmap string string → Prop :=
  | prepared_nil f environment : prepared w root blobs [] f environment f environment
  | prepared_environment factor rest f environment f' environment' :
      Factor_Type factor = FactorEnvironment →
      prepared w root blobs rest f (partial_alter (λ _, side_value w factor) (Factor_Key factor) environment)
        f' environment' →
      prepared w root blobs (factor :: rest) f environment f' environment'
  | prepared_workspace factor rest f f1 environment f' environment' :
      Factor_Type factor = FactorWorkspace →
      Apply f blobs root (Factor_Key factor) (side_entry w factor).1 (side_entry w factor).2 = (f1, Ok tt) →
      prepared w root blobs rest f1 environment f' environment' →
      prepared w root blobs (factor :: rest) f environment f' environment'
  | prepared_other factor rest type f environment f' environment' :
      Factor_Type factor = FactorOther type →
      prepared w root blobs rest f environment f' environment' →
      prepared w root blobs (factor :: rest) f environment f' environment'.

(** The command was run: in a new directory that holds the recorded workspace
    of [base] with the selected factors set as in the world [w], with the
    recorded environment of [base] changed likewise; [res] is what was
    observed and [verdict] what the oracle of [base] says of it and of the
    files it left. *)
Definition execution (base : Capture) (w : side) (command : list string) (selected : list Factor) (blobs : files)
    (res : ProcessResult) (verdict : OracleResult) : Prop :=
  ∃ rootp f f1 f2 f3 environment maxOutput io w0 w1 runErr,
    let root := abs_path rootp in
    let req := mkRunRequest command root (EnvironmentToList environment)
      (wrap_int64 (CommandSpec_TimeoutMS (Capture_Command base) * 1000000)) maxOutput false None in
    Materialize (<[rootp := NDir 448]> f) blobs root (Capture_Workspace base) = (f1, Ok tt) ∧
    prepared w root blobs selected f1 (CommandSpec_Environment (Capture_Command base)) f2 environment ∧
    process req f2 w0 = (io, f3, w1) ∧ Run io req = (Some res, runErr) ∧
    verdict = Evaluate f3 (Capture_Oracle base) res root.

Definition input_side (input : cacheInput) : side := if ci_BaseIsGood input then BadSide else GoodSide.

(** The experiment described by [input] was made, at some time. *)
Definition executed (input : cacheInput) (res : ProcessResult) (verdict : OracleResult) : Prop :=
  ∃ base source gid command selected kind blobs,
    experiment_input base source gid command selected kind = input ∧
    execution base (input_side input) command selected blobs res verdict.

(** Every file of the cache was written for an experiment that was made, under
    the digest of its description. *)
Definition cache_sound (cache : files) : Prop :=
  map_Forall (λ key content, ∃ input e, key = sha256_hex (json_marshal input) ∧
    content = json_encode (mkCacheEntry key true e) ∧
    executed input (Experiment_Result e) (Experiment_OracleResult e)) cache.

(** [e] repeats the outcome of an experiment with the same description, as it
    was read from its file; or SHA-256 has a collision. *)
Definition from_cache (input : cacheInput) (e : Experiment) : Prop :=
  collision ∨ ∃ input' e' entry,
    json_marshal input' = json_marshal input ∧ executed input' (Experiment_Result e') (Experiment_OracleResult e') ∧
    json_decode (json_encode (mkCacheEntry (sha256_hex (json_marshal input)) true e')) = Ok entry ∧
    Experiment_Result e = Experiment_Result (cache_Experiment entry) ∧
    Experiment_OracleResult e = Experiment_OracleResult (cache_Experiment entry).

(** An experiment of an analysis that was made: the world [base] with the
    factors [ids] set as in the world [w] *)
Definition trial (blobs : files) (command : list string) (gid kind : string) (base source : Capture) (w : side)
    (factors : gmap string Factor) (ids : list string) (passed : bool) (e : Experiment) : Prop :=
  let selected := (λ id, default zero_factor (factors !! id)) <$> ids in
  Experiment_BaseCaptureID e = Capture_ID base ∧ Experiment_SourceCaptureID e = Capture_ID source ∧
  Experiment_FactorIDs e = ids ∧ OracleResult_Passed (Experiment_OracleResult e) = passed ∧
  if Experiment_CacheHit e
  then from_cache (experiment_input base source gid command selected kind) e
  else execution base w command selected blobs (Experiment_Result e) (Experiment_OracleResult e).

(** At least [n] of the experiments are such. *)
Definition at_least (n : nat) (P : Experiment → Prop) (es : list Experiment) : Prop :=
  ∃ l, l `sublist_of` es ∧ n ≤ length l ∧ Forall P l.

Lemma at_least_app_l n P es es' : at_least n P es → at_least n P (es ++ es').
Proof. intros (l & Hl & Hn). exists l. split; [|done]. by apply sublist_inserts_r. Qed.
Lemma at_least_app_r n P es es' : at_least n P es' → at_least n P (es ++ es').
Proof. intros (l & Hl & Hn). exists l. split; [|done]. by apply sublist_inserts_l. Qed.
Lemma at_least_all n P es : n ≤ length es → Forall P es → at_least n P es.
Proof. intros Hn Hall. by exists es. Qed.

(** ** Lemmas: one run and its repetitions *)

Section sound.
Variables blobs analyses : files.

(** The store during an analysis, and its cache *)
Definition sound (s : state) : Prop :=
  cache_sound (st_cache s) ∧ st_blobs s = blobs ∧ st_analyses s = analyses.

Definition same_store (s s' : state) : Prop :=
  st_cache s' = st_cache s ∧ st_blobs s' = st_blobs s ∧ st_analyses s' = st_analyses s.

Lemma same_store_trans s1 s2 s3 : same_store s1 s2 → same_store s2 s3 → same_store s1 s3.
Proof. unfold same_store. intros (Ha & Hb & Hc) (Hd & He & Hf). split_and!; congruence. Qed.

Lemma sound_same s s' : same_store s s' → sound s → sound s'.
Proof. unfold sound. by intros (-> & -> & ->). Qed.

Lemma cache_sound_subset cache cache' : cache' ⊆ cache → cache_sound cache → cache_sound cache'.
Proof. intros Hsub Hs key content Hk. apply Hs. by eapply lookup_weaken. Qed.

Lemma load_sound cache err key cache' r : LoadExperimentCache cache err key = (cache', r) →
  cache_sound cache → cache_sound cache' ∧
  ∀ e, r = Ok (Some e) → ∃ input e' entry, key = sha256_hex (json_marshal input) ∧
    executed input (Experiment_Result e') (Experiment_OracleResult e') ∧
    json_decode (json_encode (mkCacheEntry key true e')) = Ok entry ∧ cache_Experiment entry = e.
Proof.
  unfold LoadExperimentCache. intros Hload Hs. destruct (negb (validDigest key)); [by simplify_eq|].
  destruct (cache !! key) as [content|] eqn:Hk; [|by simplify_eq]. destruct err; [by simplify_eq|].
  assert (cache_sound (delete key cache)) as Hd by (eapply cache_sound_subset; [apply delete_subseteq|done]).
  destruct (json_decode content) as [entry|] eqn:Hdec; [|by simplify_eq].
  destruct (_ || _); [by simplify_eq|]. injection Hload as <- <-. split; [done|]. intros e [= <-].
  destruct (Hs key content Hk) as (input & e' & Hkey & -> & Hex). by exists input, e', entry.
Qed.

Lemma save_sound max cache fail input record :
  executed input (Experiment_Result record) (Experiment_OracleResult record) → cache_sound cache →
  cache_sound (SaveExperimentCache max cache fail (sha256_hex (json_marshal input)) record).1.
Proof.
  intros Hex Hs. unfold SaveExperimentCache. destruct (negb _); [done|]. destruct (bool_decide _); [done|].
  destruct fail; [done|]. cbn [fst]. eapply cache_sound_subset; [apply prune_subset|].
  apply map_Forall_insert_2; [|done]. by exists input, record.
Qed.

Lemma new_id_same prefix s id s' : new_id prefix s = (id, s') → same_store s s' ∧ st_fs s' = st_fs s.
Proof. unfold new_id. destruct (random_id _). by intros [= <- <-]. Qed.
Lemma clock_same s t s' : clock s = (t, s') → same_store s s' ∧ st_fs s' = st_fs s.
Proof. unfold clock. destruct (now _). by intros [= <- <-]. Qed.

Lemma apply_factors_spec root useGood selected : ∀ s environment r s',
  apply_factors s root useGood selected environment = (r, s') →
  same_store s s' ∧ ∀ environment', r = Ok environment' →
    prepared (if useGood then GoodSide else BadSide) root (st_blobs s) selected (st_fs s) environment
      (st_fs s') environment'.
Proof.
  induction selected as [|factor selected IH]; intros s environment r s'; cbn.
  { intros [= <- <-]. split; [done|]. intros ? [= <-]. constructor. }
  destruct (Factor_Type factor) eqn:Hty.
  - intros Hrun. destruct useGood; apply IH in Hrun as (Hc & Hp); (split; [done|]);
      intros env' Henv; specialize (Hp env' Henv); apply prepared_environment; try done; unfold side_value;
      by destruct (Factor_GoodPresent factor), (Factor_BadPresent factor).
  - destruct useGood; destruct (Apply _ _ _ _ _ _) as [f [[]|err]] eqn:Happ;
      try (intros [= <- <-]; split; [done|by intros]);
      intros (Hc & Hp)%IH; (split; [done|]); intros env' Henv;
      (eapply prepared_workspace; [done|exact Happ|by apply Hp]).
  - intros (Hc & Hp)%IH. split; [done|]. intros env' Henv. eapply prepared_other; [done|by apply Hp].
Qed.

Lemma observe_spec base source gid command selected ids maxOutput kind rootp f f1 environment w s record passed s' :
  Materialize (<[rootp := NDir 448]> f) blobs (abs_path rootp) (Capture_Workspace base) = (f1, Ok tt) →
  prepared w (abs_path rootp) blobs selected f1 (CommandSpec_Environment (Capture_Command base)) (st_fs s) environment →
  w = input_side (experiment_input base source gid command selected kind) → sound s →
  observe base source command ids maxOutput kind (experimentCacheKey base source gid command selected kind)
    (abs_path rootp) environment s = (record, passed, s') →
  sound s' ∧ ∀ p, passed = Ok p →
    Experiment_BaseCaptureID record = Capture_ID base ∧ Experiment_SourceCaptureID record = Capture_ID source ∧
    Experiment_FactorIDs record = ids ∧ OracleResult_Passed (Experiment_OracleResult record) = p ∧
    Experiment_CacheHit record = false ∧
    execution base w command selected blobs (Experiment_Result record) (Experiment_OracleResult record).
Proof.
  intros Hmat Hprep Hw Hs. unfold observe. destruct (clock s) as [start s1] eqn:Hk1. set (req := mkRunRequest _ _ _ _ _ _ _).
  destruct (process _ _ _) as [[io f3] w1] eqn:Hproc. destruct (Run io req) as [res runErr] eqn:Hrun.
  destruct (new_id _ _) as [id s2] eqn:Hk2. destruct (clock s2) as [fin s3] eqn:Hk3.
  apply clock_same in Hk1 as (Hc1 & Hf1). apply new_id_same in Hk2 as (Hc2 & Hf2).
  apply clock_same in Hk3 as (Hc3 & Hf3). cbn in Hf2.
  assert (sound s3) as Hs3.
  { eapply sound_same; [|exact Hs]. eapply same_store_trans; [exact Hc1|]. by eapply same_store_trans. }
  assert (st_fs s3 = f3) as Hfs by congruence. rewrite Hf1 in Hproc.
  destruct res as [r|].
  - set (verdict := Evaluate _ _ _ _).
    assert (execution base w command selected blobs r verdict) as Hex.
    { exists rootp, f, f1, (st_fs s), f3, environment, maxOutput, io, (st_world s1), w1, runErr.
      unfold verdict. rewrite Hfs. by split_and!. }
    intros [= <- <- <-]. split; [|by intros p [= <-]; split_and!].
    destruct (ProcessResult_TimedOut r); [done|]. destruct Hs3 as (Hcache & Hb & Han). split; [|by split].
    apply save_sound; [|done]. cbn [Experiment_Result Experiment_OracleResult].
    exists base, source, gid, command, selected, kind, blobs. split; [done|]. by rewrite <-Hw.
  - destruct runErr as [err|]; [by intros [= <- <- <-]|]. exfalso. revert Hrun. unfold Run, run_course.
    destruct (bool_decide _); [done|]. destruct (binding_refused io _); [done|].
    by destruct (run_choice _ _) as [[??]?].
Qed.

Lemma remove_root_sound s root : sound s → sound (remove_root s root).
Proof. by apply sound_same. Qed.

Lemma run_new_spec base source gid command factors ids maxOutput kind w s record passed s' :
  let selected := (λ id, default zero_factor (factors !! id)) <$> ids in
  w = input_side (experiment_input base source gid command selected kind) → sound s →
  run_new base source gid command selected ids maxOutput kind
    (experimentCacheKey base source gid command selected kind) s = (record, passed, s') →
  sound s' ∧ ∀ p, passed = Ok p → trial blobs command gid kind base source w factors ids p record.
Proof.
  intros selected Hw Hs. unfold run_new, trial. fold selected.
  destruct (mkdir_temp _) as [[rootp|err] w']; [|by intros [= <- <- <-]].
  cbn [set_world set_fs st_fs st_blobs]. rewrite (proj1 (proj2 Hs)).
  destruct (Materialize _ _ _ _) as [f1 [[]|err]] eqn:Hmat;
    [|intros [= <- <- <-]; split; [|done]; by apply remove_root_sound].
  match goal with |- context [apply_factors ?s0 _ _ _ _] => set (s1 := s0) end.
  assert (sound s1) as Hsound1 by done.
  destruct (apply_factors _ _ _ _ _) as [r s2] eqn:Hfac.
  apply apply_factors_spec in Hfac as (Hc & Hprep).
  assert (sound s2) as Hs2 by (by eapply sound_same).
  destruct r as [environment|err]; [|intros [= <- <- <-]; split; [by apply remove_root_sound|done]].
  specialize (Hprep environment eq_refl). rewrite (proj1 (proj2 Hsound1)) in Hprep.
  destruct (observe _ _ _ _ _ _ _ _ _ _) as [[rec pass] s3] eqn:Hobs. intros [= <- <- <-].
  eapply (observe_spec base source gid command selected ids maxOutput kind rootp _ f1 environment w) in Hobs
    as [Hs3 Hrec]; [|exact Hmat| |done|done].
  - split; [by apply remove_root_sound|]. intros p (? & ? & ? & ? & Hh & ?)%Hrec. rewrite Hh. by split_and!.
  - rewrite Hw. unfold input_side. cbn [ci_BaseIsGood experiment_input].
    change f1 with (st_fs s1). by destruct (bool_decide (Capture_ID base = gid)).
Qed.

Lemma runWorld_spec base source gid command factors ids maxOutput kind w s record passed s' :
  let selected := (λ id, default zero_factor (factors !! id)) <$> ids in
  w = input_side (experiment_input base source gid command selected kind) → sound s →
  runWorld base source gid command selected ids maxOutput kind s = (record, passed, s') →
  sound s' ∧ ∀ p, passed = Ok p → trial blobs command gid kind base source w factors ids p record.
Proof.
  intros selected Hw Hs. unfold runWorld.
  destruct (LoadExperimentCache _ _ _) as [cache loaded] eqn:Hload.
  apply load_sound in Hload as [Hcache Hhit]; [|apply Hs].
  assert (sound (set_cache s cache)) as Hs1 by (split; [done|apply Hs]).
  destruct loaded as [[cached|]|err]; [|by apply run_new_spec..].
  destruct (new_id _ _) as [id s1] eqn:Hk1. destruct (clock s1) as [t s2] eqn:Hk2. intros [= <- <- <-].
  apply new_id_same in Hk1 as [Hc1 _]. apply clock_same in Hk2 as [Hc2 _].
  split; [by eapply sound_same; [eapply same_store_trans; [exact Hc1|exact Hc2]|]|].
  intros p [= <-]. unfold trial. fold selected. split_and!; [done..|]. cbn [Experiment_CacheHit with_fields].
  destruct (Hhit cached eq_refl) as (input & e' & entry & Hkey & Hex & Hdec & <-).
  unfold experimentCacheKey in Hkey, Hdec.
  destruct (decide (json_marshal input = json_marshal (experiment_input base source gid command selected kind)))
    as [Heq|Hne]; [right|left; eexists _, _; split; [exact Hne|by rewrite Hkey]].
  exists input, e', entry. by split_and!.
Qed.

Lemma baseline_loop_spec todo : ∀ index capture command expected maxOutput records s records' err s',
  sound s → baseline_loop todo index capture command expected maxOutput records s = (records', err, s') →
  sound s' ∧ ∃ new, records' = records ++ new ∧ (err = None → length new = todo ∧
    Forall (trial blobs command (Capture_ID capture) "baseline" capture capture BadSide ∅ [] expected) new).
Proof.
  induction todo as [|todo IH]; intros index capture command expected maxOutput records s records' err s' Hs;
    cbn.
  { intros [= <- <- <-]. split; [done|]. exists []. by rewrite app_nil_r. }
  destruct (runWorld _ _ _ _ _ _ _ _ _) as [[record passed] s1] eqn:Hrun.
  apply (runWorld_spec capture capture (Capture_ID capture) command ∅ [] maxOutput "baseline" BadSide) in Hrun
    as [Hs1 Htrial]; [|unfold input_side; cbn; by rewrite bool_decide_eq_true_2|done].
  destruct passed as [passed|e]; [|intros [= <- <- <-]; split; [done|]; by exists [record]].
  destruct (eqb passed expected) eqn:Heq; cbn; [|intros [= <- <- <-]; split; [done|]; by exists [record]].
  apply eqb_prop in Heq as ->. intros [Hs' (new & -> & Hnew)]%IH; [|done]. split; [done|]. exists (record :: new).
  rewrite <-app_assoc. split; [done|]. intros [Hlen Hall]%Hnew. split; [cbn; lia|].
  constructor; [by apply Htrial|done].
Qed.

Lemma intervention_loop_spec w todo : ∀ base source gid command factors ids expected maxOutput results s
    results' r s',
  let selected := (λ id, default zero_factor (factors !! id)) <$> ids in
  w = input_side (experiment_input base source gid command selected "intervention") → sound s →
  intervention_loop todo base source gid command selected ids expected maxOutput results s
    = (results', r, s') →
  sound s' ∧ ∃ new, results' = results ++ new ∧
    let run_of := trial blobs command gid "intervention" base source w factors ids in
    (r = Ok true → length new = todo ∧ Forall (run_of expected) new) ∧
    (r = Ok false → at_least 1 (run_of (negb expected)) new).
Proof.
  induction todo as [|todo IH];
    intros base source gid command factors ids expected maxOutput results s results' r s' selected Hw Hs; cbn.
  { intros [= <- <- <-]. split; [done|]. exists []. by rewrite app_nil_r. }
  destruct (runWorld _ _ _ _ _ _ _ _ _) as [[record passed] s1] eqn:Hrun.
  apply (runWorld_spec base source gid command factors ids maxOutput "intervention" w) in Hrun as [Hs1 Htrial]; [|done..].
  destruct passed as [passed|e]; [|intros [= <- <- <-]; split; [done|]; by exists [record]].
  destruct (eqb passed expected) eqn:Heq; cbn.
  - apply eqb_prop in Heq as ->. intros [Hs' (new & -> & Hok & Hbad)]%IH; [|done..]. split; [done|].
    exists (record :: new). rewrite <-app_assoc. split; [done|]. split.
    + intros [Hlen Hall]%Hok. split; [cbn; lia|]. constructor; [by apply Htrial|done].
    + intros Hruns%Hbad. by apply (at_least_app_r 1 _ [record]).
  - intros [= <- <- <-]. split; [done|]. exists [record]. split; [done|]. split; [done|]. intros _.
    assert (passed = negb expected) as -> by (by destruct passed, expected).
    apply at_least_all; [done|]. constructor; [by apply Htrial|constructor].
Qed.

Lemma runIntervention_spec w base source gid command ids factors reps expected maxOutput s new r s' :
  w = (if bool_decide (Capture_ID base = gid) then BadSide else GoodSide) → sound s →
  runIntervention base source gid command ids factors reps expected maxOutput s = (new, r, s') →
  let run_of := trial blobs command gid "intervention" base source w factors ids in
  sound s' ∧ (r = Ok true → at_least (Z.to_nat reps) (run_of expected) new) ∧
  (r = Ok false → at_least 1 (run_of (negb expected)) new).
Proof.
  unfold runIntervention. intros Hw Hs [Hs' (new' & -> & Hok & Hbad)]%(intervention_loop_spec w); [|done..].
  cbn. split; [done|]. split; [|done]. intros [Hlen Hall]%Hok. apply at_least_all; [lia|done].
Qed.

(** A successful minimality check has seen every set with one factor less,
    unless nothing is left, fail to repair. *)
Lemma minimality_loop_spec good bad r factors todo : ∀ before records s res records' s',
  Capture_ID bad ≠ Capture_ID good → sound s →
  minimality_loop good bad r before todo factors records s = (res, records', s') →
  sound s' ∧ ∃ new, records' = records ++ new ∧
    (res = Ok true → ∀ i x, todo !! i = Some x → before ++ delete i todo ≠ [] →
       at_least 1 (trial blobs (Request_Command r) (Capture_ID good) "intervention" bad good GoodSide factors
         (before ++ delete i todo) false) new).
Proof.
  induction todo as [|x todo IH]; intros before records s res records' s' Hids Hs; cbn.
  { intros [= <- <- <-]. split; [done|]. exists []. by rewrite app_nil_r. }
  destruct (bool_decide (_ ≤ _)%Z); [intros [= <- <- <-]; split; [done|]; exists []; by rewrite app_nil_r|].
  set (run_of := trial blobs (Request_Command r) (Capture_ID good) "intervention" bad good GoodSide factors).
  assert (∀ new i y, (0 < i → todo !! (i - 1) = Some y →
      (before ++ [x]) ++ delete (i - 1) todo ≠ [] →
      at_least 1 (run_of ((before ++ [x]) ++ delete (i - 1) todo) false) new) →
    0 < i → (x :: todo) !! i = Some y → before ++ delete i (x :: todo) ≠ [] →
    at_least 1 (run_of (before ++ delete i (x :: todo)) false) new) as Hshift.
  { intros new i y Hnew Hi Hy Hne. destruct i as [|i]; [lia|]. cbn in *.
    rewrite Nat.sub_0_r in Hnew. rewrite <-app_assoc in Hnew. apply Hnew; [lia|done..]. }
  destruct (bool_decide (before ++ todo = [])) eqn:Hempty.
  - apply bool_decide_eq_true in Hempty. intros [Hs' (new & -> & Hnew)]%IH; [|done..]. split; [done|].
    exists new. split; [done|]. intros Hres i y Hi Hne. destruct (decide (i = 0)) as [->|]; [done|].
    eapply Hshift; [|lia|done|done]. intros _. by apply Hnew.
  - destruct (runIntervention _ _ _ _ _ _ _ _ _ _) as [[trials passes] s1] eqn:Hrun.
    apply (runIntervention_spec GoodSide) in Hrun as (Hs1 & _ & Hfail);
      [|by rewrite bool_decide_eq_false_2|done].
    destruct passes as [[|]|e]; [intros [= <- <- <-]; split; [done|]; by exists trials| |
      intros [= <- <- <-]; split; [done|]; by exists trials].
    intros [Hs' (new & -> & Hnew)]%IH; [|done..]. split; [done|]. exists (trials ++ new). rewrite app_assoc.
    split; [done|]. intros Hres i y Hi Hne. destruct (decide (i = 0)) as [->|].
    { apply at_least_app_l. by apply (Hfail eq_refl). }
    apply at_least_app_r. eapply Hshift; [|lia|done|done]. intros _. by apply Hnew.
Qed.

(** ** Lemmas: the test given to DDMin *)

Section forward.
Variables (good bad : Capture) (r : Request) (factors : gmap string Factor).
Hypothesis Hids : Capture_ID bad ≠ Capture_ID good.

(** The runs of the bad world with factors of the good one *)
Definition forward_run : list string → bool → Experiment → Prop :=
  trial blobs (Request_Command r) (Capture_ID good) "intervention" bad good GoodSide factors.

(** The states in which [DDMin] calls its test *)
Definition test_state : Type := {st : Analysis * state | sound st.2}.

Definition repaired (c : list string) (st : test_state) : Prop :=
  at_least (Z.to_nat (Request_Repetitions r)) (forward_run c true) (Analysis_Experiments (`st).1).
Definition not_repaired (c : list string) (st : test_state) : Prop :=
  at_least 1 (forward_run c false) (Analysis_Experiments (`st).1).

Lemma forward_test_inv c st res st' :
  forward_test good bad r factors c st = (res, st') →
  ∃ records s, runIntervention bad good (Capture_ID good) (Request_Command r) c factors
      (Request_Repetitions r) true (Request_MaxOutputBytes r) st.2 = (records, res, s) ∧
    st' = (add_experiments st.1 records, s).
Proof.
  unfold forward_test. destruct st as [a s0]. cbn.
  destruct (runIntervention _ _ _ _ _ _ _ _ _ _) as [[records passes] s]. intros [= <- <-]. eauto.
Qed.

Lemma forward_test_spec c st res st' : forward_test good bad r factors c st = (res, st') → sound st.2 →
  sound st'.2 ∧ ∃ records, st'.1 = add_experiments st.1 records ∧
    (res = Ok true → at_least (Z.to_nat (Request_Repetitions r)) (forward_run c true) records) ∧
    (res = Ok false → at_least 1 (forward_run c false) records).
Proof.
  intros (records & s & Hrun & ->)%forward_test_inv Hs.
  apply (runIntervention_spec GoodSide) in Hrun as (Hs' & Hok & Hbad); [|by rewrite bool_decide_eq_false_2|done].
  split; [done|]. by exists records.
Qed.

Lemma forward_sound c (st : test_state) : sound (forward_test good bad r factors c (`st)).2.2.
Proof.
  destruct (forward_test _ _ _ _ c (`st)) as [res st'] eqn:Hrun.
  by apply forward_test_spec in Hrun as [Hs _]; [|apply (proj2_sig st)].
Qed.

Definition sound_test (c : list string) (st : test_state) : result bool * test_state :=
  ((forward_test good bad r factors c (`st)).1, exist _ (forward_test good bad r factors c (`st)).2 (forward_sound c st)).

Lemma sound_test_lift c st :
  forward_test good bad r factors c (`st) = ((sound_test c st).1, proj1_sig (sound_test c st).2).
Proof. cbn. by destruct (forward_test _ _ _ _ _ _). Qed.

Lemma sound_test_spec c st res st' : sound_test c st = (res, st') →
  ∃ records, (`st').1 = add_experiments (`st).1 records ∧
    (res = Ok true → at_least (Z.to_nat (Request_Repetitions r)) (forward_run c true) records) ∧
    (res = Ok false → at_least 1 (forward_run c false) records).
Proof.
  intros Hrun. pose proof (sound_test_lift c st) as Hlift. rewrite Hrun in Hlift. cbn [fst snd] in Hlift.
  by apply forward_test_spec in Hlift as [_ ?]; [|apply (proj2_sig st)].
Qed.

#[local] Instance forward_logic : TestLogic sound_test repaired not_repaired.
Proof.
  split; unfold repaired, not_repaired.
  - intros c st st' (records & -> & Hok & _)%sound_test_spec. cbn. apply at_least_app_r. by apply Hok.
  - intros c st st' (records & -> & _ & Hbad)%sound_test_spec. cbn. apply at_least_app_r. by apply Hbad.
  - intros c res st st' d (records & -> & _)%sound_test_spec. cbn. apply at_least_app_l.
  - intros c res st st' d (records & -> & _)%sound_test_spec. cbn. apply at_least_app_l.
Qed.

(** The same analysis with more experiments *)
Definition extends (a a' : Analysis) : Prop := ∃ es, a' = add_experiments a es.

Lemma extends_refl a : extends a a.
Proof. exists []. unfold add_experiments. rewrite app_nil_r. by destruct a. Qed.
Lemma extends_trans a b c : extends a b → extends b c → extends a c.
Proof.
  intros [es ->] [es' ->]. exists (es ++ es'). unfold add_experiments. cbn. by rewrite app_assoc.
Qed.

Lemma forward_extends a0 c st res st' :
  forward_test good bad r factors c st = (res, st') → extends a0 st.1 → extends a0 st'.1.
Proof.
  intros (records & s & _ & ->)%forward_test_inv Hst. eapply extends_trans; [done|]. by exists records.
Qed.

(** What the minimisation gives *)
Lemma minimised budget items a s minimized used err a' s' : sound s →
  DDMin (forward_test good bad r factors) budget items (a, s) = Some (minimized, used, err, (a', s')) →
  sound s' ∧ extends a a' ∧ minimized `sublist_of` items ∧
  (minimized = items ∨
   at_least (Z.to_nat (Request_Repetitions r)) (forward_run minimized true) (Analysis_Experiments a')).
Proof.
  intros Hs Hrun. assert (extends a a') as Hext.
  { eapply (DDMin_invariant _ _ (λ st, extends a st.1)) in Hrun; [done| |apply extends_refl].
    intros ? ? ? ? Ht. by eapply forward_extends. }
  pose proof (DDMin_lift (λ st : test_state, `st) _ sound_test budget sound_test_lift items
    (exist (λ st, sound st.2) (a, s) Hs)) as Hlift.
  cbn [proj1_sig] in Hlift. rewrite Hrun in Hlift.
  destruct (DDMin sound_test _ _ _) as [[[[m u] e] st']|] eqn:Hdd; [|done]. cbn in Hlift. injection Hlift as -> -> -> Hst.
  apply (DDMin_spec _ _ _ _ (TestLogic0 := forward_logic)) in Hdd as [_ Hsub _ Hpass _ _].
  pose proof (proj2_sig st') as Hsound. rewrite <-Hst in Hsound. split_and!; [done|done|done|].
  destruct Hpass as [->|Hpass]; [by left|right]. unfold repaired in Hpass. by rewrite <-Hst in Hpass.
Qed.
End forward.

(** ** What an analysis concludes *)

Definition reps (r : Request) : nat := Z.to_nat (Request_Repetitions r).

Definition flags (a : Analysis) (b : bool) : Prop :=
  Analysis_ForwardVerified a = b ∧ Analysis_ReverseVerified a = b ∧ Analysis_MinimalInModel a = b.

Definition normalized (a : Analysis) : Analysis :=
  Analysis_Normalize (with_schema (Analysis_Normalize a)).

Section verdicts.
Variables (good bad : Capture) (r : Request) (fs : list Factor).
Hypothesis Hids : Capture_ID bad ≠ Capture_ID good.

(** Runs of the unchanged worlds *)
Definition baseline_run (c : Capture) : bool → Experiment → Prop :=
  trial blobs (Request_Command r) (Capture_ID c) "baseline" c c BadSide ∅ [].

(** Runs of the good world with factors of the bad one *)
Definition reverse_run : list string → bool → Experiment → Prop :=
  trial blobs (Request_Command r) (Capture_ID good) "intervention" good bad BadSide (factor_map fs).

(** The evidence of a stable repair: both baselines, and the candidate set
    repaired the bad world - except that a set that [DDMin] never reduced was
    not run at all. *)
Record repair_evidence (es : list Experiment) (ids : list string) : Prop := {
  ev_nonempty : ids ≠ [];
  ev_factors : ids `sublist_of` (Factor_ID <$> fs);
  ev_good : at_least (reps r) (baseline_run good true) es;
  ev_bad : at_least (reps r) (baseline_run bad false) es;
  ev_forward : ids = Factor_ID <$> fs ∨ at_least (reps r) (forward_run good bad r (factor_map fs) ids true) es;
}.

(** The evidence of a proof: a repair that reverses and is 1-minimal *)
Record proof_evidence (es : list Experiment) (ids : list string) : Prop := {
  ev_repair : repair_evidence es ids;
  ev_reverse : at_least (reps r) (reverse_run ids false) es;
  ev_minimal i x : ids !! i = Some x → delete i ids ≠ [] →
    at_least 1 (forward_run good bad r (factor_map fs) (delete i ids) false) es;
}.

(** An analysis claims what its experiments show. *)
Definition justified (a : Analysis) : Prop :=
  Analysis_Factors a ≡ₚ fs ∧ Analysis_Repetitions a = Request_Repetitions r ∧
  ∃ causes, Analysis_CausalFactors a = sort_strings causes ∧
    match Analysis_Status a with
    | StatusUnproven => flags a false ∧ causes = []
    | StatusSupported => flags a false ∧ repair_evidence (Analysis_Experiments a) causes
    | StatusProven => flags a true ∧ proof_evidence (Analysis_Experiments a) causes
    | _ => False
    end.

(** The same before the lists of the analysis are sorted *)
Definition verdict (a : Analysis) : Prop :=
  Analysis_Factors a = fs ∧ Analysis_Repetitions a = Request_Repetitions r ∧
  match Analysis_Status a with
  | StatusUnproven => flags a false ∧ Analysis_CausalFactors a = []
  | StatusSupported => flags a false ∧ repair_evidence (Analysis_Experiments a) (Analysis_CausalFactors a)
  | StatusProven => flags a true ∧ proof_evidence (Analysis_Experiments a) (Analysis_CausalFactors a)
  | _ => False
  end.

Lemma verdict_justified a : verdict a → justified (normalized a).
Proof.
  intros (Hf & Hr & Hv). split_and!; [|done|].
  - cbn. unfold sort_factors. etrans; [apply sort_by_perm|]. etrans; [apply sort_by_perm|]. by rewrite Hf.
  - exists (Analysis_CausalFactors a). split; [cbn; apply sort_strings_idemp|]. exact Hv.
Qed.

(** How a run ends: one analysis with a justified verdict goes to [finish]. *)
Definition concluded (ans : answer) (s' : state) : Prop :=
  ∃ a err s0, finish a err s0 = (ans, s') ∧ verdict a ∧ sound s0.

Lemma finish_concluded a err s ans s' : finish a err s = (ans, s') → verdict a → sound s → concluded ans s'.
Proof. intros. by exists a, err, s. Qed.

(** An analysis on its way: nothing concluded yet *)
Definition open_analysis (a : Analysis) : Prop :=
  Analysis_Status a = StatusUnproven ∧ flags a false ∧ Analysis_CausalFactors a = [] ∧
  Analysis_Repetitions a = Request_Repetitions r ∧ Analysis_Factors a = fs.

Lemma open_extends a a' : extends a a' → open_analysis a → open_analysis a'.
Proof. by intros [es ->]. Qed.

Lemma open_finish a text err s ans s' :
  open_analysis a → sound s → finish (add_limitation a text) err s = (ans, s') → concluded ans s'.
Proof.
  intros (Hs & Hf & Hc & Hr & Hfs) Hsound Hfin. eapply finish_concluded; [done| |done].
  unfold verdict. cbn. rewrite Hs. done.
Qed.

Lemma open_abandon a text s ans s' :
  open_analysis a → sound s → abandon a text s = (ans, s') → concluded ans s'.
Proof.
  intros Ho Hs. unfold abandon, finishInterrupted.
  destruct (ctx_err _); intros Hfin; by eapply open_finish.
Qed.

Lemma repair_extends es es' ids : repair_evidence es ids → repair_evidence (es ++ es') ids.
Proof.
  intros [E1 E2 E3 E4 E5]. split; try done; try by apply at_least_app_l.
  destruct E5; [by left|right; by apply at_least_app_l].
Qed.

Lemma supported_verdict a ids text1 text2 :
  repair_evidence (Analysis_Experiments a) ids → open_analysis a →
  verdict (add_limitation (set_outcome a StatusSupported ids false text1) text2) ∧
  verdict (set_outcome (add_limitation a text2) StatusSupported ids false text1).
Proof. by intros Hev (_ & _ & _ & Hr & Hf). Qed.

Lemma verify_causes_concluded ids a s ans s' :
  open_analysis a → repair_evidence (Analysis_Experiments a) ids → sound s →
  verify_causes good bad r (factor_map fs) ids a s = (ans, s') → concluded ans s'.
Proof.
  intros Ho Hev Hs. unfold verify_causes. destruct (bool_decide _); [by apply open_finish|].
  destruct (runIntervention _ _ _ _ _ _ _ _ _ _) as [[rev passes] s1] eqn:Hrev.
  apply (runIntervention_spec BadSide) in Hrev as (Hs1 & Hok & _); [|by rewrite bool_decide_eq_true_2|done].
  assert (open_analysis (add_experiments a rev)) as Ho1 by (eapply open_extends; [by exists rev|done]).
  assert (repair_evidence (Analysis_Experiments (add_experiments a rev)) ids) as Hev1 by by apply repair_extends.
  pose proof Ho as (_ & _ & _ & Hreps & Hfs).
  destruct passes as [[|]|e]; [|intros Hfin; eapply finish_concluded; [exact Hfin| |done];
    by apply supported_verdict|by eapply open_abandon].
  specialize (Hok eq_refl). destruct (verifyMinimality _ _ _ _ _ _) as [[res recs] s2] eqn:Hmin.
  apply minimality_loop_spec in Hmin as (Hs2 & new & -> & Hmin); [|done..]. cbn [app] in *.
  set (a2 := add_experiments (add_experiments a rev) new).
  assert (repair_evidence (Analysis_Experiments a2) ids) as Hev2 by by apply repair_extends.
  assert (open_analysis a2) as Ho2 by (eapply open_extends; [by exists new|done]).
  destruct res as [[|]|e].
  - intros Hfin. eapply finish_concluded; [exact Hfin| |done]. split_and!; [done|done|]. split; [done|].
    split; [done|cbn|cbn].
    + apply at_least_app_l, at_least_app_r, Hok.
    + intros i x Hi Hne. apply at_least_app_r. by apply (Hmin eq_refl i x).
  - intros Hfin. eapply finish_concluded; [exact Hfin| |done]. by apply supported_verdict.
  - destruct (ctx_err _); intros Hfin; [eapply open_finish; [|exact Hs2|exact Hfin]; done|].
    eapply finish_concluded; [exact Hfin| |done]. by apply supported_verdict.
Qed.

Lemma minimize_concluded a s ans s' :
  open_analysis a → sound s →
  at_least (reps r) (baseline_run good true) (Analysis_Experiments a) →
  at_least (reps r) (baseline_run bad false) (Analysis_Experiments a) →
  minimize good bad r a s = Some (ans, s') → concluded ans s'.
Proof.
  intros Ho Hs Hgood Hbad. unfold minimize. pose proof Ho as (_ & _ & _ & _ & Hfs). rewrite Hfs.
  destruct (bool_decide (length fs = 0));
    [intros [= Hfin]; eapply open_finish; [|exact Hs|exact Hfin]; done|].
  destruct (bool_decide _); [intros [= Hfin]; eapply open_finish; [|exact Hs|exact Hfin]; done|].
  destruct (DDMin _ _ _ _) as [[[[ids used] err] [a1 s1]]|] eqn:Hdd; [|done]. intros [= Hans].
  apply minimised in Hdd as (Hs1 & Hext & Hsub & Hpass); [|done..].
  assert (open_analysis a1) as Ho1 by (by eapply open_extends).
  destruct err as [err|]; [by eapply open_abandon|].
  destruct (bool_decide (length ids = 0)) eqn:Hlen; [eapply open_finish; [|exact Hs1|exact Hans]; done|].
  eapply verify_causes_concluded; [done| |done|exact Hans].
  destruct Hext as [es ->]. split.
  - intros ->. done.
  - done.
  - cbn. by apply at_least_app_l.
  - cbn. by apply at_least_app_l.
  - destruct Hpass as [->|Hpass]; [by left|right]. exact Hpass.
Qed.
End verdicts.
End sound.

Lemma Analyze_concluded request good bad s ans s' :
  Request_Good request = Some good → Request_Bad request = Some bad → Capture_ID bad ≠ Capture_ID good →
  cache_sound (st_cache s) → Analyze request s = Some (ans, s') →
  let r := with_defaults request bad in
  concluded (st_blobs s) (st_analyses s) good bad r (Compare good bad (Request_MaxFactors r)).1 ans s'.
Proof.
  intros Hg Hb Hids Hcache. unfold Analyze. rewrite Hg, Hb. set (r := with_defaults request bad). cbn zeta.
  destruct (Compare _ _ _) as [factors boundaries]. cbn [fst].
  assert (sound (st_blobs s) (st_analyses s) s) as Hs by done.
  destruct (new_id _ _) as [id s1] eqn:Hk1. apply new_id_same in Hk1 as [Hk1 _].
  destruct (clock s1) as [created s2] eqn:Hk2. apply clock_same in Hk2 as [Hk2 _].
  set (a := mkAnalysis _ _ _ _ _ _ _ _ _ _ _ _ _ _ _ _ _).
  assert (sound (st_blobs s) (st_analyses s) s2) as Hs2.
  { eapply sound_same; [|exact Hs]. by eapply same_store_trans. }
  assert (open_analysis r factors a) as Ho by done.
  destruct (ctx_err _); [intros [= Hfin]; eapply open_finish; [|exact Hs2|exact Hfin]; done|].
  destruct (verifyBaseline good _ _ _ _ _) as [[es1 err1] s3] eqn:E1.
  apply (baseline_loop_spec (st_blobs s) (st_analyses s)) in E1 as (Hs3 & new1 & -> & Hok1); [|done].
  assert (open_analysis r factors (add_experiments a ([] ++ new1))) as Ho1
    by (eapply open_extends; [by eexists|done]).
  destruct err1 as [err1|]; [intros [= Hfin]; eapply open_abandon; [|exact Hs3|exact Hfin]; done|].
  destruct (verifyBaseline bad _ _ _ _ _) as [[es2 err2] s4] eqn:E2.
  apply (baseline_loop_spec (st_blobs s) (st_analyses s)) in E2 as (Hs4 & new2 & -> & Hok2); [|done].
  assert (open_analysis r factors (add_experiments (add_experiments a ([] ++ new1)) ([] ++ new2))) as Ho2
    by (eapply open_extends; [by eexists|done]).
  destruct err2 as [err2|]; [intros [= Hfin]; eapply open_abandon; [|exact Hs4|exact Hfin]; done|].
  destruct (Hok1 eq_refl) as [Hl1 Hr1]. destruct (Hok2 eq_refl) as [Hl2 Hr2].
  apply minimize_concluded; [done..| |]; cbn.
  - apply at_least_app_l, at_least_all; [unfold reps; lia|exact Hr1].
  - apply at_least_app_r, at_least_all; [unfold reps; lia|exact Hr2].
Qed.

Lemma Analyze_total request s : is_Some (Analyze request s).
Proof.
  unfold Analyze. destruct (Request_Good request) as [good|]; [|done].
  destruct (Request_Bad request) as [bad|]; [|done].
  destruct (Compare _ _ _). destruct (new_id _ _). destruct (clock _). destruct (ctx_err _); [done|].
  destruct (verifyBaseline _ _ _ _ _ _) as [[? [|]] ?]; [done|].
  destruct (verifyBaseline _ _ _ _ _ _) as [[? [|]] ?]; [done|].
  unfold minimize. destruct (bool_decide _); [done|]. destruct (bool_decide _); [done|].
  match goal with |- context [DDMin ?t ?b ?i ?st] => destruct (DDMin_total t b i st) as [[[[??]?][??]] ->] end.
  done.
Qed.
End engine.

(** ** Lemmas: what is returned is what is stored *)

Section stored.
Context `{!World, !Gzip, !Regexp}.
Context `{!Json cacheInput, !Json experimentCacheEntry, !Json Analysis, !Json AuditEvent}.
Variables (Version Commit : string).

Lemma finish_stored a err s ans s' : finish a err s = (ans, s') →
  match ans.1 with
  | Some a' => ans.2 = err ∧ st_analyses s' !! Analysis_ID a' = Some (json_encode a') ∧
      ∃ t audit, AppendAudit (st_audit s) (audit_outcome (st_world (clock s).2)) t
          "analysis" "analysis" (Analysis_ID a')
          {["status" := JString (show_status (Analysis_Status a'));
            "good_capture_id" := JString (Analysis_GoodCaptureID a');
            "bad_capture_id" := JString (Analysis_BadCaptureID a');
            "causal_factor_count" := JInt (Z.of_nat (length (Analysis_CausalFactors a')))]}
        = (audit, Ok tt) ∧ st_audit s' = audit
  | None => is_Some ans.2
  end.
Proof.
  unfold finish, SaveAnalysis, saveEntity. intros Hfin.
  destruct (negb _); [simplify_eq; cbn; eauto|].
  destruct (analysis_fail _); [simplify_eq; cbn; eauto|].
  unfold clock in *. destruct (now _) as [t w]. cbn in Hfin |- *.
  destruct (AppendAudit _ _ _ _ _ _ _) as [audit [u|e]] eqn:Ha; simplify_eq; cbn; [|eauto].
  split; [done|]. split; [apply lookup_insert_eq|]. exists t, audit. destruct u. done.
Qed.

(** Every path through [Analyze] with two captures ends in [finish]. *)
Lemma abandon_finishes a text s : ∃ a' err s0, abandon a text s = finish a' err s0.
Proof. unfold abandon, finishInterrupted. destruct (ctx_err _); eauto. Qed.

Lemma verify_causes_finishes good bad r factors ids a s :
  ∃ a' err s0, verify_causes Version Commit good bad r factors ids a s = finish a' err s0.
Proof.
  unfold verify_causes, finishInterrupted. destruct (bool_decide _); [eauto|].
  destruct (runIntervention _ _ _ _ _ _ _ _ _ _) as [[? [[|]|]] s1]; [|eauto|apply abandon_finishes].
  destruct (verifyMinimality _ _ _ _ _ _ _ _) as [[[[|]|] ?] s2]; [eauto..|].
  destruct (ctx_err _); eauto.
Qed.

Lemma Analyze_finishes request good bad s ans s' :
  Request_Good request = Some good → Request_Bad request = Some bad →
  Analyze Version Commit request s = Some (ans, s') → ∃ a err s0, finish a err s0 = (ans, s').
Proof.
  intros Hg Hb. unfold Analyze, finishInterrupted. rewrite Hg, Hb.
  destruct (Compare _ _ _). destruct (new_id _ _). destruct (clock _). destruct (ctx_err _);
    [intros [= <-]; eauto|].
  destruct (verifyBaseline _ _ good _ _ _ _ _) as [[? [|]] ?].
  { intros [= Heq]. match type of Heq with abandon ?a ?t ?s = _ =>
      destruct (abandon_finishes a t s) as (?&?&?&Hg') end. rewrite Hg' in Heq. eauto. }
  destruct (verifyBaseline _ _ bad _ _ _ _ _) as [[? [|]] ?].
  { intros [= Heq]. match type of Heq with abandon ?a ?t ?s = _ =>
      destruct (abandon_finishes a t s) as (?&?&?&Hg') end. rewrite Hg' in Heq. eauto. }
  unfold minimize. destruct (bool_decide _); [intros [= Heq]; eauto|].
  destruct (bool_decide _); [intros [= Heq]; eauto|].
  destruct (DDMin _ _ _ _) as [[[[ids ?] [err|]] [? ?]]|]; [|destruct (bool_decide _)|done].
  - intros [= Heq]. match type of Heq with abandon ?a ?t ?s = _ =>
      destruct (abandon_finishes a t s) as (?&?&?&Hg') end. rewrite Hg' in Heq. eauto.
  - intros [= Heq]. eauto.
  - intros [= Heq]. match type of Heq with verify_causes _ _ ?g ?b ?r ?f ?i ?a ?s = _ =>
      destruct (verify_causes_finishes g b r f i a s) as (?&?&?&Hg') end. rewrite Hg' in Heq. eauto.
Qed.
End stored.

(** ** Lemmas: repetitions and the cache *)

Section replay.
Context `{!World, !Gzip, !Regexp}.
Context `{!Json cacheInput, !Json experimentCacheEntry, !Json Analysis, !Json AuditEvent}.
Variables (Version Commit : string).
(** The cache works: it can be read and written. *)
Hypothesis readable : ∀ w, cache_unreadable w = None.
Hypothesis writable : ∀ w, cache_fail w = None.

(** A record that the cache accepts *)
Definition fits (key : string) (e : Experiment) : Prop :=
  json_valid (mkCacheEntry key true e) ∧
  (Z.of_nat (String.length (json_encode (mkCacheEntry key true e))) ≤ MaxExperimentCacheBytes)%Z.

(** The cache holds an outcome for the key. *)
Definition holds (s : state) (key : string) (res : ProcessResult) (o : OracleResult) : Prop :=
  ∃ e, LoadExperimentCache (st_cache s) None key = (st_cache s, Ok (Some e)) ∧
    Experiment_Result e = res ∧ Experiment_OracleResult e = o.

Lemma holds_cache s s' key res o : st_cache s' = st_cache s → holds s key res o → holds s' key res o.
Proof. intros Heq (e & He & Hr). exists e. by rewrite Heq. Qed.

Lemma load_hit cache key cache' e :
  LoadExperimentCache cache None key = (cache', Ok (Some e)) → cache' = cache.
Proof. unfold LoadExperimentCache. repeat case_match; naive_solver. Qed.

Lemma remove_root_cache s root : st_cache (remove_root s root) = st_cache s.
Proof. reflexivity. Qed.

Lemma runWorld_hit base source gid command selected ids maxOutput kind s res o :
  holds s (experimentCacheKey Version Commit base source gid command selected kind) res o →
  ∃ record s', runWorld Version Commit base source gid command selected ids maxOutput kind s =
      (record, Ok (OracleResult_Passed o), s') ∧
    Experiment_Result record = res ∧ Experiment_CacheHit record = true ∧
    st_cache s' = st_cache s ∧ st_fs s' = st_fs s.
Proof.
  intros (e & He & Hres & Ho). unfold runWorld. rewrite readable, He.
  destruct (new_id _ _) as [id s1] eqn:Hid. destruct (clock s1) as [t s2] eqn:Hc.
  unfold new_id in Hid. destruct (random_id _). unfold clock in Hc. destruct (now _). simplify_eq.
  eexists _, _. split; [done|]. by cbn.
Qed.

Lemma save_holds s key record :
  fits (sha256_hex key) record →
  holds (set_cache s (SaveExperimentCache MaxExperimentCacheBytes (st_cache s) None
           (sha256_hex key) record).1) (sha256_hex key)
    (Experiment_Result record) (Experiment_OracleResult record).
Proof.
  intros [Hvalid Hlen].
  destruct (SaveExperimentCache _ _ _ _ _) as [cache r] eqn:Hsave.
  assert (r = Ok tt) as ->.
  { revert Hsave. unfold SaveExperimentCache. rewrite validDigest_sha256. cbn [negb].
    rewrite bool_decide_eq_false_2 by lia. by intros [= <- <-]. }
  destruct (save_then_load _ _ _ _ _ Hvalid Hsave) as (_ & Hload & _). by exists record.
Qed.

(** After a run that did not time out the cache holds its outcome. *)
Lemma runWorld_holds base source gid command selected ids maxOutput kind s record p s' :
  runWorld Version Commit base source gid command selected ids maxOutput kind s = (record, Ok p, s') →
  ProcessResult_TimedOut (Experiment_Result record) = false →
  fits (experimentCacheKey Version Commit base source gid command selected kind) record →
  p = OracleResult_Passed (Experiment_OracleResult record) ∧
  holds s' (experimentCacheKey Version Commit base source gid command selected kind)
    (Experiment_Result record) (Experiment_OracleResult record).
Proof.
  set (key := experimentCacheKey _ _ _ _ _ _ _ _).
  assert (∀ s0 root env rootp, (let '(record, passed, s) :=
      observe base source command ids maxOutput kind key root env s0 in
      (record, passed, remove_root s rootp)) = (record, Ok p, s') →
    ProcessResult_TimedOut (Experiment_Result record) = false → fits key record →
    p = OracleResult_Passed (Experiment_OracleResult record) ∧
    holds s' key (Experiment_Result record) (Experiment_OracleResult record)) as Hobs.
  { intros s0 root env rootp. unfold observe. destruct (clock s0) as [start s1].
    destruct (process _ _ _) as [[io f] w].
    destruct (Run io _) as [res runErr] eqn:Hrun.
    destruct (new_id _ _) as [id s2]. destruct (clock s2) as [fin s3].
    destruct res as [r|].
    - intros [= <- <- <-]. cbn. intros -> Hfits. split; [done|].
      eapply holds_cache; [by rewrite remove_root_cache|]. rewrite writable. by apply save_holds.
    - destruct runErr; [done|]. exfalso. revert Hrun. unfold Run, run_course.
      destruct (bool_decide _); [done|]. destruct (binding_refused io _); [done|].
      by destruct (run_choice _ _) as [[??]?]. }
  unfold runWorld. fold key. rewrite readable.
  destruct (LoadExperimentCache _ _ _) as [cache loaded] eqn:Hload.
  destruct loaded as [[cached|]|err].
  2, 3: unfold run_new; destruct (mkdir_temp _) as [[rootp|] w]; [|done];
    destruct (Materialize _ _ _ _) as [f1 [[]|]]; [|done];
    destruct (apply_factors _ _ _ _ _) as [[env|] s1]; [|done]; apply Hobs.
  destruct (new_id _ _) as [id s1] eqn:Hid. destruct (clock s1) as [t s2] eqn:Hc.
  unfold new_id in Hid. destruct (random_id _). unfold clock in Hc. destruct (now _).
  intros Heq _ _. simplify_eq. cbn. split; [done|]. pose proof (load_hit _ _ _ _ Hload) as ->.
  exists cached. by cbn.
Qed.

Lemma baseline_replays capture command maxOutput expected res o todo : ∀ index records s,
  OracleResult_Passed o = expected →
  holds s (experimentCacheKey Version Commit capture capture (Capture_ID capture) command [] "baseline") res o →
  ∃ new s', baseline_loop Version Commit todo index capture command expected maxOutput records s
      = (records ++ new, None, s') ∧ length new = todo ∧
    Forall (λ e, Experiment_Result e = res ∧ Experiment_CacheHit e = true) new ∧
    st_fs s' = st_fs s.
Proof.
  induction todo as [|todo IH]; intros index records s Ho Hh; cbn.
  { exists [], s. rewrite app_nil_r. by split_and!. }
  destruct (runWorld_hit _ _ _ _ _ [] maxOutput _ _ _ _ Hh) as (record & s1 & -> & Hres & Hhit & Hc & Hf).
  rewrite Ho, eqb_reflx. cbn.
  destruct (IH (S index) (records ++ [record]) s1 Ho) as (new & s2 & -> & Hlen & Hall & Hfs);
    [by eapply holds_cache|].
  exists (record :: new), s2. rewrite <-app_assoc. split_and!; [done|cbn; lia|by constructor|congruence].
Qed.
End replay.

(** What [finish] does with an analysis *)
Lemma finish_concludes `{!World, !Json Analysis, !Json AuditEvent} a err s ans s' : finish a err s = (ans, s') →
  (st_analyses s' = st_analyses s ∧ ans.1 = None ∧ is_Some ans.2 ∧ st_cache s' = st_cache s) ∨
  (st_analyses s' = <[Analysis_ID (normalized a) := json_encode (normalized a)]> (st_analyses s) ∧
   st_cache s' = st_cache s ∧ (ans = (Some (normalized a), err) ∨ ans.1 = None ∧ is_Some ans.2)).
Proof.
  unfold finish, SaveAnalysis, saveEntity. intros Hfin.
  destruct (negb _); [left; simplify_eq; cbn; eauto|].
  destruct (analysis_fail _); [left; simplify_eq; cbn; eauto|].
  unfold clock in *. destruct (now _) as [t w]. cbn in Hfin.
  destruct (AppendAudit _ _ _ _ _ _ _) as [audit [u|e]]; simplify_eq; right; cbn; split_and!; try done; [by left|].
  right. eauto.
Qed.

(** ** Properties *)

(** C1: A [PROVEN] verdict is backed by experiments that were made.  Let [n],
    at least one, be the number of repetitions.  Among the experiments of the
    analysis are [n] passing runs of the good world and [n] failing runs of the
    bad world, [n] failing runs of the good world with the causal factors set
    as in the bad one, and a failing run of the bad world with every nonempty
    set of one causal factor less set as in the good one.  Unless the causal
    factors are all the factors there are, [n] passing runs of the bad world
    with the causal factors set as in the good one are there too; if they are
    all the factors, the code makes no such run.  Each of these is a run of the
    command in a directory built from the recorded workspace, with exactly
    these factors set in it and in the recorded environment, judged by the
    oracle; or, marked as such, the outcome of an earlier one with the same
    description, from the cache, where only a collision of SHA-256 could mix
    descriptions up. *)
Theorem PROVEN_has_evidence `{!World, !Gzip, !Regexp}
    `{!Json cacheInput, !Json experimentCacheEntry, !Json Analysis, !Json AuditEvent}
    Version Commit request good bad s a err s'
    (Hgood : Request_Good request = Some good) (Hbad : Request_Bad request = Some bad)
    (Hids : Capture_ID bad ≠ Capture_ID good) (Hcache : cache_sound Version Commit (st_cache s))
    (Hrun : Analyze Version Commit request s = Some ((Some a, err), s'))
    (Hproven : Analysis_Status a = StatusProven) :
  let r := with_defaults request bad in
  let factors := (Compare good bad (Request_MaxFactors r)).1 in
  let baseline := baseline_run Version Commit (st_blobs s) r in
  let forward := forward_run Version Commit (st_blobs s) good bad r (factor_map factors) in
  let reverse := reverse_run Version Commit (st_blobs s) good bad r factors in
  let n := Z.to_nat (Analysis_Repetitions a) in
  let es := Analysis_Experiments a in
  0 < n ∧ at_least n (baseline good true) es ∧ at_least n (baseline bad false) es ∧
  ∃ causes, Analysis_CausalFactors a = sort_strings causes ∧ causes ≠ [] ∧
    causes `sublist_of` (Factor_ID <$> factors) ∧
    at_least n (reverse causes false) es ∧
    (∀ i x, causes !! i = Some x → delete i causes ≠ [] → at_least 1 (forward (delete i causes) false) es) ∧
    (causes ≠ Factor_ID <$> factors → at_least n (forward causes true) es).
Proof.
  intros r factors baseline forward reverse n es.
  apply (Analyze_concluded _ _ _ good bad) in Hrun as (a0 & err0 & s0 & Hfin & Hv & _); [|done..].
  apply finish_concludes in Hfin as [(_ & ? & _)|(_ & _ & [Heq|[? _]])]; [done| |done].
  injection Heq as -> _. apply verdict_justified in Hv as (_ & Hreps & causes & Hcauses & Hv).
  rewrite Hproven in Hv. destruct Hv as [_ [[E1 E2 E3 E4 E5] E6 E7]].
  assert (n = reps r) as Hn by (unfold n; by rewrite Hreps). rewrite Hn. split_and!; [|done|done|].
  { unfold reps, r. cbn. case_bool_decide; lia. }
  exists causes. split_and!; [done..|]. intros Hne. by destruct E5.
Qed.

(** C2: What is stored never claims more than was found.  An analysis of two
    captures with different identifiers either fails without storing anything,
    or stores exactly one analysis - and answers with it, or fails in the audit
    log - whose factors are those of [Compare] and whose status is PROVEN,
    SUPPORTED or UNPROVEN.  The three verification flags are set together and
    only for PROVEN.  A PROVEN analysis has the evidence of C1.  A SUPPORTED
    one has the two series of baseline runs, and, unless its causes are all the
    factors there are, a series of runs in which they repaired the bad world.
    An UNPROVEN one names no causes.  The experiment cache stays one that only
    holds experiments that were made. *)
Theorem Analyze_verdicts `{!World, !Gzip, !Regexp}
    `{!Json cacheInput, !Json experimentCacheEntry, !Json Analysis, !Json AuditEvent}
    Version Commit request good bad s ans s'
    (Hgood : Request_Good request = Some good) (Hbad : Request_Bad request = Some bad)
    (Hids : Capture_ID bad ≠ Capture_ID good) (Hcache : cache_sound Version Commit (st_cache s))
    (Hrun : Analyze Version Commit request s = Some (ans, s')) :
  let r := with_defaults request bad in
  let factors := (Compare good bad (Request_MaxFactors r)).1 in
  cache_sound Version Commit (st_cache s') ∧
  ((st_analyses s' = st_analyses s ∧ ans.1 = None ∧ is_Some ans.2) ∨
   ∃ a, st_analyses s' = <[Analysis_ID a := json_encode a]> (st_analyses s) ∧
     (ans.1 = Some a ∨ ans.1 = None ∧ is_Some ans.2) ∧
     justified Version Commit (st_blobs s) good bad r factors a).
Proof.
  intros r factors.
  apply (Analyze_concluded _ _ _ good bad) in Hrun as (a & err & s0 & Hfin & Hv & Hc & _ & Han); [|done..].
  apply finish_concludes in Hfin as [(Hst & Hno & Herr & Hcache')|(Hst & Hcache' & Hans)].
  - rewrite Hcache'. split; [done|left]. by rewrite Hst, Han.
  - rewrite Hcache'. split; [done|right]. exists (normalized a). rewrite Hst, Han.
    split_and!; [done| |by apply verdict_justified]. destruct Hans as [->|?]; [by left|by right].
Qed.

(** An analysis always comes to an end, and what is answered is what is
    stored: for every request and every behaviour of the world there is an
    answer; an answer without analysis is an error; an answer with an analysis
    is the one in the store under its identifier, with an event for it
    appended to the audit log. *)
Theorem Analyze_answers `{!World, !Gzip, !Regexp}
    `{!Json cacheInput, !Json experimentCacheEntry, !Json Analysis, !Json AuditEvent}
    Version Commit request s :
  ∃ ans s', Analyze Version Commit request s = Some (ans, s') ∧
    match ans.1 with
    | None => is_Some ans.2
    | Some a => st_analyses s' !! Analysis_ID a = Some (json_encode a) ∧
        ∃ old fault t details, AppendAudit old fault t "analysis" "analysis" (Analysis_ID a) details
          = (st_audit s', Ok tt) ∧
          details !! "status" = Some (JString (show_status (Analysis_Status a))) ∧
          details !! "causal_factor_count" = Some (JInt (Z.of_nat (length (Analysis_CausalFactors a))))
    end.
Proof.
  destruct (Analyze_total Version Commit request s) as [[ans s'] Hrun]. exists ans, s'.
  split; [done|].
  destruct (Request_Good request) as [good|] eqn:Hg;
    [destruct (Request_Bad request) as [bad|] eqn:Hb|].
  - destruct (Analyze_finishes _ _ _ _ _ _ _ _ Hg Hb Hrun) as (a & err & s0 & Hfin).
    apply finish_stored in Hfin. destruct (ans.1) as [a'|]; [|done].
    destruct Hfin as (_ & Hst & t & audit & Happ & <-). split; [done|].
    eexists _, _, t, _. split; [exact Happ|]. split; [apply lookup_insert_eq|].
    rewrite !lookup_insert_ne by done. apply lookup_singleton_eq.
  - unfold Analyze in Hrun. rewrite Hg, Hb in Hrun. injection Hrun as <- <-. by eexists.
  - unfold Analyze in Hrun. rewrite Hg in Hrun. injection Hrun as <- <-. by eexists.
Qed.

(** Repetitions are answered by the cache: when the cache works, the first
    repetition of a baseline that does not time out and has the expected
    outcome decides all of them - the further repetitions are cache hits with
    the result of the first one and run nothing, whatever the command would do
    a second time. *)
Theorem verifyBaseline_replays `{!World, !Gzip, !Regexp}
    `{!Json cacheInput, !Json experimentCacheEntry, !Json Analysis, !Json AuditEvent}
    Version Commit capture command expected maxOutput s first s1 repetitions
    (Hreadable : ∀ w, cache_unreadable w = None) (Hwritable : ∀ w, cache_fail w = None)
    (Hfirst : runWorld Version Commit capture capture (Capture_ID capture) command [] [] maxOutput
       "baseline" s = (first, Ok expected, s1))
    (Htime : ProcessResult_TimedOut (Experiment_Result first) = false)
    (Hfits : fits (experimentCacheKey Version Commit capture capture (Capture_ID capture) command []
       "baseline") first)
    (Hreps : (0 < repetitions)%Z) :
  ∃ records s', verifyBaseline Version Commit capture command expected repetitions maxOutput s
      = (first :: records, None, s') ∧ S (length records) = Z.to_nat repetitions ∧
    Forall (λ e, Experiment_Result e = Experiment_Result first ∧ Experiment_CacheHit e = true) records ∧
    st_fs s' = st_fs s1.
Proof.
  destruct (runWorld_holds _ _ Hreadable Hwritable _ _ _ _ _ _ _ _ _ _ _ _ Hfirst Htime Hfits)
    as [Hp Hh].
  unfold verifyBaseline. destruct (Z.to_nat repetitions) as [|n] eqn:Hn; [lia|]. cbn [baseline_loop].
  rewrite Hfirst, eqb_reflx. cbn.
  destruct (baseline_replays Version Commit Hreadable capture command maxOutput expected _ _ n 1 [first]
    s1 (eq_sym Hp) Hh) as (new & s' & -> & Hlen & Hall & Hfs).
  exists new, s'. split_and!; [done|lia|done|done].
Qed.

(** ** A concrete world, for the findings and the witnesses

    The clock counts; a process succeeds when the environment says so. *)

Definition demo_outcome (code : Z) : run_io :=
  let o := mkOutcome ["out"] [] (if decide (code = 0%Z) then None else Some (RunExit code)) in
  mkRunIO (λ _, no_view) false (mkTraced o [] []) o 1 2.

Definition demo_world (succeeds : list string → nat → bool) : World := {|
  world := nat;
  now w := (Z.of_nat w, S w);
  random_id w := (show_nat w, S w);
  ctx_err _ := None;
  mkdir_temp w := (Ok ["tmp"; "x" +:+ show_nat w], S w);
  process r f w := (demo_outcome (if succeeds (Run_Environment r) w then 0 else 1), f, S w);
  cache_unreadable _ := None;
  cache_fail _ := None;
  analysis_fail _ := None;
  audit_outcome _ := NoFault;
  world_user := false;
|}.

(** Every environment assignment listed must be there. *)
Definition needs (assignments : list string) (environment : list string) (_ : nat) : bool :=
  forallb (λ a, bool_decide (a ∈ environment)) assignments.

#[export] Instance Experiment_countable : Countable Experiment.
Proof.
  refine (inj_countable
    (λ e, let r := Experiment_Result e in
       ([Experiment_ID e; Experiment_Kind e; Experiment_BaseCaptureID e; Experiment_SourceCaptureID e;
         Experiment_Error e; OracleResult_Detail (Experiment_OracleResult e);
         ProcessResult_Signal r; ProcessResult_Stdout r; ProcessResult_Stderr r],
        [Experiment_StartedAt e; Experiment_FinishedAt e; ProcessResult_ExitCode r;
         ProcessResult_StartedAt r; ProcessResult_FinishedAt r; ProcessResult_DurationMS r],
        [Experiment_CacheHit e; OracleResult_Passed (Experiment_OracleResult e);
         ProcessResult_TimedOut r; ProcessResult_OutputTruncated r],
        [Experiment_FactorIDs e; ProcessResult_ConsultedPaths r; ProcessResult_Boundaries r]))
    (λ '(ss, zs, bs, ls), match ss, zs, bs, ls with
       | [id; kind; base; source; err; detail; sg; out; serr], [st; fin; code; rst; rfin; dur],
         [hit; passed; timed; trunc], [ids; paths; bounds] =>
           Some (mkExperiment id kind hit st fin base source ids
             (mkProcessResult code sg timed rst rfin dur out serr trunc paths bounds)
             (mkOracleResult passed detail) err)
       | _, _, _, _ => None end) _).
  by intros [? ? ? ? ? ? ? ? [] []].
Defined.

#[export] Instance experimentCacheEntry_eq_dec : EqDecision experimentCacheEntry.
Proof. solve_decision. Defined.
#[export] Instance experimentCacheEntry_countable : Countable experimentCacheEntry.
Proof.
  refine (inj_countable' (λ e, (cache_Key e, cache_Complete e, cache_Experiment e))
    (λ '(k, c, e), mkCacheEntry k c e) _).
  by intros [].
Defined.

Definition entry_codec : Json experimentCacheEntry := countable_json experimentCacheEntry.

(** What of the key the sample captures differ in *)
Definition input_codec : Json cacheInput.
Proof.
  refine {| json_encode _ := ""; json_decode _ := Err ErrNotExist; json_strict _ := Err ErrNotExist;
    json_marshal i := join "," (EnvironmentToList (ci_BaseEnvironment i) ++ [ci_Kind i] ++
      (Factor_ID <$> ci_Factors i) ++ [show_bool (ci_BaseIsGood i)]);
    json_valid _ := False |}; done.
Defined.

(** A report codec: the store only keeps the text *)
Definition analysis_codec : Json Analysis.
Proof.
  refine {| json_encode a := Analysis_ID a; json_marshal a := Analysis_ID a;
    json_decode _ := Err ErrNotExist; json_strict _ := Err ErrNotExist;
    json_valid _ := False |}; done.
Defined.

Definition world_capture (id : string) (assignments : gmap string string) : Capture :=
  mkCapture 3 id 1 1 1 "" "/work" (mkCommandSpec ["./check.sh"] "/work" assignments 1000)
    (mkOracle "exit" (Some 0%Z) "" "" "") zero_process_result zero_oracle_result
    zero_manifest zero_manifest zero_host [] [] [] [].

Definition demo_state (w : nat) (succeeds : list string → nat → bool) : @state (demo_world succeeds) :=
  @mkState (demo_world succeeds) {[["tmp"] := NDir 511]} ∅ ∅ ∅ None [] w.

Definition demo_analyze (succeeds : list string → nat → bool) (r : Request) : option Analysis :=
  match @Analyze (demo_world succeeds) stored_gzip literal_regexp input_codec entry_codec
          analysis_codec quick_codec "v" "c" r (demo_state 0 succeeds) with
  | Some ((Some a, None), _) => Some a
  | _ => None
  end.

Definition one_factor : Request :=
  mkRequest (Some (world_capture "good" {["MODE" := "good"]}))
    (Some (world_capture "bad" {["MODE" := "bad"]})) [] 2 0 0 0.

(** What a reader of the report looks at *)
Definition summary (a : Analysis) :=
  (Analysis_Status a, Analysis_ForwardVerified a, Analysis_CausalFactors a,
   length (Analysis_Experiments a), Analysis_ExperimentBudget a).

Definition four_factors (repetitions max : Z) : Request :=
  mkRequest (Some (world_capture "good" {["A" := "1"; "B" := "1"; "C" := "1"; "D" := "1"]}))
    (Some (world_capture "bad" {["A" := "0"; "B" := "0"; "C" := "0"; "D" := "0"]})) []
    repetitions max 0 0.

(** Finding: with a single factor the analysis is PROVEN and claims
    [ForwardVerified], but no experiment ran the bad world with the good value. *)
Example PROVEN_without_forward_run :
  match demo_analyze (needs ["MODE=good"]) one_factor with
  | Some a => Analysis_Status a = StatusProven ∧ Analysis_ForwardVerified a = true ∧
      Forall (λ e, Experiment_BaseCaptureID e = "bad" → Experiment_FactorIDs e = []) (Analysis_Experiments a)
  | None => False
  end.
Proof. vm_compute. split_and!; [done|done|]. repeat constructor; intros [=]. Qed.

(** Finding: [DDMin] is given a budget of tests, not of experiments, and the
    recorded experiments exceed the budget of the analysis. *)
Example experiments_exceed_budget :
  match demo_analyze (needs ["A=1"]) (four_factors 3 10) with
  | Some a => Analysis_ExperimentBudget a = 10%Z ∧ length (Analysis_Experiments a) = 12
  | None => False
  end.
Proof. vm_compute. done. Qed.

(** Finding: a good world that fails from its second execution on still has a
    stable baseline, and the analysis is PROVEN. *)
Example flaky_world_is_PROVEN :
  match demo_analyze (λ env w, needs ["MODE=good"] env w && bool_decide (w < 8)) one_factor with
  | Some a => Analysis_Status a = StatusProven ∧
      (Experiment_CacheHit <$> Analysis_Experiments a) = [false; true; false; true; false; true]
  | None => False
  end.
Proof. vm_compute. done. Qed.

(** ** Witnesses *)

Definition demo : World := demo_world (needs ["A=1"; "C=1"]).
Definition demo_request : Request := four_factors 2 40.
Definition demo_run : option ((option Analysis * option error) * @state demo) :=
  @Analyze demo stored_gzip literal_regexp input_codec entry_codec analysis_codec quick_codec "v" "c"
    demo_request (demo_state 0 (needs ["A=1"; "C=1"])).

Definition zero_analysis : Analysis :=
  mkAnalysis 0 "" 0 "" "" [] [] [] StatusUnproven false false false 0 0 "" [] [].
Definition demo_result : Analysis := default zero_analysis (demo_run ≫= λ r, r.1.1).
Definition demo_final : @state demo :=
  default (demo_state 0 (needs ["A=1"; "C=1"])) (snd <$> demo_run).

(** A run that answers is known by its parts; only the answer is computed. *)
Lemma run_parts {A B S} (a : A) (st : S) (run : option ((option A * option B) * S)) :
  match run with Some ((Some _, None), _) => true | _ => false end = true →
  run = Some ((Some (default a (run ≫= λ r, r.1.1)), None), default st (snd <$> run)).
Proof. by destruct run as [[[[?|] [?|]] ?]|]. Qed.

Lemma demo_run_eq : demo_run = Some ((Some demo_result, None), demo_final).
Proof. refine (run_parts zero_analysis _ demo_run _). vm_compute. reflexivity. Qed.

Definition demo_good_capture : Capture := world_capture "good" {["A" := "1"; "B" := "1"; "C" := "1"; "D" := "1"]}.
Definition demo_bad_capture : Capture := world_capture "bad" {["A" := "0"; "B" := "0"; "C" := "0"; "D" := "0"]}.
Definition demo_defaults : Request := with_defaults demo_request demo_bad_capture.
Definition demo_factors : list Factor :=
  (Compare demo_good_capture demo_bad_capture (Request_MaxFactors demo_defaults)).1.

Lemma demo_cache_sound succeeds : @cache_sound (demo_world succeeds) stored_gzip literal_regexp input_codec entry_codec
  "v" "c" ∅.
Proof. apply map_Forall_empty. Qed.

Lemma PROVEN_has_evidence_witness :
  let baseline := @baseline_run demo stored_gzip literal_regexp input_codec entry_codec "v" "c" ∅ demo_defaults in
  let forward := @forward_run demo stored_gzip literal_regexp input_codec entry_codec "v" "c" ∅
    demo_good_capture demo_bad_capture demo_defaults (factor_map demo_factors) in
  let reverse := @reverse_run demo stored_gzip literal_regexp input_codec entry_codec "v" "c" ∅
    demo_good_capture demo_bad_capture demo_defaults demo_factors in
  let n := Z.to_nat (Analysis_Repetitions demo_result) in
  let es := Analysis_Experiments demo_result in
  0 < n ∧ at_least n (baseline demo_good_capture true) es ∧ at_least n (baseline demo_bad_capture false) es ∧
  ∃ causes, Analysis_CausalFactors demo_result = sort_strings causes ∧ causes ≠ [] ∧
    causes `sublist_of` (Factor_ID <$> demo_factors) ∧
    at_least n (reverse causes false) es ∧
    (∀ i x, causes !! i = Some x → delete i causes ≠ [] → at_least 1 (forward (delete i causes) false) es) ∧
    (causes ≠ Factor_ID <$> demo_factors → at_least n (forward causes true) es).
Proof.
  apply (@PROVEN_has_evidence demo stored_gzip literal_regexp input_codec entry_codec analysis_codec
    quick_codec "v" "c" demo_request demo_good_capture demo_bad_capture
    (demo_state 0 (needs ["A=1"; "C=1"])) demo_result None demo_final eq_refl eq_refl).
  - discriminate.
  - apply demo_cache_sound.
  - exact demo_run_eq.
  - vm_compute. reflexivity.
Defined.

Lemma Analyze_verdicts_witness :
  @cache_sound demo stored_gzip literal_regexp input_codec entry_codec "v" "c" (st_cache demo_final) ∧
  ((st_analyses demo_final = ∅ ∧ Some demo_result = None ∧ is_Some (@None error)) ∨
   ∃ a, st_analyses demo_final = <[Analysis_ID a := @json_encode _ analysis_codec a]> ∅ ∧
     (Some demo_result = Some a ∨ Some demo_result = None ∧ is_Some (@None error)) ∧
     @justified demo stored_gzip literal_regexp input_codec entry_codec "v" "c" ∅ demo_good_capture demo_bad_capture
       demo_defaults demo_factors a).
Proof.
  apply (@Analyze_verdicts demo stored_gzip literal_regexp input_codec entry_codec analysis_codec
    quick_codec "v" "c" demo_request demo_good_capture demo_bad_capture
    (demo_state 0 (needs ["A=1"; "C=1"])) (Some demo_result, None) demo_final eq_refl eq_refl).
  - discriminate.
  - apply demo_cache_sound.
  - exact demo_run_eq.
Defined.

Definition demo_good : Capture := world_capture "good" {["A" := "1"; "C" := "1"]}.
Definition demo_start : @state demo := demo_state 0 (needs ["A=1"; "C=1"]).
Definition demo_first : Experiment * result bool * @state demo :=
  @runWorld demo stored_gzip literal_regexp input_codec entry_codec "v" "c" demo_good demo_good "good"
    ["./check.sh"] [] [] 100 "baseline" demo_start.

Lemma passed_parts {A S} (r : A * result bool * S) :
  match r.1.2 with Ok b => b | Err _ => false end = true → r = (r.1.1, Ok true, r.2).
Proof. by destruct r as [[? [[]|?]] ?]. Qed.

Lemma verifyBaseline_replays_witness :
  ∃ records s', @verifyBaseline demo stored_gzip literal_regexp input_codec entry_codec "v" "c"
      demo_good ["./check.sh"] true 3 100 demo_start = (demo_first.1.1 :: records, None, s') ∧
    S (length records) = Z.to_nat 3 ∧
    Forall (λ e, Experiment_Result e = Experiment_Result demo_first.1.1 ∧
      Experiment_CacheHit e = true) records ∧
    st_fs s' = st_fs demo_first.2.
Proof.
  apply (@verifyBaseline_replays demo stored_gzip literal_regexp input_codec entry_codec
    analysis_codec quick_codec "v" "c" demo_good ["./check.sh"] true 100 demo_start demo_first.1.1 demo_first.2 3).
  - reflexivity.
  - reflexivity.
  - refine (passed_parts demo_first _). vm_compute. reflexivity.
  - vm_compute. reflexivity.
  - split; [exact I|]. vm_compute. discriminate.
  - lia.
Defined.
