(* ===== verification/Report.v ===== *)
(** * Report: the public report of an analysis

    Models [src/internal/report/report.go]: the report value built from an
    analysis, its JSON, JUnit, SARIF and Markdown renderings, and the exit
    policy of the command line.  The encoders of the standard library
    ([json.MarshalIndent], [xml.MarshalIndent], the verb [%q]) are the
    interface [Encoders]; the values handed to them are modelled in full. *)

From S2P Require Import Prelude Sha256 Text Model.

(** ** Data *)

Definition AnalysisReportSchemaVersion : Z := 1.

Record OutputLinks := mkOutputLinks { ReportURL : string; BundleURL : string }.

Record junitProperty := mkJunitProperty { property_Name : string; property_Value : string }.
Record junitFailure := mkJunitFailure { failure_Message : string; failure_Text : string }.
Record junitSkipped := mkJunitSkipped { skipped_Message : string }.
Record junitTestCase := mkJunitTestCase {
  case_Classname : string;
  case_Name : string;
  case_Time : string;
  case_Failure : option junitFailure;
  case_Skipped : option junitSkipped;
}.
Record junitTestSuite := mkJunitTestSuite {
  suite_Name : string;
  suite_Tests : Z;
  suite_Failures : Z;
  suite_Skipped : Z;
  suite_Time : string;
  suite_Properties : list junitProperty;
  suite_Cases : list junitTestCase;
}.
Record junitTestSuites := mkJunitTestSuites {
  suites_Name : string;
  suites_Tests : Z;
  suites_Failures : Z;
  suites_Skipped : Z;
  suites_Time : string;
  suites_Suites : list junitTestSuite;
}.

(** A [sarifText] is its text; a location is the URI and the start line. *)
Record sarifRule := mkSarifRule {
  rule_ID : string;
  rule_Name : string;
  rule_ShortDescription : string;
  rule_HelpURI : string;
}.
Record sarifLocation := mkSarifLocation { location_URI : string; location_StartLine : Z }.
Record sarifResult := mkSarifResult {
  sarif_RuleID : string;
  sarif_Level : string;
  sarif_Message : string;
  sarif_Locations : list sarifLocation;
  sarif_Properties : gmap string json_scalar;
}.
Record sarifDriver := mkSarifDriver { driver_Name : string; driver_Rules : list sarifRule }.
Record sarifRun := mkSarifRun { run_Tool : sarifDriver; run_Results : list sarifResult }.
Record sarifDocument := mkSarifDocument {
  document_Version : string;
  document_Schema : string;
  document_Runs : list sarifRun;
}.

Record ReportProof := mkReportProof {
  Proof_ForwardVerified : bool;
  Proof_ReverseVerified : bool;
  Proof_MinimalInModel : bool;
}.
Record ReportFactor := mkReportFactor {
  ReportFactor_ID : string;
  ReportFactor_Type : string;
  ReportFactor_Key : string;
  ReportFactor_Description : string;
}.
Record ReportEvidence := mkReportEvidence {
  Evidence_GoodCaptureID : string;
  Evidence_BadCaptureID : string;
  Evidence_FactorCount : Z;
  Evidence_ExperimentCount : Z;
  Evidence_CacheHits : Z;
  Evidence_CacheMisses : Z;
}.
Record AnalysisReport := mkAnalysisReport {
  Report_SchemaVersion : Z;
  Report_Format : string;
  Report_AnalysisID : string;
  Report_Status : string;
  Report_Explanation : string;
  Report_Proof : ReportProof;
  Report_Cause : list ReportFactor;
  Report_Boundaries : list string;
  Report_Limitations : list string;
  Report_NextSteps : list string;
  Report_Evidence : ReportEvidence;
  Report_Summary : string;
}.

(** The encoders of the standard library, [quote] is [strconv.Quote]. *)
Class Encoders := {
  quote : string → string;
  report_json : AnalysisReport → result string;
  sarif_json : sarifDocument → result string;
  junit_xml : junitTestSuites → result string;
}.

(** ** Policy *)

Definition unsupported_policy : error := ErrMsg "unsupported --fail-on value".

Definition ShouldFail (status : ProofStatus) (policy : string) : result bool :=
  if bool_decide (policy = "never") || bool_decide (policy = "") then Ok false
  else if bool_decide (policy = "proven") then Ok (bool_decide (status = StatusProven))
  else if bool_decide (policy = "supported") then
    Ok (bool_decide (status = StatusProven) || bool_decide (status = StatusSupported))
  else if bool_decide (policy = "correlated") then Ok (negb (bool_decide (status = StatusUnproven)))
  else if bool_decide (policy = "any") then Ok true
  else Err unsupported_policy.

Definition findingStatus (status : ProofStatus) : bool :=
  bool_decide (status = StatusProven) || bool_decide (status = StatusSupported).

Definition sarifLevel (status : ProofStatus) : string :=
  match status with
  | StatusProven => "error"
  | StatusSupported | StatusCorrelated => "warning"
  | _ => "note"
  end.

(** ** Texts *)

Definition humanExplanation (status : ProofStatus) : string :=
  match status with
  | StatusProven =>
      "The failing run was repaired by changing the detected factor, and the failure returned when that change was reversed. The factor was also minimal within the tested model."
  | StatusSupported =>
      "The detected factor repaired the failure in the forward test, but the reverse or minimality proof was incomplete. Treat it as the best current lead, not as final proof."
  | StatusCorrelated =>
      "The detected difference appeared together with the failure, but WorldBisect could not safely change it independently. It is a lead for investigation, not a confirmed cause."
  | _ =>
      "The available evidence was not sufficient to make a sound causal claim. Review the limitations and collect more controlled captures."
  end.

Definition workspaceKind (factor : Factor) : string :=
  let entry := if bool_decide (Entry_Type (Factor_GoodEntry factor) = "") then Factor_BadEntry factor
               else Factor_GoodEntry factor in
  if bool_decide (Entry_Type entry = "dir") || bool_decide (Entry_Type entry = "directory") then "directory"
  else if bool_decide (Entry_Type entry = "symlink") then "symbolic link"
  else "file".

Section report.
Context `{!Encoders}.

Definition humanFactor (factor : Factor) : string :=
  let differs := " differs between the successful and failing run" in
  match Factor_Type factor with
  | FactorWorkspace => "workspace " +:+ workspaceKind factor +:+ " " +:+ quote (Factor_Key factor) +:+ differs
  | FactorEnvironment => "environment variable " +:+ quote (Factor_Key factor) +:+ differs
  | FactorOther t => t +:+ " " +:+ quote (Factor_Key factor) +:+ differs
  end.

(** [byID]: a later factor with the same identifier replaces an earlier one. *)
Definition factors_by_id (factors : list Factor) : gmap string Factor :=
  foldl (λ byID factor, <[Factor_ID factor := factor]> byID) ∅ factors.

Definition factor_steps (factor : Factor) : list string :=
  let q := quote (Factor_Key factor) in
  match Factor_Type factor with
  | FactorWorkspace =>
      ["Make a backup of " +:+ q +:+ " before editing or replacing it.";
       "Open " +:+ q +:+ " in the failing workspace and compare it with the known-good copy; check the content, file presence, permissions, and link target if applicable.";
       "Restore or correct " +:+ q +:+ " so it matches the known-good configuration. Do not change unrelated files."]
  | FactorEnvironment =>
      ["Record the current value of environment variable " +:+ q +:+ " without sharing secrets.";
       "Set " +:+ q +:+ " to the known-good value for the next test run.";
       "Repeat the command with the same workspace and oracle."]
  | FactorOther _ => ["Compare " +:+ q +:+ " with the known-good run and restore the known-good value."]
  end.

Definition nextSteps (value : Analysis) : list string :=
  if bool_decide (length (Analysis_CausalFactors value) = 0) then
    ["Read the Limitations and Evidence boundaries sections below.";
     "Capture a new good run and bad run with the same command, oracle, workspace scope, and stable inputs.";
     "Run the comparison again after removing uncontrolled differences where possible."]
  else
    let byID := factors_by_id (Analysis_Factors value) in
    (identifier ← Analysis_CausalFactors value; factor_steps (default zero_factor (byID !! identifier))) ++
    ["Run the original command again and confirm that the oracle passes.";
     "If the command still fails, create fresh good and bad captures and attach this analysis ID when contacting support."].

(** ** The report value *)

Definition cause_of (byID : gmap string Factor) (identifier : string) : ReportFactor :=
  match byID !! identifier with
  | None => mkReportFactor identifier "" "" "factor metadata was not available in this analysis"
  | Some factor =>
      mkReportFactor identifier (show_factor_type (Factor_Type factor)) (Factor_Key factor)
        (humanFactor factor)
  end.

Definition cache_hits (experiments : list Experiment) : Z :=
  foldl (λ hits experiment, if Experiment_CacheHit experiment then hits + 1 else hits)%Z 0%Z experiments.

Definition Build (value : Analysis) : AnalysisReport :=
  let byID := factors_by_id (Analysis_Factors value) in
  let identifiers := sort_strings (Analysis_CausalFactors value) in
  let cacheHits := cache_hits (Analysis_Experiments value) in
  mkAnalysisReport AnalysisReportSchemaVersion "worldbisect.analysis-report.v1" (Analysis_ID value)
    (show_status (Analysis_Status value)) (humanExplanation (Analysis_Status value))
    (mkReportProof (Analysis_ForwardVerified value) (Analysis_ReverseVerified value)
       (Analysis_MinimalInModel value))
    (cause_of byID <$> identifiers) (sort_strings (Analysis_EvidenceBoundaries value))
    (sort_strings (Analysis_Limitations value)) (nextSteps value)
    (mkReportEvidence (Analysis_GoodCaptureID value) (Analysis_BadCaptureID value)
       (Z.of_nat (length (Analysis_Factors value))) (Z.of_nat (length (Analysis_Experiments value)))
       cacheHits (Z.of_nat (length (Analysis_Experiments value)) - cacheHits)%Z)
    (Analysis_Summary value).

Definition JSON (value : Analysis) : result string :=
  let? encoded := report_json (Build value) in Ok (encoded +:+ NL).

(** ** JUnit *)

(** The sum is a [big.Int], so it does not wrap. *)
Definition add_duration (milliseconds : Z) (experiment : Experiment) : Z :=
  if negb (Experiment_CacheHit experiment) &&
     bool_decide (0 < ProcessResult_DurationMS (Experiment_Result experiment))%Z
  then (milliseconds + ProcessResult_DurationMS (Experiment_Result experiment))%Z
  else milliseconds.

Definition process_milliseconds (experiments : list Experiment) : Z :=
  foldl add_duration 0%Z experiments.

(** fmt's [%03d] for a number that is not negative *)
Definition pad3 (s : string) : string :=
  match String.length s with 1 => "00" +:+ s | 2 => "0" +:+ s | _ => s end.

(** [QuoRem] truncates towards zero. *)
Definition junitProcessTime (experiments : list Experiment) : string :=
  let milliseconds := process_milliseconds experiments in
  show_Z (Z.quot milliseconds 1000) +:+ "." +:+ pad3 (show_Z (Z.rem milliseconds 1000)).

Definition junit_properties (report : AnalysisReport) (links : OutputLinks) : list junitProperty :=
  [mkJunitProperty "analysis_id" (Report_AnalysisID report);
   mkJunitProperty "status" (Report_Status report);
   mkJunitProperty "schema_version" (show_Z (Report_SchemaVersion report));
   mkJunitProperty "cache_hits" (show_Z (Evidence_CacheHits (Report_Evidence report)));
   mkJunitProperty "cache_misses" (show_Z (Evidence_CacheMisses (Report_Evidence report)));
   mkJunitProperty "time_scope" "sum_recorded_uncached_process_duration"] ++
  (if bool_decide (ReportURL links = "") then [] else [mkJunitProperty "report_url" (ReportURL links)]) ++
  (if bool_decide (BundleURL links = "") then [] else [mkJunitProperty "bundle_url" (BundleURL links)]).

Definition junit_document (value : Analysis) (links : OutputLinks) : junitTestSuites :=
  let report := Build value in
  let timing := junitProcessTime (Analysis_Experiments value) in
  let finding := findingStatus (Analysis_Status value) in
  let caseValue := mkJunitTestCase "worldbisect.analysis" (Report_AnalysisID report) timing
    (if finding then Some (mkJunitFailure (Report_Status report) (Report_Explanation report)) else None)
    (if finding then None else Some (mkJunitSkipped (Report_Status report))) in
  let failures := if finding then 1%Z else 0%Z in
  let skipped := if finding then 0%Z else 1%Z in
  mkJunitTestSuites "WorldBisect" 1 failures skipped timing
    [mkJunitTestSuite "worldbisect.analysis" 1 failures skipped timing
       (junit_properties report links) [caseValue]].

Definition xml_header : string :=
  "<?xml version=" +:+ String "034" "1.0" +:+ String "034" " encoding=" +:+ String "034" "UTF-8" +:+
  String "034" "?>" +:+ NL.

Definition JUnit (value : Analysis) (links : OutputLinks) : result string :=
  let? encoded := junit_xml (junit_document value links) in
  Ok (xml_header +:+ encoded +:+ NL).

(** ** SARIF *)

Definition sarif_properties (report : AnalysisReport) (links : OutputLinks) : gmap string json_scalar :=
  let properties : gmap string json_scalar :=
    {["analysis_id" := JString (Report_AnalysisID report);
      "status" := JString (Report_Status report);
      "schema_version" := JInt (Report_SchemaVersion report);
      "forward_verified" := JBool (Proof_ForwardVerified (Report_Proof report));
      "reverse_verified" := JBool (Proof_ReverseVerified (Report_Proof report));
      "minimal_in_model" := JBool (Proof_MinimalInModel (Report_Proof report));
      "cache_hits" := JInt (Evidence_CacheHits (Report_Evidence report));
      "cache_misses" := JInt (Evidence_CacheMisses (Report_Evidence report))]} in
  let properties := if bool_decide (BundleURL links = "") then properties
                    else <["bundle_url" := JString (BundleURL links)]> properties in
  if bool_decide (ReportURL links = "") then properties
  else <["report_url" := JString (ReportURL links)]> properties.

Definition sarif_document (value : Analysis) (links : OutputLinks) : sarifDocument :=
  let report := Build value in
  let ruleID := "worldbisect/" +:+ Report_Status report in
  let rule := mkSarifRule ruleID ("WorldBisect " +:+ Report_Status report) (Report_Explanation report)
                (ReportURL links) in
  let result := mkSarifResult ruleID (sarifLevel (Analysis_Status value)) (Report_Explanation report)
    [mkSarifLocation ("worldbisect://analysis/" +:+ Report_AnalysisID report) 1]
    (sarif_properties report links) in
  mkSarifDocument "2.1.0" "https://json.schemastore.org/sarif-2.1.0.json"
    [mkSarifRun (mkSarifDriver "WorldBisect" [rule]) [result]].

Definition SARIF (value : Analysis) (links : OutputLinks) : result string :=
  let? encoded := sarif_json (sarif_document value links) in Ok (encoded +:+ NL).

(** ** Markdown *)

Definition lines (l : list string) : string := foldr (λ line rest, line +:+ rest) "" l.
Definition bullets (items : list string) : string := lines ((λ item, NL +:+ "- " +:+ item) <$> items).
Definition code (s : string) : string := "`" +:+ s +:+ "`".

Fixpoint numbered (index : nat) (steps : list string) : string :=
  match steps with
  | [] => ""
  | step :: steps => show_nat (S index) +:+ ". " +:+ step +:+ NL +:+ numbered (S index) steps
  end.

Definition optional_section (title : string) (items : list string) : string :=
  if bool_decide (0 < length items) then NL +:+ title +:+ NL +:+ bullets items +:+ NL else "".

Definition Markdown (value : Analysis) : string :=
  let report := Build value in
  let proof := Report_Proof report in
  let evidence := Report_Evidence report in
  lines [
    "# WorldBisect diagnosis" +:+ NL;
    NL +:+ "**Status:** " +:+ code (Report_Status report) +:+ NL +:+ NL +:+ Report_Explanation report +:+ NL;
    "## Proof" +:+ NL;
    NL +:+ "- Forward intervention verified: " +:+ code (show_bool (Proof_ForwardVerified proof)) +:+ NL;
    "- Reverse intervention verified: " +:+ code (show_bool (Proof_ReverseVerified proof)) +:+ NL;
    "- Minimal within tested model: " +:+ code (show_bool (Proof_MinimalInModel proof)) +:+ NL;
    NL +:+ "## Confirmed or suspected cause" +:+ NL;
    if bool_decide (length (Report_Cause report) = 0) then
      NL +:+ "No cause was confirmed within the supported test model." +:+ NL
    else bullets ((λ factor, code (ReportFactor_ID factor) +:+ " — " +:+ ReportFactor_Description factor) <$>
                  Report_Cause report) +:+ NL;
    NL +:+ "## Next steps" +:+ NL;
    numbered 0 (Report_NextSteps report);
    optional_section "## Evidence boundaries" (Report_Boundaries report);
    optional_section "## Limitations" (Report_Limitations report);
    NL +:+ "<sub>Analysis " +:+ code (Report_AnalysisID report) +:+
    "; experiments: " +:+ show_Z (Evidence_ExperimentCount evidence) +:+
    "; factors: " +:+ show_Z (Evidence_FactorCount evidence) +:+
    "; cache hits: " +:+ show_Z (Evidence_CacheHits evidence) +:+
    "; cache misses: " +:+ show_Z (Evidence_CacheMisses evidence) +:+ ".</sub>" +:+ NL].

Definition Analysis_text (value : Analysis) : string := Markdown value.
End report.

(** [report.Capture] *)
Definition Capture_text (value : Capture) : string :=
  lines ([
    "capture: " +:+ Capture_ID value +:+ NL;
    "oracle: " +:+ show_bool (OracleResult_Passed (Capture_OracleResult value)) +:+ " (" +:+
      OracleResult_Detail (Capture_OracleResult value) +:+ ")" +:+ NL;
    "exit: " +:+ show_Z (ProcessResult_ExitCode (Capture_Result value)) +:+
      " timeout: " +:+ show_bool (ProcessResult_TimedOut (Capture_Result value)) +:+
      " duration_ms: " +:+ show_Z (ProcessResult_DurationMS (Capture_Result value)) +:+ NL;
    "workspace: " +:+ show_Z (Manifest_TotalFiles (Capture_Workspace value)) +:+ " objects, " +:+
      show_Z (Manifest_TotalBytes (Capture_Workspace value)) +:+ " bytes" +:+ NL] ++
    (if bool_decide (0 < length (Capture_EvidenceBoundaries value)) then
       ("evidence boundaries:" +:+ NL) ::
       ((λ item, "  - " +:+ item +:+ NL) <$> Capture_EvidenceBoundaries value)
     else [])).

(** ** The process time *)

Lemma pad3_value n : (0 ≤ n)%Z → digits_value 0 (pad3 (show_Z n)) = Some n.
Proof.
  intros Hn. destruct (show_Z_value n Hn) as [Hv _]. unfold pad3.
  by destruct (String.length (show_Z n)) as [|[|[|]]].
Qed.

(** The milliseconds that a decimal number of seconds stands for *)
Definition parse_seconds (s : string) : option Z :=
  '(seconds, fraction) ← cut s ".";
  seconds ← digits_value 0 seconds;
  milliseconds ← digits_value 0 fraction;
  Some (seconds * 1000 + milliseconds)%Z.

(** The recorded durations of the experiments that ran a process *)
Definition uncached_durations (experiments : list Experiment) : list Z :=
  (λ e, Z.max 0 (ProcessResult_DurationMS (Experiment_Result e))) <$>
  filter (λ e, Experiment_CacheHit e = false) experiments.

Lemma foldl_add_duration es : ∀ acc,
  foldl add_duration acc es = (acc + foldr Z.add 0 (uncached_durations es))%Z.
Proof.
  unfold uncached_durations. induction es as [|e es IH]; intros acc; [cbn; lia|].
  cbn [foldl]. rewrite IH, filter_cons. unfold add_duration.
  destruct (Experiment_CacheHit e) eqn:E; case_decide; try congruence; [done|].
  cbn. case_bool_decide; lia.
Qed.

Lemma process_milliseconds_sum es :
  process_milliseconds es = foldr Z.add 0%Z (uncached_durations es).
Proof. apply foldl_add_duration. Qed.

Lemma uncached_durations_nonneg es : (0 ≤ foldr Z.add 0 (uncached_durations es))%Z.
Proof.
  unfold uncached_durations. induction (filter _ es) as [|e l IH]; cbn; [done|]. lia.
Qed.

Lemma digits_no_dot s : string_forallb is_digit s = true →
  string_existsb (λ d, bool_decide (d = "."%char)) s = false.
Proof.
  intros Hs. unfold string_existsb. apply negb_false_iff.
  eapply string_forallb_impl; [|exact Hs]. intros c Hc.
  rewrite bool_decide_eq_false_2; [done|]. by intros ->.
Qed.

(** the time attribute of a JUnit report is exact: read back as a decimal
    number it is the sum of the recorded durations of the experiments that
    were not answered from the cache, however large the durations are. *)
Theorem junitProcessTime_exact es :
  parse_seconds (junitProcessTime es) = Some (foldr Z.add 0%Z (uncached_durations es)).
Proof.
  unfold junitProcessTime. rewrite process_milliseconds_sum.
  pose proof (uncached_durations_nonneg es) as Hn. set (n := foldr _ _ _) in *. clearbody n.
  destruct (show_Z_value (Z.quot n 1000)) as [Hv Hd]; [by apply Z.quot_pos|].
  unfold parse_seconds. change ("." +:+ ?s) with (String "." s).
  rewrite cut_byte_app by by apply digits_no_dot. cbn [mbind option_bind].
  rewrite Hv, pad3_value by (apply Z.rem_nonneg; lia). cbn. f_equal.
  rewrite (Z.quot_rem' n 1000) at 3. lia.
Qed.

(** ** The exit policy *)

(** How much a status claims: a status the model does not know counts as a
    correlation. *)
Definition confidence (status : ProofStatus) : nat :=
  match status with
  | StatusProven => 3 | StatusSupported => 2
  | StatusCorrelated | StatusOther _ => 1
  | StatusUnproven => 0
  end.

(** The confidence from which on a policy fails the run *)
Definition threshold (policy : string) : option nat :=
  if bool_decide (policy ∈ ["never"; ""]) then Some 4
  else if bool_decide (policy = "proven") then Some 3
  else if bool_decide (policy = "supported") then Some 2
  else if bool_decide (policy = "correlated") then Some 1
  else if bool_decide (policy = "any") then Some 0
  else None.

(** the exit policy is a threshold on the confidence of the verdict, so
    the policies are ordered and a stronger verdict never turns a failing run
    into a passing one; every other policy name is refused whatever the
    verdict is. *)
Theorem ShouldFail_threshold status policy :
  ShouldFail status policy =
  match threshold policy with
  | Some level => Ok (bool_decide (level ≤ confidence status))
  | None => Err unsupported_policy
  end.
Proof.
  unfold ShouldFail, threshold.
  replace (bool_decide (policy ∈ ["never"; ""]))
    with (bool_decide (policy = "never") || bool_decide (policy = "")).
  2: { rewrite <-bool_decide_or. apply bool_decide_ext. set_solver. }
  repeat (destruct (bool_decide (policy = _)); cbn [orb]); by destruct status.
Qed.

(** ** What the report can depend on *)

Definition erase_entry (e : WorkspaceEntry) : WorkspaceEntry :=
  mkWorkspaceEntry "" (Entry_Type e) 0 0 "" "" "".

Definition erase_factor (f : Factor) : Factor :=
  mkFactor (Factor_ID f) (Factor_Type f) (Factor_Key f) false false "" ""
    (erase_entry (Factor_GoodEntry f)) (erase_entry (Factor_BadEntry f)) false.

Definition erase_experiment (e : Experiment) : Experiment :=
  mkExperiment "" "" (Experiment_CacheHit e) 0 0 "" "" []
    (mkProcessResult 0 "" false 0 0 (ProcessResult_DurationMS (Experiment_Result e)) "" "" false [] [])
    zero_oracle_result "".

(** An analysis without the values of its factors, the modes, digests and
    link targets of its files, and the outputs of its processes *)
Definition erase (a : Analysis) : Analysis :=
  mkAnalysis 0 (Analysis_ID a) 0 (Analysis_GoodCaptureID a) (Analysis_BadCaptureID a)
    (erase_factor <$> Analysis_Factors a) (Analysis_CausalFactors a)
    (erase_experiment <$> Analysis_Experiments a) (Analysis_Status a) (Analysis_ForwardVerified a)
    (Analysis_ReverseVerified a) (Analysis_MinimalInModel a) 0 0 (Analysis_Summary a)
    (Analysis_EvidenceBoundaries a) (Analysis_Limitations a).

Section hiding.
Context `{!Encoders}.

Lemma factors_by_id_erase fs : factors_by_id (erase_factor <$> fs) = erase_factor <$> factors_by_id fs.
Proof.
  unfold factors_by_id. rewrite <-(fmap_empty erase_factor) at 1. generalize (∅ : gmap string Factor).
  induction fs as [|f fs IH]; intros m; [done|]. cbn. by rewrite <-IH, fmap_insert.
Qed.

Lemma workspaceKind_erase f : workspaceKind (erase_factor f) = workspaceKind f.
Proof. unfold workspaceKind. cbn. by destruct (bool_decide (Entry_Type (Factor_GoodEntry f) = "")). Qed.

Lemma cause_of_erase m identifier : cause_of (erase_factor <$> m) identifier = cause_of m identifier.
Proof.
  unfold cause_of. rewrite lookup_fmap. destruct (m !! identifier) as [f|]; [|done]. cbn. f_equal.
  unfold humanFactor. by rewrite workspaceKind_erase.
Qed.

Lemma factor_steps_erase (m : gmap string Factor) identifier :
  factor_steps (default zero_factor ((erase_factor <$> m) !! identifier)) =
  factor_steps (default zero_factor (m !! identifier)).
Proof. rewrite lookup_fmap. by destruct (m !! identifier). Qed.

Lemma nextSteps_erase a : nextSteps (erase a) = nextSteps a.
Proof.
  unfold nextSteps. cbn [erase Analysis_CausalFactors Analysis_Factors].
  destruct (bool_decide _); [done|]. f_equal.
  rewrite factors_by_id_erase. induction (Analysis_CausalFactors a) as [|identifier l IH]; [done|].
  cbn. rewrite IH. f_equal. apply factor_steps_erase.
Qed.

Lemma cache_hits_erase es : cache_hits (erase_experiment <$> es) = cache_hits es.
Proof. unfold cache_hits. generalize 0%Z. induction es as [|e es IH]; intros n; [done|]. cbn. apply IH. Qed.

Lemma junitProcessTime_erase es : junitProcessTime (erase_experiment <$> es) = junitProcessTime es.
Proof.
  unfold junitProcessTime. assert (process_milliseconds (erase_experiment <$> es) = process_milliseconds es)
    as ->; [|done].
  unfold process_milliseconds. generalize 0%Z. induction es as [|e es IH]; intros n; [done|]. cbn. apply IH.
Qed.

Lemma Build_erase a : Build (erase a) = Build a.
Proof.
  unfold Build. rewrite nextSteps_erase. cbn.
  rewrite factors_by_id_erase, cache_hits_erase, !length_fmap. f_equal.
  apply list_fmap_ext. intros i identifier _. apply cause_of_erase.
Qed.

(** C37: every rendering of the report is a function of the analysis without
    the values: an environment value, a file digest, a link target or the
    output of a process cannot reach the report, in any format. *)
Theorem report_hides_values a links :
  JSON a = JSON (erase a) ∧ Markdown a = Markdown (erase a) ∧
  JUnit a links = JUnit (erase a) links ∧ SARIF a links = SARIF (erase a) links.
Proof.
  unfold JSON, Markdown, JUnit, SARIF, junit_document, sarif_document.
  rewrite Build_erase. cbn [erase Analysis_Status Analysis_Experiments].
  by rewrite junitProcessTime_erase.
Qed.
End hiding.
