(* ===== verification/Bundle.v ===== *)
(** * Bundle: exporting and importing captures

    Models [src/internal/artifact/bundle.go].  The state is the part of the
    local store that artifacts read and write ([data_store]); a file written
    by an export is its content and mode.  archive/tar and compress/gzip are
    the interface [Archives]; failures of file operations are inputs.  The
    texts of errors are given without the names that [fmt] puts into them. *)

From S2P Require Import Prelude Sha256 Model Json Paths AuditLog Store.

(** ** The interfaces *)

(** The text of [json.Marshal] is read back by [json.Unmarshal], and followed
    by a newline by the strict decoder. *)
Class CanonicalJson (A : Type) `{!Json A} := {
  canonical_strict (a : A) : json_valid a → json_strict (json_marshal a +:+ NL) = Ok a;
  marshal_decode (a : A) : json_valid a → json_decode (json_marshal a) = Ok a;
}.

Record archiveEntry := mkArchiveEntry {
  Archive_Name : string;
  Archive_Content : string;
  Archive_Mode : Z;
}.

Record tar_header := mkHeader {
  Header_Name : string;
  Header_Typeflag : ascii;
  Header_Linkname : string;
  Header_Size : Z;
}.

(** One result of [tarReader.Next]: a member with the bytes that can be read
    from it and the failure after them, or an error. *)
Inductive tar_item :=
  | TarMember (header : tar_header) (content : string) (fail : option error)
  | TarBroken (err : error).

Definition TypeReg : ascii := "0".
Definition TypeRegA : ascii := "000".

Definition member_of (entry : archiveEntry) : tar_item :=
  TarMember (mkHeader (Archive_Name entry) TypeReg "" (Z.of_nat (String.length (Archive_Content entry))))
    (Archive_Content entry) None.

(** A compressed archive: what [WriteHeader] refuses, the bytes written, the
    members read; [unpack] fails when the bytes have no gzip header. *)
Class Archives := {
  tar_refuses : archiveEntry → option error;
  pack : list archiveEntry → string;
  unpack : string → result (list tar_item);
  unpack_pack entries : Forall (λ entry, tar_refuses entry = None) entries →
    unpack (pack entries) = Ok (member_of <$> entries);
}.

(** ** Constants and data *)

Definition bundleFormat : string := "worldbisect.capture.v1".
Definition maxBundleBytes : Z := 2 ^ 30.
Definition maxArchiveEntries : Z := 20000.
Definition maxManifestBytes : Z := 4 * 2 ^ 20.
Definition maxEntityBytes : Z := 64 * 2 ^ 20.
Definition maxBlobPayloadSize : Z := 256 * 2 ^ 20.

Record bundleBlob := mkBundleBlob {
  Blob_Digest : string;
  Blob_Path : string;
  Blob_Size : Z;
}.

Record bundleManifest := mkBundleManifest {
  Bundle_Format : string;
  Bundle_CaptureID : string;
  Bundle_CreatedAt : time;
  Bundle_EntityPath : string;
  Bundle_EntityHash : string;
  Bundle_BlobEntries : list bundleBlob;
}.

(** [time.Unix(0, 0)], from the year 1 *)
Definition unix_epoch : time := 62135596800 * Second.

(** A file: its content and mode *)
Definition out_file : Type := string * Z.

Record data_store := mkDataStore {
  ds_blobs : files;
  ds_captures : files;
  ds_analyses : files;
  ds_audit : audit_file;
  (** the directory [keys] *)
  ds_keys : gmap string out_file;
}.

Definition set_blobs (s : data_store) (blobs : files) : data_store :=
  mkDataStore blobs (ds_captures s) (ds_analyses s) (ds_audit s) (ds_keys s).
Definition set_captures (s : data_store) (captures : files) : data_store :=
  mkDataStore (ds_blobs s) captures (ds_analyses s) (ds_audit s) (ds_keys s).
Definition set_analyses (s : data_store) (analyses : files) : data_store :=
  mkDataStore (ds_blobs s) (ds_captures s) analyses (ds_audit s) (ds_keys s).
Definition set_audit (s : data_store) (audit : audit_file) : data_store :=
  mkDataStore (ds_blobs s) (ds_captures s) (ds_analyses s) audit (ds_keys s).
Definition set_keys (s : data_store) (keys : gmap string out_file) : data_store :=
  mkDataStore (ds_blobs s) (ds_captures s) (ds_analyses s) (ds_audit s) keys.

(** ** Helpers *)

Definition digest (content : string) : string := sha256_hex content.

Definition canonicalJSON {A} `{!Json A} (value : A) : string := json_marshal value +:+ NL.

Lemma canonical_reads {A} `{CanonicalJson A} (a : A) : json_valid a → json_strict (canonicalJSON a) = Ok a.
Proof. apply canonical_strict. Qed.

(** Nothing changes unless the final [Rename] succeeds. *)
Definition atomicWriteFile (old : option out_file) (fail : option error) (content : string) (mode : Z) :
    option out_file * result unit :=
  match fail with Some err => (old, Err err) | None => (Some (content, mode), Ok tt) end.

Definition err_archive_path : error := ErrMsg "unsafe archive path".
Definition err_entry_type : error := ErrMsg "unsupported archive entry type".
Definition err_archive_link : error := ErrMsg "archive links are not allowed".

Definition validateArchiveName (name : string) : result unit :=
  fail? bool_decide (name = "") || IsAbs name || contains name "\" with err_archive_path in
  let clean := Clean name in
  fail? negb (bool_decide (clean = name)) || bool_decide (clean = ".") || has_prefix clean "../" ||
        contains clean "/../" with err_archive_path in
  Ok tt.

Definition validateArchiveHeader (header : tar_header) : result unit :=
  fail? negb (bool_decide (Header_Typeflag header = TypeReg)) &&
        negb (bool_decide (Header_Typeflag header = TypeRegA)) with err_entry_type in
  fail? negb (bool_decide (Header_Linkname header = "")) with err_archive_link in
  validateArchiveName (Header_Name header).

Definition collectDigests (value : Capture) : list string :=
  sort_strings (elements (list_to_set (filter (λ digest, validDigest digest = true)
    (Entry_BlobDigest <$> Manifest_Entries (Capture_Workspace value))) : gset string)).

(** [io.ReadAll(io.LimitReader(r, limit))] *)
Definition read_limited (limit : Z) (content : string) (fail : option error) : result string :=
  if bool_decide (limit ≤ Z.of_nat (String.length content))%Z then Ok (limit_reader limit content)
  else match fail with Some err => Err err | None => Ok content end.

Definition err_entry_limit : error := ErrMsg "archive entry limit exceeded".
Definition err_duplicate_entry : error := ErrMsg "duplicate archive entry".
Definition err_entry_size : error := ErrMsg "entry exceeds limit".
Definition err_bundle_size : error := ErrMsg "bundle exceeds 1073741824 bytes".
Definition err_no_manifest : error := ErrMsg "manifest missing".
Definition err_bundle_manifest : error := ErrMsg "invalid bundle manifest".
Definition err_entity_digest : error := ErrMsg "capture entity digest mismatch".
Definition err_capture_id : error := ErrMsg "capture ID does not match manifest".
Definition err_blob_entry : error := ErrMsg "invalid blob manifest entry".
Definition err_declared_twice : error := ErrMsg "duplicate declared entry".
Definition err_blob_content : error := ErrMsg "blob failed validation".
Definition err_unexpected_entry : error := ErrMsg "unexpected archive entry".
Definition err_stored_digest : error := ErrMsg "stored blob digest mismatch".

Section bundle.
Context `{PArchives : !Archives, PGzip : !Gzip, PCapture : !Json Capture, PManifest : !Json bundleManifest,
  PAudit : !Json AuditEvent}.

(** ** writeDeterministicTarGzip *)

(** The loop that writes the members; a name is checked before its header is
    written. *)
Fixpoint tar_loop (entries : list archiveEntry) : result unit :=
  match entries with
  | [] => Ok tt
  | entry :: entries =>
      let? _ := validateArchiveName (Archive_Name entry) in
      match tar_refuses entry with
      | Some err => Err err
      | None => tar_loop entries
      end
  end.

Definition with_mode (entry : archiveEntry) : archiveEntry :=
  mkArchiveEntry (Archive_Name entry) (Archive_Content entry)
    (if bool_decide (Archive_Mode entry = 0)%Z then 420 else Archive_Mode entry).

Definition writeDeterministicTarGzip (old : option out_file) (fail : option error) (entries : list archiveEntry) :
    option out_file * result unit :=
  let entries := with_mode <$> sort_by Archive_Name entries in
  match tar_loop entries with
  | Err err => (old, Err err)
  | Ok _ => atomicWriteFile old fail (pack entries) 420
  end.

(** ** ExportCapture *)

Definition loadCapture (s : data_store) (identifier : string) : result Capture :=
  loadEntity (ds_captures s) identifier.

Fixpoint blob_entries_loop (s : data_store) (digests : list string) : result (list bundleBlob) :=
  match digests with
  | [] => Ok []
  | value :: digests =>
      let? content := GetBlob (ds_blobs s) value in
      let? blobs := blob_entries_loop s digests in
      Ok (mkBundleBlob value ("blobs/" +:+ value) (Z.of_nat (String.length content)) :: blobs)
  end.

Fixpoint blob_archive_loop (s : data_store) (blobs : list bundleBlob) : result (list archiveEntry) :=
  match blobs with
  | [] => Ok []
  | item :: blobs =>
      let? content := GetBlob (ds_blobs s) (Blob_Digest item) in
      let? entries := blob_archive_loop s blobs in
      Ok (mkArchiveEntry (Blob_Path item) content 0 :: entries)
  end.

Definition capture_manifest (s : data_store) (captureID : string) (value : Capture) : result bundleManifest :=
  let? blobs := blob_entries_loop s (collectDigests value) in
  Ok (mkBundleManifest bundleFormat captureID unix_epoch "capture.json" (digest (canonicalJSON value)) blobs).

(** The members of the bundle of a capture *)
Definition bundle_entries (s : data_store) (captureID : string) : result (list archiveEntry) :=
  let? value := loadCapture s captureID in
  let entity := canonicalJSON value in
  let? manifest := capture_manifest s captureID value in
  let? entries := blob_archive_loop s (Bundle_BlobEntries manifest) in
  Ok (mkArchiveEntry "manifest.json" (canonicalJSON manifest) 0 :: mkArchiveEntry "capture.json" entity 0 :: entries).

Definition ExportCapture (s : data_store) (captureID : string) (old : option out_file) (fail : option error) :
    option out_file * result unit :=
  match bundle_entries s captureID with
  | Err err => (old, Err err)
  | Ok entries => writeDeterministicTarGzip old fail entries
  end.

(** ** ImportBundle *)

Definition entry_limit (name : string) : Z :=
  if bool_decide (name = "manifest.json") then maxManifestBytes
  else if bool_decide (name = "capture.json") then maxEntityBytes
  else maxBlobPayloadSize.

Fixpoint read_loop (count : Z) (items : list tar_item) (entries : files) : result files :=
  fail? bool_decide (maxArchiveEntries ≤ count)%Z with err_entry_limit in
  match items with
  | [] => Ok entries
  | TarBroken err :: _ => Err err
  | TarMember header content fail :: items =>
      let? _ := validateArchiveHeader header in
      let name := Header_Name header in
      fail? bool_decide (is_Some (entries !! name)) with err_duplicate_entry in
      let limit := entry_limit name in
      fail? bool_decide (limit < Header_Size header)%Z with err_entry_size in
      let? content := read_limited (limit + 1) content fail in
      fail? bool_decide (limit < Z.of_nat (String.length content))%Z with err_entry_size in
      read_loop (count + 1) items (<[name := content]> entries)
  end.

(** [file]: what [Stat] and [Open] find *)
Definition read_bundle (file : result string) : result files :=
  let? file := file in
  fail? bool_decide (maxBundleBytes < Z.of_nat (String.length file))%Z with err_bundle_size in
  let? items := unpack (limit_reader (maxBundleBytes + 1) file) in
  read_loop 0 items ∅.

(** The declared blobs; [allowed] are the names declared so far. *)
Fixpoint declared_loop (entries : files) (blobs : list bundleBlob) (allowed : gset string) :
    result (gset string) :=
  match blobs with
  | [] => Ok allowed
  | blob :: blobs =>
      fail? negb (validDigest (Blob_Digest blob)) || negb (bool_decide (Blob_Path blob = "blobs/" +:+ Blob_Digest blob)) ||
            bool_decide (Blob_Size blob < 0)%Z || bool_decide (maxBlobPayloadSize < Blob_Size blob)%Z
        with err_blob_entry in
      fail? bool_decide (Blob_Path blob ∈ allowed) with err_declared_twice in
      match entries !! Blob_Path blob with
      | None => Err err_blob_content
      | Some content =>
          fail? negb (bool_decide (Z.of_nat (String.length content) = Blob_Size blob)) ||
                negb (bool_decide (digest content = Blob_Digest blob)) with err_blob_content in
          declared_loop entries blobs ({[Blob_Path blob]} ∪ allowed)
      end
  end.

(** Everything that is checked before anything is stored *)
Definition check_bundle (entries : files) : result (bundleManifest * Capture) :=
  match entries !! "manifest.json" with
  | None => Err err_no_manifest
  | Some manifestBytes =>
      let? manifest := json_strict (A := bundleManifest) manifestBytes in
      fail? negb (bool_decide (Bundle_Format manifest = bundleFormat)) ||
            bool_decide (Bundle_CaptureID manifest = "") ||
            negb (bool_decide (Bundle_EntityPath manifest = "capture.json")) with err_bundle_manifest in
      match entries !! Bundle_EntityPath manifest with
      | None => Err err_entity_digest
      | Some entityBytes =>
          fail? negb (bool_decide (digest entityBytes = Bundle_EntityHash manifest)) with err_entity_digest in
          let? value := json_strict (A := Capture) entityBytes in
          fail? negb (bool_decide (Capture_ID value = Bundle_CaptureID manifest)) with err_capture_id in
          let? allowed := declared_loop entries (Bundle_BlobEntries manifest) {["manifest.json"; "capture.json"]} in
          fail? negb (bool_decide (dom entries ⊆ allowed)) with err_unexpected_entry in
          Ok (manifest, value)
      end
  end.

(** The outcomes of the file operations of an import, and its clock *)
Record import_io := mkImportIO {
  imp_blob : string → option error;
  imp_save : option error;
  imp_audit : audit_fault;
  imp_now : time;
}.

Fixpoint put_loop (io : import_io) (entries : files) (blobs : list bundleBlob) (stored : files) :
    files * result unit :=
  match blobs with
  | [] => (stored, Ok tt)
  | blob :: blobs =>
      match PutBlob stored (imp_blob io (Blob_Digest blob)) (default "" (entries !! Blob_Path blob)) with
      | (stored, Err err) => (stored, Err err)
      | (stored, Ok value) =>
          if negb (bool_decide (value = Blob_Digest blob)) then (stored, Err err_stored_digest)
          else put_loop io entries blobs stored
      end
  end.

Definition store_bundle (io : import_io) (s : data_store) (path : string) (entries : files)
    (manifest : bundleManifest) (value : Capture) : data_store * result string :=
  match put_loop io entries (Bundle_BlobEntries manifest) (ds_blobs s) with
  | (blobs, Err err) => (set_blobs s blobs, Err err)
  | (blobs, Ok _) =>
      let s := set_blobs s blobs in
      match SaveCapture (ds_captures s) (imp_save io) value with
      | (captures, Err err) => (set_captures s captures, Err err)
      | (captures, Ok _) =>
          let s := set_captures s captures in
          match AppendAudit (ds_audit s) (imp_audit io) (imp_now io) "bundle-import" "capture" (Capture_ID value)
                  {["path" := JString (Base path)]} with
          | (audit, Err err) => (set_audit s audit, Err err)
          | (audit, Ok _) => (set_audit s audit, Ok (Capture_ID value))
          end
      end
  end.

Definition ImportBundle (io : import_io) (s : data_store) (path : string) (file : result string) :
    data_store * result string :=
  match read_bundle file with
  | Err err => (s, Err err)
  | Ok entries =>
      match check_bundle entries with
      | Err err => (s, Err err)
      | Ok (manifest, value) => store_bundle io s path entries manifest value
      end
  end.
End bundle.

(** ** What an import accepts *)

(** A bundle whose every byte is accounted for: the manifest names the capture
    and the blobs, each of them is in the archive with the declared digest,
    and nothing else is in the archive. *)
Record accepted `{!Json Capture, !Json bundleManifest} (entries : files) (manifest : bundleManifest)
    (value : Capture) : Prop := {
  accepted_manifest : ∃ bytes, entries !! "manifest.json" = Some bytes ∧
    json_strict (A := bundleManifest) bytes = Ok manifest;
  accepted_capture : ∃ bytes, entries !! "capture.json" = Some bytes ∧
    sha256_hex bytes = Bundle_EntityHash manifest ∧ json_strict (A := Capture) bytes = Ok value;
  accepted_id : Capture_ID value = Bundle_CaptureID manifest;
  accepted_blobs : Forall (λ blob, ∃ content, entries !! ("blobs/" +:+ Blob_Digest blob) = Some content ∧
    sha256_hex content = Blob_Digest blob) (Bundle_BlobEntries manifest);
  accepted_distinct : NoDup (Blob_Digest <$> Bundle_BlobEntries manifest);
  accepted_names : ∀ name, name ∈ dom entries ↔
    name = "manifest.json" ∨ name = "capture.json" ∨
    ∃ blob, blob ∈ Bundle_BlobEntries manifest ∧ name = "blobs/" +:+ Blob_Digest blob;
}.

Lemma blob_path_inj d d' : "blobs/" +:+ d = "blobs/" +:+ d' → d = d'.
Proof. by intros H%(f_equal (string_drop 6)). Qed.

Section lemmas.
Context `{PArchives : !Archives, PGzip : !Gzip, PCapture : !Json Capture, PManifest : !Json bundleManifest,
  PAudit : !Json AuditEvent}.

Lemma declared_loop_spec entries blobs : ∀ allowed allowed',
  declared_loop entries blobs allowed = Ok allowed' →
  Forall (λ blob, ∃ content, entries !! ("blobs/" +:+ Blob_Digest blob) = Some content ∧
    sha256_hex content = Blob_Digest blob) blobs ∧
  Forall (λ blob, Blob_Path blob = "blobs/" +:+ Blob_Digest blob) blobs ∧
  NoDup (Blob_Digest <$> blobs) ∧ Forall (λ blob, Blob_Path blob ∉ allowed) blobs ∧
  allowed' = list_to_set (Blob_Path <$> blobs) ∪ allowed.
Proof.
  induction blobs as [|blob blobs IH]; intros allowed allowed' Hl; cbn [declared_loop] in Hl.
  { injection Hl as <-. split_and!; [by constructor..|set_solver]. }
  step_ok Hl. step_ok Hl. destruct (entries !! Blob_Path blob) as [content|] eqn:Hc; [|done]. step_ok Hl.
  bool_prop. apply IH in Hl as (Hblobs & Hpaths & Hnd & Hnew & ->).
  assert (Blob_Path blob = "blobs/" +:+ Blob_Digest blob) as Hp by done. rewrite Hp in Hc.
  split_and!.
  - constructor; [by exists content|done].
  - by constructor.
  - cbn. constructor; [|done]. intros (other & Hd & Ho)%list_elem_of_fmap. rewrite Forall_forall in Hnew, Hpaths.
    apply (Hnew _ Ho). rewrite (Hpaths _ Ho), <-Hd, Hp. set_solver.
  - constructor; [done|]. eapply Forall_impl; [exact Hnew|]. set_solver.
  - cbn. set_solver.
Qed.

Lemma check_bundle_spec entries manifest value : check_bundle entries = Ok (manifest, value) →
  accepted entries manifest value ∧ Bundle_Format manifest = bundleFormat ∧
  Forall (λ blob, Blob_Path blob = "blobs/" +:+ Blob_Digest blob) (Bundle_BlobEntries manifest).
Proof.
  unfold check_bundle. intros Hc. destruct (entries !! "manifest.json") as [mbytes|] eqn:Hm; [|done].
  destruct (json_strict mbytes) as [m|] eqn:Hdm; [|done]. cbn [rbind] in Hc. step_ok Hc.
  destruct (entries !! Bundle_EntityPath m) as [cbytes|] eqn:He; [|done]. step_ok Hc.
  destruct (json_strict cbytes) as [c|] eqn:Hdc; [|done]. cbn [rbind] in Hc. step_ok Hc.
  destruct (declared_loop _ _ _) as [allowed|] eqn:Hl; [|done]. cbn [rbind] in Hc.
  destruct (negb _) eqn:Hdom in Hc; [done|]. injection Hc as -> ->. bool_prop.
  apply declared_loop_spec in Hl as (Hblobs & Hpaths & Hnd & _ & ->).
  assert (Bundle_EntityPath manifest = "capture.json") as Hpath by done. rewrite Hpath in He.
  split; [|done]. split; try done; [by exists mbytes|by exists cbytes|].
  intros name. split.
  - intros Hn%Hdom. apply elem_of_union in Hn as [Hin|Hin]; [|set_solver].
    apply elem_of_list_to_set, list_elem_of_fmap in Hin as (blob & -> & Hb). right; right. exists blob.
    split; [done|]. rewrite Forall_forall in Hpaths. by apply Hpaths.
  - intros [->|[->|(blob & Hb & ->)]]; rewrite elem_of_dom; [by eexists..|].
    rewrite Forall_forall in Hblobs. destruct (Hblobs _ Hb) as (content & -> & _). by eexists.
Qed.

(** The blobs that an import leaves: those there were, and declared ones. *)
Lemma put_loop_spec io entries blobs : ∀ stored stored' r, blobs_sound stored →
  Forall (λ blob, Blob_Path blob = "blobs/" +:+ Blob_Digest blob) blobs →
  Forall (λ blob, ∃ content, entries !! ("blobs/" +:+ Blob_Digest blob) = Some content ∧
    sha256_hex content = Blob_Digest blob) blobs →
  put_loop io entries blobs stored = (stored', r) →
  blobs_sound stored' ∧ stored ⊆ stored' ∧
  (∀ d, is_Some (stored' !! d) → is_Some (stored !! d) ∨ d ∈ Blob_Digest <$> blobs) ∧
  (r = Ok tt → Forall (λ blob, is_Some (stored' !! Blob_Digest blob)) blobs) ∧
  ((∀ d, imp_blob io d = None) → r = Ok tt).
Proof.
  induction blobs as [|blob blobs IH]; intros stored stored' r Hs Hpaths Hblobs Hp; cbn [put_loop] in Hp.
  { injection Hp as <- <-. split_and!; auto. }
  apply Forall_cons in Hpaths as [Hpath Hpaths]. apply Forall_cons in Hblobs as [(content & Hc & Hd) Hblobs].
  rewrite Hpath, Hc in Hp. change (default "" (Some content)) with content in Hp.
  destruct (PutBlob _ _ _) as [mid put] eqn:Hput.
  pose proof (PutBlob_sound _ _ _ _ _ Hs Hput) as (Hs1 & Hsub & Hin).
  assert (∀ d, is_Some (mid !! d) → is_Some (stored !! d) ∨ d = Blob_Digest blob) as Hmid.
  { intros d Hsome. unfold PutBlob in Hput. case_bool_decide; [|destruct (imp_blob io _)];
      injection Hput as <- _; [by left..|]. rewrite Hd in Hsome.
    destruct (decide (d = Blob_Digest blob)) as [|Hne]; [by right|]. rewrite lookup_insert_ne in Hsome by done. by left. }
  destruct put as [value|err].
  - destruct (Hin value eq_refl) as [-> Hstored]. cbv beta iota in Hp.
    rewrite Hd, bool_decide_eq_true_2 in Hp by done. cbn [negb] in Hp.
    apply IH in Hp as (Hs2 & Hsub2 & Hnew & Hall & Hok); [|done..]. split_and!; [done|by etransitivity| | |done].
    + intros d [Hsome|Hd']%Hnew; [|right; cbn; by right]. destruct (Hmid _ Hsome) as [| ->]; [by left|right; by left].
    + intros Hr. constructor; [|by apply Hall]. rewrite <-Hd. destruct Hstored as [f Hf].
      exists f. by eapply lookup_weaken.
  - injection Hp as <- <-. split_and!; [done..| |done|].
    + intros d [?| ->]%Hmid; [by left|right; by left].
    + intros Hfine. rewrite Hfine in Hput. unfold PutBlob in Hput. case_bool_decide; by injection Hput.
Qed.

(** C25: an import stores nothing it has not verified.  Whatever the bundle file
    contains and whichever file operation fails, either the store is unchanged
    and the answer is an error, or the archive was accepted as a whole, and
    then: the blobs there were are kept, every other blob is a declared one
    under the digest of its content, no analysis or key changes, and the
    capture directory is as it was or has in addition exactly the capture of
    the bundle; an import that succeeds has stored the capture and all of its
    blobs. *)
Theorem ImportBundle_verifies io s path file s' r (Hsound : blobs_sound (ds_blobs s))
    (Hrun : ImportBundle io s path file = (s', r)) :
  (s' = s ∧ ∃ err, r = Err err) ∨
  ∃ entries manifest value, read_bundle file = Ok entries ∧ accepted entries manifest value ∧
    blobs_sound (ds_blobs s') ∧ ds_blobs s ⊆ ds_blobs s' ∧
    (∀ d, is_Some (ds_blobs s' !! d) → is_Some (ds_blobs s !! d) ∨ d ∈ Blob_Digest <$> Bundle_BlobEntries manifest) ∧
    ds_analyses s' = ds_analyses s ∧ ds_keys s' = ds_keys s ∧
    (ds_captures s' = ds_captures s ∧ ds_audit s' = ds_audit s ∧ (∃ err, r = Err err) ∨
     ds_captures s' = <[Capture_ID value := json_encode (Capture_Normalize (capture_with_schema value))]> (ds_captures s) ∧
     Forall (λ blob, is_Some (ds_blobs s' !! Blob_Digest blob)) (Bundle_BlobEntries manifest) ∧
     (∀ id, r = Ok id → id = Capture_ID value)).
Proof.
  unfold ImportBundle in Hrun. destruct (read_bundle file) as [entries|err]; [|injection Hrun as <- <-; left; eauto].
  destruct (check_bundle entries) as [[manifest value]|err] eqn:Hc; [|injection Hrun as <- <-; left; eauto].
  apply check_bundle_spec in Hc as (Hacc & _ & Hpaths). right. exists entries, manifest, value.
  unfold store_bundle in Hrun. destruct (put_loop _ _ _ _) as [blobs put] eqn:Hput.
  apply put_loop_spec in Hput as (Hs & Hsub & Hnew & Hall & _); [|done|done|by apply Hacc].
  destruct put as [[]|err]; [|injection Hrun as <- <-; split_and!; try done; left; eauto].
  unfold SaveCapture, saveEntity in Hrun. cbn [ds_captures set_blobs] in Hrun.
  destruct (negb _) in Hrun; [injection Hrun as <- <-; split_and!; try done; left; eauto|].
  destruct (imp_save io); [injection Hrun as <- <-; split_and!; try done; left; eauto|].
  destruct (AppendAudit _ _ _ _ _ _ _) as [audit [[]|err]]; injection Hrun as <- <-; split_and!; try done; right;
    (split_and!; [done|by apply Hall|]); [by intros id [= <-]|done].
Qed.

(** ** Export, then import *)

(** The members of an archive as the importer collects them *)
Definition files_of (entries : list archiveEntry) : files :=
  foldl (λ m entry, <[Archive_Name entry := Archive_Content entry]> m) ∅ entries.

Lemma tar_loop_spec entries : tar_loop entries = Ok tt →
  Forall (λ entry, tar_refuses entry = None ∧ validateArchiveName (Archive_Name entry) = Ok tt) entries.
Proof.
  induction entries as [|entry entries IH]; cbn [tar_loop]; [constructor|].
  destruct (validateArchiveName _) as [[]|] eqn:Hname; [|done]. cbn [rbind].
  destruct (tar_refuses entry) eqn:Hr; [done|]. intros H%IH. by constructor.
Qed.

(** A member that the importer reads whole *)
Definition fits (entry : archiveEntry) : Prop :=
  (Z.of_nat (String.length (Archive_Content entry)) ≤ entry_limit (Archive_Name entry))%Z.

Lemma regular_header name size : validateArchiveName name = Ok tt →
  validateArchiveHeader (mkHeader name TypeReg "" size) = Ok tt.
Proof. intros Hname. unfold validateArchiveHeader. cbn. by rewrite Hname. Qed.

#[export] Instance fits_dec entry : Decision (fits entry).
Proof. unfold fits. apply _. Defined.

Lemma read_loop_members entries : ∀ count m,
  Forall (λ entry, validateArchiveName (Archive_Name entry) = Ok tt) entries → Forall fits entries →
  NoDup (Archive_Name <$> entries) → Forall (λ entry, m !! Archive_Name entry = None) entries →
  (count + Z.of_nat (length entries) < maxArchiveEntries)%Z →
  read_loop count (member_of <$> entries) m =
    Ok (foldl (λ m entry, <[Archive_Name entry := Archive_Content entry]> m) m entries).
Proof.
  induction entries as [|entry entries IH]; intros count m Hnames Hfits Hnd Hnew Hcount; cbn [fmap list_fmap read_loop].
  { rewrite bool_decide_eq_false_2; [done|]. cbn in Hcount. lia. }
  cbn [length] in Hcount. rewrite bool_decide_eq_false_2 by lia.
  apply Forall_cons in Hnames as [Hname Hnames]. apply Forall_cons in Hfits as [Hfit Hfits]. unfold fits in Hfit.
  apply Forall_cons in Hnew as [Hm Hnew]. cbn in Hnd. apply NoDup_cons in Hnd as [Hnot Hnd].
  unfold member_of at 1. rewrite regular_header by done. cbn [rbind Header_Name Header_Size].
  rewrite (bool_decide_eq_false_2 (is_Some _)) by (rewrite Hm; by intros [? ?]).
  rewrite (bool_decide_eq_false_2 (_ < _)%Z) by lia.
  unfold read_limited. rewrite (bool_decide_eq_false_2 (_ ≤ _)%Z) by lia. cbn [rbind].
  rewrite (bool_decide_eq_false_2 (_ < _)%Z) by lia.
  rewrite IH; [done|done|done|done| |lia].
  rewrite Forall_forall in Hnew |- *. intros e He. rewrite lookup_insert_ne; [by apply Hnew|].
  intros Heq. apply Hnot. rewrite Heq. by apply list_elem_of_fmap_2.
Qed.

Lemma blob_entries_loop_spec s l : ∀ blobs, blob_entries_loop s l = Ok blobs → Blob_Digest <$> blobs = l ∧
  Forall (λ blob, ∃ content, GetBlob (ds_blobs s) (Blob_Digest blob) = Ok content ∧
    Blob_Path blob = "blobs/" +:+ Blob_Digest blob ∧ Blob_Size blob = Z.of_nat (String.length content)) blobs.
Proof.
  induction l as [|d l IH]; intros bs H; cbn [blob_entries_loop] in H; [by injection H as <-|].
  destruct (GetBlob _ d) as [content|] eqn:Hg; [|done]. cbn [rbind] in H.
  destruct (blob_entries_loop s l) as [bs'|] eqn:Hl; [|done]. cbn [rbind] in H. injection H as <-.
  destruct (IH _ eq_refl) as [<- Hall]. split; [done|]. constructor; [by exists content|done].
Qed.

Lemma blob_archive_loop_spec s bs : ∀ l, blob_archive_loop s bs = Ok l → Archive_Name <$> l = Blob_Path <$> bs ∧
  ∀ blob content, blob ∈ bs → GetBlob (ds_blobs s) (Blob_Digest blob) = Ok content →
    mkArchiveEntry (Blob_Path blob) content 0 ∈ l.
Proof.
  induction bs as [|b bs IH]; intros l H; cbn [blob_archive_loop] in H.
  { injection H as <-. split; [done|]. by intros ? ? ?%elem_of_nil. }
  destruct (GetBlob _ (Blob_Digest b)) as [content|] eqn:Hg; [|done]. cbn [rbind] in H.
  destruct (blob_archive_loop s bs) as [l'|] eqn:Hl; [|done]. cbn [rbind] in H. injection H as <-.
  destruct (IH _ eq_refl) as [Hnames Hall]. split; [cbn; by rewrite Hnames|].
  intros blob c [->|Hin]%elem_of_cons Hc; [|right; by apply Hall].
  rewrite Hg in Hc. injection Hc as ->. left.
Qed.

Lemma bundle_entries_spec s id entries : bundle_entries s id = Ok entries →
  ∃ value manifest, loadCapture s id = Ok value ∧ capture_manifest s id value = Ok manifest ∧
    manifest = mkBundleManifest bundleFormat id unix_epoch "capture.json" (digest (canonicalJSON value))
      (Bundle_BlobEntries manifest) ∧
    Blob_Digest <$> Bundle_BlobEntries manifest = collectDigests value ∧
    Forall (λ blob, ∃ content, GetBlob (ds_blobs s) (Blob_Digest blob) = Ok content ∧
      Blob_Path blob = "blobs/" +:+ Blob_Digest blob ∧ Blob_Size blob = Z.of_nat (String.length content) ∧
      mkArchiveEntry (Blob_Path blob) content 0 ∈ entries) (Bundle_BlobEntries manifest) ∧
    Archive_Name <$> entries = "manifest.json" :: "capture.json" :: (Blob_Path <$> Bundle_BlobEntries manifest) ∧
    mkArchiveEntry "capture.json" (canonicalJSON value) 0 ∈ entries ∧
    mkArchiveEntry "manifest.json" (canonicalJSON manifest) 0 ∈ entries.
Proof.
  unfold bundle_entries. intros H. destruct (loadCapture s id) as [value|] eqn:Hl; [|done]. cbn [rbind] in H.
  destruct (capture_manifest s id value) as [manifest|] eqn:Hm; [|done]. cbn [rbind] in H.
  destruct (blob_archive_loop _ _) as [rest|] eqn:Ha; [|done]. cbn [rbind] in H. injection H as <-.
  exists value, manifest. unfold capture_manifest in Hm.
  destruct (blob_entries_loop _ _) as [blobs|] eqn:Hb; [|done]. cbn [rbind] in Hm. injection Hm as <-.
  cbn [Bundle_BlobEntries] in *.
  pose proof Hb as [Hdigests Hblobs]%blob_entries_loop_spec. apply blob_archive_loop_spec in Ha as [Hnames Hin].
  split_and!; try done.
  - unfold capture_manifest. by rewrite Hb.
  - rewrite Forall_forall in Hblobs |- *. intros blob Hblob. destruct (Hblobs _ Hblob) as (content & Hg & Hp & Hsz).
    exists content. split_and!; [done..|]. right; right. by apply Hin.
  - cbn. by rewrite Hnames.
  - right. left.
  - left.
Qed.

Lemma declared_loop_ok m blobs : ∀ allowed,
  Forall (λ blob, validDigest (Blob_Digest blob) = true ∧ Blob_Path blob = "blobs/" +:+ Blob_Digest blob ∧
    (0 ≤ Blob_Size blob ≤ maxBlobPayloadSize)%Z ∧ ∃ content, m !! Blob_Path blob = Some content ∧
    Z.of_nat (String.length content) = Blob_Size blob ∧ digest content = Blob_Digest blob) blobs →
  NoDup (Blob_Path <$> blobs) → Forall (λ blob, Blob_Path blob ∉ allowed) blobs →
  declared_loop m blobs allowed = Ok (list_to_set (Blob_Path <$> blobs) ∪ allowed).
Proof.
  induction blobs as [|blob blobs IH]; intros allowed Hok Hnd Hnew; cbn [declared_loop].
  { f_equal. set_solver. }
  apply Forall_cons in Hok as [(Hd & Hp & Hsz & content & Hm & Hlen & Hdig) Hok].
  apply Forall_cons in Hnew as [Hn Hnew]. cbn in Hnd. apply NoDup_cons in Hnd as [Hnot Hnd].
  rewrite Hd, (bool_decide_eq_true_2 (Blob_Path blob = _)), !(bool_decide_eq_false_2 (_ < _)%Z) by (done || lia).
  cbn [negb orb]. rewrite bool_decide_eq_false_2, Hm by done.
  rewrite !bool_decide_eq_true_2 by done. cbn [negb orb].
  rewrite IH; [f_equal; cbn; set_solver|done..|].
  rewrite Forall_forall in Hnew |- *. intros b Hb. rewrite elem_of_union, elem_of_singleton.
  intros [Heq|?]; [|by apply (Hnew b)]. apply Hnot. rewrite <-Heq. by apply list_elem_of_fmap_2.
Qed.

Lemma collectDigests_spec value d : d ∈ collectDigests value ↔
  validDigest d = true ∧ ∃ entry, entry ∈ Manifest_Entries (Capture_Workspace value) ∧ Entry_BlobDigest entry = d.
Proof.
  unfold collectDigests. rewrite elem_of_sort_strings, elem_of_elements, elem_of_list_to_set, list_elem_of_filter.
  rewrite list_elem_of_fmap. naive_solver.
Qed.

Lemma NoDup_collectDigests value : NoDup (collectDigests value).
Proof. unfold collectDigests, sort_strings. apply NoDup_sort_by, NoDup_elements. Qed.

Lemma entry_limit_blob d : entry_limit ("blobs/" +:+ d) = maxBlobPayloadSize.
Proof. reflexivity. Qed.

(** What is in an exported archive, as the importer sees it *)
Lemma exported_files (entries : list archiveEntry) :
  NoDup (Archive_Name <$> entries) →
  let l := with_mode <$> sort_by Archive_Name entries in
  NoDup (Archive_Name <$> l) ∧
  (∀ entry, entry ∈ entries → files_of l !! Archive_Name entry = Some (Archive_Content entry)) ∧
  (∀ name, is_Some (files_of l !! name) → name ∈ Archive_Name <$> entries).
Proof.
  intros Hnd l.
  assert (Archive_Name <$> l = Archive_Name <$> sort_by Archive_Name entries) as Hnames
    by (unfold l; by rewrite <-list_fmap_compose).
  assert (NoDup (Archive_Name <$> l)) as Hl by (rewrite Hnames; by rewrite sort_by_perm).
  split_and!; [done| |].
  - intros entry Hin. unfold files_of.
    change (Archive_Name entry) with (Archive_Name (with_mode entry)).
    change (Archive_Content entry) with (Archive_Content (with_mode entry)).
    apply foldl_insert_in; [done|]. apply list_elem_of_fmap_2. by apply elem_of_sort_by.
  - intros name [content Hc]. unfold files_of in Hc.
    apply foldl_insert_Some in Hc as [Hc|(x & Hx & <- & _)]; [by rewrite lookup_empty in Hc|].
    apply list_elem_of_fmap in Hx as (entry & -> & Hentry).
    change (Archive_Name (with_mode entry)) with (Archive_Name entry). apply list_elem_of_fmap_2.
    by apply elem_of_sort_by in Hentry.
Qed.

Lemma exported_reads entries :
  NoDup (Archive_Name <$> entries) → tar_loop (with_mode <$> sort_by Archive_Name entries) = Ok tt →
  Forall fits entries → (Z.of_nat (length entries) < maxArchiveEntries)%Z →
  (Z.of_nat (String.length (pack (with_mode <$> sort_by Archive_Name entries))) ≤ maxBundleBytes)%Z →
  read_bundle (Ok (pack (with_mode <$> sort_by Archive_Name entries))) =
    Ok (files_of (with_mode <$> sort_by Archive_Name entries)).
Proof.
  intros Hnd Htar Hfits Hcount Hsize. apply tar_loop_spec in Htar. apply exported_files in Hnd as (Hnd & _ & _).
  unfold read_bundle. cbn [rbind]. rewrite bool_decide_eq_false_2 by lia. rewrite limit_reader_short by lia.
  rewrite unpack_pack by (eapply Forall_impl; [exact Htar|]; by intros ? [? _]). cbn [rbind].
  unfold files_of. apply read_loop_members; [|..|done| |].
  - eapply Forall_impl; [exact Htar|]; by intros ? [_ ?].
  - apply Forall_fmap. rewrite Forall_forall in Hfits |- *. intros entry He%elem_of_sort_by. by apply (Hfits entry).
  - apply Forall_forall. intros. apply lookup_empty.
  - rewrite length_fmap, length_sort_by. lia.
Qed.

(** An exported archive passes the checks. *)
Lemma exported_accepted `{!CanonicalJson Capture, !CanonicalJson bundleManifest} s id entries value manifest m :
  bundle_entries s id = Ok entries → loadCapture s id = Ok value → capture_manifest s id value = Ok manifest →
  Capture_ID value = id → id ≠ "" → json_valid value → json_valid manifest → Forall fits entries →
  (∀ entry, entry ∈ entries → m !! Archive_Name entry = Some (Archive_Content entry)) →
  (∀ name, is_Some (m !! name) → name ∈ Archive_Name <$> entries) →
  NoDup (Archive_Name <$> entries) → check_bundle m = Ok (manifest, value).
Proof.
  intros He Hload Hman Hid Hne Hvalid Hvman Hfits Hin Hdom Hnd.
  apply bundle_entries_spec in He as (value' & manifest' & Hl & Hm & Heq & Hdig & Hblobs & Hnames & Hcap & Hmf).
  rewrite Hload in Hl. injection Hl as <-. rewrite Hman in Hm. injection Hm as <-.
  unfold check_bundle. apply Hin in Hmf as Hmbytes. cbn [Archive_Name Archive_Content] in Hmbytes. rewrite Hmbytes.
  rewrite (canonical_reads (A := bundleManifest)) by done. cbn [rbind].
  rewrite Heq. cbn [Bundle_Format Bundle_CaptureID Bundle_EntityPath Bundle_EntityHash Bundle_BlobEntries].
  rewrite !bool_decide_eq_true_2, bool_decide_eq_false_2 by done. cbn [negb orb].
  apply Hin in Hcap as Hcbytes. cbn [Archive_Name Archive_Content] in Hcbytes. rewrite Hcbytes.
  rewrite bool_decide_eq_true_2 by done. rewrite (canonical_reads (A := Capture)) by done. cbn [negb rbind].
  rewrite (bool_decide_eq_true_2 (Capture_ID value = id)) by done. cbn [negb].
  rewrite Hnames in Hnd. apply NoDup_cons in Hnd as [Hn1 Hnd]. apply NoDup_cons in Hnd as [Hn2 Hnd].
  rewrite declared_loop_ok; [|..|done|].
  - cbn [rbind]. rewrite (bool_decide_eq_true_2 (_ = digest _)) by done.
    rewrite bool_decide_eq_true_2; [done|]. intros name Hname%elem_of_dom%Hdom.
    rewrite Hnames in Hname. set_solver.
  - rewrite Forall_forall in Hblobs |- *. intros blob Hb. destruct (Hblobs _ Hb) as (content & Hg & Hp & Hsz & Hent).
    apply Hin in Hent as Hm'. cbn in Hm'. rewrite Forall_forall in Hfits. specialize (Hfits _ Hent).
    unfold fits in Hfits. cbn [Archive_Content Archive_Name] in Hfits. rewrite Hp, entry_limit_blob in Hfits.
    split_and!; [|done|lia|lia|].
    + apply (list_elem_of_fmap_2 Blob_Digest) in Hb. rewrite Hdig in Hb. by apply collectDigests_spec in Hb as [? _].
    + exists content. split_and!; [done..|]. by apply GetBlob_inv in Hg as [? _].
  - rewrite Forall_forall. intros blob Hb. apply (list_elem_of_fmap_2 Blob_Path) in Hb.
    rewrite elem_of_union, !elem_of_singleton. intros [Heq'|Heq']; rewrite Heq' in Hb; [apply Hn1; by right|done].
Qed.

(** The names of an exported archive are distinct. *)
Lemma exported_names s id entries : bundle_entries s id = Ok entries → NoDup (Archive_Name <$> entries).
Proof.
  intros (value & manifest & _ & _ & _ & Hdig & Hblobs & -> & _)%bundle_entries_spec.
  assert (Blob_Path <$> Bundle_BlobEntries manifest = (λ d, "blobs/" +:+ d) <$> collectDigests value) as ->.
  { rewrite <-Hdig, <-list_fmap_compose. apply Forall_fmap_ext_1. eapply Forall_impl; [exact Hblobs|].
    by intros blob (content & _ & ? & _). }
  assert (NoDup ((λ d, "blobs/" +:+ d) <$> collectDigests value)) as Hnd
    by (apply NoDup_fmap; [intros d d'; apply blob_path_inj|apply NoDup_collectDigests]).
  assert (∀ name, has_prefix name "blobs/" = false → name ∉ (λ d, "blobs/" +:+ d) <$> collectDigests value) as Hno.
  { intros name Hname (d & -> & _)%list_elem_of_fmap. by rewrite has_prefix_app in Hname. }
  constructor; [|constructor; [by apply Hno|done]].
  apply not_elem_of_cons. split; [done|by apply Hno].
Qed.

(** C26: an exported capture can be imported.  When a capture that is stored
    under its own identifier was exported and the archive is within the
    importer's limits, then importing the file into any store with a sound
    blob directory succeeds if its file operations do, answers the capture's
    identifier, and the capture can be loaded there as it was, in normal form,
    while other captures stay; and each of its blobs reads back as in the
    sender's store, unless the receiving store held a different content with
    the same SHA-256 digest. *)
Theorem Export_Import `{!CanonicalJson Capture, !CanonicalJson bundleManifest} io s s2 id path old value manifest
    entries file mode s2' r
    (Hload : loadCapture s id = Ok value) (Hman : capture_manifest s id value = Ok manifest)
    (Hentries : bundle_entries s id = Ok entries)
    (Hid : Capture_ID value = id) (Hvalid : json_valid value) (Hvman : json_valid manifest)
    (Hstored : json_valid (Capture_Normalize (capture_with_schema value)))
    (Hfits : Forall fits entries) (Hcount : (Z.of_nat (length entries) < maxArchiveEntries)%Z)
    (Hexport : ExportCapture s id old None = (Some (file, mode), Ok tt))
    (Hsize : (Z.of_nat (String.length file) ≤ maxBundleBytes)%Z)
    (Hsound : blobs_sound (ds_blobs s2)) (Hput : ∀ d, imp_blob io d = None) (Hsave : imp_save io = None)
    (Haudit : (AppendAudit (ds_audit s2) (imp_audit io) (imp_now io) "bundle-import" "capture" id
                {["path" := JString (Base path)]}).2 = Ok tt)
    (Hrun : ImportBundle io s2 path (Ok file) = (s2', r)) :
  r = Ok id ∧ loadCapture s2' id = Ok (Capture_Normalize (capture_with_schema value)) ∧
  (∀ other, other ≠ id → ds_captures s2' !! other = ds_captures s2 !! other) ∧
  ∀ d, d ∈ collectDigests value → ∃ content, GetBlob (ds_blobs s) d = Ok content ∧
    (GetBlob (ds_blobs s2') d = Ok content ∨
     ∃ other, other ≠ content ∧ sha256_hex other = sha256_hex content).
Proof.
  assert (id ≠ "" ∧ validIdentifier id = true) as [Hne Hident].
  { unfold loadCapture, loadEntity in Hload. destruct (validIdentifier id) eqn:Hv; [|done]. split; [|done].
    intros ->. by vm_compute in Hv. }
  pose proof (exported_names _ _ _ Hentries) as Hnd. pose proof (exported_files _ Hnd) as (_ & Hin & Hdom).
  unfold ExportCapture in Hexport. rewrite Hentries in Hexport. unfold writeDeterministicTarGzip in Hexport.
  destruct (tar_loop _) as [[]|] eqn:Htar; [|done]. cbn in Hexport. injection Hexport as <- <-.
  unfold ImportBundle in Hrun. rewrite exported_reads in Hrun by done.
  pose proof (exported_accepted s id entries value manifest _ Hentries Hload Hman Hid Hne Hvalid Hvman Hfits Hin
    Hdom Hnd) as Hcheck.
  rewrite Hcheck in Hrun. apply check_bundle_spec in Hcheck as (Hacc & _ & Hpaths). unfold store_bundle in Hrun.
  destruct (put_loop _ _ _ _) as [blobs put] eqn:Hp.
  apply put_loop_spec in Hp as (Hs & Hsub & Hnew & Hall & Hok); [|done|done|by apply Hacc].
  specialize (Hok Hput) as ->. unfold SaveCapture, saveEntity in Hrun. cbn [Capture_ID Capture_Normalize capture_with_schema] in Hrun.
  rewrite Hid, Hident, Hsave in Hrun. cbn [negb set_blobs set_captures ds_captures ds_audit] in Hrun.
  destruct (AppendAudit _ _ _ _ _ _ _) as [audit done_]. cbn in Haudit. subst done_. injection Hrun as <- <-.
  cbn [set_audit set_captures set_blobs ds_captures ds_blobs]. split_and!; [done|..].
  - unfold loadCapture, loadEntity. rewrite Hident. cbn. rewrite lookup_insert_eq. by rewrite json_strict_roundtrip.
  - intros other Hother. by rewrite lookup_insert_ne.
  - apply bundle_entries_spec in Hentries as (v & m & Hl & Hm & _ & Hdig & Hblobs & _).
    rewrite Hload in Hl. injection Hl as <-. rewrite Hman in Hm. injection Hm as <-.
    intros d Hd. rewrite <-Hdig in Hd. apply list_elem_of_fmap in Hd as (blob & -> & Hblob).
    rewrite Forall_forall in Hblobs. destruct (Hblobs _ Hblob) as (content & Hg & _). exists content. split; [done|].
    specialize (Hall eq_refl). rewrite Forall_forall in Hall. destruct (Hall _ Hblob) as [f Hf].
    destruct (Hs _ _ Hf) as (c & -> & Hc). apply GetBlob_inv in Hg as [Hd Hlen].
    destruct (decide (c = content)) as [->|Hne']; [left|right; exists c; split; [done|congruence]].
    rewrite <-Hd in Hf |- *. by apply GetBlob_content.
Qed.
End lemmas.

(** ** Witnesses *)

#[export] Instance archiveEntry_eq_dec : EqDecision archiveEntry.
Proof. solve_decision. Defined.
#[export] Instance archiveEntry_countable : Countable archiveEntry.
Proof.
  refine (inj_countable' (λ e, (Archive_Name e, Archive_Content e, Archive_Mode e))
    (λ '(name, content, mode), mkArchiveEntry name content mode) _).
  by intros [].
Defined.

(** Archives in the codec of countable types *)
Definition demo_archives : Archives.
Proof.
  refine {| tar_refuses _ := None; pack entries := string_of_pos (encode entries);
            unpack file := let? entries := countable_decode file in Ok (member_of <$> entries) |}.
  intros entries _. unfold countable_decode. rewrite pos_of_string_of_pos. cbn. by rewrite decode_encode.
Defined.

(** A capture of one file with the content "hello" *)
Definition demo_capture : Capture :=
  let manifest := mkWorkspaceManifest "/w" [mkWorkspaceEntry "a" "file" 420 5 (sha256_hex "hello") (sha256_hex "hello") ""]
    1 5 "" in
  mkCapture 3 "cap-1" 0 0 0 "" "/w" (mkCommandSpec ["make"] "/w" ∅ 0) (mkOracle "exit" (Some 0%Z) "" "" "")
    zero_process_result zero_oracle_result manifest manifest zero_host [] [] [] [].
Definition demo_captures : Json Capture := single_json demo_capture.
Definition demo_bundle_manifest : bundleManifest :=
  mkBundleManifest bundleFormat "cap-1" unix_epoch "capture.json" (sha256_hex ("{}" +:+ NL))
    [mkBundleBlob (sha256_hex "hello") ("blobs/" +:+ sha256_hex "hello") 5].
Definition demo_manifests : Json bundleManifest := single_json demo_bundle_manifest.
#[export] Instance demo_canonical_captures : @CanonicalJson Capture demo_captures.
Proof. by split; intros a ->. Defined.
#[export] Instance demo_canonical_manifests : @CanonicalJson bundleManifest demo_manifests.
Proof. by split; intros a ->. Defined.

Definition demo_sender : data_store := mkDataStore hello_blobs {["cap-1" := "{}"]} ∅ None ∅.
Definition demo_receiver : data_store := mkDataStore ∅ ∅ ∅ None ∅.
Definition demo_import_io : import_io := mkImportIO (λ _, None) None NoFault 7.
Definition demo_members_list : list archiveEntry :=
  default [] (match @bundle_entries stored_gzip demo_captures demo_manifests demo_sender "cap-1" with
              | Ok entries => Some entries | Err _ => None end).
Definition demo_bundle_file : string :=
  default "" (fst <$> (@ExportCapture demo_archives stored_gzip demo_captures demo_manifests demo_sender "cap-1"
    None None).1).
Definition demo_imported : data_store * result string :=
  @ImportBundle demo_archives stored_gzip demo_captures demo_manifests quick_codec demo_import_io demo_receiver
    "/tmp/capture.wcap" (Ok demo_bundle_file).

Lemma ImportBundle_verifies_witness :
  demo_imported.2 = Ok "cap-1" ∧
  ((demo_imported.1 = demo_receiver ∧ ∃ err, demo_imported.2 = Err err) ∨
   ∃ entries manifest value, @read_bundle demo_archives (Ok demo_bundle_file) = Ok entries ∧
     @accepted demo_captures demo_manifests entries manifest value ∧
     @blobs_sound stored_gzip (ds_blobs demo_imported.1) ∧ ∅ ⊆ ds_blobs demo_imported.1 ∧
     (∀ d, is_Some (ds_blobs demo_imported.1 !! d) →
        is_Some ((∅ : gmap string string) !! d) ∨ d ∈ Blob_Digest <$> Bundle_BlobEntries manifest) ∧
     ds_analyses demo_imported.1 = ∅ ∧ ds_keys demo_imported.1 = ∅ ∧
     (ds_captures demo_imported.1 = ∅ ∧ ds_audit demo_imported.1 = None ∧ (∃ err, demo_imported.2 = Err err) ∨
      ds_captures demo_imported.1 = <[Capture_ID value :=
        @json_encode _ demo_captures (Capture_Normalize (capture_with_schema value))]> ∅ ∧
      Forall (λ blob, is_Some (ds_blobs demo_imported.1 !! Blob_Digest blob)) (Bundle_BlobEntries manifest) ∧
      (∀ id, demo_imported.2 = Ok id → id = Capture_ID value))).
Proof.
  split; [vm_compute; reflexivity|].
  apply (@ImportBundle_verifies demo_archives stored_gzip demo_captures demo_manifests quick_codec demo_import_io
    demo_receiver "/tmp/capture.wcap" (Ok demo_bundle_file) demo_imported.1 demo_imported.2).
  - apply map_Forall_empty.
  - apply surjective_pairing.
Defined.

Lemma Export_Import_witness :
  demo_imported.2 = Ok "cap-1" ∧
  @loadCapture demo_captures demo_imported.1 "cap-1" = Ok (Capture_Normalize (capture_with_schema demo_capture)) ∧
  (∀ other, other ≠ "cap-1" → ds_captures demo_imported.1 !! other = (∅ : gmap string string) !! other) ∧
  ∀ d, d ∈ collectDigests demo_capture → ∃ content, @GetBlob stored_gzip hello_blobs d = Ok content ∧
    (@GetBlob stored_gzip (ds_blobs demo_imported.1) d = Ok content ∨
     ∃ other, other ≠ content ∧ sha256_hex other = sha256_hex content).
Proof.
  apply (@Export_Import demo_archives stored_gzip demo_captures demo_manifests quick_codec
    demo_canonical_captures demo_canonical_manifests demo_import_io demo_sender demo_receiver "cap-1"
    "/tmp/capture.wcap" None demo_capture demo_bundle_manifest demo_members_list demo_bundle_file 420
    demo_imported.1 demo_imported.2).
  - reflexivity.
  - vm_compute. reflexivity.
  - vm_compute. reflexivity.
  - reflexivity.
  - reflexivity.
  - reflexivity.
  - reflexivity.
  - apply (bool_decide_unpack _). vm_compute. exact I.
  - vm_compute. reflexivity.
  - vm_compute. reflexivity.
  - vm_compute. discriminate.
  - apply map_Forall_empty.
  - intros d. reflexivity.
  - reflexivity.
  - vm_compute. reflexivity.
  - apply surjective_pairing.
Defined.
