(* ===== verification/Capturer.v ===== *)
(** * Capturer: recording one run of a command

    Models [src/internal/capture/capture.go]: the workspace is scanned, the
    command runs with a redacted environment, the workspace is scanned again,
    and the capture is stored and audited.  The store is the [data_store] of
    [Bundle].  A process is a function of what it is started with: it ends in
    some way and leaves some file system.  Blobs that a failing scan stored
    before it failed are not recorded. *)

From S2P Require Import Prelude Sha256 Model Json Paths Fs Store Workspace Scan Oracle Runner AuditLog Bundle.

(** ** Data *)

Record capture_request := mkCaptureRequest {
  Request_Label : string;
  Request_Workspace : string;
  Request_Command : CommandSpec;
  Request_Oracle : Oracle;
  Request_Limits : CaptureLimits;
  Request_TraceMode : string;
}.

(** How reading or creating the redaction key goes: a failure to read the
    file, to create the directory, the random bytes, what opening the new file
    gives, how many bytes reach it before a failure, and a failure of [Sync]
    or [Close]; [redact_reread] is a failure of the second attempt to read. *)
Record redaction_io := mkRedactionIO {
  redact_read : option error;
  redact_mkdir : option error;
  redact_random : result string;
  redact_open : option error;
  redact_reread : option error;
  redact_write : option (nat * error);
  redact_sync : option error;
}.

(** One scan: the sizes of directories, the files with several links, the
    failures to store a blob, and where the open directory is by then *)
Record scan_io := mkScanIO {
  sio_size : list string → Z;
  sio_hardlinked : list string → bool;
  sio_put : string → option error;
  sio_directory : list string;
}.

Record capture_io := mkCaptureIO {
  cap_cwd : result string;
  cap_open_root : option error;
  cap_fs : fs;
  cap_key : redaction_io;
  cap_scan_before : scan_io;
  cap_host : HostEvidence;
  cap_started : time;
  cap_process : run_request → run_io * fs;
  cap_finished : time;
  cap_scan_after : scan_io;
  cap_id : string;
  cap_save : option error;
  cap_audit : audit_fault;
  cap_audit_now : time;
}.

(** ** The redaction key *)

Definition redactionPath : string := "redaction_hmac.key".
Definition err_short_key : error := ErrMsg "redaction key is too short".

(** Any failure to read counts as absence; [O_EXCL] then refuses to replace a
    file. *)
Definition loadOrCreateRedactionKey (io : redaction_io) (keys : gmap string out_file) :
    gmap string out_file * result string :=
  match redact_read io, keys !! redactionPath with
  | None, Some (content, _) =>
      (keys, if bool_decide (String.length content < 32) then Err err_short_key else Ok content)
  | _, file =>
      match redact_mkdir io with
      | Some err => (keys, Err err)
      | None =>
          match redact_random io with
          | Err err => (keys, Err err)
          | Ok key =>
              match redact_open io, file with
              | Some err, _ => (keys, Err err)
              | None, Some (content, _) =>
                  (keys, match redact_reread io with Some err => Err err | None => Ok content end)
              | None, None =>
                  match redact_write io with
                  | Some (n, err) => (<[redactionPath := (string_take n key, 384%Z)]> keys, Err err)
                  | None =>
                      (<[redactionPath := (key, 384%Z)]> keys,
                       match redact_sync io with Some err => Err err | None => Ok key end)
                  end
              end
          end
      end
  end.

Definition FingerprintSecret (key value : string) : string := hmacFingerprint key value.

(** ** Consulted paths *)

Definition consulted_item (root absolute : string) : ConsultedPath :=
  match Rel root absolute with
  | Ok relative =>
      let inside := negb (bool_decide (relative = "..")) && negb (has_prefix relative "../") in
      mkConsultedPath absolute (if inside then relative else "") inside
  | Err _ => mkConsultedPath absolute "" false
  end.

Fixpoint consulted_loop (root : string) (seen : gset string) (paths : list string) : list ConsultedPath :=
  match paths with
  | [] => []
  | value :: paths =>
      if bool_decide (value = "") then consulted_loop root seen paths
      else
        let absolute := Clean (if IsAbs value then value else Join [root; value]) in
        if bool_decide (absolute ∈ seen) then consulted_loop root seen paths
        else consulted_item root absolute :: consulted_loop root ({[absolute]} ∪ seen) paths
  end.

Definition normalizeConsulted (root : string) (paths : list string) : list ConsultedPath :=
  sort_by Consulted_Path (consulted_loop root ∅ paths).

(** ** File oracles on a manifest *)

Definition manifest_file (relative : string) (entry : WorkspaceEntry) : bool :=
  bool_decide (Entry_Path entry = relative) && bool_decide (Entry_Type entry = "file").

Definition evaluateManifestFileOracle (spec : Oracle) (manifest : WorkspaceManifest) : OracleResult :=
  let relative := Clean (Oracle_File spec) in
  if bool_decide (Oracle_File spec = "") || negb (IsLocal relative) || bool_decide (relative = ".")
  then mkOracleResult false "oracle file must be a relative captured regular file"
  else
    match list_find (λ entry, manifest_file relative entry = true) (Manifest_Entries manifest) with
    | Some (_, entry) =>
        mkOracleResult (bool_decide (Entry_Digest entry = Oracle_Digest spec)) ("file sha256=" +:+ Entry_Digest entry)
    | None => mkOracleResult false "oracle file is not a captured regular file"
    end.

(** ** Capture *)

Definition err_bound_path : error := ErrMsg "bound workspace metadata must contain an absolute directory path".
Definition err_command_required : error := ErrMsg "command is required".
Definition err_binding_required : error :=
  ErrMsg "an execution binding with a directory descriptor is required".

Definition evidence_only : string :=
  "host files, packages, libraries, mounts, resources, network, secrets, schedules, hardware, and kernel internals are evidence-only unless independently controlled".

(** filepath.Abs *)
Definition Abs (cwd : result string) (path : string) : result string :=
  if IsAbs path then Ok (Clean path) else let? wd := cwd in Ok (Join [wd; path]).

Definition with_environment (command : CommandSpec) (environment : gmap string string) : CommandSpec :=
  mkCommandSpec (CommandSpec_Arguments command) (CommandSpec_Directory command) environment
    (CommandSpec_TimeoutMS command).

Section capture.
Context `{PGzip : !Gzip, PRegexp : !Regexp, PCapture : !Json Capture, PAudit : !Json AuditEvent}.

(** The root of the workspace *)
Definition capture_root (io : capture_io) (request : capture_request) (binding : option ExecutionBinding) :
    result string :=
  match binding with
  | Some binding =>
      fail? negb (IsAbs (Binding_DirectoryPath binding)) with err_bound_path in
      match cap_open_root io with Some err => Err err | None => Ok (Binding_DirectoryPath binding) end
  | None =>
      let? absolute := (if bool_decide (Request_Workspace request = "")
                        then let? wd := cap_cwd io in Abs (cap_cwd io) wd
                        else Abs (cap_cwd io) (Request_Workspace request)) in
      CanonicalRoot (cap_fs io) absolute
  end.

(** The command with the directory and the time-out that were left out *)
Definition with_defaults (command : CommandSpec) (limits : CaptureLimits) (root : string)
    (binding : option ExecutionBinding) : CommandSpec :=
  let directory := match binding with
                   | Some binding => Binding_DirectoryPath binding
                   | None => CommandSpec_Directory command
                   end in
  mkCommandSpec (CommandSpec_Arguments command)
    (if bool_decide (directory = "") then root else directory)
    (CommandSpec_Environment command)
    (if bool_decide (CommandSpec_TimeoutMS command ≤ 0)%Z then Z.quot (Limits_Timeout limits) 1000000
     else CommandSpec_TimeoutMS command).

Definition scan (bound : bool) (io : scan_io) (limits : CaptureLimits) (f : fs) (blobs : files) (root : string) :
    result (WorkspaceManifest * files) :=
  if bound
  then ScanRoot (sio_size io) (sio_hardlinked io) (sio_put io) (Limits_MaxWorkspaceFiles limits)
         (Limits_MaxWorkspaceBytes limits) f blobs (sio_directory io) root
  else Scan (sio_size io) (sio_hardlinked io) (sio_put io) (Limits_MaxWorkspaceFiles limits)
         (Limits_MaxWorkspaceBytes limits) f blobs root.

Definition capture_run (command : CommandSpec) (limits : CaptureLimits) (mode : string)
    (binding : option ExecutionBinding) : run_request :=
  mkRunRequest (CommandSpec_Arguments command) (CommandSpec_Directory command)
    (EnvironmentToList (CommandSpec_Environment command))
    (wrap_int64 (CommandSpec_TimeoutMS command * 1000000)) (Limits_MaxOutputBytes limits)
    (negb (bool_decide (mode = "off"))) binding.

(** The capture of a run; [None] when the process could not be started *)
Definition capture_value (io : capture_io) (request : capture_request) (bound : bool) (root : string)
    (command : CommandSpec) (evidence : list SecretEvidence) (before after : WorkspaceManifest) (f : fs)
    (res : option ProcessResult) (runErr : option run_error) : Capture :=
  let '(result, verdict, consulted, boundaries) :=
    match res with
    | None => (zero_process_result, zero_oracle_result, [], [])
    | Some r =>
        (r,
         (if bound && bool_decide (Oracle_Kind (Request_Oracle request) = "file_digest")
          then evaluateManifestFileOracle (Request_Oracle request) after
          else Evaluate f (Request_Oracle request) r root),
         normalizeConsulted root (ProcessResult_ConsultedPaths r), ProcessResult_Boundaries r)
    end in
  Capture_Normalize
    (mkCapture 3 (cap_id io) (cap_finished io) (cap_started io) (cap_finished io) (Request_Label request) root
       command (Request_Oracle request) result verdict before after (cap_host io) evidence consulted
       (boundaries ++ [evidence_only])
       (match runErr with Some err => [show_run_error err] | None => [] end)).

(** The end: storing and auditing.  Go returns a capture and an error. *)
Definition capture_store (io : capture_io) (s : data_store) (value : Capture) (runErr : option run_error) :
    data_store * (option Capture * option error) :=
  let '(captures, saved) := SaveCapture (ds_captures s) (cap_save io) value in
  let s := set_captures s captures in
  match saved with
  | Err err => (s, (None, Some err))
  | Ok _ =>
      let '(audit, audited) :=
        AppendAudit (ds_audit s) (cap_audit io) (cap_audit_now io) "capture" "capture" (Capture_ID value)
          {["command_digest" := JString (DigestStrings (CommandSpec_Arguments (Capture_Command value)));
            "workspace" := JString (Capture_WorkspaceRoot value);
            "oracle_passed" := JBool (OracleResult_Passed (Capture_OracleResult value))]} in
      let s := set_audit s audit in
      match audited with
      | Err err => (s, (None, Some err))
      | Ok _ => (s, (Some value, run_failure <$> runErr))
      end
  end.

(** The result is the store, the processes started, and what Go returns. *)
Definition capture (io : capture_io) (s : data_store) (request : capture_request)
    (binding : option ExecutionBinding) : data_store * list process_start * (option Capture * option error) :=
  let limits := WithDefaults (Request_Limits request) in
  let bound := bool_decide (is_Some binding) in
  match capture_root io request binding with
  | Err err => (s, [], (None, Some err))
  | Ok root =>
      if bool_decide (length (CommandSpec_Arguments (Request_Command request)) = 0)
      then (s, [], (None, Some err_command_required))
      else
        let command := with_defaults (Request_Command request) limits root binding in
        let '(keys, key) := loadOrCreateRedactionKey (cap_key io) (ds_keys s) in
        let s := set_keys s keys in
        match key with
        | Err err => (s, [], (None, Some err))
        | Ok key =>
            let '(environment, evidence) := redact_environment (CommandSpec_Environment command) key in
            let command := with_environment command environment in
            match scan bound (cap_scan_before io) limits (cap_fs io) (ds_blobs s) root with
            | Err err => (s, [], (None, Some err))
            | Ok (before, blobs) =>
                let s := set_blobs s blobs in
                let req := capture_run command limits (Request_TraceMode request) binding in
                let '(run, f) := cap_process io req in
                let '(res, runErr) := Run run req in
                match scan bound (cap_scan_after io) limits f (ds_blobs s) root with
                | Err err => (s, run_starts run req, (None, Some err))
                | Ok (after, blobs) =>
                    let s := set_blobs s blobs in
                    let value := capture_value io request bound root command evidence before after f res runErr in
                    let '(s, r) := capture_store io s value runErr in
                    (s, run_starts run req, r)
                end
            end
        end
  end.

Definition Capture_ (io : capture_io) (s : data_store) (request : capture_request) :
    data_store * list process_start * (option Capture * option error) := capture io s request None.

Definition CaptureWithBinding (io : capture_io) (s : data_store) (request : capture_request)
    (binding : option ExecutionBinding) : data_store * list process_start * (option Capture * option error) :=
  match binding with
  | Some b =>
      if bool_decide (is_Some (Binding_DirectoryFile b)) then capture io s request binding
      else (s, [], (None, Some err_binding_required))
  | None => (s, [], (None, Some err_binding_required))
  end.
End capture.

Definition ValidateCapture (value : Capture) : result unit :=
  fail? bool_decide (Capture_ID value = "") || bool_decide (Capture_SchemaVersion value ≤ 0)%Z
    with ErrMsg "invalid capture identity" in Ok tt.

(** ** Lemmas: redaction *)

(** No variable with a secret name has its value. *)
Definition redacted (environment : gmap string string) : Prop :=
  ∀ name value, secretName name = true → environment !! name = Some value → IsRedactedValue value = true.

Lemma redact_environment_redacted env key : redacted (redact_environment env key).1.
Proof.
  pose proof (redact_environment_spec env key) as H. destruct (redact_environment env key). by destruct H as (_ & H & _).
Qed.

(** What is not secret of an environment: the values of the variables with
    secret names are left out. *)
Definition public (environment : gmap string string) : gmap string string :=
  map_imap (λ name value, Some (if secretName name then "" else value)) environment.

Lemma lookup_public environment name :
  public environment !! name = (λ value, if secretName name then "" else value) <$> environment !! name.
Proof. unfold public. rewrite map_lookup_imap. by destruct (environment !! name). Qed.

(** The evidence of a secret without its fingerprint *)
Definition public_evidence (evidence : SecretEvidence) : SecretEvidence :=
  mkSecretEvidence (Secret_Name evidence) "".

Lemma StronglySorted_keys {A} (key : A → string) l :
  StronglySorted (key_le key) l → StronglySorted (key_le id) (key <$> l).
Proof.
  induction 1 as [|x l _ IH Hall]; [constructor|]. cbn. constructor; [done|].
  apply Forall_fmap. eapply Forall_impl; [exact Hall|]. done.
Qed.

(** Two environments with the same public part are redacted to environments
    with the same public part, whatever their secrets are. *)
Lemma redact_environment_public key env env' : public env = public env' →
  public (redact_environment env key).1 = public (redact_environment env' key).1 ∧
  public_evidence <$> (redact_environment env key).2 = public_evidence <$> (redact_environment env' key).2.
Proof.
  intros Hsame. assert (∀ name, public env !! name = public env' !! name) as Hname by (by rewrite Hsame).
  pose proof (redact_environment_spec env key) as H1. pose proof (redact_environment_spec env' key) as H2.
  destruct (redact_environment env key) as [r1 e1], (redact_environment env' key) as [r2 e2]. cbn [fst snd].
  set (fp := hmacFingerprint key) in *. clearbody fp.
  destruct H1 as (Hr1 & _ & Hs1 & Hn1 & He1), H2 as (Hr2 & _ & Hs2 & Hn2 & He2). split.
  - apply map_eq. intros name. specialize (Hname name). rewrite !lookup_public in *. rewrite Hr1, Hr2.
    destruct (secretName name), (env !! name) as [v|], (env' !! name) as [v'|]; cbn in *; try discriminate; try reflexivity.
    injection Hname as ->. reflexivity.
  - assert (Secret_Name <$> e1 = Secret_Name <$> e2) as Hnames.
    { apply (sorted_by_unique id); rewrite ?list_fmap_id; [done|by apply StronglySorted_keys|by apply StronglySorted_keys|].
      apply NoDup_Permutation; [done|done|]. intros name. rewrite !list_elem_of_fmap.
      specialize (Hname name). rewrite !lookup_public in Hname.
      split; intros (ev & -> & Hin).
      - apply He1 in Hin as (v & Hv & Hs & _). rewrite Hv, Hs in Hname.
        destruct (env' !! Secret_Name ev) as [v'|] eqn:Hv'; [|discriminate].
        exists (mkSecretEvidence (Secret_Name ev) (fp v')). split; [done|]. apply He2. by exists v'.
      - apply He2 in Hin as (v & Hv & Hs & _). rewrite Hv, Hs in Hname.
        destruct (env !! Secret_Name ev) as [v'|] eqn:Hv'; [|discriminate].
        exists (mkSecretEvidence (Secret_Name ev) (fp v')). split; [done|]. apply He1. by exists v'. }
    assert (∀ l : list SecretEvidence, public_evidence <$> l = (λ name, mkSecretEvidence name "") <$> (Secret_Name <$> l)) as Hpub.
    { intros l. by rewrite <-list_fmap_compose. }
    by rewrite !Hpub, Hnames.
Qed.

(** ** Lemmas: the course of a capture *)

Lemma run_starts_same io r p : p ∈ run_starts io r → p = newCommand r.
Proof.
  unfold run_starts, run_course. repeat case_match; intros Hp; repeat (apply elem_of_cons in Hp as [->|Hp]; [done|]);
    by apply elem_of_nil in Hp.
Qed.

Section course.
Context `{PGzip : !Gzip, PRegexp : !Regexp, PCapture : !Json Capture, PAudit : !Json AuditEvent}.

(** The file system that the run of a finished capture left behind *)
Definition capture_request_of (request : capture_request) (binding : option ExecutionBinding) (c : Capture) : run_request :=
  capture_run (Capture_Command c) (WithDefaults (Request_Limits request)) (Request_TraceMode request) binding.
Definition left_behind (io : capture_io) (request : capture_request) (binding : option ExecutionBinding) (c : Capture) : fs :=
  (cap_process io (capture_request_of request binding c)).2.

Lemma capture_store_inv io s value runErr s' r : capture_store io s value runErr = (s', r) →
  match r with
  | (Some c, err) => c = value ∧ err = run_failure <$> runErr ∧ validIdentifier (Capture_ID value) = true ∧
      ds_captures s' = <[Capture_ID value := json_encode (Capture_Normalize (capture_with_schema value))]> (ds_captures s)
  | (None, err) => is_Some err
  end ∧ ds_blobs s' = ds_blobs s ∧ ds_keys s' = ds_keys s ∧ ds_analyses s' = ds_analyses s.
Proof.
  unfold capture_store, SaveCapture, saveEntity.
  change (Capture_ID (Capture_Normalize (capture_with_schema value))) with (Capture_ID value).
  destruct (validIdentifier (Capture_ID value)) eqn:Hid; cbn [negb]; [|intros [= <- <-]; split_and!; by first [eexists|reflexivity]].
  destruct (cap_save io); [intros [= <- <-]; split_and!; by first [eexists|reflexivity]|].
  destruct (AppendAudit _ _ _ _ _ _ _) as [audit [[]|err]]; intros [= <- <-]; split_and!; first [done|reflexivity|by eexists].
Qed.

(** A capture that is returned *)
Lemma capture_inv io s request binding s' starts c err :
  capture io s request binding = (s', starts, (Some c, err)) →
  let limits := WithDefaults (Request_Limits request) in
  let bound := bool_decide (is_Some binding) in
  let req := capture_request_of request binding c in
  ∃ root key keys evidence before blobs after res runErr,
    capture_root io request binding = Ok root ∧
    loadOrCreateRedactionKey (cap_key io) (ds_keys s) = (keys, Ok key) ∧
    redact_environment (CommandSpec_Environment (Request_Command request)) key =
      (CommandSpec_Environment (Capture_Command c), evidence) ∧
    scan bound (cap_scan_before io) limits (cap_fs io) (ds_blobs s) root = Ok (before, blobs) ∧
    Run (cap_process io req).1 req = (res, runErr) ∧
    scan bound (cap_scan_after io) limits (left_behind io request binding c) blobs root = Ok (after, ds_blobs s') ∧
    c = capture_value io request bound root
          (with_environment (with_defaults (Request_Command request) limits root binding)
             (CommandSpec_Environment (Capture_Command c)))
          evidence before after (left_behind io request binding c) res runErr ∧
    starts = run_starts (cap_process io req).1 req ∧ err = run_failure <$> runErr ∧
    validIdentifier (Capture_ID c) = true ∧
    ds_captures s' = <[Capture_ID c := json_encode (Capture_Normalize (capture_with_schema c))]> (ds_captures s).
Proof.
  unfold capture. destruct (capture_root io request binding) as [root|] eqn:Hroot; [|done]. case_bool_decide; [done|].
  destruct (loadOrCreateRedactionKey _ _) as [keys [key|]] eqn:Hkey; [|done].
  change (CommandSpec_Environment (with_defaults (Request_Command request) (WithDefaults (Request_Limits request)) root binding))
    with (CommandSpec_Environment (Request_Command request)).
  destruct (redact_environment _ key) as [environment evidence] eqn:Hred.
  destruct (scan _ _ _ _ _ _) as [[before blobs]|] eqn:Hbefore; [|done].
  set (command := with_environment _ _). set (req := capture_run _ _ _ _).
  destruct (cap_process io req) as [run f] eqn:Hproc. destruct (Run run req) as [res runErr] eqn:Hrun.
  destruct (scan _ (cap_scan_after io) _ _ _ _) as [[after blobs']|] eqn:Hafter; [|done].
  set (value := capture_value _ _ _ _ _ _ _ _ _ _ _).
  destruct (capture_store _ _ _ _) as [s1 r] eqn:Hstore. intros [= <- <- ->].
  apply capture_store_inv in Hstore as [(-> & -> & Hid & Hcap) (Hblobs & _ & _)].
  assert (Capture_Command value = command) as Hcmd.
  { unfold value, capture_value. by destruct res. }
  unfold left_behind, capture_request_of. rewrite Hcmd. fold req. rewrite Hproc. cbn [fst snd].
  cbn [ds_blobs set_blobs set_keys] in Hblobs, Hafter. rewrite Hblobs.
  exists root, key, keys, evidence, before, blobs, after, res, runErr. by split_and!.
Qed.

Lemma capture_starts io s request binding p : p ∈ (capture io s request binding).1.2 →
  ∃ key root, let r := capture_run
      (with_environment (with_defaults (Request_Command request) (WithDefaults (Request_Limits request)) root binding)
         (redact_environment (CommandSpec_Environment (Request_Command request)) key).1)
      (WithDefaults (Request_Limits request)) (Request_TraceMode request) binding in
    p ∈ run_starts (cap_process io r).1 r.
Proof.
  unfold capture. destruct (capture_root _ _ _) as [root|]; [|by intros []%elem_of_nil]. 
  destruct (bool_decide (length _ = 0)); [by intros []%elem_of_nil|].
  destruct (loadOrCreateRedactionKey _ _) as [keys [key|]]; [|by intros []%elem_of_nil].
  change (CommandSpec_Environment (with_defaults (Request_Command request) (WithDefaults (Request_Limits request)) root binding))
    with (CommandSpec_Environment (Request_Command request)).
  destruct (redact_environment _ key) as [environment evidence] eqn:Hred.
  destruct (scan _ _ _ _ _ _) as [[before blobs]|]; [|by intros []%elem_of_nil].
  intros Hp. exists key, root. rewrite Hred. cbn [fst]. cbn zeta.
  destruct (cap_process io _) as [run f]. cbn [fst]. destruct (Run run _) as [res runErr].
  destruct (scan _ (cap_scan_after io) _ _ _ _) as [[after blobs']|]; [|done].
  by destruct (capture_store _ _ _ _) as [s1 r].
Qed.
End course.

(** ** Lemmas: two captures that differ in secrets *)

Section secrets.
Context `{PGzip : !Gzip, PRegexp : !Regexp, PCapture : !Json Capture, PAudit : !Json AuditEvent}.

(** A capture without its fingerprints *)
Definition public_capture (c : Capture) : Capture :=
  mkCapture (Capture_SchemaVersion c) (Capture_ID c) (Capture_CreatedAt c) (Capture_StartedAt c)
    (Capture_FinishedAt c) (Capture_Label c) (Capture_WorkspaceRoot c)
    (with_environment (Capture_Command c) (public (CommandSpec_Environment (Capture_Command c))))
    (Capture_Oracle c) (Capture_Result c) (Capture_OracleResult c) (Capture_Before c) (Capture_Workspace c)
    (Capture_Host c) (public_evidence <$> Capture_SecretEvidence c) (Capture_ConsultedPaths c)
    (Capture_EvidenceBoundaries c) (Capture_Warnings c).

(** Two redacted environments that differ in fingerprints only *)
Definition same_public (e e' : gmap string string) : Prop := public e = public e' ∧ redacted e ∧ redacted e'.

(** Processes started in the same way but for the fingerprints *)
Definition same_start (p p' : process_start) : Prop :=
  Start_Path p = Start_Path p' ∧ Start_Arguments p = Start_Arguments p' ∧
  Start_Directory p = Start_Directory p' ∧ Start_Files p = Start_Files p' ∧
  ∃ e e', Start_Environment p = EnvironmentToList e ∧ Start_Environment p' = EnvironmentToList e' ∧ same_public e e'.

Definition with_variables (r : run_request) (e : gmap string string) : run_request :=
  mkRunRequest (Run_Command r) (Run_Directory r) (EnvironmentToList e) (Run_Timeout r) (Run_MaxOutputBytes r)
    (Run_Trace r) (Run_Executable r).

(** Processes that do not look at the fingerprints they are given in place
    of secrets *)
Definition blind (io : capture_io) : Prop :=
  ∀ r e e', same_public e e' → cap_process io (with_variables r e) = cap_process io (with_variables r e').

Definition recorded_text (c : Capture) : string := json_encode (Capture_Normalize (capture_with_schema c)).

(** What two runs from the store [s] have in common *)
Record alike (s : data_store) (o o' : data_store * list process_start * (option Capture * option error)) : Prop := {
  al_starts : Forall2 same_start o.1.2 o'.1.2;
  al_error : o.2.2 = o'.2.2;
  al_capture : public_capture <$> o.2.1 = public_capture <$> o'.2.1;
  al_blobs : ds_blobs o.1.1 = ds_blobs o'.1.1;
  al_analyses : ds_analyses o.1.1 = ds_analyses o'.1.1;
  al_audit : ds_audit o.1.1 = ds_audit o'.1.1;
  al_keys : ds_keys o.1.1 = ds_keys o'.1.1;
  al_stored : ds_captures o.1.1 = ds_captures s ∧ ds_captures o'.1.1 = ds_captures s ∨
    ∃ c c', public_capture c = public_capture c' ∧
      same_public (CommandSpec_Environment (Capture_Command c)) (CommandSpec_Environment (Capture_Command c')) ∧
      ds_captures o.1.1 = <[Capture_ID c := recorded_text c]> (ds_captures s) ∧
      ds_captures o'.1.1 = <[Capture_ID c' := recorded_text c']> (ds_captures s);
}.

Lemma alike_refused s o starts starts' err :
  Forall2 same_start starts starts' → ds_captures o = ds_captures s →
  alike s (o, starts, (None, err)) (o, starts', (None, err)).
Proof. intros Hs Hc. by split; [..|left]. Qed.

Lemma run_starts_alike io r e e' : same_public e e' →
  Forall2 same_start (run_starts io (with_variables r e)) (run_starts io (with_variables r e')).
Proof.
  intros Hp. assert (same_start (newCommand (with_variables r e)) (newCommand (with_variables r e'))) as Hc.
  { unfold newCommand. cbn. destruct (Run_Executable r); (split_and!; [done..|]); by exists e, e'. }
  unfold run_starts, run_course. cbn [Run_Command with_variables].
  change (binding_refused io (with_variables r e')) with (binding_refused io (with_variables r e)).
  change (run_choice io (with_variables r e')) with (run_choice io (with_variables r e)).
  change (tracer_failure io (with_variables r e')) with (tracer_failure io (with_variables r e)).
  repeat case_match; cbn [fst]; repeat first [apply Forall2_nil_2|apply Forall2_cons_2; [exact Hc|]].
Qed.

Lemma Run_variables io r e e' : Run io (with_variables r e) = Run io (with_variables r e').
Proof.
  unfold Run, run_course. cbn [Run_Command with_variables].
  change (binding_refused io (with_variables r e')) with (binding_refused io (with_variables r e)).
  change (run_choice io (with_variables r e')) with (run_choice io (with_variables r e)).
  change (default_output (with_variables r e')) with (default_output (with_variables r e)).
  by repeat case_match.
Qed.

Lemma capture_value_alike io request request' bound root command e e' ev ev' before after f res runErr :
  Request_Label request = Request_Label request' → Request_Oracle request = Request_Oracle request' →
  public e = public e' → public_evidence <$> ev = public_evidence <$> ev' →
  let c := capture_value io request bound root (with_environment command e) ev before after f res runErr in
  let c' := capture_value io request' bound root (with_environment command e') ev' before after f res runErr in
  public_capture c = public_capture c' ∧ CommandSpec_Environment (Capture_Command c) = e ∧
  CommandSpec_Environment (Capture_Command c') = e'.
Proof.
  intros Hl Ho He Hev. unfold capture_value. rewrite <-Hl, <-Ho.
  destruct res as [r|]; (split_and!; [|done..]); unfold public_capture; cbn -[Evaluate public];
    by rewrite He, Hev.
Qed.

Lemma public_capture_same c c' : public_capture c = public_capture c' →
  Capture_ID c = Capture_ID c' ∧ Capture_WorkspaceRoot c = Capture_WorkspaceRoot c' ∧
  Capture_OracleResult c = Capture_OracleResult c' ∧
  CommandSpec_Arguments (Capture_Command c) = CommandSpec_Arguments (Capture_Command c').
Proof.
  intros Hp. split_and!; [exact (f_equal Capture_ID Hp)|exact (f_equal Capture_WorkspaceRoot Hp)|
    exact (f_equal Capture_OracleResult Hp)|].
  exact (f_equal (λ c, CommandSpec_Arguments (Capture_Command c)) Hp).
Qed.

Lemma capture_store_alike io s s0 c c' runErr starts starts' :
  ds_captures s = ds_captures s0 → Forall2 same_start starts starts' →
  public_capture c = public_capture c' →
  same_public (CommandSpec_Environment (Capture_Command c)) (CommandSpec_Environment (Capture_Command c')) →
  alike s0 (let '(s, r) := capture_store io s c runErr in (s, starts, r))
    (let '(s, r) := capture_store io s c' runErr in (s, starts', r)).
Proof.
  intros Hs Hst Hp He. destruct (public_capture_same _ _ Hp) as (Hid & Hroot & Hor & Hargs).
  unfold capture_store, SaveCapture, saveEntity.
  change (Capture_ID (Capture_Normalize (capture_with_schema c))) with (Capture_ID c).
  change (Capture_ID (Capture_Normalize (capture_with_schema c'))) with (Capture_ID c').
  rewrite <-Hid, <-Hroot, <-Hor, <-Hargs.
  destruct (negb (validIdentifier (Capture_ID c))).
  { apply alike_refused; [done|]. by destruct s. }
  destruct (cap_save io) as [err|]; [apply alike_refused; [done|by destruct s]|].
  assert (∀ audit r r', r.2 = r'.2 → public_capture <$> r.1 = public_capture <$> r'.1 →
    alike s0 (set_audit (set_captures s (<[Capture_ID c := recorded_text c]> (ds_captures s))) audit, starts, r)
      (set_audit (set_captures s (<[Capture_ID c := recorded_text c']> (ds_captures s))) audit, starts', r')) as Hend.
  { intros audit r r' H1 H2. split; try done. right. exists c, c'. cbn. rewrite <-Hid, Hs. done. }
  unfold set_audit, set_captures. cbn [ds_audit].
  destruct (AppendAudit _ _ _ _ _ _ _) as [audit [[]|err]]; apply (Hend audit); try done.
  cbn. by rewrite Hp.
Qed.

Lemma capture_alike io s request env binding :
  public (CommandSpec_Environment (Request_Command request)) = public env → blind io →
  alike s (capture io s request binding)
    (capture io s (mkCaptureRequest (Request_Label request) (Request_Workspace request)
       (with_environment (Request_Command request) env) (Request_Oracle request) (Request_Limits request)
       (Request_TraceMode request)) binding).
Proof.
  intros Hpub Hblind. set (request' := mkCaptureRequest _ _ _ _ _ _). unfold capture.
  change (capture_root io request' binding) with (capture_root io request binding).
  destruct (capture_root _ _ _) as [root|err]; [|by apply alike_refused].
  change (CommandSpec_Arguments (Request_Command request')) with (CommandSpec_Arguments (Request_Command request)).
  destruct (bool_decide (length _ = 0)); [by apply alike_refused|].
  destruct (loadOrCreateRedactionKey _ _) as [keys [key|err]]; [|by apply alike_refused].
  change (CommandSpec_Environment (with_defaults (Request_Command request) (WithDefaults (Request_Limits request)) root binding))
    with (CommandSpec_Environment (Request_Command request)).
  change (CommandSpec_Environment (with_defaults (Request_Command request') (WithDefaults (Request_Limits request')) root binding))
    with env.
  destruct (redact_environment_public key _ _ Hpub) as [He Hev].
  pose proof (redact_environment_redacted (CommandSpec_Environment (Request_Command request)) key) as Hr.
  pose proof (redact_environment_redacted env key) as Hr'.
  destruct (redact_environment (CommandSpec_Environment (Request_Command request)) key) as [e ev].
  destruct (redact_environment env key) as [e' ev']. cbn [fst snd] in *.
  assert (same_public e e') as Hsame by done.
  change (Request_Limits request') with (Request_Limits request).
  set (limits := WithDefaults (Request_Limits request)).
  destruct (scan _ (cap_scan_before io) _ _ _ _) as [[before blobs]|err]; [|by apply alike_refused].
  set (command := with_defaults (Request_Command request) limits root binding).
  change (with_environment (with_defaults (Request_Command request') limits root binding) e')
    with (with_environment command e').
  change (Request_TraceMode request') with (Request_TraceMode request).
  set (r := capture_run command limits (Request_TraceMode request) binding).
  change (capture_run (with_environment command e) limits (Request_TraceMode request) binding) with (with_variables r e).
  change (capture_run (with_environment command e') limits (Request_TraceMode request) binding) with (with_variables r e').
  rewrite <-(Hblind r e e' Hsame). destruct (cap_process io (with_variables r e)) as [run f].
  rewrite <-(Run_variables run r e e'). destruct (Run run (with_variables r e)) as [res runErr].
  pose proof (run_starts_alike run r e e' Hsame) as Hst.
  destruct (scan _ (cap_scan_after io) _ _ _ _) as [[after blobs']|err]; [|by apply alike_refused].
  destruct (capture_value_alike io request request' (bool_decide (is_Some binding)) root command e e' ev ev'
    before after f res runErr) as (Hc & Hce & Hce'); [done..|].
  by apply capture_store_alike; [|exact Hst|exact Hc|rewrite Hce, Hce'].
Qed.
End secrets.

(** ** Lemmas: file oracles *)

(** The captured entry of a regular file *)
Lemma manifest_file_found manifest relative e : NoDup (Entry_Path <$> Manifest_Entries manifest) →
  e ∈ Manifest_Entries manifest → manifest_file relative e = true →
  ∃ i, list_find (λ entry, manifest_file relative entry = true) (Manifest_Entries manifest) = Some (i, e).
Proof.
  intros Hnd He Hm. destruct (list_find_elem_of (λ entry, manifest_file relative entry = true) _ e He Hm) as [[i e'] Hf].
  exists i. rewrite Hf. apply list_find_Some in Hf as (Hi & Hm' & _). repeat f_equal.
  unfold manifest_file in Hm, Hm'. apply andb_prop in Hm as [Hp%bool_decide_eq_true _].
  apply andb_prop in Hm' as [Hp'%bool_decide_eq_true _]. apply list_elem_of_lookup in He as [j Hj].
  assert (i = j) as ->; [|congruence]. eapply (NoDup_lookup (Entry_Path <$> Manifest_Entries manifest) i j relative); [done|..].
  - by rewrite list_lookup_fmap, Hi, <-Hp'.
  - by rewrite list_lookup_fmap, Hj, <-Hp.
Qed.

(** ** Properties *)


(** a finished capture is a true record.  It is stored and can be loaded;
    its command is the one that was run, with the redacted environment; the
    manifests are what the scans before and after the run found, the second
    in the file system that the process left; the result and the error are
    those of the runner, and the verdict is that of the oracle on them. *)
Theorem capture_records `{!Gzip, !Regexp, !Json Capture, !Json AuditEvent} io s request binding s' starts c err
    (Hrun : capture io s request binding = (s', starts, (Some c, err)))
    (Hjson : json_valid (Capture_Normalize (capture_with_schema c))) :
  let limits := WithDefaults (Request_Limits request) in
  let bound := bool_decide (is_Some binding) in
  let req := capture_request_of request binding c in
  loadEntity (ds_captures s') (Capture_ID c) = Ok (Capture_Normalize (capture_with_schema c)) ∧
  Capture_ID c = cap_id io ∧ starts = run_starts (cap_process io req).1 req ∧
  ∃ before blobs after res runErr,
    scan bound (cap_scan_before io) limits (cap_fs io) (ds_blobs s) (Capture_WorkspaceRoot c) = Ok (before, blobs) ∧
    scan bound (cap_scan_after io) limits (left_behind io request binding c) blobs (Capture_WorkspaceRoot c) =
      Ok (after, ds_blobs s') ∧
    Manifest_Entries (Capture_Before c) ≡ₚ Manifest_Entries before ∧
    Manifest_Entries (Capture_Workspace c) ≡ₚ Manifest_Entries after ∧
    Run (cap_process io req).1 req = (res, runErr) ∧ err = run_failure <$> runErr ∧
    match res with
    | Some r => Capture_Result c = r ∧ Capture_OracleResult c =
        if bound && bool_decide (Oracle_Kind (Request_Oracle request) = "file_digest")
        then evaluateManifestFileOracle (Request_Oracle request) after
        else Evaluate (left_behind io request binding c) (Request_Oracle request) r (Capture_WorkspaceRoot c)
    | None => is_Some err ∧ Capture_OracleResult c = zero_oracle_result
    end.
Proof.
  intros limits bound req.
  apply capture_inv in Hrun. cbn zeta in Hrun. fold limits bound req in Hrun.
  destruct Hrun as (root & key & keys & evidence & before & blobs & after & res & runErr & _ & _ & _ &
    Hbefore & Hres & Hafter & Hc & -> & -> & Hid & Hcap).
  assert (Capture_WorkspaceRoot c = root ∧ Capture_ID c = cap_id io ∧
    Manifest_Entries (Capture_Before c) = sort_entries (Manifest_Entries before) ∧
    Manifest_Entries (Capture_Workspace c) = sort_entries (Manifest_Entries after)) as (Hroot & Hcid & Hb & Ha).
  { rewrite Hc. unfold capture_value. by destruct res. }
  split_and!; [by rewrite Hcap; apply saved_loads|done|done|].
  exists before, blobs, after, res, runErr. rewrite Hroot, Hb, Ha.
  split_and!; [done|done|apply sort_by_perm|apply sort_by_perm|done|done|].
  destruct res as [r|]; rewrite Hc at 1; cbn -[evaluateManifestFileOracle Evaluate].
  - split; [done|]. by rewrite Hc at 1.
  - split; [|done]. unfold Run, run_course in Hres. repeat case_match; cbn in *; simplify_eq; by eexists.
Qed.

(** A file oracle on a regular file below a directory without links *)
Lemma Evaluate_file `{!Regexp} f spec res rcs q mode content :
  Forall plain rcs → real_dirs f [] (rcs ++ q) → Oracle_Kind spec = "file_digest" →
  Oracle_File spec ≠ "" → IsAbs (Oracle_File spec) = false → Clean (Oracle_File spec) = join "/" q →
  Forall plain q → q ≠ [] → f !! (rcs ++ q) = Some (NFile mode content) →
  Evaluate f spec res (abs_path rcs) =
    mkOracleResult (bool_decide (sha256_hex content = Oracle_Digest spec)) ("file sha256=" +:+ sha256_hex content).
Proof.
  intros Hr Hdirs Hkind Hne Habs Hpath Hq Hqne Hn.
  destruct (IsLocal_join q Hq Hqne) as (_ & _ & _ & Hq2 & Hq3 & Hq4).
  assert (safeWorkspacePath (abs_path rcs) (Oracle_File spec) = Ok (abs_path (rcs ++ q))) as Hsafe.
  { unfold safeWorkspacePath. rewrite Habs, Hpath, Hq4.
    rewrite (bool_decide_eq_false_2 (Oracle_File spec = "")), (bool_decide_eq_false_2 (_ = ".")),
      (bool_decide_eq_false_2 (_ = "..")) by done. cbn [orb]. by rewrite (Join_abs rcs _ q). }
  assert (ReadFile f (abs_path (rcs ++ q)) = Ok content) as Hread.
  { unfold ReadFile, Stat, stat_with. rewrite resolve_real; [|by apply Forall_app|by destruct rcs, q|done|right; congruence].
    cbn [rbind]. assert (get_node f (rcs ++ q) = Some (NFile mode content)) as ->; [|done].
    destruct rcs, q; done. }
  unfold Evaluate. rewrite Hkind, Hsafe, Hread. reflexivity.
Qed.

(** the verdict on a file does not depend on how it is read.  For a file
    oracle on a path of the scanned workspace, the verdict read off the
    manifest, for runs that are bound to an open directory, is the one of the
    oracle that opens the file, when the path is a regular file with one name;
    in all other cases - a directory, a link, a file with further names, or
    nothing at that path - the manifest never passes. *)
Theorem manifest_oracle_agrees `{!Gzip, !Regexp} dir_size hardlinked put_fail maxFiles maxBytes f blobs rcs manifest blobs'
    spec res q
    (Hroot : scan_root f rcs) (Hquota : (maxBytes < max_int64)%Z)
    (Hscan : Scan dir_size hardlinked put_fail maxFiles maxBytes f blobs (abs_path rcs) = Ok (manifest, blobs'))
    (Hkind : Oracle_Kind spec = "file_digest") (Hfile : Oracle_File spec ≠ "" ∧ IsAbs (Oracle_File spec) = false)
    (Hpath : Clean (Oracle_File spec) = join "/" q) (Hq : Forall plain q ∧ q ≠ []) :
  match f !! (rcs ++ q) with
  | Some (NFile _ _) =>
      if hardlinked (rcs ++ q) then OracleResult_Passed (evaluateManifestFileOracle spec manifest) = false
      else evaluateManifestFileOracle spec manifest = Evaluate f spec res (abs_path rcs)
  | _ => OracleResult_Passed (evaluateManifestFileOracle spec manifest) = false
  end.
Proof.
  destruct Hfile as [Hne Habs], Hq as [Hq Hqne].
  destruct (IsLocal_join q Hq Hqne) as (Hlocal & Hrel & Hq1 & Hq2 & Hq3 & Hq4).
  destruct (Scan_scanned _ _ _ _ _ Hquota _ _ _ _ _ Hroot Hscan) as (items & Hperm & Hall & Hnd).
  destruct (scanned_of _ _ _ _ Hquota _ _ _ q Hroot Hall Hq Hqne) as [Hat Hof].
  assert ((∀ e, e ∈ items → Entry_Path e = join "/" q → Entry_Type e ≠ "file") →
    OracleResult_Passed (evaluateManifestFileOracle spec manifest) = false) as Hfails.
  { intros Hnot. unfold evaluateManifestFileOracle. rewrite Hpath, Hlocal.
    rewrite (bool_decide_eq_false_2 (Oracle_File spec = "")), (bool_decide_eq_false_2 (_ = ".")) by done. cbn [orb negb].
    destruct (list_find _ _) as [[i e]|] eqn:Hf; [|done]. exfalso. apply list_find_Some in Hf as (Hi & Hm & _).
    apply andb_prop in Hm as [Hp%bool_decide_eq_true Ht%bool_decide_eq_true].
    eapply Hnot; [rewrite <-Hperm; by eapply list_elem_of_lookup_2|done|done]. }
  assert (∀ n e e', f !! (rcs ++ q) = Some n → e ∈ items → e' ∈ items → Entry_Path e = join "/" q →
    Entry_Path e' = join "/" q → e = e') as Huniq.
  { intros n e e' _ He He' Hp Hp'. rewrite <-Hperm in He, He'. apply list_elem_of_lookup in He as [i Hi], He' as [j Hj].
    assert (i = j) as ->; [|congruence]. eapply (NoDup_lookup _ i j (join "/" q) Hnd); rewrite list_lookup_fmap.
    - by rewrite Hi, <-Hp.
    - by rewrite Hj, <-Hp'. }
  destruct (f !! (rcs ++ q)) as [n|] eqn:Hn; last first.
  { apply Hfails. intros e He Hp. destruct (Hof e He Hp) as [n Hn']. congruence. }
  destruct (Hat n eq_refl) as (item & Hi & Hip & Htype).
  assert (Entry_Type item ≠ "file" → OracleResult_Passed (evaluateManifestFileOracle spec manifest) = false) as Hfails'.
  { intros Ht. apply Hfails. intros e He Hp. by rewrite (Huniq n e item). }
  destruct n as [mode content|mode|target]; [|by apply Hfails'..].
  destruct (hardlinked (rcs ++ q)); [apply Hfails'; by rewrite Htype|]. destruct Htype as [Ht Hd].
  unfold evaluateManifestFileOracle. rewrite Hpath, Hlocal.
  rewrite (bool_decide_eq_false_2 (Oracle_File spec = "")), (bool_decide_eq_false_2 (_ = ".")) by done. cbn [orb negb].
  destruct (manifest_file_found manifest (join "/" q) item) as [i ->]; [done|by rewrite Hperm| |].
  { unfold manifest_file. by rewrite Hip, Ht, !bool_decide_eq_true_2. }
  rewrite (Evaluate_file f spec res rcs q mode content); [by rewrite Hd|by apply (sr_plain _ _ Hroot)| |done..].
  apply real_dirs_prefix. intros pre Hpre Hpne Hneq. by apply (sr_closed _ _ Hroot pre (rcs ++ q)).
Qed.

(** ** Lemmas: the blobs of a capture *)

Section blobs.
Context `{PGzip : !Gzip}.
Variables (dir_size : list string → Z) (hardlinked : list string → bool) (put_fail : string → option error).
Variables (maxFiles maxBytes : Z).

Lemma scan_item_sound f s relative p n item bytes blobs : blobs_sound (scan_blobs s) →
  scan_item dir_size hardlinked put_fail maxBytes f s relative p n = Ok (item, bytes, blobs) → blobs_sound blobs.
Proof.
  intros Hs Hitem. destruct n; cbn [scan_item] in Hitem; [|by injection Hitem as <- <- <-..].
  destruct (hardlinked p); [by injection Hitem as <- <- <-|]. destruct (bool_decide _); [done|].
  destruct (PutBlob _ _ _) as [blobs1 [digest|]] eqn:Hput; [|done]. injection Hitem as <- <- <-.
  by eapply PutBlob_sound in Hput as [? _].
Qed.

Lemma scan_walk_sound f root paths : ∀ s s', blobs_sound (scan_blobs s) →
  scan_walk dir_size hardlinked put_fail maxFiles maxBytes f root s paths = Ok s' → blobs_sound (scan_blobs s').
Proof.
  induction paths as [|p paths IH]; intros s s' Hs Hw; cbn [scan_walk] in Hw; [by injection Hw as <-|].
  destruct (scan_visit _ _ _ _ _ _ _ _ _) as [s1|] eqn:Hv; [|done]. eapply IH; [|exact Hw].
  unfold scan_visit in Hv. destruct (Rel _ _); [|done]. cbn [rbind] in Hv. step_ok Hv. destruct (Lstat _ _); [|done].
  cbn [rbind] in Hv. destruct (scan_item _ _ _ _ _ _ _ _ _) as [[[item bytes] blobs]|] eqn:Hitem; [|done].
  cbn [rbind] in Hv. step_ok Hv. injection Hv as <-. by eapply scan_item_sound.
Qed.

Lemma bound_walk_sound f rcs paths : ∀ s s', blobs_sound (scan_blobs s) →
  bound_walk dir_size hardlinked put_fail maxFiles maxBytes f rcs s paths = Ok s' → blobs_sound (scan_blobs s').
Proof.
  induction paths as [|p paths IH]; intros s s' Hs Hw; cbn [bound_walk] in Hw; [by injection Hw as <-|].
  destruct (bound_visit _ _ _ _ _ _ _ _ _) as [s1|] eqn:Hv; [|done]. eapply IH; [|exact Hw].
  unfold bound_visit in Hv. step_ok Hv. destruct (f !! p) as [n|]; [|done].
  destruct (scan_item _ _ _ _ _ _ _ _ _) as [[[item bytes] blobs]|] eqn:Hitem; [|done]. cbn [rbind] in Hv. step_ok Hv.
  assert (blobs_sound blobs) by by eapply scan_item_sound.
  destruct n; [by injection Hv as <-| |by injection Hv as <-]. step_ok Hv. by injection Hv as <-.
Qed.
End blobs.

Lemma scan_sound `{!Gzip} bound io limits f blobs root manifest blobs' : blobs_sound blobs →
  scan bound io limits f blobs root = Ok (manifest, blobs') → blobs_sound blobs'.
Proof.
  intros Hs. unfold scan, Scan, ScanRoot. destruct bound.
  - destruct (bound_read_dir _ _ _); [|done]. cbn [rbind]. destruct (bound_walk _ _ _ _ _ _ _ _ _) as [s'|] eqn:Hw; [|done].
    intros [= _ <-]. by eapply bound_walk_sound in Hw.
  - destruct (scan_walk _ _ _ _ _ _ _ _ _) as [s'|] eqn:Hw; [|done].
    intros [= _ <-]. by eapply scan_walk_sound in Hw.
Qed.

Lemma WithDefaults_positive limits : (0 < Limits_MaxWorkspaceFiles (WithDefaults limits))%Z.
Proof. cbn. case_bool_decide; lia. Qed.

(** A scan of either kind, of a directory that is where its name says *)
Lemma scan_Scan `{!Gzip} bound io limits f blobs rcs r : scan_root f rcs → (bound = false ∨ sio_directory io = rcs) →
  (0 ≤ Limits_MaxWorkspaceFiles limits)%Z → scan bound io limits f blobs (abs_path rcs) = Ok r →
  Scan (sio_size io) (sio_hardlinked io) (sio_put io) (Limits_MaxWorkspaceFiles limits)
    (Limits_MaxWorkspaceBytes limits) f blobs (abs_path rcs) = Ok r.
Proof.
  intros Hr Hdir Hpos. unfold scan. destruct bound; [|done]. destruct Hdir as [|<-]; [done|]. by apply ScanRoot_iff.
Qed.

Lemma Scan_sorted `{!Gzip} size links put files_ bytes f blobs root manifest blobs' :
  Scan size links put files_ bytes f blobs root = Ok (manifest, blobs') →
  StronglySorted (key_le Entry_Path) (Manifest_Entries manifest).
Proof.
  unfold Scan. destruct (scan_walk _ _ _ _ _ _ _ _ _) as [s'|]; [|done]. intros [= <- _]. apply sort_by_sorted.
Qed.

(** ** Property: a capture can be replayed *)


(** ** Consulted paths and the redaction key *)

Definition consulted_path (root value : string) : string := Clean (if IsAbs value then value else Join [root; value]).

Lemma consulted_loop_spec root paths : ∀ seen,
  NoDup (Consulted_Path <$> consulted_loop root seen paths) ∧
  ∀ path, path ∈ Consulted_Path <$> consulted_loop root seen paths ↔
    path ∉ seen ∧ ∃ value, value ∈ paths ∧ value ≠ "" ∧ path = consulted_path root value.
Proof.
  assert (∀ absolute, Consulted_Path (consulted_item root absolute) = absolute) as Hitem.
  { intros absolute. unfold consulted_item. by destruct (Rel _ _). }
  induction paths as [|value paths IH]; intros seen; cbn [consulted_loop].
  { split; [constructor|]. intros path. split; [intros []%elem_of_nil|intros (_ & ? & []%elem_of_nil & _)]. }
  case_bool_decide as Hv; [|fold (consulted_path root value); case_bool_decide as Hs].
  - destruct (IH seen) as [Hnd Hin]. split; [done|]. intros path. rewrite Hin. set_solver.
  - destruct (IH seen) as [Hnd Hin]. split; [done|]. intros path. rewrite Hin. set_solver.
  - destruct (IH ({[consulted_path root value]} ∪ seen)) as [Hnd Hin]. cbn. rewrite Hitem. split.
    + apply NoDup_cons. split; [rewrite Hin; set_solver|done].
    + intros path. rewrite elem_of_cons, Hin. split; [set_solver|].
      intros (Hnot & v & Hv' & Hne & ->). destruct (decide (consulted_path root v = consulted_path root value)) as [->|]; set_solver.
Qed.

(** Every path that a process consulted is recorded once, cleaned and made
    absolute, in order. *)
Theorem normalizeConsulted_spec root paths :
  StronglySorted (key_le Consulted_Path) (normalizeConsulted root paths) ∧
  NoDup (Consulted_Path <$> normalizeConsulted root paths) ∧
  ∀ path, path ∈ Consulted_Path <$> normalizeConsulted root paths ↔
    ∃ value, value ∈ paths ∧ value ≠ "" ∧ path = consulted_path root value.
Proof.
  unfold normalizeConsulted. destruct (consulted_loop_spec root paths ∅) as [Hnd Hin].
  split_and!; [apply sort_by_sorted|by rewrite sort_by_perm|]. intros path. rewrite sort_by_perm, Hin. set_solver.
Qed.

(** The key that a capture used is found by every later capture, so that equal
    secrets have equal fingerprints. *)
Theorem redaction_key_stable io io' keys keys' key
    (Hrun : loadOrCreateRedactionKey io keys = (keys', Ok key)) (Hlong : 32 ≤ String.length key)
    (Hread : redact_read io' = None) :
  loadOrCreateRedactionKey io' keys' = (keys', Ok key).
Proof.
  assert (∃ mode, keys' !! redactionPath = Some (key, mode)) as [mode Hkey].
  { unfold loadOrCreateRedactionKey in Hrun.
    destruct (keys !! redactionPath) as [[content mode]|] eqn:Hk; [exists mode|exists 384%Z];
      repeat case_match; simplify_eq; rewrite ?lookup_insert_eq; try done; congruence. }
  unfold loadOrCreateRedactionKey. rewrite Hread, Hkey, bool_decide_eq_false_2; [done|lia].
Qed.

(** Finding: when writing the new key fails half way, the file stays, and every
    later capture is refused until somebody removes it. *)
Example interrupted_key_blocks :
  let failing := mkRedactionIO None None (Ok "0123456789abcdef0123456789abcdef") None None
                   (Some (7, ErrMsg "no space left on device")) None in
  let fine := mkRedactionIO None None (Ok "0123456789abcdef0123456789abcdef") None None None None in
  let '(keys, r) := loadOrCreateRedactionKey failing ∅ in
  r = Err (ErrMsg "no space left on device") ∧ loadOrCreateRedactionKey fine keys = (keys, Err err_short_key) ∧
  (loadOrCreateRedactionKey fine ∅).2 = Ok "0123456789abcdef0123456789abcdef".
Proof. by vm_compute. Qed.

(** ** Witnesses *)

Lemma redaction_key_stable_witness :
  let fine := mkRedactionIO None None (Ok "0123456789abcdef0123456789abcdef") None None None None in
  let keys := (loadOrCreateRedactionKey fine ∅).1 in
  loadOrCreateRedactionKey fine keys = (keys, Ok "0123456789abcdef0123456789abcdef").
Proof.
  apply (redaction_key_stable (mkRedactionIO None None (Ok "0123456789abcdef0123456789abcdef") None None None None) _ ∅).
  - vm_compute. reflexivity.
  - cbn. lia.
  - reflexivity.
Defined.

(** A command that writes a file, captured by name *)
Definition fresh_key : redaction_io :=
  mkRedactionIO None None (Ok "0123456789abcdef0123456789abcdef") None None None None.
Definition plain_scan : scan_io := mkScanIO (λ _, 4096%Z) (λ _, false) (λ _, None) ["w"].
Definition demo_after : fs := <[["w"; "out"] := NFile 420 "done"]> scan_fs.
Definition demo_process (r : run_request) : run_io * fs :=
  (mkRunIO (λ _, no_view) false (mkTraced (mkOutcome [] [] None) [] []) (mkOutcome ["done"] [] None) 10 20, demo_after).
Definition demo_io : capture_io :=
  mkCaptureIO (Ok "/") None scan_fs fresh_key plain_scan zero_host 5 demo_process 25 plain_scan "cap_1" None NoFault 30.
Definition demo_request : capture_request :=
  mkCaptureRequest "demo" "/w" (mkCommandSpec ["make"] "" {["PATH" := "/bin"; "API_TOKEN" := "s3cret"]} 0)
    (mkOracle "exit" (Some 0%Z) "" "" "") (mkCaptureLimits 0 0 0 0) "off".
Definition demo_store : data_store := mkDataStore ∅ ∅ ∅ None ∅.
Definition no_capture : Capture :=
  mkCapture 0 "" 0 0 0 "" "" (mkCommandSpec [] "" ∅ 0) (mkOracle "" None "" "" "") zero_process_result
    zero_oracle_result zero_manifest zero_manifest zero_host [] [] [] [].

(** The run with a codec that knows [value] *)
Definition demo_run_with (value : Capture) : data_store * list process_start * (option Capture * option error) :=
  @capture stored_gzip literal_regexp (single_json value) sample_codec demo_io demo_store demo_request None.
Definition demo_stored : Capture :=
  Capture_Normalize (capture_with_schema (default no_capture (demo_run_with no_capture).2.1)).
Definition demo_run := demo_run_with demo_stored.
Definition demo_capture : Capture := default no_capture demo_run.2.1.

Lemma demo_captured : demo_run = (demo_run.1.1, demo_run.1.2, (Some demo_capture, demo_run.2.2)).
Proof.
  assert (is_Some demo_run.2.1) as [c Hc] by (vm_compute; by eexists).
  unfold demo_capture. rewrite Hc. cbn [default]. by destruct demo_run as [[? ?] [? ?]]; cbn in *; subst.
Qed.

(** Another token, which has another fingerprint *)
Definition other_env : gmap string string := {["PATH" := "/bin"; "API_TOKEN" := "hunter2"]}.
Definition other_request : capture_request :=
  mkCaptureRequest "demo" "/w" (with_environment (Request_Command demo_request) other_env)
    (Request_Oracle demo_request) (mkCaptureLimits 0 0 0 0) "off".


Lemma demo_valid : Capture_Normalize (capture_with_schema demo_capture) = demo_stored.
Proof. vm_compute. reflexivity. Qed.

Lemma capture_records_witness :
  @loadEntity _ (single_json demo_stored) (ds_captures demo_run.1.1) (Capture_ID demo_capture) =
    Ok (Capture_Normalize (capture_with_schema demo_capture)) ∧ Capture_ID demo_capture = "cap_1".
Proof.
  destruct (@capture_records stored_gzip literal_regexp (single_json demo_stored) sample_codec demo_io demo_store
    demo_request None _ _ _ _ demo_captured demo_valid) as (H1 & H2 & _). split; [exact H1|exact H2].
Defined.


(** The tree of the witness is open to its user. *)
Example demo_open : @open_tree ordinary (left_behind demo_io demo_request None demo_capture) ["w"].
Proof. apply open_tree_check. vm_compute. reflexivity. Qed.

Lemma manifest_oracle_agrees_witness :
  let spec := mkOracle "file_digest" None "" "d/../d/x" (sha256_hex "hello") in
  evaluateManifestFileOracle spec scan_demo_result.1 =
    @Evaluate literal_regexp scan_fs spec zero_process_result (abs_path ["w"]).
Proof.
  apply (@manifest_oracle_agrees stored_gzip literal_regexp (λ _, 4096%Z) (λ _, false) (λ _, None) 100 1024 scan_fs ∅ ["w"]
    scan_demo_result.1 scan_demo_result.2 (mkOracle "file_digest" None "" "d/../d/x" (sha256_hex "hello"))
    zero_process_result ["d"; "x"]).
  - apply scan_root_check. vm_compute. reflexivity.
  - reflexivity.
  - vm_compute. reflexivity.
  - reflexivity.
  - split; [discriminate|reflexivity].
  - vm_compute. reflexivity.
  - split; [repeat constructor; done|discriminate].
Defined.
