(* ===== verification/Authorize.v ===== *)
(** * Authorize: which commands the daemon may run, and where

    Models the part of [src/internal/service/service.go] that decides about
    remote execution: [authorizeExecution], [openExecutable] and
    [openDirectoryBeneath].  Each system call sees a file system of its own, so
    that anything may change between two calls; what the kernel says about an
    open descriptor is a [fd_view] of [Runner].  [os.Root], which opens files
    below a directory, is translated from its documented behaviour.  The texts of
    errors have the command or path as it is, where [%q] puts it into quotes. *)

From S2P Require Import Prelude Sha256 Model Paths Fs Config Runner Capturer.

(** ** Opening files *)

(** open(2) without following a link at the end: where and what *)
Definition open_nofollow (f : fs) (path : string) : result (list string * node) :=
  let? p := resolve f false path in
  match get_node f p with
  | None => Err ErrNotExist
  | Some (NSymlink _) => Err ErrLoop
  | Some n => Ok (p, n)
  end.

Definition err_opened : error := ErrMsg "opened command must be a regular executable file".

Definition openExecutable (f : fs) (configuredPath : string) : result (list string * node) :=
  let? (p, info) := open_nofollow f configuredPath in
  fail? negb (executable info) with err_opened in
  Ok (p, info).

(** [O_DIRECTORY|O_NOFOLLOW] *)
Definition open_directory (f : fs) (path : string) : result (list string) :=
  let? (p, info) := open_nofollow f path in
  match info with NDir _ => Ok p | _ => Err ErrNotDir end.

(** *** os.Root

    The name is resolved element by element below the directory [root]; a link
    may not leave it, and neither may [..]. *)
Definition root_max_links : nat := 8.
Definition ErrPathEscapes : error := ErrMsg "path escapes from parent".

Fixpoint root_walk (links : nat) (f : fs) (root : list string) : list string → list string → result (list string) :=
  fix go (cur cs : list string) : result (list string) :=
    match cs with
    | [] => Ok cur
    | c :: rest =>
        if bool_decide (c = EmptyString) || bool_decide (c = ".") then go cur rest
        else if bool_decide (c = "..") then
          if bool_decide (cur = []) then Err ErrPathEscapes else go (parent cur) rest
        else
          match f !! (root ++ cur ++ [c]) with
          | Some (NSymlink target) =>
              if IsAbs target then Err ErrPathEscapes
              else match links with
                   | O => Err ErrLoop
                   | S links => root_walk links f root cur (split_byte slash target ++ rest)
                   end
          | Some (NDir _) => go (cur ++ [c]) rest
          | Some (NFile _ _) => if bool_decide (rest = []) then Ok (cur ++ [c]) else Err ErrNotDir
          | None => Err ErrNotExist
          end
    end.

(** [Root.OpenFile] with [O_DIRECTORY]: the path of the directory below [root] *)
Definition Root_OpenDirectory (f : fs) (root : list string) (name : string) : result (list string) :=
  let? q := root_walk root_max_links f root [] (split_byte slash name) in
  match get_node f (root ++ q) with
  | Some (NDir _) => Ok q
  | Some _ => Err ErrNotDir
  | None => Err ErrNotExist
  end.

(** ** The outside world of one authorisation *)

Record auth_io := mkAuthIO {
  auth_fs_resolve : fs;                  (** [EvalSymlinks] *)
  auth_fs_executable : fs;               (** opening the executable *)
  auth_executable : Z;                   (** its descriptor, and the kernel on it *)
  auth_executable_view : fd_view;
  auth_fs_anchor : fs;                   (** opening the configured directory *)
  auth_anchor_link : result string;
  auth_open_root : option error;         (** [os.OpenRoot] *)
  auth_fs_directory : fs;                (** opening below it, wherever it is by then *)
  auth_root_path : list string;
  auth_directory : Z;
  auth_directory_link : result string;
}.

Definition err_escapes_root : error := ErrMsg "working directory escapes its configured root".
Definition err_root_changed : error := ErrMsg "opened working directory root does not match configured path".
Definition err_command_missing : error := ErrMsg "command is required".
Definition err_command_relative : error := ErrMsg "remote command must be an absolute path".
Definition err_directory_relative : error := ErrMsg "working directory must be an absolute path".
Definition err_executable_changed : error := ErrMsg "opened executable path does not match authorized path".
Definition err_directory_changed : error := ErrMsg "opened working directory does not match authorized path".

Definition openDirectoryBeneath (io : auth_io) (configuredRoot relative : string) : result (list string) :=
  fail? negb (IsLocal relative) with err_escapes_root in
  let? _ := open_directory (auth_fs_anchor io) configuredRoot in
  let? anchorPath := auth_anchor_link io in
  fail? negb (bool_decide (anchorPath = configuredRoot)) with err_root_changed in
  match auth_open_root io with
  | Some err => Err err
  | None => Root_OpenDirectory (auth_fs_directory io) (auth_root_path io) relative
  end.

(** The loop over the allowed directories: the first that contains the
    directory, with the path below it *)
Fixpoint allowed_root (roots : list string) (directory : string) : option (string * string) :=
  match roots with
  | [] => None
  | root :: roots =>
      match Rel root directory with
      | Ok relative => if IsLocal relative then Some (root, relative) else allowed_root roots directory
      | Err _ => allowed_root roots directory
      end
  end.

Definition authorizeExecution (cfg : Config) (io : auth_io) (command : CommandSpec) : result ExecutionBinding :=
  match CommandSpec_Arguments command with
  | [] => Err err_command_missing
  | requested :: _ =>
      fail? negb (IsAbs requested) with err_command_relative in
      match list_find (λ path, Clean requested = path) (Config_AllowedCommands cfg) with
      | None => Err (ErrMsg ("command " +:+ requested +:+ " is not allowed"))
      | Some (_, authorized) =>
          fail? bool_decide (authorized = "") with ErrMsg ("command " +:+ requested +:+ " is not allowed") in
          let directory := CommandSpec_Directory command in
          fail? bool_decide (directory = "") || negb (IsAbs directory) with err_directory_relative in
          let? resolved := EvalSymlinks (auth_fs_resolve io) directory in
          let resolved := Clean resolved in
          match allowed_root (Config_AllowedWorkingDirectories cfg) resolved with
          | None => Err (ErrMsg ("working directory " +:+ directory +:+ " is not allowed"))
          | Some (root, relative) =>
              fail? bool_decide (root = "") with ErrMsg ("working directory " +:+ directory +:+ " is not allowed") in
              let? _ := openExecutable (auth_fs_executable io) authorized in
              let? executablePath := view_link (auth_executable_view io) in
              fail? negb (bool_decide (executablePath = authorized)) with err_executable_changed in
              let? identity := Identity (auth_executable_view io) in
              let? _ := openDirectoryBeneath io root relative in
              let? directoryPath := auth_directory_link io in
              fail? negb (bool_decide (directoryPath = resolved)) with err_directory_changed in
              Ok (mkBinding (Some (auth_executable io)) (Some (auth_directory io)) authorized resolved identity)
          end
      end
  end.

(** ** Lemmas: paths below an allowed directory *)

Lemma clean_comps_up k ps : Forall plain ps → clean_comps false (replicate k ".." ++ ps) = replicate k ".." ++ ps.
Proof.
  intros Hps. unfold clean_comps. rewrite foldl_app.
  assert (∀ j, foldl (clean_step false) (replicate j "..") (replicate k "..") = replicate (k + j) "..") as Hups.
  { induction k as [|k IH]; intros j; [done|]. cbn [replicate foldl].
    change (clean_step false (replicate j "..") "..") with
      (match replicate j ".." with top :: rest => if bool_decide (top = "..") then ".." :: replicate j ".." else rest
       | [] => [".."] end).
    replace (S k + j) with (k + S j) by lia. rewrite <-IH. by destruct j. }
  specialize (Hups 0). rewrite Nat.add_0_r in Hups. cbn [replicate] in Hups. rewrite Hups.
  assert (∀ out, foldl (clean_step false) out ps = reverse ps ++ out) as ->.
  { clear Hups. induction Hps as [|c ps (? & ? & ? & ?) _ IH]; intros out; [done|]. cbn [foldl].
    rewrite IH, reverse_cons, <-app_assoc. unfold clean_step. by rewrite !bool_decide_eq_false_2 by done. }
  by rewrite reverse_app, reverse_involutive, reverse_replicate.
Qed.

Lemma strip_common_spec bs : ∀ ts bs' ts', strip_common bs ts = (bs', ts') →
  ∃ common, bs = common ++ bs' ∧ ts = common ++ ts'.
Proof.
  induction bs as [|b bs IH]; intros [|t ts] bs' ts'; cbn; [by intros [= <- <-]; exists []..|].
  case_bool_decide as Hbt; [subst t|by intros [= <- <-]; exists []].
  intros (common & -> & ->)%IH. by exists (b :: common).
Qed.

Lemma up_not_local k ps : Forall plain ps → IsLocal (join "/" (".." :: replicate k ".." ++ ps)) = false.
Proof.
  intros Hps. set (l := replicate k ".." ++ ps).
  assert (Forall path_elem (".." :: l)) as Hl.
  { constructor; [done|]. apply Forall_app. split; [by apply Forall_replicate|by apply plain_path_elem]. }
  assert (split_byte slash (join "/" (".." :: l)) = ".." :: l) as Hsplit.
  { by apply split_join_elem. }
  assert (IsAbs (join "/" (".." :: l)) = false) as Habs by by destruct l.
  assert (Clean (join "/" (".." :: l)) = join "/" (".." :: l)) as Hclean.
  { unfold Clean. rewrite Habs, path_comps_join by done. pose proof (clean_comps_up (S k) ps Hps) as Hup. cbn [replicate app] in Hup.
    fold l in Hup. by rewrite Hup. }
  unfold IsLocal. rewrite Habs, Hsplit. cbn [existsb]. rewrite (bool_decide_eq_true_2 (".." = "..")), orb_true_r by done.
  rewrite Hclean. case_bool_decide; [done|]. cbn [orb].
  destruct (decide (l = [])) as [Hnil|Hne]; [by rewrite Hnil|].
  rewrite join_cons by done. change (".." +:+ "/" +:+ join "/" l) with ("../" +:+ join "/" l). by rewrite has_prefix_app, andb_false_r.
Qed.

(** [Rel] followed by [IsLocal] decides whether one real path is below another. *)
Definition below_name (q : list string) : string := match q with [] => "." | _ => join "/" q end.

Lemma Rel_local r d : Forall plain r → Forall plain d → ∀ relative,
  (Rel (abs_path r) (abs_path d) = Ok relative ∧ IsLocal relative = true) ↔ ∃ q, d = r ++ q ∧ relative = below_name q.
Proof.
  intros Hr Hd relative. unfold Rel, clean_elems. rewrite !IsAbs_abs, bool_decide_eq_true_2 by done. cbn [negb].
  rewrite !path_comps_abs, !clean_comps_plain by first [done|apply plain_path_elem; done]. split.
  - destruct (strip_common r d) as [bs ts] eqn:Hs. apply strip_common_spec in Hs as (common & -> & ->).
    case_bool_decide; [by intros [? _]|]. intros [Heq Hlocal]. injection Heq as <-.
    apply Forall_app in Hd as [_ Hts]. destruct bs as [|b bs]; [rewrite app_nil_r; by exists ts|].
    exfalso. cbn [length replicate app render] in Hlocal. by rewrite up_not_local in Hlocal.
  - intros (q & -> & ->). rewrite strip_common_app. cbn [head length replicate app]. apply Forall_app in Hd as [_ Hq].
    rewrite bool_decide_eq_false_2 by done. split; [by destruct q|].
    destruct q as [|c q]; [done|]. by apply IsLocal_join.
Qed.

(** ** Lemmas: opening below a directory *)

(** The elements [q] below [root] are directories. *)
Definition dirs_below (f : fs) (root q : list string) : Prop :=
  Forall plain q ∧ ∀ pre, pre `prefix_of` q → pre ≠ [] → ∃ m, f !! (root ++ pre) = Some (NDir m).

Lemma dirs_below_snoc f root q c m : dirs_below f root q → plain c → f !! (root ++ q ++ [c]) = Some (NDir m) →
  dirs_below f root (q ++ [c]).
Proof.
  intros [Hp Hd] Hc Hn. split; [by apply Forall_app; auto|]. intros pre Hpre Hne.
  destruct (decide (pre = q ++ [c])) as [->|Hneq]; [by exists m|]. apply Hd; [by eapply prefix_snoc_inv|done].
Qed.

Lemma root_walk_beneath links f root : ∀ cs cur q, dirs_below f root cur → Forall (λ c, count_byte slash c = 0) cs →
  root_walk links f root cur cs = Ok q →
  dirs_below f root q ∨ ∃ q' c mode content, q = q' ++ [c] ∧ dirs_below f root q' ∧ plain c ∧
    f !! (root ++ q) = Some (NFile mode content).
Proof.
  induction links as [|links IHl]; induction cs as [|c cs IH]; intros cur q Hcur Hcs Hw.
  1, 3: injection Hw as <-; by left.
  all: apply Forall_cons in Hcs as [Hc Hcs]; cbn in Hw; fold root_walk in Hw.
  all: destruct (decide (c = "")) as [->|Hc1]; [by eapply IH|]; rewrite (bool_decide_eq_false_2 (c = "")) in Hw by done.
  all: destruct (decide (c = ".")) as [->|Hc2]; [by eapply IH|]; rewrite (bool_decide_eq_false_2 (c = ".")) in Hw by done.
  all: destruct (decide (c = "..")) as [->|Hc3].
  1, 3: destruct (bool_decide (cur = [])); [done|]; eapply IH; [|done|exact Hw]; destruct Hcur as [Hp Hd];
    split; [by apply Forall_take|]; intros pre Hpre; apply Hd; etrans; [exact Hpre|apply prefix_take].
  all: rewrite (bool_decide_eq_false_2 (c = "..")) in Hw by done; cbn [orb] in Hw.
  all: assert (plain c) as Hplain by done.
  all: destruct (f !! (root ++ cur ++ [c])) as [[mode content|mode|target]|] eqn:Hn; try done.
  1, 4: case_bool_decide; [injection Hw as <-; right; by exists cur, c, mode, content|done].
  1, 3: eapply IH; [by eapply dirs_below_snoc|done|exact Hw].
  - by destruct (IsAbs target).
  - destruct (IsAbs target); [done|]. eapply IHl; [exact Hcur|apply Forall_app; split; [apply split_byte_elem|exact Hcs]|exact Hw].
Qed.

Lemma Root_OpenDirectory_beneath f root name q : Root_OpenDirectory f root name = Ok q →
  Forall plain q ∧ ∃ m, get_node f (root ++ q) = Some (NDir m).
Proof.
  unfold Root_OpenDirectory. destruct (root_walk _ _ _ _ _) as [q'|] eqn:Hw; [|done]. cbn [rbind].
  destruct (get_node f (root ++ q')) as [[|m|]|] eqn:Hn; try done. intros [= <-].
  apply root_walk_beneath in Hw as [[Hp _]|(q1 & c & mode & content & -> & _ & _ & Hf)].
  - split; [done|by exists m].
  - exfalso. cbn in Hn. destruct (root ++ q1 ++ [c]) eqn:He; [by destruct root, q1|]. cbn in Hn. congruence.
  - split; [constructor|]. by intros pre ->%prefix_nil_inv.
  - apply split_byte_elem.
Qed.

Lemma root_walk_real links f root q : ∀ cur, Forall plain q →
  (∀ pre, pre `prefix_of` q → pre ≠ [] → ∃ m, f !! (root ++ cur ++ pre) = Some (NDir m)) →
  root_walk links f root cur q = Ok (cur ++ q).
Proof.
  induction q as [|c q IH]; intros cur Hq Hd; [destruct links; cbn; by rewrite app_nil_r|].
  apply Forall_cons in Hq as [(H1 & H2 & H3 & _) Hq].
  assert (∃ m, f !! (root ++ cur ++ [c]) = Some (NDir m)) as [m Hm].
  { apply Hd; [by apply prefix_cons, prefix_nil|done]. }
  assert (root_walk links f root cur (c :: q) = root_walk links f root (cur ++ [c]) q) as ->.
  { destruct links; cbn; by rewrite (bool_decide_eq_false_2 (c = "")), (bool_decide_eq_false_2 (c = ".")),
      (bool_decide_eq_false_2 (c = "..")), Hm by done. }
  rewrite IH; [by rewrite <-app_assoc|done|]. intros pre Hpre Hne.
  rewrite <-app_assoc. apply (Hd (c :: pre)); [by apply prefix_cons|done].
Qed.

(** ** Lemmas: the course of an authorisation *)

Lemma allowed_root_Some roots directory root relative : allowed_root roots directory = Some (root, relative) →
  root ∈ roots ∧ Rel root directory = Ok relative ∧ IsLocal relative = true.
Proof.
  induction roots as [|r roots IH]; cbn; [done|]. intros Ha.
  destruct (Rel r directory) as [rel|] eqn:Hr; [destruct (IsLocal rel) eqn:Hl|].
  - injection Ha as <- <-. split; [by left|done].
  - destruct (IH Ha) as (? & ? & ?). split; [by right|done].
  - destruct (IH Ha) as (? & ? & ?). split; [by right|done].
Qed.

Lemma allowed_root_is_Some roots directory root relative : root ∈ roots → Rel root directory = Ok relative →
  IsLocal relative = true → is_Some (allowed_root roots directory).
Proof.
  intros Hin Hr Hl. induction roots as [|r roots IH]; [by apply elem_of_nil in Hin|]. cbn.
  apply elem_of_cons in Hin as [<-|Hin]; [rewrite Hr, Hl; by eexists|].
  destruct (Rel r directory) as [rel|]; [destruct (IsLocal rel); [by eexists|]|]; by apply IH.
Qed.

(** Everything that an accepted command went through *)
Record course (cfg : Config) (io : auth_io) (command : CommandSpec) (b : ExecutionBinding)
    (requested resolved root relative : string) : Prop := {
  co_head : head (CommandSpec_Arguments command) = Some requested;
  co_abs : IsAbs requested = true;
  co_allowed : Clean requested ∈ Config_AllowedCommands cfg;
  co_directory : CommandSpec_Directory command ≠ "" ∧ IsAbs (CommandSpec_Directory command) = true;
  co_resolved : EvalSymlinks (auth_fs_resolve io) (CommandSpec_Directory command) = Ok resolved;
  co_root : allowed_root (Config_AllowedWorkingDirectories cfg) (Clean resolved) = Some (root, relative);
  co_executable : is_Ok (openExecutable (auth_fs_executable io) (Clean requested));
  co_link : view_link (auth_executable_view io) = Ok (Clean requested);
  co_identity : Identity (auth_executable_view io) = Ok (Binding_Identity b);
  co_beneath : is_Ok (openDirectoryBeneath io root relative);
  co_directory_link : auth_directory_link io = Ok (Clean resolved);
  co_binding : b = mkBinding (Some (auth_executable io)) (Some (auth_directory io)) (Clean requested) (Clean resolved)
                     (Binding_Identity b);
}.

Lemma authorizeExecution_course cfg io command b : authorizeExecution cfg io command = Ok b →
  ∃ requested resolved root relative, course cfg io command b requested resolved root relative.
Proof.
  unfold authorizeExecution. destruct (CommandSpec_Arguments command) as [|requested args] eqn:Hargs; [done|]. intros Ha.
  step_ok Ha. destruct (list_find _ _) as [[i authorized]|] eqn:Hf; [|done].
  apply list_find_Some in Hf as (Hi%list_elem_of_lookup_2 & <- & _). do 3 step_ok Ha.
  destruct (allowed_root _ _) as [[root relative]|] eqn:Hroot; [|done]. do 8 step_ok Ha.
  injection Ha as <-. bool_prop. exists requested, x, root, relative. split; try done; try congruence; try by eexists.
  by rewrite Hargs.
Qed.

Lemma course_authorized cfg io command b requested resolved root relative : root ≠ "" → Clean requested ≠ "" →
  course cfg io command b requested resolved root relative → authorizeExecution cfg io command = Ok b.
Proof.
  intros Hroot Hne [Hh Habs Hin [Hd Hda] Hres Hal [x Hx] Hl Hid [y Hy] Hdl Hb]. unfold authorizeExecution.
  destruct (CommandSpec_Arguments command) as [|r args]; [done|]. injection Hh as ->. rewrite Habs. cbn [negb].
  destruct (list_find_elem_of (λ path, Clean requested = path) _ _ Hin eq_refl) as [[i a] Hf]. rewrite Hf.
  apply list_find_Some in Hf as (_ & <- & _). rewrite (bool_decide_eq_false_2 (Clean requested = "")) by done.
  rewrite (bool_decide_eq_false_2 (_ = "")), Hda by done. cbn [orb negb]. rewrite Hres. cbn [rbind]. rewrite Hal.
  rewrite (bool_decide_eq_false_2 (root = "")) by done. rewrite Hx. cbn [rbind]. rewrite Hl. cbn [rbind].
  rewrite (bool_decide_eq_true_2 (Clean requested = _)) by done. cbn [negb]. rewrite Hid. cbn [rbind]. rewrite Hy. cbn [rbind].
  rewrite Hdl. cbn [rbind]. rewrite (bool_decide_eq_true_2 (Clean resolved = _)) by done. cbn [negb]. by rewrite Hb at 2.
Qed.

Lemma openExecutable_spec f path p info : openExecutable f path = Ok (p, info) →
  resolve f false path = Ok p ∧ get_node f p = Some info ∧ executable info = true.
Proof.
  unfold openExecutable, open_nofollow. destruct (resolve f false path) as [p'|]; [|done]. cbn [rbind].
  destruct (get_node f p') as [[mode content|mode|]|] eqn:Hn; cbn [rbind]; try done; intros Ho; step_ok Ho;
    injection Ho as <- <-; by rewrite negb_false_iff in E.
Qed.

(** What a successful authorisation went through, for a validated configuration *)
Lemma authorizeExecution_sound f0 cfg io command b
    (Hcfg : valid_config f0 cfg) (Hrun : authorizeExecution cfg io command = Ok b) :
  ∃ requested directory root,
    head (CommandSpec_Arguments command) = Some requested ∧
    Clean requested ∈ Config_AllowedCommands cfg ∧ Binding_ExecutablePath b = Clean requested ∧
    (∃ p mode content, resolve (auth_fs_executable io) false (Clean requested) = Ok p ∧
       get_node (auth_fs_executable io) p = Some (NFile mode content) ∧ Z.land mode 73 ≠ 0%Z) ∧
    view_link (auth_executable_view io) = Ok (Clean requested) ∧
    Identity (auth_executable_view io) = Ok (Binding_Identity b) ∧
    EvalSymlinks (auth_fs_resolve io) (CommandSpec_Directory command) = Ok (abs_path directory) ∧
    abs_path root ∈ Config_AllowedWorkingDirectories cfg ∧ below root directory ∧
    Binding_DirectoryPath b = abs_path directory ∧ auth_anchor_link io = Ok (abs_path root) ∧
    (∃ q m, Forall plain q ∧ get_node (auth_fs_directory io) (auth_root_path io ++ q) = Some (NDir m)) ∧
    auth_directory_link io = Ok (abs_path directory).
Proof.
  apply authorizeExecution_course in Hrun as (requested & resolved & root & relative &
    [Hh Habs Hin [Hd Hda] Hres Hal [[p info] Hx] Hl Hid [y Hy] Hdl Hb]).
  pose proof Hres as (directory & n & -> & Hreal)%EvalSymlinks_real. pose proof (rp_plain _ _ _ Hreal) as Hplain.
  rewrite Clean_abs in Hal, Hdl, Hb by done. apply allowed_root_Some in Hal as (Hrin & Hrel & Hlocal).
  pose proof (vc_directories _ _ Hcfg) as Hdirs. rewrite Forall_forall in Hdirs.
  destruct (Hdirs _ Hrin) as (r & m & -> & Hr). destruct (Rel_local r directory (rp_plain _ _ _ Hr) Hplain relative) as [Hto _].
  destruct (Hto (conj Hrel Hlocal)) as (q & -> & _).
  apply openExecutable_spec in Hx as (Hp & Hn & Hexec).
  exists requested, (r ++ q), r. rewrite Hb. cbn [Binding_ExecutablePath Binding_DirectoryPath Binding_Identity].
  split_and!; try done.
  - destruct info as [mode content| |]; try done. exists p, mode, content. unfold executable in Hexec. by bool_prop.
  - by apply prefix_app_r.
  - unfold openDirectoryBeneath in Hy. do 4 step_ok Hy. bool_prop. congruence.
  - unfold openDirectoryBeneath in Hy. do 4 step_ok Hy. destruct (auth_open_root io); [done|].
    by apply Root_OpenDirectory_beneath in Hy as (? & m' & ?); exists y, m'.
Qed.

(** ** Properties *)

(** only allowed programs run, and only in allowed directories, whatever
    changes while the daemon looks.  Every system call of an authorisation may
    see another file system.  If it succeeds, then the requested program is an
    entry of the allow list; the file that was opened is a regular executable,
    the kernel calls it by the allowed name, and the identity in the binding is
    the one of this file; the requested directory resolved to a path below an
    allowed directory, the directory that was opened lies below the one that
    was open under the allowed name, and the kernel calls it by the resolved
    path. *)
Theorem authorizeExecution_safe f0 cfg io command b
    (Hcfg : valid_config f0 cfg) (Hrun : authorizeExecution cfg io command = Ok b) :
  ∃ requested directory root,
    head (CommandSpec_Arguments command) = Some requested ∧
    Clean requested ∈ Config_AllowedCommands cfg ∧ Binding_ExecutablePath b = Clean requested ∧
    (∃ p mode content, resolve (auth_fs_executable io) false (Clean requested) = Ok p ∧
       get_node (auth_fs_executable io) p = Some (NFile mode content) ∧ Z.land mode 73 ≠ 0%Z) ∧
    view_link (auth_executable_view io) = Ok (Clean requested) ∧
    Identity (auth_executable_view io) = Ok (Binding_Identity b) ∧
    EvalSymlinks (auth_fs_resolve io) (CommandSpec_Directory command) = Ok (abs_path directory) ∧
    abs_path root ∈ Config_AllowedWorkingDirectories cfg ∧ below root directory ∧
    Binding_DirectoryPath b = abs_path directory ∧ auth_anchor_link io = Ok (abs_path root) ∧
    (∃ q m, Forall plain q ∧ get_node (auth_fs_directory io) (auth_root_path io ++ q) = Some (NDir m)) ∧
    auth_directory_link io = Ok (abs_path directory).
Proof. by eapply authorizeExecution_sound. Qed.

(** The policy, for a world that does not change: the program is the cleaned
    first argument and allowed, the directory is the real path of a directory
    and below an allowed one. *)
Record permitted (f : fs) (cfg : Config) (command : CommandSpec) (directory : list string) : Prop := {
  pm_program : ∃ requested, head (CommandSpec_Arguments command) = Some requested ∧ IsAbs requested = true ∧
    Clean requested ∈ Config_AllowedCommands cfg;
  pm_absolute : IsAbs (CommandSpec_Directory command) = true;
  pm_resolved : EvalSymlinks f (CommandSpec_Directory command) = Ok (abs_path directory);
  pm_directory : ∃ m, real_path f directory (NDir m);
  pm_below : ∃ root, Forall plain root ∧ abs_path root ∈ Config_AllowedWorkingDirectories cfg ∧ below root directory;
}.

(** A world in which nothing changes and the kernel gives every open file its
    real path and its content *)
Record still (f : fs) (cfg : Config) (command : CommandSpec) (io : auth_io) : Prop := {
  still_fs : auth_fs_resolve io = f ∧ auth_fs_executable io = f ∧ auth_fs_anchor io = f ∧ auth_fs_directory io = f;
  still_executable requested p mode content : head (CommandSpec_Arguments command) = Some requested →
    openExecutable f (Clean requested) = Ok (p, NFile mode content) →
    view_link (auth_executable_view io) = Ok (abs_path p) ∧ view_content (auth_executable_view io) = Ok content ∧
    is_Ok (view_status (auth_executable_view io));
  still_root resolved root relative p : EvalSymlinks f (CommandSpec_Directory command) = Ok resolved →
    allowed_root (Config_AllowedWorkingDirectories cfg) (Clean resolved) = Some (root, relative) →
    open_directory f root = Ok p → auth_anchor_link io = Ok (abs_path p) ∧ auth_open_root io = None ∧
    auth_root_path io = p ∧
    ∀ q, Root_OpenDirectory f p relative = Ok q → auth_directory_link io = Ok (abs_path (p ++ q));
}.

Lemma open_directory_real f r m : real_path f r (NDir m) → open_directory f (abs_path r) = Ok r.
Proof.
  intros Hr. unfold open_directory, open_nofollow, resolve. rewrite (walk_real_path _ _ _ Hr). cbn [rbind].
  by rewrite (rp_node _ _ _ Hr).
Qed.

Lemma openExecutable_real f p n : real_path f p n → executable n = true → openExecutable f (abs_path p) = Ok (p, n).
Proof.
  intros Hp Hn. unfold openExecutable, open_nofollow, resolve. rewrite (walk_real_path _ _ _ Hp). cbn [rbind].
  rewrite (rp_node _ _ _ Hp). destruct n; [|done|done]. cbn [rbind]. by rewrite Hn.
Qed.

Lemma abs_path_inj p q : Forall plain p → Forall plain q → abs_path p = abs_path q → p = q.
Proof.
  intros Hp Hq Heq. rewrite <-(path_comps_abs p), <-(path_comps_abs q) by by apply plain_path_elem. by rewrite Heq.
Qed.

Lemma still_beneath f cfg command io r q resolved m : still f cfg command io → real_path f (r ++ q) (NDir m) →
  (∃ m, real_path f r (NDir m)) → EvalSymlinks f (CommandSpec_Directory command) = Ok resolved →
  allowed_root (Config_AllowedWorkingDirectories cfg) (Clean resolved) = Some (abs_path r, below_name q) →
  is_Ok (openDirectoryBeneath io (abs_path r) (below_name q)) ∧ auth_directory_link io = Ok (abs_path (r ++ q)).
Proof.
  intros Hstill Hreal [m' Hr] Hres Hal. destruct Hstill as [(_ & _ & Hfa & Hfd) _ Hst].
  pose proof (open_directory_real _ _ _ Hr) as Hopen.
  destruct (Hst _ _ _ _ Hres Hal Hopen) as (Hlink & Hor & Hrp & Hdl).
  pose proof (rp_plain _ _ _ Hreal) as [Hpr Hpq]%Forall_app.
  assert (Root_OpenDirectory f r (below_name q) = Ok q) as Hroot.
  { unfold Root_OpenDirectory. assert (root_walk root_max_links f r [] (split_byte slash (below_name q)) = Ok q) as ->.
    - destruct (decide (q = [])) as [->|Hne]; [done|].
      assert (split_byte slash (below_name q) = q) as ->.
      { destruct q; [done|]. by apply split_join_elem; [apply plain_path_elem|]. }
      rewrite root_walk_real; [done..|]. cbn [app]. intros pre Hpre Hpne.
      destruct (decide (r ++ pre = r ++ q)) as [Heq|Hneq].
      + apply app_inv_head in Heq as ->. exists m. pose proof (rp_node _ _ _ Hreal) as Hn.
        destruct (r ++ q) eqn:He; [by destruct r, q|]. done.
      + apply (rp_dirs _ _ _ Hreal); [by apply prefix_app|by destruct r, pre|done].
    - cbn [rbind]. by rewrite (rp_node _ _ _ Hreal). }
  rewrite (Hdl q Hroot). split; [|done]. unfold openDirectoryBeneath. rewrite Hfa, Hopen, Hlink. cbn [rbind].
  rewrite bool_decide_eq_true_2, Hor, Hrp, Hfd, Hroot by done.
  assert (IsLocal (below_name q) = true) as ->; [|by eexists]. destruct q; [done|]. by apply IsLocal_join.
Qed.

(** C7: nothing else is refused.  In a world that does not change, under a
    validated configuration, a command is authorised exactly when the policy
    permits it. *)
Theorem authorizeExecution_iff f cfg io command
    (Hcfg : valid_config f cfg) (Hstill : still f cfg command io) :
  is_Ok (authorizeExecution cfg io command) ↔ ∃ directory, permitted f cfg command directory.
Proof.
  pose proof (vc_directories _ _ Hcfg) as Hdirs. rewrite Forall_forall in Hdirs.
  pose proof (vc_commands _ _ Hcfg) as Hcmds. rewrite Forall_forall in Hcmds.
  pose proof (still_fs _ _ _ _ Hstill) as (Hf1 & Hf2 & Hf3 & Hf4). split.
  - intros [b Hb]. destruct (authorizeExecution_course _ _ _ _ Hb) as (requested & resolved & root & relative &
      [Hh Habs Hin [Hd Hda] Hres Hal _ _ _ [y Hy] Hdl _]).
    rewrite Hf1 in Hres. pose proof Hres as (directory & n & -> & Hreal)%EvalSymlinks_real.
    pose proof (rp_plain _ _ _ Hreal) as Hplain.
    pose proof Hal as Hal'. rewrite Clean_abs in Hal by done. apply allowed_root_Some in Hal as (Hrin & Hrel & Hlocal).
    destruct (Hdirs _ Hrin) as (r & m & -> & Hr).
    destruct (Rel_local r directory (rp_plain _ _ _ Hr) Hplain relative) as [Hto _].
    destruct (Hto (conj Hrel Hlocal)) as (q & -> & ->).
    exists (r ++ q). split; [by exists requested|done|done| |exists r; split_and!; [apply (rp_plain _ _ _ Hr)|done|by apply prefix_app_r]].
    destruct (still_root _ _ _ _ Hstill _ _ _ _ Hres Hal' (open_directory_real _ _ _ Hr))
      as (_ & _ & Hrp & Hlink).
    unfold openDirectoryBeneath in Hy. do 4 step_ok Hy. destruct (auth_open_root io); [done|].
    rewrite Hf4, Hrp in Hy. rewrite (Hlink _ Hy), Clean_abs in Hdl by done.
    pose proof Hy as (Hyp & m' & Hym)%Root_OpenDirectory_beneath.
    assert (r ++ y = r ++ q) as Hyq.
    { apply abs_path_inj; [apply Forall_app; split; [apply (rp_plain _ _ _ Hr)|done]|done|congruence]. }
    exists m'. rewrite <-Hyq in Hreal |- *. assert (n = NDir m') as -> by (pose proof (rp_node _ _ _ Hreal); congruence). done.
  - intros [directory [(requested & Hh & Habs & Hin) Hda Hres [m Hreal] (root & Hproot & Hrin & q & ->)]].
    pose proof (rp_plain _ _ _ Hreal) as Hplain.
    destruct (allowed_root_is_Some (Config_AllowedWorkingDirectories cfg) (abs_path (root ++ q)) (abs_path root) (below_name q))
      as [[r' relative] Hal]; [done|apply (Rel_local root (root ++ q)); [done..|by exists q]|
      apply (Rel_local root (root ++ q) Hproot Hplain); by exists q|].
    pose proof (allowed_root_Some _ _ _ _ Hal) as (Hrin' & Hrel' & Hlocal').
    destruct (Hdirs _ Hrin') as (r & m' & -> & Hr).
    destruct (Rel_local r (root ++ q) (rp_plain _ _ _ Hr) Hplain relative) as [Hto _].
    destruct (Hto (conj Hrel' Hlocal')) as (q' & Heq & ->).
    destruct (Hcmds _ Hin) as (p & n & Hp & Hpreal & Hexec).
    rewrite Hp in Hin. pose proof (openExecutable_real _ _ _ Hpreal Hexec) as Hopen.
    destruct n as [mode content| |]; [|done..]. rewrite Heq in Hres, Hreal, Hal.
    destruct (still_executable _ _ _ _ Hstill requested p mode content Hh) as (Hlink & Hcontent & stat & Hstat); [by rewrite Hp|].
    assert (∃ identity, Identity (auth_executable_view io) = Ok identity) as [identity Hid].
    { unfold Identity. rewrite Hcontent, Hstat. by eexists. }
    rewrite <-(Clean_abs (r ++ q')) in Hal by by rewrite <-Heq.
    destruct (still_beneath f cfg command io r q' _ m Hstill Hreal (ex_intro _ m' Hr) Hres Hal) as [Hb Hdl].
    exists (mkBinding (Some (auth_executable io)) (Some (auth_directory io)) (Clean requested) (Clean (abs_path (r ++ q'))) identity).
    apply (course_authorized _ _ _ _ requested (abs_path (r ++ q')) (abs_path r) (below_name q')); [done|by rewrite Hp|].
    split; rewrite ?Hp; try done.
    + split; [by intros Hno; rewrite Hno in Hda|done].
    + by rewrite Hf1.
    + rewrite Hf2, Hopen. by eexists.
    + rewrite Clean_abs by by rewrite <-Heq. exact Hdl.
Qed.

(** ** Lemmas: from the authorisation to the process *)

Lemma validateBinding_inv views b : validateBinding views b = Ok tt →
  ∃ executable directory, Binding_ExecutableFile b = Some executable ∧ Binding_DirectoryFile b = Some directory ∧
    Identity (views executable) = Ok (Binding_Identity b) ∧
    view_link (views executable) = Ok (Binding_ExecutablePath b) ∧ view_link (views directory) = Ok (Binding_DirectoryPath b).
Proof.
  unfold validateBinding. destruct (Binding_ExecutableFile b) as [x|], (Binding_DirectoryFile b) as [d|]; try done.
  intros Hv. do 5 step_ok Hv. bool_prop. exists x, d. split_and!; congruence.
Qed.

Lemma Identity_content v v' i : Identity v = Ok i → Identity v' = Ok i →
  ∃ content content', view_content v = Ok content ∧ view_content v' = Ok content' ∧ (content = content' ∨ collision).
Proof.
  unfold Identity. destruct (view_content v) as [c|]; [|done]. destruct (view_content v') as [c'|]; [|done]. cbn [rbind].
  destruct (view_status v) as [s|]; [|done]. destruct (view_status v') as [s'|]; [|done]. cbn [rbind].
  intros H H'. assert (Identity_Digest i = sha256_hex c) as Hc by by injection H as <-.
  assert (Identity_Digest i = sha256_hex c') as Hc' by by injection H' as <-.
  exists c, c'. split_and!; [done..|]. destruct (decide (c = c')) as [->|]; [by left|right]. exists c, c'. split; [done|congruence].
Qed.

(** A started process of a bound run executes the file that the binding
    identifies, in its directory. *)
Lemma run_starts_bound run req b p : Run_Executable req = Some b → p ∈ run_starts run req →
  ∃ executable directory,
    p = mkStart "/proc/self/fd/3" (tail (Run_Command req)) (fd_path directory) (Run_Environment req)
          [Some executable; Some directory] ∧
    Binding_ExecutableFile b = Some executable ∧ Binding_DirectoryFile b = Some directory ∧
    Identity (rio_views run executable) = Ok (Binding_Identity b) ∧
    view_link (rio_views run executable) = Ok (Binding_ExecutablePath b) ∧
    view_link (rio_views run directory) = Ok (Binding_DirectoryPath b).
Proof.
  intros Hb Hp. pose proof (run_starts_same _ _ _ Hp) as ->.
  assert (validateBinding (rio_views run) b = Ok tt) as Hv.
  { unfold run_starts, run_course, binding_refused in Hp. rewrite Hb in Hp. destruct (bool_decide _); [by apply elem_of_nil in Hp|].
    destruct (validateBinding _ _) as [[]|]; [done|by apply elem_of_nil in Hp]. }
  apply validateBinding_inv in Hv as (x & d & Hx & Hd & ? & ? & ?). exists x, d.
  unfold newCommand. rewrite Hb, Hx, Hd. by split_and!.
Qed.

(** ** Witnesses *)

Definition auth_config : Config := with_allowed demo_config ["/usr/bin/make"] ["/srv"].
Definition auth_command : CommandSpec := mkCommandSpec ["/usr/bin/../bin/make"; "all"] "/srv/a/" ∅ 1000.
Definition auth_status : file_status := mkStatus 1 2 3 493 0 0 10 11.
Definition make_view : fd_view := mkView (Ok "/usr/bin/make") (Ok "ELF") (Ok auth_status).
Definition demo_auth : auth_io :=
  mkAuthIO demo_fs demo_fs 5 make_view demo_fs (Ok "/srv") None demo_fs ["srv"] 6 (Ok "/srv/a").
Definition demo_binding : ExecutionBinding :=
  mkBinding (Some 5%Z) (Some 6%Z) "/usr/bin/make" "/srv/a" (mkFileIdentity 1 2 3 493 0 0 10 11 (sha256_hex "ELF")).

Lemma auth_config_valid : valid_config demo_fs auth_config.
Proof. apply (Config_Validate_inv demo_fs demo_config). vm_compute. reflexivity. Qed.

Lemma authorizeExecution_safe_witness :
  ∃ requested directory root,
    head (CommandSpec_Arguments auth_command) = Some requested ∧
    Clean requested ∈ Config_AllowedCommands auth_config ∧ Binding_ExecutablePath demo_binding = Clean requested ∧
    abs_path root ∈ Config_AllowedWorkingDirectories auth_config ∧ below root directory ∧
    Binding_DirectoryPath demo_binding = abs_path directory.
Proof.
  destruct (authorizeExecution_safe demo_fs auth_config demo_auth auth_command demo_binding auth_config_valid)
    as (requested & directory & root & H1 & H2 & H3 & _ & _ & _ & _ & H4 & H5 & H6 & _).
  - vm_compute. reflexivity.
  - exists requested, directory, root. exact (conj H1 (conj H2 (conj H3 (conj H4 (conj H5 H6))))).
Defined.

Lemma demo_still : still demo_fs auth_config auth_command demo_auth.
Proof.
  split; [done|..].
  - intros requested p mode content [= <-] Ho. vm_compute in Ho. injection Ho as <- <- <-. split_and!; [done..|by eexists].
  - intros resolved root relative p Hres Hal Hopen. vm_compute in Hres. injection Hres as <-. vm_compute in Hal.
    injection Hal as <- <-. vm_compute in Hopen. injection Hopen as <-. split_and!; [done..|].
    intros q Hq. vm_compute in Hq. by injection Hq as <-.
Qed.

Lemma authorizeExecution_iff_witness :
  is_Ok (authorizeExecution auth_config demo_auth auth_command) ↔
  ∃ directory, permitted demo_fs auth_config auth_command directory.
Proof. apply (authorizeExecution_iff demo_fs auth_config demo_auth auth_command auth_config_valid demo_still). Defined.
