(* ===== verification/Service.v ===== *)
(** * Service: requests to the daemon and the jobs that serve them

    Models the rest of [src/internal/service/service.go]: [New], the checks
    and the queueing of [EnqueueCapture] and [EnqueueAnalysis], and the
    handlers of both kinds of job, which tie the queue to the capturer and to
    the engine.  The queue is the state of [Manager]; a handler works on the
    [data_store]; both have the audit log of the store. *)

From S2P Require Import Prelude Sha256 Model Json AuditLog Jobs Manager Paths Fs Config Store Workspace Scan Oracle.
From S2P Require Import Runner Engine Bundle Capturer Authorize.

(** ** Errors of the service *)

Record Error := mkServiceError {
  Error_Code : string;
  Error_Message : string;
  Error_HTTPStatus : Z;
}.

(** An [error] that is a [*Error], or another one *)
Inductive failure :=
  | Typed (err : Error)
  | Plain (err : error).

Definition badRequest (message : string) : Error := mkServiceError "bad_request" message 400.
Definition forbidden (code message : string) : Error := mkServiceError code message 403.
Definition conflict (code message : string) : Error := mkServiceError code message 409.

Definition err_disabled : Error := forbidden "remote_execution_disabled" "remote execution is disabled".
Definition err_conflict : Error :=
  conflict "idempotency_conflict" "idempotency key was already used with a different request".

(** What both methods do with the error of [jobs.Enqueue] *)
Definition enqueue_failure (err : error) : failure :=
  if bool_decide (err = ErrIdempotencyConflict) then Typed err_conflict else Plain err.

(** ** New *)

Definition service_manager (cfg : Config) : Manager :=
  Register (Register (Manager.New (Z.to_nat (Config_Workers cfg)) (LeaseDuration cfg) (Config_MaxAttempts cfg)) "capture")
    "analysis".

(** ** Queueing *)

Definition err_no_command : error := ErrMsg "command is required".
Definition err_timeout_range : error := ErrMsg "timeout_ms must be between 1 and 3600000".
Definition err_no_oracle : error := ErrMsg "oracle is required".
Definition err_capture_ids : string := "good_capture_id and bad_capture_id are required".

Definition validateCaptureRequest (request : CaptureJobRequest) : result unit :=
  let command := CaptureJob_Command request in
  fail? bool_decide (length (CommandSpec_Arguments command) = 0) with err_no_command in
  fail? bool_decide (CommandSpec_TimeoutMS command ≤ 0)%Z || bool_decide (3600000 < CommandSpec_TimeoutMS command)%Z
    with err_timeout_range in
  fail? bool_decide (Oracle_Kind (CaptureJob_Oracle request) = "") with err_no_oracle in
  Ok tt.

(** The JSON text of a request, and its digest; marshalling these structs does
    not fail. *)
Definition canonicalPayload {A} `{!Json A} (value : A) : string * string :=
  let payload := json_marshal value in (payload, sha256_hex payload).

(** The outside world of one call of [jobs.Enqueue] *)
Record enqueue_io := mkEnqueueIO {
  eio_create : create_io;
  eio_id : string;
  eio_created : time;
  eio_updated : time;
}.

Section service.
Context `{PAudit : !Json AuditEvent, PCaptureJob : !Json CaptureJobRequest, PAnalysisJob : !Json AnalysisJobRequest}.
Context (cfg : Config).

Definition enqueue {A} `{!Json A} (io : enqueue_io) (s : mstate) (kind principal fingerprint key : string) (request : A) :
    mstate * (failure + Job * bool) :=
  let '(payload, digest) := canonicalPayload request in
  match Enqueue (eio_create io) (eio_id io) (eio_created io) (eio_updated io) s kind payload principal fingerprint key
          digest with
  | (s, Err err) => (s, inl (enqueue_failure err))
  | (s, Ok r) => (s, inr r)
  end.

Definition EnqueueCapture (auth : auth_io) (io : enqueue_io) (s : mstate) (principal fingerprint key : string)
    (request : CaptureJobRequest) : mstate * (failure + Job * bool) :=
  if negb (Config_RemoteExecutionEnabled cfg) then (s, inl (Typed err_disabled))
  else
    match validateCaptureRequest request with
    | Err err => (s, inl (Typed (badRequest (error_text err))))
    | Ok _ =>
        match authorizeExecution cfg auth (CaptureJob_Command request) with
        | Err err => (s, inl (Typed (forbidden "command_not_allowed" (error_text err))))
        | Ok _ => enqueue io s "capture" principal fingerprint key request
        end
    end.

Definition EnqueueAnalysis (io : enqueue_io) (s : mstate) (principal fingerprint key : string)
    (request : AnalysisJobRequest) : mstate * (failure + Job * bool) :=
  if bool_decide (AnalysisJob_GoodCaptureID request = "") || bool_decide (AnalysisJob_BadCaptureID request = "")
  then (s, inl (Typed (badRequest err_capture_ids)))
  else enqueue io s "analysis" principal fingerprint key request.

(** ** Handlers *)

Context `{PGzip : !Gzip, PRegexp : !Regexp, PCapture : !Json Capture}.

Definition capture_limits (command : CommandSpec) : CaptureLimits :=
  mkCaptureLimits (Quotas_MaxWorkspaceFiles (Config_Quotas cfg)) (Quotas_MaxWorkspaceBytes (Config_Quotas cfg))
    (Quotas_MaxOutputBytes (Config_Quotas cfg)) (wrap_int64 (CommandSpec_TimeoutMS command * 1000000)).

(** The request for the capturer; the trace mode is left empty. *)
Definition job_request (request : CaptureJobRequest) : capture_request :=
  mkCaptureRequest (CaptureJob_Label request) (CommandSpec_Directory (CaptureJob_Command request))
    (CaptureJob_Command request) (CaptureJob_Oracle request) (capture_limits (CaptureJob_Command request)) "".

(** Go returns an identifier and an error, and the manager drops the
    identifier when there is an error.  [record.ID] of a nil record would
    panic; see [capture_answers]. *)
Definition err_nil : error := ErrMsg "invalid memory address or nil pointer dereference".

Definition handleCapture (auth : auth_io) (io : capture_io) (s : data_store) (job : Job) :
    data_store * list process_start * result string :=
  match json_decode (Job_Payload job) with
  | Err err => (s, [], Err err)
  | Ok request =>
      match authorizeExecution cfg auth (CaptureJob_Command request) with
      | Err err => (s, [], Err err)
      | Ok binding =>
          let '(s, starts, (record, err)) := CaptureWithBinding io s (job_request request) (Some binding) in
          (s, starts, match record, err with
                      | _, Some err => Err err
                      | Some record, None => Ok (Capture_ID record)
                      | None, None => Err err_nil
                      end)
      end
  end.

Context `{PWorld : !World, PInput : !Json cacheInput, PEntry : !Json experimentCacheEntry, PAnalysis : !Json Analysis}.

Definition analysis_request (good bad : Capture) (request : AnalysisJobRequest) : Engine.Request :=
  Engine.mkRequest (Some good) (Some bad) (CommandSpec_Arguments (Capture_Command bad)) (AnalysisJob_Repetitions request)
    (Quotas_MaxExperiments (Config_Quotas cfg)) (Quotas_MaxFactors (Config_Quotas cfg))
    (Quotas_MaxOutputBytes (Config_Quotas cfg)).

Definition engine_state (s : data_store) (f : fs) (cache : files) (w : world) : Engine.state :=
  Engine.mkState f (ds_blobs s) cache (ds_analyses s) (ds_audit s) [] w.

(** The store, the file system, the cache and the world after the handler; [None] would be an
    analysis that does not end. *)
Definition handleAnalysis (version commit : string) (f : fs) (cache : files) (w : world) (s : data_store) (job : Job) :
    option (data_store * fs * files * world * result string) :=
  let stop err := Some (s, f, cache, w, Err err) in
  match json_decode (Job_Payload job) with
  | Err err => stop err
  | Ok request =>
      match loadCapture s (AnalysisJob_GoodCaptureID request) with
      | Err err => stop err
      | Ok good =>
          match loadCapture s (AnalysisJob_BadCaptureID request) with
          | Err err => stop err
          | Ok bad =>
              match Analyze version commit (analysis_request good bad request) (engine_state s f cache w) with
              | None => None
              | Some ((analysis, err), st) =>
                  Some (set_audit (set_analyses s (st_analyses st)) (st_audit st), st_fs st, st_cache st, st_world st,
                    match analysis, err with
                    | _, Some err => Err err
                    | None, None => Ok ""
                    | Some analysis, None => Ok (Analysis_ID analysis)
                    end)
              end
          end
      end
  end.

(** One execution of a capture job by the worker [w]: the handler works on the
    store as it is, then the manager records the outcome. *)
Definition run_capture_job (auth : auth_io) (io : capture_io) (jio : job_io) (s : mstate) (ds : data_store) (w : string)
    (job : Job) : mstate * data_store * list process_start :=
  let '(ds, starts, r) := handleCapture auth io (set_audit ds (disk_audit (m_disk s))) job in
  let s := set_disk s (with_audit (m_disk s) (ds_audit ds)) in
  (Manager.finish (service_manager cfg) jio s w job r, ds, starts).
End service.

(** ** Lemmas: queueing *)

Section enqueue.
Context `{PAudit : !Json AuditEvent, PCaptureJob : !Json CaptureJobRequest, PAnalysisJob : !Json AnalysisJobRequest}.

(** A request is known by its principal, kind and key. *)
Definition request_id (fingerprint kind key : string) : string :=
  sha256_hex (fingerprint +:+ NUL +:+ kind +:+ NUL +:+ key).

(** No file operation of the call fails. *)
Definition no_faults (io : enqueue_io) (d : disk) : Prop :=
  cio_fail_job (eio_create io) = None ∧ cio_fail_record (eio_create io) = None ∧
  cio_audit (eio_create io) = NoFault ∧ is_Ok (lastAudit (disk_audit d)).

Definition queued_job (io : enqueue_io) (kind payload principal : string) : Job :=
  job_created (new_job (eio_id io) kind payload principal (eio_created io) (eio_updated io)) (cio_now_job (eio_create io)).

(** How the queue answers, by what it knows of the key *)
Definition enqueue_answer (io : enqueue_io) (s s' : mstate) (kind principal fingerprint key payload : string)
    (r : failure + Job * bool) : Prop :=
  if bool_decide (key = "") then s' = s ∧ r = inl (Plain key_is_required)
  else
    let d := m_disk s in
    match disk_idempotency d !! request_id fingerprint kind key with
    | Some (Ok record) =>
        m_disk s' = d ∧
        if bool_decide (Idem_RequestDigest record = sha256_hex payload) then
          match disk_jobs d !! Idem_JobID record with
          | Some (Ok job) => r = inr (job, true)
          | _ => ∃ err, r = inl err
          end
        else r = inl (Typed err_conflict)
    | Some (Err err) => m_disk s' = d ∧ r = inl (enqueue_failure err)
    | None => no_faults io d →
        r = inr (queued_job io kind payload principal, false) ∧
        disk_jobs (m_disk s') = <[eio_id io := Ok (queued_job io kind payload principal)]> (disk_jobs d) ∧
        m_wake s' = true ∧
        ∃ record, disk_idempotency (m_disk s') = <[request_id fingerprint kind key := Ok record]> (disk_idempotency d) ∧
          Idem_RequestDigest record = sha256_hex payload ∧ Idem_JobID record = eio_id io
    end.

Lemma append_audit_Ok file now actor action et ei rid details : is_Ok (lastAudit file) →
  ∃ file', append_audit file NoFault now actor action et ei rid details = (file', Ok tt).
Proof. intros [[previous sequence] Hl]. unfold append_audit. rewrite Hl. by eexists. Qed.

Lemma enqueue_answered {A} `{!Json A} io s kind principal fingerprint key (request : A) s' r :
  cio_idem_unreadable (eio_create io) = false →
  enqueue io s kind principal fingerprint key request = (s', r) →
  enqueue_answer io s s' kind principal fingerprint key (json_marshal request) r.
Proof.
  intros Hread. unfold enqueue, canonicalPayload, enqueue_answer, Enqueue. set (payload := json_marshal request).
  case_bool_decide as Hkey; [by intros [= <- <-]|].
  unfold CreateJobIdempotent. cbn [Create_IdempotencyKey Create_RequestDigest].
  rewrite (bool_decide_eq_false_2 (key = "")) by done.
  assert (sha256_hex payload ≠ "") as Hdigest.
  { intros Heq. pose proof (sha256_hex_length payload) as Hlen. by rewrite Heq in Hlen. }
  rewrite (bool_decide_eq_false_2 (sha256_hex payload = "")) by done. cbn [orb].
  set (request' := mkCreateJobRequest _ _ _ _ _).
  change (idempotency_id request') with (request_id fingerprint kind key).
  destruct (disk_idempotency (m_disk s) !! request_id fingerprint kind key) as [[record|err]|] eqn:Hidem; rewrite ?Hread.
  - unfold create_existing. cbn [rbind]. change (Create_RequestDigest request') with (sha256_hex payload).
    destruct (bool_decide (Idem_RequestDigest record = sha256_hex payload)); cbn [negb].
    + unfold read_file. destruct (disk_jobs (m_disk s) !! Idem_JobID record) as [[job|err]|]; cbn [rbind];
        intros [= <- <-]; (split; [done|]); by eexists.
    + intros [= <- <-]. done.
  - intros [= <- <-]. done.
  - intros Hrun (Hjob & Hrecord & Haudit & Hlast). revert Hrun. unfold create_new, write_job. rewrite Hjob, Hrecord, Haudit.
    match goal with |- context [append_audit ?f _ ?n ?a ?b ?c ?d ?e ?g] =>
      destruct (append_audit_Ok f n a b c d e g) as [file' ->]; [exact Hlast|] end.
    intros [= <- <-]. split_and!; [done|done|done|]. eexists. split_and!; [reflexivity|done|done].
Qed.
End enqueue.

(** ** Lemmas: handlers *)

Section handlers.
Context `{PAudit : !Json AuditEvent, PCaptureJob : !Json CaptureJobRequest, PGzip : !Gzip, PRegexp : !Regexp,
  PCapture : !Json Capture}.

(** A capture that fails says so: the nil record is never used. *)
Lemma capture_answers io s request binding : is_Some (capture io s request binding).2.1 ∨ is_Some (capture io s request binding).2.2.
Proof.
  unfold capture. destruct (capture_root _ _ _); [|right; by eexists].
  destruct (bool_decide (length _ = 0)); [right; by eexists|].
  destruct (loadOrCreateRedactionKey _ _) as [keys [key|]]; [|right; by eexists].
  destruct (redact_environment _ key). destruct (scan _ _ _ _ _ _) as [[before blobs]|]; [|right; by eexists].
  destruct (cap_process io _) as [run f]. destruct (Run run _) as [res runErr].
  destruct (scan _ (cap_scan_after io) _ _ _ _) as [[after blobs']|]; [|right; by eexists].
  destruct (capture_store _ _ _ _) as [s1 [c err]] eqn:Hstore. apply capture_store_inv in Hstore as [Hr _].
  destruct c; cbn; [left; by eexists|right; exact Hr].
Qed.

Lemma handleCapture_inv cfg auth io s job s' starts r : handleCapture cfg auth io s job = (s', starts, r) →
  (s' = s ∧ starts = [] ∧ ∃ err, r = Err err) ∨
  ∃ request b c err,
    json_decode (Job_Payload job) = Ok request ∧ authorizeExecution cfg auth (CaptureJob_Command request) = Ok b ∧
    capture io s (job_request cfg request) (Some b) = (s', starts, (c, err)) ∧
    match c, err with
    | _, Some err => r = Err err
    | Some c, None => r = Ok (Capture_ID c)
    | None, None => False
    end.
Proof.
  unfold handleCapture. destruct (json_decode _) as [request|err]; [|intros [= <- <- <-]; left; eauto].
  destruct (authorizeExecution _ _ _) as [b|err] eqn:Ha; [|intros [= <- <- <-]; left; eauto].
  unfold CaptureWithBinding. apply authorizeExecution_course in Ha as Hc. destruct Hc as (? & ? & ? & ? & Hc).
  rewrite (co_binding _ _ _ _ _ _ _ _ Hc). cbn [Binding_DirectoryFile]. rewrite <-(co_binding _ _ _ _ _ _ _ _ Hc).
  rewrite bool_decide_eq_true_2 by by eexists.
  pose proof (capture_answers io s (job_request cfg request) (Some b)) as Hans.
  destruct (capture io s _ _) as [[s1 starts1] [c err]] eqn:Hrun. intros [= <- <- <-].
  right. exists request, b, c, err. split_and!; [done..|]. cbn in Hans. destruct c, err; try done. by destruct Hans as [[? ?]|[? ?]].
Qed.

Lemma finish_outcome m jio s w job r j : Job_Type job ∈ manager_kinds m →
  disk_jobs (m_disk s) !! Job_ID job = Some (Ok j) → Job_State j = JobRunning → Job_LeaseOwner j = w →
  jio_fail_write jio (Job_ID job) = None →
  disk_jobs (m_disk (Manager.finish m jio s w job r)) = <[Job_ID job := Ok
    (match r with
     | Ok ref => job_completed j JobSucceeded ref "" (jio_now jio)
     | Err err => job_completed j JobFailed "" (error_text err) (jio_now jio)
     end)]> (disk_jobs (m_disk s)).
Proof.
  intros Hk Hj Hs Hw Hio. unfold Manager.finish, CompleteJob, read_file, write_job. rewrite Hj, Hio.
  rewrite (bool_decide_eq_true_2 (Job_Type job ∈ manager_kinds m)), (bool_decide_eq_true_2 (Job_State j = JobRunning)),
    (bool_decide_eq_true_2 (Job_LeaseOwner j = w)) by done. cbn [negb orb].
  destruct r; [rewrite (bool_decide_eq_true_2 (JobSucceeded = JobSucceeded))|
    rewrite (bool_decide_eq_false_2 (JobFailed = JobSucceeded)), (bool_decide_eq_true_2 (JobFailed = JobFailed))]; try done; cbn [negb andb];
    by destruct (append_audit _ _ _ _ _ _ _ _ _).
Qed.
End handlers.

(** ** Properties *)

Definition acceptable (cfg : Config) (auth : auth_io) (request : CaptureJobRequest) : Prop :=
  Config_RemoteExecutionEnabled cfg = true ∧ validateCaptureRequest request = Ok tt ∧
  is_Ok (authorizeExecution cfg auth (CaptureJob_Command request)).

(** C11: how a capture request is answered.  A request that is not enabled,
    valid and authorised is refused with 400 or 403 and changes nothing.  An
    acceptable request needs a key; under a known key it gets the job of that
    key again, or 409 when the key was used for another request, and the queue
    does not change; under a new key, when no file operation fails, exactly one
    queued job with this payload is added, the key is registered for it, and
    the workers are woken. *)
Theorem EnqueueCapture_answers `{!Json AuditEvent, !Json CaptureJobRequest} cfg auth io s principal fingerprint key request s' r
    (Hread : cio_idem_unreadable (eio_create io) = false)
    (Hrun : EnqueueCapture cfg auth io s principal fingerprint key request = (s', r)) :
  (¬ acceptable cfg auth request ∧ s' = s ∧
     ∃ e, r = inl (Typed e) ∧ (Error_HTTPStatus e = 400%Z ∨ Error_HTTPStatus e = 403%Z)) ∨
  (acceptable cfg auth request ∧
     enqueue_answer io s s' "capture" principal fingerprint key (json_marshal request) r).
Proof.
  unfold EnqueueCapture in Hrun. unfold acceptable.
  destruct (Config_RemoteExecutionEnabled cfg); cbn [negb] in Hrun;
    [|injection Hrun as <- <-; left; split_and!; [by intros (? & _)|done|eexists; split; [reflexivity|by right]]].
  destruct (validateCaptureRequest request) as [[]|err] eqn:Hv;
    [|injection Hrun as <- <-; left; split_and!; [by intros (_ & ? & _)|done|eexists; split; [reflexivity|by left]]].
  destruct (authorizeExecution _ _ _) as [b|err] eqn:Ha;
    [|injection Hrun as <- <-; left; split_and!; [by intros (_ & _ & ? & ?)|done|eexists; split; [reflexivity|by right]]].
  right. split; [split_and!; [done|done|by eexists]|]. by apply enqueue_answered.
Qed.

(** C6: what a capture job starts is what was authorised for it.  Whatever the
    payload of the job and whatever changes meanwhile, every process that its
    handler starts is the process of a run that is bound to the executable and
    the directory that [authorizeExecution] opened for the command in the
    payload: it inherits these two descriptors, executes the first and runs in
    the second.  At that run the kernel calls the first by the allowed program
    name of the request, and its content is the content that was read when it
    was authorised, up to a collision of SHA-256; the second is a directory
    below an allowed one.  The arguments are those requested and the
    environment is redacted.  Without an authorisation nothing runs and the
    store stays. *)
Theorem capture_job_runs_authorised `{!Json AuditEvent, !Json CaptureJobRequest, !Gzip, !Regexp, !Json Capture}
    f0 cfg auth io s job s' starts r
    (Hcfg : valid_config f0 cfg) (Hrun : handleCapture cfg auth io s job = (s', starts, r)) :
  ((∀ request, json_decode (Job_Payload job) = Ok request → ¬ is_Ok (authorizeExecution cfg auth (CaptureJob_Command request))) →
     s' = s ∧ starts = []) ∧
  ∀ p, p ∈ starts → ∃ request b req requested directory root executable work environment read executed,
    let run := (cap_process io req).1 in
    json_decode (Job_Payload job) = Ok request ∧
    authorizeExecution cfg auth (CaptureJob_Command request) = Ok b ∧
    Run_Executable req = Some b ∧ p ∈ run_starts run req ∧
    Binding_ExecutableFile b = Some executable ∧ Binding_DirectoryFile b = Some work ∧
    p = mkStart "/proc/self/fd/3" (tail (CommandSpec_Arguments (CaptureJob_Command request))) (fd_path work)
          (EnvironmentToList environment) [Some executable; Some work] ∧ redacted environment ∧
    head (CommandSpec_Arguments (CaptureJob_Command request)) = Some requested ∧
    Clean requested ∈ Config_AllowedCommands cfg ∧
    view_link (rio_views run executable) = Ok (Clean requested) ∧
    view_content (auth_executable_view auth) = Ok read ∧ view_content (rio_views run executable) = Ok executed ∧
    (read = executed ∨ collision) ∧
    abs_path root ∈ Config_AllowedWorkingDirectories cfg ∧ below root directory ∧
    view_link (rio_views run work) = Ok (abs_path directory).
Proof.
  apply handleCapture_inv in Hrun as [(-> & -> & err & _)|(request & b & c & err & Hdec & Ha & Hrun & _)].
  { split; [done|]. by intros p ?%elem_of_nil. }
  split; [intros Hno; destruct (Hno request Hdec); by eexists|]. intros p Hp.
  assert (p ∈ (capture io s (job_request cfg request) (Some b)).1.2) as Hin by by rewrite Hrun.
  apply capture_starts in Hin as (key & root' & Hin). set (req := capture_run _ _ _ _) in Hin. cbn zeta in Hin.
  apply (run_starts_bound _ _ b) in Hin as Hbound; [|done].
  destruct Hbound as (executable & work & Hpeq & Hx & Hd & Hid & Hlx & Hld).
  pose proof (authorizeExecution_sound f0 _ _ _ _ Hcfg Ha) as (requested & directory & root & Hh & Hal & Hb1 & _ & _ & Hid' & _ &
    Hrin & Hbelow & Hb2 & _).
  destruct (Identity_content _ _ _ Hid' Hid) as (read & executed & Hread & Hexec & Hsame).
  exists request, b, req, requested, directory, root, executable, work, (redact_environment
    (CommandSpec_Environment (CaptureJob_Command request)) key).1, read, executed.
  rewrite Hb1 in Hlx. rewrite Hb2 in Hld. split_and!; try done. apply redact_environment_redacted.
Qed.

(** the outcome of a capture job is the fate of its capture.  When a worker
    that holds a running capture job executes it and the job file can be
    written, exactly this file changes: the job succeeded and names a capture
    that is in the store, for the request in its payload; or it failed, with
    the text of the error and no capture named. *)
Theorem capture_job_recorded `{!Json AuditEvent, !Json CaptureJobRequest, !Gzip, !Regexp, !Json Capture}
    cfg auth io jio s ds w job j s' ds' starts
    (Hkind : Job_Type job = "capture") (Hfile : disk_jobs (m_disk s) !! Job_ID job = Some (Ok j))
    (Hheld : Job_State j = JobRunning ∧ Job_LeaseOwner j = w) (Hio : jio_fail_write jio (Job_ID job) = None)
    (Hrun : run_capture_job cfg auth io jio s ds w job = (s', ds', starts)) :
  ∃ j', disk_jobs (m_disk s') = <[Job_ID job := Ok j']> (disk_jobs (m_disk s)) ∧
    ((∃ request c, Job_State j' = JobSucceeded ∧ Job_ResultRef j' = Capture_ID c ∧ Job_Error j' = "" ∧
        json_decode (Job_Payload job) = Ok request ∧
        Capture_Label c = CaptureJob_Label request ∧ Capture_Oracle c = CaptureJob_Oracle request ∧
        CommandSpec_Arguments (Capture_Command c) = CommandSpec_Arguments (CaptureJob_Command request) ∧
        ds_captures ds' !! Capture_ID c = Some (json_encode (Capture_Normalize (capture_with_schema c)))) ∨
     (∃ err, Job_State j' = JobFailed ∧ Job_ResultRef j' = "" ∧ Job_Error j' = error_text err)).
Proof.
  unfold run_capture_job in Hrun. destruct Hheld as [Hs Hw].
  destruct (handleCapture _ _ _ _ _) as [[ds1 starts1] r] eqn:Hh. injection Hrun as <- <- <-.
  assert (disk_jobs (m_disk (set_disk s (with_audit (m_disk s) (ds_audit ds1)))) !! Job_ID job = Some (Ok j)) as Hfile' by done.
  rewrite (finish_outcome (service_manager cfg) jio _ w job r j); [|rewrite Hkind; right; left|done..].
  eexists. split; [reflexivity|].
  destruct r as [ref|err]; [left|right; by exists err].
  apply handleCapture_inv in Hh as [(_ & _ & err & ?)|(request & b & c & err & Hdec & _ & Hcap & Hr)]; [done|].
  destruct c as [c|], err as [err|]; try done. injection Hr as ->.
  apply capture_inv in Hcap as (root & key & keys & evidence & before & blobs & after & res & runErr & _ & _ & _ & _ & _ & _ &
    Hc & _ & _ & _ & Hst).
  exists request, c. assert (Capture_Label c = CaptureJob_Label request ∧ Capture_Oracle c = CaptureJob_Oracle request ∧
    CommandSpec_Arguments (Capture_Command c) = CommandSpec_Arguments (CaptureJob_Command request)) as (H1 & H2 & H3).
  { rewrite Hc. unfold capture_value. by destruct res. }
  split_and!; try done. rewrite Hst. apply lookup_insert_eq.
Qed.

(** an analysis job always ends with an answer: an error, or the identifier
    of an analysis that is in the store. *)
Theorem handleAnalysis_answers `{!Json AuditEvent, !Json AnalysisJobRequest, !Gzip, !Regexp, !Json Capture}
    `{!World, !Json cacheInput, !Json experimentCacheEntry, !Json Analysis} cfg version commit f cache w s job :
  ∃ s' f' cache' w' r, handleAnalysis cfg version commit f cache w s job = Some (s', f', cache', w', r) ∧
    ds_captures s' = ds_captures s ∧ ds_blobs s' = ds_blobs s ∧
    match r with
    | Ok id => ∃ a, Analysis_ID a = id ∧ ds_analyses s' !! id = Some (json_encode a)
    | Err _ => True
    end.
Proof.
  unfold handleAnalysis. destruct (json_decode _) as [request|err]; [|by eauto 20].
  destruct (loadCapture s (AnalysisJob_GoodCaptureID request)) as [good|err]; [|by eauto 20].
  destruct (loadCapture s (AnalysisJob_BadCaptureID request)) as [bad|err]; [|by eauto 20].
  destruct (Analyze_total version commit (analysis_request cfg good bad request) (engine_state s f cache w)) as [[ans st] Hrun].
  rewrite Hrun. destruct (Analyze_finishes version commit (analysis_request cfg good bad request) good bad _ _ _ eq_refl eq_refl Hrun) as (a & err & s0 & Hfin).
  apply finish_stored in Hfin. destruct ans as [analysis err']. cbn [fst snd] in Hfin.
  eexists _, _, _, _, _. split; [reflexivity|]. split_and!; [done|done|].
  destruct analysis as [a'|], err' as [e|]; try done.
  destruct Hfin as (_ & Hst & _). by exists a'.
Qed.

(** ** Witnesses *)

Definition remote_request : CaptureJobRequest :=
  mkCaptureJobRequest auth_command (mkOracle "exit" (Some 0%Z) "" "" "") "remote".
Definition remote_json : Json CaptureJobRequest := single_json remote_request.
Definition remote_io : enqueue_io := mkEnqueueIO (mkCreateIO 2 3 4 false None None false NoFault) "job_7" 1 1.
Definition remote_state : mstate := start (service_manager auth_config) (mkDisk ∅ ∅ None).
Definition remote_enqueued : mstate * (failure + Job * bool) :=
  @EnqueueCapture sample_codec remote_json auth_config demo_auth remote_io remote_state "ada" "f1" "k1" remote_request.

Lemma EnqueueCapture_answers_witness :
  (¬ acceptable auth_config demo_auth remote_request ∧ remote_enqueued.1 = remote_state ∧
     ∃ e, remote_enqueued.2 = inl (Typed e) ∧ (Error_HTTPStatus e = 400%Z ∨ Error_HTTPStatus e = 403%Z)) ∨
  (acceptable auth_config demo_auth remote_request ∧
     @enqueue_answer sample_codec remote_io remote_state remote_enqueued.1 "capture" "ada" "f1" "k1" "{}" remote_enqueued.2).
Proof.
  apply (@EnqueueCapture_answers sample_codec remote_json auth_config demo_auth remote_io remote_state "ada" "f1" "k1"
    remote_request).
  - reflexivity.
  - unfold remote_enqueued. by destruct (EnqueueCapture _ _ _ _ _ _ _ _).
Defined.

(** The job that was queued, claimed by a worker and executed *)
Definition remote_job : Job :=
  mkJob 3 "job_7" "capture" JobRunning "{}" "ada" 2 5 "worker-1" 100 5 1 "" "".
Definition remote_claimed : mstate := start (service_manager auth_config) (mkDisk {["job_7" := Ok remote_job]} ∅ None).
Definition remote_views (fd : Z) : fd_view :=
  if bool_decide (fd = 5)%Z then make_view else mkView (Ok "/srv/a") (Err ErrIsDir) (Ok auth_status).
Definition remote_process (r : run_request) : run_io * fs :=
  (mkRunIO remote_views false (mkTraced (mkOutcome [] [] None) [] []) (mkOutcome ["built"] [] None) 10 20,
   <[["srv"; "a"; "out"] := NFile 420 "x"]> demo_fs).
Definition remote_scan : scan_io := mkScanIO (λ _, 4096%Z) (λ _, false) (λ _, None) ["srv"; "a"].
Definition remote_world : capture_io :=
  mkCaptureIO (Ok "/") None demo_fs fresh_key remote_scan zero_host 5 remote_process 25 remote_scan "cap_9" None NoFault 30.
Definition remote_capture : Json Capture := single_json no_capture.
Definition remote_handled : data_store * list process_start * result string :=
  @handleCapture sample_codec remote_json auth_config stored_gzip literal_regexp remote_capture demo_auth remote_world
    demo_store remote_job.

(** The handler does start a process and succeeds. *)
Example remote_runs : length remote_handled.1.2 = 1 ∧ remote_handled.2 = Ok "cap_9".
Proof. by vm_compute. Qed.

Definition remote_done : mstate * data_store * list process_start :=
  @run_capture_job sample_codec remote_json auth_config stored_gzip literal_regexp remote_capture demo_auth remote_world
    (quiet 50) remote_claimed demo_store "worker-1" remote_job.

Lemma remote_handled_eq : remote_handled = (remote_handled.1.1, remote_handled.1.2, remote_handled.2).
Proof. by destruct remote_handled as [[? ?] ?]. Qed.
Lemma remote_done_eq : remote_done = (remote_done.1.1, remote_done.1.2, remote_done.2).
Proof. by destruct remote_done as [[? ?] ?]. Qed.

Lemma capture_job_runs_authorised_witness :
  length remote_handled.1.2 = 1 ∧ ∀ p, p ∈ remote_handled.1.2 → ∃ requested directory root,
    Clean requested ∈ Config_AllowedCommands auth_config ∧
    abs_path root ∈ Config_AllowedWorkingDirectories auth_config ∧ below root directory ∧ Start_Path p = "/proc/self/fd/3".
Proof.
  destruct (@capture_job_runs_authorised sample_codec remote_json stored_gzip literal_regexp remote_capture demo_fs
    auth_config demo_auth remote_world demo_store remote_job _ _ _ auth_config_valid remote_handled_eq) as [_ Hall].
  split; [exact (proj1 remote_runs)|].
  intros p (request & b & req & requested & directory & root & executable & work & environment & read & executed & _ & _ & _ & _ & _ & _ &
    -> & _ & _ & H1 & _ & _ & _ & _ & H2 & H3 & _)%Hall.
  exists requested, directory, root. exact (conj H1 (conj H2 (conj H3 eq_refl))).
Defined.

Lemma capture_job_recorded_witness :
  ∃ j', disk_jobs (m_disk remote_done.1.1) = <["job_7" := Ok j']> {["job_7" := Ok remote_job]} ∧
    (Job_State j' = JobSucceeded ∨ Job_State j' = JobFailed).
Proof.
  destruct (@capture_job_recorded sample_codec remote_json stored_gzip literal_regexp remote_capture
    auth_config demo_auth remote_world (quiet 50) remote_claimed demo_store "worker-1" remote_job remote_job _ _ _
    eq_refl eq_refl (conj eq_refl eq_refl) eq_refl remote_done_eq) as (j' & H1 & [(? & ? & H2 & _)|(? & H2 & _)]).
  - exists j'. exact (conj H1 (or_introl H2)).
  - exists j'. exact (conj H1 (or_intror H2)).
Defined.
