(* ===== verification/Certificate.v ===== *)
(** * Certificate: signed causal certificates

    Models [src/internal/artifact/certificate.go].  Ed25519 and the PEM and
    DER forms of its keys are the interfaces [Ed25519] and [KeyFiles], with
    the documented facts that a signature made with a key verifies under its
    public half and that a key file reads back; nothing is assumed about
    forging.  Failures of file operations and the random source are inputs. *)

From S2P Require Import Prelude Sha256 Base64 Text Model Json Paths AuditLog Store Bundle.

(** ** The interfaces *)

Class Ed25519 := {
  ed_public : string → string;
  ed_sign : string → string → string;
  ed_verify : string → string → string → bool;
  ed_public_length private : String.length (ed_public private) = 32;
  ed_sign_length private message : String.length (ed_sign private message) = 64;
  ed_correct private message : ed_verify (ed_public private) message (ed_sign private message) = true;
}.

Class KeyFiles := {
  private_pem : string → string;
  public_pem : string → string;
  parse_private : string → result string;
  parse_public : string → result string;
  private_roundtrip private : parse_private (private_pem private) = Ok private;
  public_roundtrip public : parse_public (public_pem public) = Ok public;
}.

(** ** Data *)

Definition certificateV1 : string := "worldbisect.causal-certificate.v1".
Definition certificateV2 : string := "worldbisect.causal-certificate.v2".
Definition causal_model : string := "worldbisect.causal-model.v1".

Record CertificateEvidence := mkEvidence {
  GoodCaptureSHA256 : string;
  BadCaptureSHA256 : string;
  ExperimentsSHA256 : string;
  FactorSetSHA256 : string;
}.

Record CertificateClaims := mkClaims {
  Claims_Model : string;
  Claims_AnalysisID : string;
  Claims_Status : ProofStatus;
  Claims_GoodCaptureID : string;
  Claims_BadCaptureID : string;
  Claims_CausalFactors : list string;
  Claims_ForwardVerified : bool;
  Claims_ReverseVerified : bool;
  Claims_MinimalInModel : bool;
  Claims_EvidenceBoundaries : list string;
  Claims_Limitations : list string;
  Claims_Evidence : CertificateEvidence;
}.

(** [Payload] is the raw JSON of version 1. *)
Record Certificate := mkCertificate {
  Certificate_Format : string;
  Certificate_Payload : string;
  Certificate_Claims : option CertificateClaims;
  Certificate_PublicKey : string;
  Certificate_Signature : string;
  Certificate_GeneratedAt : time;
}.

Record signedV2Value := mkSignedV2 {
  Signed_Format : string;
  Signed_Claims : CertificateClaims;
  Signed_GeneratedAt : time;
}.

Record VerificationResult := mkVerification {
  Verification_Valid : bool;
  Verification_Format : string;
  Verification_AnalysisID : string;
  Verification_Status : string;
  Verification_Trust : string;
  Verification_Model : string;
  Verification_Evidence : option CertificateEvidence;
  Verification_NextAction : string;
  Verification_Error : string;
}.

(** The anonymous struct whose hash is [FactorSetSHA256] *)
Record factor_set := mkFactorSet {
  Set_Factors : list Factor;
  Set_CausalFactors : list string;
}.

(** ** The signing key *)

Definition privatePath : string := "causal_ed25519_private.pem".
Definition publicPath : string := "causal_ed25519_public.pem".

(** A failure to read the key, to make the directory, the new key of
    [GenerateKey], and failures of the two writes *)
Record key_io := mkKeyIO {
  key_read : option error;
  key_mkdir : option error;
  key_generate : result string;
  key_write_private : option error;
  key_write_public : option error;
}.

Definition write_key (keys : gmap string out_file) (name : string) (fail : option error) (content : string)
    (mode : Z) : gmap string out_file * result unit :=
  let '(file, r) := atomicWriteFile (keys !! name) fail content mode in
  (match file with Some file => <[name := file]> keys | None => keys end, r).

Section certificate.
Context `{PEd : !Ed25519, PKeys : !KeyFiles}.

Definition loadOrCreateSigningKey (io : key_io) (keys : gmap string out_file) :
    gmap string out_file * result (string * string) :=
  match key_read io, keys !! privatePath with
  | None, Some (privateBytes, _) =>
      (keys, let? private := parse_private privateBytes in Ok (private, ed_public private))
  | _, _ =>
      match key_mkdir io with
      | Some err => (keys, Err err)
      | None =>
          match key_generate io with
          | Err err => (keys, Err err)
          | Ok private =>
              match write_key keys privatePath (key_write_private io) (private_pem private) 384 with
              | (keys, Err err) => (keys, Err err)
              | (keys, Ok _) =>
                  match write_key keys publicPath (key_write_public io) (public_pem (ed_public private)) 420 with
                  | (keys, Err err) => (keys, Err err)
                  | (keys, Ok _) => (keys, Ok (private, ed_public private))
                  end
              end
          end
      end
  end.

(** [file]: what reading the path gives *)
Definition readPublicKey (file : result string) : result string :=
  let? content := file in parse_public content.

(** ** Claims *)

Context `{PCapture : !Json Capture, PAnalysis : !Json Analysis, PExperiments : !Json (list Experiment),
  PFactors : !Json factor_set, PClaims : !Json CertificateClaims, PSigned : !Json signedV2Value,
  PCertificate : !Json Certificate}.

Definition hashCertificateValue {A} `{!Json A} (value : A) : string := digest (canonicalJSON value).

Definition evidence_of (analysis : Analysis) (good bad : Capture) : CertificateEvidence :=
  mkEvidence (hashCertificateValue good) (hashCertificateValue bad)
    (hashCertificateValue (Analysis_Experiments analysis))
    (hashCertificateValue (mkFactorSet (sort_by Factor_ID (Analysis_Factors analysis))
                             (sort_strings (Analysis_CausalFactors analysis)))).

Definition claimsForAnalysis (analysis : Analysis) (good bad : Capture) : CertificateClaims :=
  mkClaims causal_model (Analysis_ID analysis) (Analysis_Status analysis) (Analysis_GoodCaptureID analysis)
    (Analysis_BadCaptureID analysis) (sort_strings (Analysis_CausalFactors analysis))
    (Analysis_ForwardVerified analysis) (Analysis_ReverseVerified analysis) (Analysis_MinimalInModel analysis)
    (sort_strings (Analysis_EvidenceBoundaries analysis)) (sort_strings (Analysis_Limitations analysis))
    (evidence_of analysis good bad).

Definition err_no_claims : error := ErrMsg "certificate claims are required".

Definition signedV2Bytes (certificate : Certificate) : result string :=
  match Certificate_Claims certificate with
  | None => Err err_no_claims
  | Some claims =>
      Ok (canonicalJSON (mkSignedV2 (Certificate_Format certificate) claims (Certificate_GeneratedAt certificate)))
  end.

(** ** Writing *)

Definition with_signature (certificate : Certificate) (signature : string) : Certificate :=
  mkCertificate (Certificate_Format certificate) (Certificate_Payload certificate) (Certificate_Claims certificate)
    (Certificate_PublicKey certificate) signature (Certificate_GeneratedAt certificate).

Definition certificateForAnalysisWithEvidence (io : key_io) (s : data_store) (analysis : Analysis)
    (good bad : Capture) : data_store * result Certificate :=
  match loadOrCreateSigningKey io (ds_keys s) with
  | (keys, Err err) => (set_keys s keys, Err err)
  | (keys, Ok (private, public)) =>
      let certificate := mkCertificate certificateV2 "" (Some (claimsForAnalysis analysis good bad))
        (RawStd_EncodeToString public) "" (Analysis_CreatedAt analysis) in
      (set_keys s keys,
       let? payload := signedV2Bytes certificate in
       Ok (with_signature certificate (RawStd_EncodeToString (ed_sign private payload))))
  end.

Definition loadAnalysis (s : data_store) (identifier : string) : result Analysis :=
  loadEntity (ds_analyses s) identifier.

Definition certificateForAnalysis (io : key_io) (s : data_store) (analysis : Analysis) :
    data_store * result Certificate :=
  match loadCapture s (Analysis_GoodCaptureID analysis) with
  | Err err => (s, Err err)
  | Ok good =>
      match loadCapture s (Analysis_BadCaptureID analysis) with
      | Err err => (s, Err err)
      | Ok bad => certificateForAnalysisWithEvidence io s analysis good bad
      end
  end.

Definition WriteCertificate (io : key_io) (s : data_store) (analysisID : string) (old : option out_file)
    (fail : option error) : data_store * option out_file * result unit :=
  match loadAnalysis s analysisID with
  | Err err => (s, old, Err err)
  | Ok analysis =>
      match certificateForAnalysis io s analysis with
      | (s, Err err) => (s, old, Err err)
      | (s, Ok certificate) =>
          let '(file, r) := atomicWriteFile old fail (json_encode certificate) 420 in (s, file, r)
      end
  end.

(** ** Verifying *)

Definition untrusted : string := "embedded key not independently trusted".
Definition key_matched : string := "independently trusted key matched".
Definition legacy_model : string := "legacy embedded analysis; evidence hashes unavailable".
Definition discard : string := "discard this certificate and obtain a fresh signed evidence bundle".

Definition rejected (format trust message next : string) : VerificationResult :=
  mkVerification false format "" "" trust "" None next message.

(** The last part of [VerifyCertificate]: the signature, and what is reported *)
Definition verified_result (key signature signed format trust identifier status model : string)
    (evidence : option CertificateEvidence) (next : string) : VerificationResult :=
  if ed_verify key signed signature then
    mkVerification true format identifier status trust model evidence next ""
  else
    mkVerification false format identifier status trust model evidence discard
      "signature verification failed; certificate evidence or metadata was tampered with".

Definition decode_of_length (n : nat) (text : string) : option string :=
  match RawStd_DecodeString text with
  | Some bytes => if bool_decide (String.length bytes = n) then Some bytes else None
  | None => None
  end.

(** The checks by format *)
Definition verify_format (certificate : Certificate) (key signature trust : string) : result VerificationResult :=
  let format := Certificate_Format certificate in
  if bool_decide (format = certificateV1) then
    let? analysis := json_decode (A := Analysis) (Certificate_Payload certificate) in
    Ok (verified_result key signature (json_marshal analysis) format trust (Analysis_ID analysis)
          (show_status (Analysis_Status analysis)) legacy_model None
          "treat this as a legacy certificate and independently review its evidence")
  else if bool_decide (format = certificateV2) then
    match Certificate_Claims certificate with
    | Some claims =>
        if negb (bool_decide (Claims_Model claims = causal_model)) then
          Ok (rejected format trust "unsupported certificate model"
                "use a certificate with a supported causal model")
        else
          let? signed := signedV2Bytes certificate in
          Ok (verified_result key signature signed format trust (Claims_AnalysisID claims)
                (show_status (Claims_Status claims)) (Claims_Model claims) (Some (Claims_Evidence claims))
                "compare the evidence hashes with the retained captures and review the model boundaries")
    | None => Ok (rejected format trust "unsupported certificate model"
                    "use a certificate with a supported causal model")
    end
  else Ok (rejected format trust "unsupported certificate format" "use a supported certificate version").

(** [file] is the content of the certificate, [trusted] that of the public
    key when a path was given. *)
Definition VerifyCertificate (file : result string) (trusted : option (result string)) : result VerificationResult :=
  let? content := file in
  let? certificate := json_strict (A := Certificate) content in
  let format := Certificate_Format certificate in
  match decode_of_length 32 (Certificate_PublicKey certificate) with
  | None => Ok (rejected format "untrusted" "invalid embedded public key"
                  "obtain a complete certificate and inspect its trust key")
  | Some key =>
      let? trust := match trusted with
                    | None => Ok (Some untrusted)
                    | Some trusted =>
                        let? trusted := readPublicKey trusted in
                        Ok (if bool_decide (trusted = key) then Some key_matched else None)
                    end in
      match trust with
      | None => Ok (rejected format "untrusted" "certificate public key is not trusted key"
                      "use the public key belonging to the signing trust root")
      | Some trust =>
          match decode_of_length 64 (Certificate_Signature certificate) with
          | None => Ok (rejected format trust "invalid signature encoding" "obtain a complete certificate")
          | Some signature => verify_format certificate key signature trust
          end
      end
  end.

Definition ClaimsID (certificate : Certificate) : string :=
  match Certificate_Claims certificate with
  | Some claims => Claims_AnalysisID claims
  | None => match json_decode (A := Analysis) (Certificate_Payload certificate) with
            | Ok analysis => Analysis_ID analysis
            | Err _ => ""
            end
  end.

Definition verifyCertificateSignature (certificate : Certificate) (signed status modelName : string) :
    VerificationResult :=
  let valid := match decode_of_length 32 (Certificate_PublicKey certificate),
                     decode_of_length 64 (Certificate_Signature certificate) with
               | Some key, Some signature => ed_verify key signed signature
               | _, _ => false
               end in
  let evidence := Claims_Evidence <$> Certificate_Claims certificate in
  if valid then
    mkVerification true (Certificate_Format certificate) (ClaimsID certificate) status untrusted modelName evidence
      "compare the evidence hashes with retained evidence and review model boundaries" ""
  else
    mkVerification false (Certificate_Format certificate) (ClaimsID certificate) status untrusted modelName evidence
      discard "signature verification failed".

Definition err_payload : error := ErrMsg "certificate payload does not match analysis".
Definition err_format_claims : error := ErrMsg "unsupported certificate format or missing claims".
Definition err_claims : error := ErrMsg "certificate claims or evidence hashes do not match analysis".

Definition verifyCertificateForAnalysis (certificate : Certificate) (analysis : Analysis) (good bad : Capture) :
    result VerificationResult :=
  if bool_decide (Certificate_Format certificate = certificateV1) then
    let? payload := json_decode (A := Analysis) (Certificate_Payload certificate) in
    let expected := json_marshal payload in
    fail? negb (bool_decide (expected = json_marshal analysis)) with err_payload in
    Ok (verifyCertificateSignature certificate expected (show_status (Analysis_Status payload)) legacy_model)
  else
    match Certificate_Claims certificate with
    | Some claims =>
        fail? negb (bool_decide (Certificate_Format certificate = certificateV2)) with err_format_claims in
        fail? negb (bool_decide (json_marshal (claimsForAnalysis analysis good bad) = json_marshal claims))
          with err_claims in
        let? signed := signedV2Bytes certificate in
        Ok (verifyCertificateSignature certificate signed (show_status (Claims_Status claims)) (Claims_Model claims))
    | None => Err err_format_claims
    end.

Definition verifyCertificateValue (certificate : Certificate) (analysis : Analysis) (good bad : Capture) :
    VerificationResult :=
  match verifyCertificateForAnalysis certificate analysis good bad with
  | Ok result => result
  | Err err => mkVerification false "" (Analysis_ID analysis) "" "" "" None
                 "discard the certificate and obtain a fresh diagnostic bundle" (error_text err)
  end.
End certificate.

(** ** Lemmas *)

Lemma decode_encode_length n bytes : String.length bytes = n →
  decode_of_length n (RawStd_EncodeToString bytes) = Some bytes.
Proof. intros Hlen. unfold decode_of_length. rewrite RawStd_roundtrip. by rewrite bool_decide_eq_true_2. Qed.

Lemma canonical_inj {A} `{CanonicalJson A} (a b : A) : json_valid a → json_valid b →
  canonicalJSON a = canonicalJSON b → a = b.
Proof.
  intros Ha Hb Heq. apply canonical_reads in Ha, Hb. rewrite Heq, Hb in Ha. by injection Ha.
Qed.

Lemma hash_inj {A} `{CanonicalJson A} (a b : A) : json_valid a → json_valid b →
  hashCertificateValue a = hashCertificateValue b → a = b ∨ collision.
Proof.
  intros Ha Hb Heq. destruct (decide (canonicalJSON a = canonicalJSON b)) as [|Hne].
  - left. by apply canonical_inj.
  - right. by exists (canonicalJSON a), (canonicalJSON b).
Qed.

Section lemmas.
Context `{PEd : !Ed25519, PKeys : !KeyFiles, PCapture : !Json Capture, PAnalysis : !Json Analysis,
  PExperiments : !Json (list Experiment), PFactors : !Json factor_set, PClaims : !Json CertificateClaims,
  PSigned : !Json signedV2Value, PCertificate : !Json Certificate}.

Definition quiet_keys : key_io := mkKeyIO None None (Err (ErrMsg "no randomness")) None None.

Lemma write_key_ok keys name fail content mode keys' : write_key keys name fail content mode = (keys', Ok tt) →
  keys' = <[name := (content, mode)]> keys.
Proof. unfold write_key, atomicWriteFile. destruct fail; [done|]. by intros [= <-]. Qed.

(** How a key was obtained: read, or generated and written *)
Lemma signing_key_inv io keys keys' private public :
  loadOrCreateSigningKey io keys = (keys', Ok (private, public)) →
  public = ed_public private ∧
  ((keys' = keys ∧ ∃ content mode, keys !! privatePath = Some (content, mode) ∧ parse_private content = Ok private) ∨
   (key_generate io = Ok private ∧
    keys' = <[publicPath := (public_pem public, 420%Z)]> (<[privatePath := (private_pem private, 384%Z)]> keys))).
Proof.
  assert (∀ out, match key_mkdir io with
      | Some err => (keys, Err err)
      | None => match key_generate io with
        | Err err => (keys, Err err)
        | Ok private => match write_key keys privatePath (key_write_private io) (private_pem private) 384 with
          | (keys, Err err) => (keys, Err err)
          | (keys, Ok _) =>
            match write_key keys publicPath (key_write_public io) (public_pem (ed_public private)) 420 with
            | (keys, Err err) => (keys, Err err)
            | (keys, Ok _) => (keys, Ok (private, ed_public private))
            end end end end = out → out = (keys', Ok (private, public)) → public = ed_public private ∧
    key_generate io = Ok private ∧
    keys' = <[publicPath := (public_pem public, 420%Z)]> (<[privatePath := (private_pem private, 384%Z)]> keys)) as Hgen.
  { intros out <- H. destruct (key_mkdir io); [done|]. destruct (key_generate io) as [k|]; [|done].
    destruct (write_key _ privatePath _ _ _) as [keys1 [[]|]] eqn:H1; [|done]. apply write_key_ok in H1 as ->.
    destruct (write_key _ publicPath _ _ _) as [keys2 [[]|]] eqn:H2; [|done]. apply write_key_ok in H2 as ->.
    by injection H as <- <- <-. }
  unfold loadOrCreateSigningKey. destruct (key_read io).
  { intros H. destruct (Hgen _ eq_refl H) as (? & ? & ?). split; [done|by right]. }
  destruct (keys !! privatePath) as [[file mode]|] eqn:Hkey.
  2: { intros H. destruct (Hgen _ eq_refl H) as (? & ? & ?). split; [done|by right]. }
  destruct (parse_private file) as [k|] eqn:Hk; [|done]. intros [= <- <- <-]. split; [done|left].
  split; [done|]. by exists file, mode.
Qed.

(** A signing key, once there, is the one that is used. *)
Lemma signing_key_kept io keys keys' private public :
  loadOrCreateSigningKey io keys = (keys', Ok (private, public)) →
  public = ed_public private ∧
  ∀ io', key_read io' = None → loadOrCreateSigningKey io' keys' = (keys', Ok (private, public)).
Proof.
  intros (-> & Hkey)%signing_key_inv. split; [done|]. intros io' Hread. unfold loadOrCreateSigningKey. rewrite Hread.
  destruct Hkey as [(-> & content & mode & -> & Hparse)|(_ & ->)]; [by rewrite Hparse|].
  rewrite lookup_insert_ne, lookup_insert_eq, private_roundtrip by done. done.
Qed.

(** What [certificateForAnalysis] signs *)
Lemma certificateForAnalysis_inv io s analysis s' certificate :
  certificateForAnalysis io s analysis = (s', Ok certificate) →
  ∃ good bad private, loadCapture s (Analysis_GoodCaptureID analysis) = Ok good ∧
    loadCapture s (Analysis_BadCaptureID analysis) = Ok bad ∧
    loadOrCreateSigningKey io (ds_keys s) = (ds_keys s', Ok (private, ed_public private)) ∧
    s' = set_keys s (ds_keys s') ∧
    certificate = mkCertificate certificateV2 "" (Some (claimsForAnalysis analysis good bad))
      (RawStd_EncodeToString (ed_public private))
      (RawStd_EncodeToString (ed_sign private (canonicalJSON
         (mkSignedV2 certificateV2 (claimsForAnalysis analysis good bad) (Analysis_CreatedAt analysis)))))
      (Analysis_CreatedAt analysis).
Proof.
  unfold certificateForAnalysis. intros H. destruct (loadCapture s (Analysis_GoodCaptureID _)) as [good|]; [|done].
  destruct (loadCapture s (Analysis_BadCaptureID _)) as [bad|]; [|done].
  unfold certificateForAnalysisWithEvidence in H.
  destruct (loadOrCreateSigningKey io (ds_keys s)) as [keys [[private public]|]] eqn:Hkey; [|done].
  pose proof (signing_key_kept _ _ _ _ _ Hkey) as [-> _]. injection H as <- <-.
  by exists good, bad, private.
Qed.

(** A signature made with the private key, checked with the public one *)
Lemma verify_signed claims at_ private trust : Claims_Model claims = causal_model →
  let signed := canonicalJSON (mkSignedV2 certificateV2 claims at_) in
  verify_format (mkCertificate certificateV2 "" (Some claims) (RawStd_EncodeToString (ed_public private))
      (RawStd_EncodeToString (ed_sign private signed)) at_)
    (ed_public private) (ed_sign private signed) trust =
  Ok (mkVerification true certificateV2 (Claims_AnalysisID claims) (show_status (Claims_Status claims)) trust
        causal_model (Some (Claims_Evidence claims))
        "compare the evidence hashes with the retained captures and review the model boundaries" "").
Proof.
  intros Hmodel signed. unfold verify_format. cbn [Certificate_Format Certificate_Claims].
  rewrite bool_decide_eq_false_2, bool_decide_eq_true_2 by done. rewrite Hmodel, bool_decide_eq_true_2 by done.
  cbn [negb signedV2Bytes Certificate_Claims Certificate_Format Certificate_GeneratedAt rbind].
  fold signed. unfold verified_result. by rewrite ed_correct.
Qed.

(** a written certificate verifies.  A certificate that was written for an
    analysis is valid, reports the analysis, its status and the hashes of its
    evidence, is marked as not independently trusted without a public key, and
    with one it is matched exactly when that key is the public half of the
    store's signing key, which every later certificate of the store uses. *)
Theorem WriteCertificate_verifies io s id old s' content mode analysis
    (Hload : loadAnalysis s id = Ok analysis)
    (Hvalid : ∀ s1 certificate, certificateForAnalysis io s analysis = (s1, Ok certificate) → json_valid certificate)
    (Hrun : WriteCertificate io s id old None = (s', Some (content, mode), Ok tt)) :
  ∃ good bad private,
    loadCapture s (Analysis_GoodCaptureID analysis) = Ok good ∧
    loadCapture s (Analysis_BadCaptureID analysis) = Ok bad ∧
    (∀ io', key_read io' = None →
       loadOrCreateSigningKey io' (ds_keys s') = (ds_keys s', Ok (private, ed_public private))) ∧
    let valid trust := mkVerification true certificateV2 (Analysis_ID analysis) (show_status (Analysis_Status analysis))
      trust causal_model (Some (evidence_of analysis good bad))
      "compare the evidence hashes with the retained captures and review the model boundaries" "" in
    VerifyCertificate (Ok content) None = Ok (valid untrusted) ∧
    ∀ file key, readPublicKey file = Ok key →
      VerifyCertificate (Ok content) (Some file) =
        Ok (if bool_decide (key = ed_public private) then valid key_matched
            else rejected certificateV2 "untrusted" "certificate public key is not trusted key"
                   "use the public key belonging to the signing trust root").
Proof.
  unfold WriteCertificate in Hrun. rewrite Hload in Hrun.
  destruct (certificateForAnalysis io s analysis) as [s1 [certificate|]] eqn:Hc; [|done].
  cbn in Hrun. injection Hrun as <- <- <-. specialize (Hvalid _ _ eq_refl).
  apply certificateForAnalysis_inv in Hc as (good & bad & private & Hg & Hb & Hkey & _ & ->).
  exists good, bad, private. split_and!; [done|done|by apply signing_key_kept in Hkey as [_ ?]|].
  intros valid. split.
  all: unfold VerifyCertificate; cbn [rbind]; rewrite json_strict_roundtrip by done; cbn [rbind];
    cbn [Certificate_PublicKey Certificate_Signature Certificate_Format];
    rewrite !decode_encode_length by first [apply ed_public_length|apply ed_sign_length]; cbn [rbind].
  - by rewrite verify_signed.
  - intros file key ->. cbn [rbind]. case_bool_decide; [|done].
    by rewrite verify_signed.
Qed.

Lemma decode_of_length_Some n text bytes : decode_of_length n text = Some bytes →
  RawStd_DecodeString text = Some bytes ∧ String.length bytes = n.
Proof.
  unfold decode_of_length. destruct (RawStd_DecodeString text) as [b|]; [|done]. case_bool_decide; [|done].
  by intros [= <-].
Qed.

(** What a positive answer reports, by format of the certificate *)
Definition reports (certificate : Certificate) (message : string) (result : VerificationResult) : Prop :=
  (Certificate_Format certificate = certificateV1 ∧ ∃ analysis,
     json_decode (A := Analysis) (Certificate_Payload certificate) = Ok analysis ∧
     message = json_marshal analysis ∧ Verification_AnalysisID result = Analysis_ID analysis ∧
     Verification_Status result = show_status (Analysis_Status analysis) ∧ Verification_Evidence result = None) ∨
  (Certificate_Format certificate = certificateV2 ∧ ∃ claims, Certificate_Claims certificate = Some claims ∧
     Claims_Model claims = causal_model ∧
     message = canonicalJSON (mkSignedV2 certificateV2 claims (Certificate_GeneratedAt certificate)) ∧
     Verification_AnalysisID result = Claims_AnalysisID claims ∧
     Verification_Status result = show_status (Claims_Status claims) ∧
     Verification_Evidence result = Some (Claims_Evidence claims)).

Lemma verified_result_valid key signature signed format trust identifier status model evidence next :
  Verification_Valid (verified_result key signature signed format trust identifier status model evidence next) = true →
  ed_verify key signed signature = true.
Proof. unfold verified_result. by destruct (ed_verify _ _ _). Qed.

Lemma verify_format_valid certificate key signature trust result :
  verify_format certificate key signature trust = Ok result → Verification_Valid result = true →
  Verification_Trust result = trust ∧ Verification_Error result = "" ∧
  ∃ message, ed_verify key message signature = true ∧ reports certificate message result.
Proof.
  unfold verify_format, reports. intros H Hv. case_bool_decide as H1.
  - destruct (json_decode _) as [analysis|] eqn:Ha; [|done]. cbn [rbind] in H. injection H as <-.
    apply verified_result_valid in Hv as Hed. unfold verified_result. rewrite Hed. cbn.
    split_and!; [done..|]. exists (json_marshal analysis). split; [done|left]. split; [done|]. by exists analysis.
  - case_bool_decide as H2; [|by injection H as <-].
    destruct (Certificate_Claims certificate) as [claims|] eqn:Hc; [|by injection H as <-].
    case_bool_decide as Hm; cbn [negb] in H; [|by injection H as <-].
    unfold signedV2Bytes in H. rewrite Hc, H2 in H. cbn [rbind] in H. injection H as <-.
    apply verified_result_valid in Hv as Hed. unfold verified_result. rewrite Hed. cbn.
    split_and!; [done..|]. eexists. split; [exact Hed|right]. split; [done|]. by exists claims.
Qed.

(** a positive verification means what it says.  If a certificate file is
    reported valid, then the embedded key and the signature have the lengths
    of Ed25519, the signature verifies under that key for exactly the message
    that encodes what is reported (the analysis, its status and the evidence
    hashes), and when a public key was given it is the embedded one. *)
Theorem VerifyCertificate_sound file trusted result
    (Hrun : VerifyCertificate file trusted = Ok result) (Hvalid : Verification_Valid result = true) :
  ∃ content certificate key signature message,
    file = Ok content ∧ json_strict content = Ok certificate ∧
    RawStd_DecodeString (Certificate_PublicKey certificate) = Some key ∧ String.length key = 32 ∧
    RawStd_DecodeString (Certificate_Signature certificate) = Some signature ∧ String.length signature = 64 ∧
    ed_verify key message signature = true ∧ reports certificate message result ∧
    match trusted with
    | None => Verification_Trust result = untrusted
    | Some file => readPublicKey file = Ok key ∧ Verification_Trust result = key_matched
    end.
Proof.
  unfold VerifyCertificate in Hrun. destruct file as [content|]; [|done]. cbn [rbind] in Hrun.
  destruct (json_strict content) as [certificate|] eqn:Hc; [|done]. cbn [rbind] in Hrun.
  destruct (decode_of_length 32 _) as [key|] eqn:Hkey; [|by injection Hrun as <-].
  destruct (match trusted with None => _ | Some _ => _ end) as [trust|] eqn:Ht; [|done]. cbn [rbind] in Hrun.
  destruct trust as [trust|]; [|by injection Hrun as <-].
  destruct (decode_of_length 64 _) as [signature|] eqn:Hsig; [|by injection Hrun as <-].
  apply decode_of_length_Some in Hkey as [??], Hsig as [??].
  apply verify_format_valid in Hrun as (Htrust & _ & message & Hed & Hrep); [|done].
  exists content, certificate, key, signature, message. split_and!; try done.
  destruct trusted as [trusted|]; [|by injection Ht as <-].
  destruct (readPublicKey trusted) as [k|]; [|done]. cbn [rbind] in Ht.
  case_bool_decide; [|done]. injection Ht as <-. by subst k.
Qed.

Definition certifiable (analysis : Analysis) (good bad : Capture) : Prop :=
  json_valid (claimsForAnalysis analysis good bad) ∧ json_valid good ∧ json_valid bad ∧
  json_valid (Analysis_Experiments analysis) ∧
  json_valid (mkFactorSet (sort_by Factor_ID (Analysis_Factors analysis))
                (sort_strings (Analysis_CausalFactors analysis))).

Lemma verify_claims_equal `{!CanonicalJson CertificateClaims} certificate analysis good bad result :
  Certificate_Format certificate ≠ certificateV1 →
  verifyCertificateForAnalysis certificate analysis good bad = Ok result →
  ∃ claims, Certificate_Claims certificate = Some claims ∧
    canonicalJSON (claimsForAnalysis analysis good bad) = canonicalJSON claims.
Proof.
  intros Hf. unfold verifyCertificateForAnalysis. rewrite bool_decide_eq_false_2 by done.
  destruct (Certificate_Claims certificate) as [claims|] eqn:Hc; [|done]. intros H. step_ok H. step_ok H. bool_prop.
  exists claims. split; [done|]. unfold canonicalJSON. by f_equal.
Qed.

Lemma sorted_perm (l l' : list string) : sort_strings l = sort_strings l' → l ≡ₚ l'.
Proof. intros Heq. by rewrite <-(sort_strings_perm l), Heq, sort_strings_perm. Qed.

(** C27: a certificate pins down its evidence.  Whenever the same certificate of
    version 2 is accepted for two analyses with their captures, these agree on
    the identifiers, the status, the verification flags, and, as sets of
    lines, the causal factors, boundaries and limitations; and the two captures,
    the experiments and the factors are equal too, unless a SHA-256 collision
    is exhibited. *)
Theorem certificate_binds `{!CanonicalJson Capture, !CanonicalJson (list Experiment), !CanonicalJson factor_set,
    !CanonicalJson CertificateClaims} certificate a good bad a' good' bad' result result'
    (Hformat : Certificate_Format certificate ≠ certificateV1)
    (Hvalid : certifiable a good bad) (Hvalid' : certifiable a' good' bad')
    (H : verifyCertificateForAnalysis certificate a good bad = Ok result)
    (H' : verifyCertificateForAnalysis certificate a' good' bad' = Ok result') :
  (Analysis_ID a = Analysis_ID a' ∧ Analysis_Status a = Analysis_Status a' ∧
   Analysis_GoodCaptureID a = Analysis_GoodCaptureID a' ∧ Analysis_BadCaptureID a = Analysis_BadCaptureID a' ∧
   Analysis_ForwardVerified a = Analysis_ForwardVerified a' ∧
   Analysis_ReverseVerified a = Analysis_ReverseVerified a' ∧
   Analysis_MinimalInModel a = Analysis_MinimalInModel a' ∧
   Analysis_CausalFactors a ≡ₚ Analysis_CausalFactors a' ∧
   Analysis_EvidenceBoundaries a ≡ₚ Analysis_EvidenceBoundaries a' ∧
   Analysis_Limitations a ≡ₚ Analysis_Limitations a') ∧
  (good = good' ∧ bad = bad' ∧ Analysis_Experiments a = Analysis_Experiments a' ∧
   Analysis_Factors a ≡ₚ Analysis_Factors a' ∨ collision).
Proof.
  apply verify_claims_equal in H as (claims & Hc & Heq); [|done].
  apply verify_claims_equal in H' as (claims' & Hc' & Heq'); [|done]. rewrite Hc in Hc'. injection Hc' as <-.
  destruct Hvalid as (V1 & V2 & V3 & V4 & V5), Hvalid' as (V1' & V2' & V3' & V4' & V5').
  assert (claimsForAnalysis a good bad = claimsForAnalysis a' good' bad') as Hclaims
    by (apply canonical_inj; [done..|by rewrite Heq]).
  split.
  - split_and!; [exact (f_equal Claims_AnalysisID Hclaims)|exact (f_equal Claims_Status Hclaims)
      |exact (f_equal Claims_GoodCaptureID Hclaims)|exact (f_equal Claims_BadCaptureID Hclaims)
      |exact (f_equal Claims_ForwardVerified Hclaims)|exact (f_equal Claims_ReverseVerified Hclaims)
      |exact (f_equal Claims_MinimalInModel Hclaims)|apply sorted_perm..];
      [exact (f_equal Claims_CausalFactors Hclaims)|exact (f_equal Claims_EvidenceBoundaries Hclaims)
      |exact (f_equal Claims_Limitations Hclaims)].
  - pose proof (f_equal Claims_Evidence Hclaims) as Hev.
    cbn [claimsForAnalysis Claims_Evidence] in Hev. unfold evidence_of in Hev.
    pose proof (f_equal GoodCaptureSHA256 Hev) as E1. pose proof (f_equal BadCaptureSHA256 Hev) as E2.
    pose proof (f_equal ExperimentsSHA256 Hev) as E3. pose proof (f_equal FactorSetSHA256 Hev) as E4.
    cbn [GoodCaptureSHA256 BadCaptureSHA256 ExperimentsSHA256 FactorSetSHA256] in E1, E2, E3, E4.
    apply hash_inj in E1 as [->|]; [|by right|done..]. apply hash_inj in E2 as [->|]; [|by right|done..].
    apply hash_inj in E3 as [->|]; [|by right|done..]. apply hash_inj in E4 as [E4|]; [|by right|done..].
    left. split_and!; [done..|]. apply (f_equal Set_Factors) in E4. cbn in E4.
    by rewrite <-(sort_by_perm Factor_ID (Analysis_Factors a)), E4, sort_by_perm.
Qed.
End lemmas.

(** ** Witnesses *)

(** A signature scheme without secrets: a signature is a hash of the public
    key and the message, twice. *)
Lemma length_string_of_bytes bytes : String.length (string_of_bytes bytes) = length bytes.
Proof. induction bytes as [|b bytes IH]; [done|]. cbn. by rewrite IH. Qed.

Definition demo_public : string := "0123456789abcdef0123456789abcdef".
Definition demo_sign (message : string) : string :=
  let hash := string_of_bytes (Sum256 (demo_public +:+ message)) in hash +:+ hash.
Definition demo_ed25519 : Ed25519.
Proof.
  refine {| ed_public _ := demo_public; ed_sign _ := demo_sign;
            ed_verify public message signature := bool_decide (signature = demo_sign message) |}.
  - done.
  - intros _ message. unfold demo_sign. by rewrite string_length_append, length_string_of_bytes, length_Sum256.
  - intros _ message. by apply bool_decide_eq_true_2.
Defined.

Definition demo_key_files : KeyFiles.
Proof.
  refine {| private_pem k := "PRIVATE " +:+ k; public_pem k := "PUBLIC " +:+ k;
            parse_private s := Ok (trim_prefix s "PRIVATE "); parse_public s := Ok (trim_prefix s "PUBLIC ") |};
    intros k; by rewrite trim_prefix_app.
Defined.

Definition demo_analysis : Analysis :=
  mkAnalysis 3 "ana-1" 7 "cap-1" "cap-1" [] ["env:A"] [] StatusProven true true true 3 100 "A differs." [] ["one host"].
Definition demo_analyses : Json Analysis := single_json demo_analysis.
Definition demo_experiments : Json (list Experiment) := single_json [].
Definition demo_factor_sets : Json factor_set := single_json (mkFactorSet [] ["env:A"]).
Definition demo_certificate_claims : CertificateClaims :=
  @claimsForAnalysis demo_captures demo_experiments demo_factor_sets demo_analysis demo_capture demo_capture.
Definition demo_claims_json : Json CertificateClaims := single_json demo_certificate_claims.
Definition demo_signed_json : Json signedV2Value :=
  single_json (mkSignedV2 certificateV2 demo_certificate_claims 7).
Definition demo_certificate : Certificate :=
  mkCertificate certificateV2 "" (Some demo_certificate_claims) (RawStd_EncodeToString demo_public)
    (RawStd_EncodeToString (demo_sign ("{}" +:+ NL))) 7.
Definition demo_certificates : Json Certificate := single_json demo_certificate.
#[export] Instance demo_canonical_experiments : @CanonicalJson (list Experiment) demo_experiments.
Proof. by split; intros a ->. Defined.
#[export] Instance demo_canonical_factors : @CanonicalJson factor_set demo_factor_sets.
Proof. by split; intros a ->. Defined.
#[export] Instance demo_canonical_claims : @CanonicalJson CertificateClaims demo_claims_json.
Proof. by split; intros a ->. Defined.

#[local] Existing Instances demo_ed25519 demo_key_files demo_captures demo_analyses demo_experiments
  demo_factor_sets demo_claims_json demo_signed_json demo_certificates.

Definition demo_key_io : key_io := mkKeyIO None None (Ok "secret") None None.
Definition demo_analyst : data_store := mkDataStore hello_blobs {["cap-1" := "{}"]} {["ana-1" := "{}"]} None ∅.
Definition demo_written : data_store * option out_file * result unit :=
  WriteCertificate demo_key_io demo_analyst "ana-1" None None.

Definition demo_certified : data_store * result Certificate :=
  certificateForAnalysis demo_key_io demo_analyst demo_analysis.
Lemma demo_certified_eq : demo_certified.2 = Ok demo_certificate.
Proof. vm_compute. reflexivity. Qed.

Lemma WriteCertificate_verifies_witness :
  ∃ good bad private,
    loadCapture demo_analyst "cap-1" = Ok good ∧ loadCapture demo_analyst "cap-1" = Ok bad ∧
    (∀ io', key_read io' = None → loadOrCreateSigningKey io' (ds_keys demo_written.1.1) =
       (ds_keys demo_written.1.1, Ok (private, ed_public private))) ∧
    let valid trust := mkVerification true certificateV2 "ana-1" "PROVEN" trust causal_model
      (Some (evidence_of demo_analysis good bad))
      "compare the evidence hashes with the retained captures and review the model boundaries" "" in
    VerifyCertificate (Ok "{}") None = Ok (valid untrusted) ∧
    ∀ file key, readPublicKey file = Ok key →
      VerifyCertificate (Ok "{}") (Some file) =
        Ok (if bool_decide (key = ed_public private) then valid key_matched
            else rejected certificateV2 "untrusted" "certificate public key is not trusted key"
                   "use the public key belonging to the signing trust root").
Proof.
  apply (WriteCertificate_verifies demo_key_io demo_analyst "ana-1" None demo_written.1.1 "{}" 420 demo_analysis).
  - reflexivity.
  - intros s1 certificate Hc. change (demo_certified = (s1, Ok certificate)) in Hc.
    pose proof demo_certified_eq as Heq. rewrite Hc in Heq.
    exact (f_equal (λ r, match r with Ok c => c | Err _ => demo_certificate end) Heq).
  - vm_compute. reflexivity.
Defined.

Definition demo_verified : VerificationResult :=
  mkVerification true certificateV2 "ana-1" "PROVEN" key_matched causal_model
    (Some (Claims_Evidence demo_certificate_claims))
    "compare the evidence hashes with the retained captures and review the model boundaries" "".

Lemma VerifyCertificate_sound_witness :
  ∃ content certificate key signature message,
    Ok "{}" = Ok content ∧ json_strict content = Ok certificate ∧
    RawStd_DecodeString (Certificate_PublicKey certificate) = Some key ∧ String.length key = 32 ∧
    RawStd_DecodeString (Certificate_Signature certificate) = Some signature ∧ String.length signature = 64 ∧
    ed_verify key message signature = true ∧ reports certificate message demo_verified ∧
    readPublicKey (Ok ("PUBLIC " +:+ demo_public)) = Ok key ∧ Verification_Trust demo_verified = key_matched.
Proof.
  apply (VerifyCertificate_sound (Ok "{}") (Some (Ok ("PUBLIC " +:+ demo_public))) demo_verified).
  - vm_compute. reflexivity.
  - reflexivity.
Defined.

Definition demo_accepted : result VerificationResult :=
  verifyCertificateForAnalysis demo_certificate demo_analysis demo_capture demo_capture.
Definition demo_acceptance : VerificationResult :=
  mkVerification true certificateV2 "ana-1" "PROVEN" untrusted causal_model
    (Some (Claims_Evidence demo_certificate_claims))
    "compare the evidence hashes with retained evidence and review model boundaries" "".

Lemma demo_certifiable : certifiable demo_analysis demo_capture demo_capture.
Proof. split_and!; reflexivity. Defined.

Lemma certificate_binds_witness :
  demo_accepted = Ok demo_acceptance ∧
  (Analysis_ID demo_analysis = Analysis_ID demo_analysis ∧ demo_capture = demo_capture ∨ collision).
Proof.
  assert (demo_accepted = Ok demo_acceptance) as Ha by (vm_compute; reflexivity). split; [exact Ha|].
  destruct (certificate_binds demo_certificate demo_analysis demo_capture demo_capture demo_analysis demo_capture
    demo_capture demo_acceptance demo_acceptance ltac:(done) demo_certifiable demo_certifiable Ha Ha)
    as [[Hid _] [[Hg _]|Hc]]; [left; by split|by right].
Defined.

(** Any failure to read the signing key is taken for its absence: the key is
    replaced, and certificates made before no longer match it. *)
Example unreadable_key_replaced :
  let keys : gmap string out_file := {[privatePath := (private_pem "first", 384%Z)]} in
  (loadOrCreateSigningKey (mkKeyIO (Some (ErrMsg "input/output error")) None (Ok "second") None None) keys).1
    !! privatePath = Some (private_pem "second", 384%Z).
Proof. vm_compute. reflexivity. Qed.
