(* ===== verification/Diagnostic.v ===== *)
(** * Diagnostic: redacted handoffs of an analysis

    Models [src/internal/artifact/diagnostic.go]: the redaction, the export
    with its certificate, reports and manifest, the preview, and the import
    that checks every declared byte before anything is stored.  [time.Format]
    is the interface [TimeFormat]. *)

From S2P Require Import Prelude Sha256 Base64 Text Model Json Paths AuditLog Store Oracle Report Bundle Certificate.

(** ** Data *)

Definition diagnosticBundleFormat : string := "worldbisect.diagnostic.v1".
Definition maxDiagnosticEntries : Z := 32.
Definition maxDiagnosticTotal : Z := 128 * 2 ^ 20.

Record DiagnosticPreview := mkPreview {
  Preview_IncidentID : string;
  Preview_AnalysisID : string;
  Preview_Status : string;
  Preview_Files : list string;
  Preview_RedactedFields : list string;
  Preview_ConfirmationRequired : bool;
  Preview_RetentionGuidance : string;
}.

Record diagnosticEntry := mkDiagnosticEntry {
  Diagnostic_Path : string;
  Diagnostic_Size : Z;
  Diagnostic_Digest : string;
}.

Record diagnosticManifest := mkDiagnosticManifest {
  Manifest_Format : string;
  Manifest_SchemaVersion : Z;
  Manifest_IncidentID : string;
  Manifest_AnalysisID : string;
  Manifest_CreatedAt : string;
  Manifest_Files : list diagnosticEntry;
}.

(** The structs that are only marshalled, or only read for their format *)
Record incident := mkIncident {
  Incident_Analysis : Analysis;
  Incident_Good : Capture;
  Incident_Bad : Capture;
}.
Record envelope := mkEnvelope { Envelope_Format : string }.

(** [t.UTC().Format("2006-01-02T15:04:05.999999999Z07:00")] *)
Class TimeFormat := { format_time : time → string }.

(** ** Redaction *)

(** [redact.LooksSecret]; the white space that it trims occurs in no
    alternative of the unanchored pattern, so trimming does not change a match. *)
Definition LooksSecret (name : string) : bool := secretName name.

Definition redact_entry (e : WorkspaceEntry) : WorkspaceEntry :=
  mkWorkspaceEntry (if LooksSecret (Entry_Path e) then "[redacted path]" else Entry_Path e) (Entry_Type e)
    (Entry_Mode e) (Entry_Size e) "" "" (Entry_LinkTarget e).

Definition redactManifest (value : WorkspaceManifest) : WorkspaceManifest :=
  mkWorkspaceManifest "[redacted]" (redact_entry <$> Manifest_Entries value) (Manifest_TotalFiles value)
    (Manifest_TotalBytes value) "".

Definition redactEnvironment (values : gmap string string) : gmap string string :=
  map_imap (λ name value, Some (if LooksSecret name then "[redacted]" else value)) values.

Definition redact_result (r : ProcessResult) : ProcessResult :=
  mkProcessResult (ProcessResult_ExitCode r) (ProcessResult_Signal r) (ProcessResult_TimedOut r)
    (ProcessResult_StartedAt r) (ProcessResult_FinishedAt r) (ProcessResult_DurationMS r) "" ""
    (ProcessResult_OutputTruncated r) [] (ProcessResult_Boundaries r).

Definition redact_host (h : HostEvidence) : HostEvidence :=
  mkHostEvidence (Host_OS h) (Host_Arch h) (Host_Kernel h) "" (Host_UID h) (Host_GID h) (Host_Groups h)
    (Host_Capabilities h) (Host_Seccomp h) (Host_Cgroups h) (Host_MountDigest h) (Host_ResourceDigest h)
    (Host_SecurityDigest h).

(** The entry of a factor loses its digests and keeps its path. *)
Definition redact_factor_entry (e : WorkspaceEntry) : WorkspaceEntry :=
  mkWorkspaceEntry (Entry_Path e) (Entry_Type e) (Entry_Mode e) (Entry_Size e) "" "" (Entry_LinkTarget e).

Definition redact_factor (f : Factor) : Factor :=
  mkFactor (Factor_ID f) (Factor_Type f) (if LooksSecret (Factor_Key f) then "[redacted factor]" else Factor_Key f)
    (Factor_GoodPresent f) (Factor_BadPresent f) "" "" (redact_factor_entry (Factor_GoodEntry f))
    (redact_factor_entry (Factor_BadEntry f)) (Factor_Intervenable f).

Definition redact_experiment (e : Experiment) : Experiment :=
  mkExperiment (Experiment_ID e) (Experiment_Kind e) (Experiment_CacheHit e) (Experiment_StartedAt e)
    (Experiment_FinishedAt e) (Experiment_BaseCaptureID e) (Experiment_SourceCaptureID e)
    (Experiment_FactorIDs e) (redact_result (Experiment_Result e)) (Experiment_OracleResult e) "".

Definition zero_analysis : Analysis := mkAnalysis 0 "" 0 "" "" [] [] [] (StatusOther "") false false false 0 0 "" [] [].
Definition zero_capture : Capture :=
  mkCapture 0 "" 0 0 0 "" "" (mkCommandSpec [] "" ∅ 0) (mkOracle "" None "" "" "") zero_process_result
    zero_oracle_result zero_manifest zero_manifest zero_host [] [] [] [].

Section redaction.
Context `{PCapture : !Json Capture, PAnalysis : !Json Analysis}.

(** The clones go through JSON; the errors are ignored. *)
Definition cloneAnalysis (value : Analysis) : Analysis :=
  match json_decode (json_marshal value) with Ok copy => copy | Err _ => zero_analysis end.
Definition cloneCapture (value : Capture) : Capture :=
  match json_decode (json_marshal value) with Ok copy => copy | Err _ => zero_capture end.

Definition redactAnalysis (value : Analysis) : Analysis :=
  let copy := cloneAnalysis value in
  mkAnalysis (Analysis_SchemaVersion copy) (Analysis_ID copy) (Analysis_CreatedAt copy)
    (Analysis_GoodCaptureID copy) (Analysis_BadCaptureID copy) (redact_factor <$> Analysis_Factors copy)
    (Analysis_CausalFactors copy) (redact_experiment <$> Analysis_Experiments copy) (Analysis_Status copy)
    (Analysis_ForwardVerified copy) (Analysis_ReverseVerified copy) (Analysis_MinimalInModel copy)
    (Analysis_Repetitions copy) (Analysis_ExperimentBudget copy) (Analysis_Summary copy)
    (Analysis_EvidenceBoundaries copy) (Analysis_Limitations copy).

Definition redactCapture (value : Capture) : Capture :=
  let copy := cloneCapture value in
  let command := Capture_Command copy in
  let oracle := Capture_Oracle copy in
  mkCapture (Capture_SchemaVersion copy) (Capture_ID copy) (Capture_CreatedAt copy) (Capture_StartedAt copy)
    (Capture_FinishedAt copy) (Capture_Label copy) "[redacted]"
    (mkCommandSpec ["[redacted from diagnostic bundle]"] "[redacted]"
       (redactEnvironment (CommandSpec_Environment command)) (CommandSpec_TimeoutMS command))
    (mkOracle (Oracle_Kind oracle) (Oracle_ExpectedExitCode oracle) "" "" "")
    (redact_result (Capture_Result copy)) (Capture_OracleResult copy) (redactManifest (Capture_Before copy))
    (redactManifest (Capture_Workspace copy)) (redact_host (Capture_Host copy)) (Capture_SecretEvidence copy) []
    (Capture_EvidenceBoundaries copy) (Capture_Warnings copy).
End redaction.

(** ** Reading an archive *)

Definition validDiagnosticID (value : string) : bool :=
  if bool_decide (value = EmptyString) || bool_decide (128 < String.length value) then false
  else
    string_forallb (λ char, is_lower char || is_upper char || is_digit char ||
      bool_decide (char = "-"%char) || bool_decide (char = "_"%char) ||
      bool_decide (char = "."%char)) value &&
    negb (contains value "..").

Definition err_diagnostic_limit : error := ErrMsg "diagnostic archive entry limit exceeded".
Definition err_diagnostic_total : error := ErrMsg "diagnostic archive exceeds total size limit".
Definition err_invalid_size : error := ErrMsg "entry has invalid size".
Definition err_diagnostic_manifest : error := ErrMsg "invalid diagnostic manifest".
Definition err_diagnostic_entry : error := ErrMsg "invalid diagnostic entry".
Definition err_diagnostic_duplicate : error := ErrMsg "duplicate diagnostic entry".
Definition err_diagnostic_content : error := ErrMsg "diagnostic entry failed validation".
Definition err_diagnostic_unexpected : error := ErrMsg "unexpected diagnostic archive entry".
Definition err_diagnostic_id : error := ErrMsg "diagnostic analysis ID does not match manifest".
Definition err_diagnostic_captures : error := ErrMsg "diagnostic capture references do not match analysis".
Definition err_diagnostic_certificate (message : string) : error :=
  ErrMsg ("diagnostic certificate is invalid: " +:+ message).
Definition err_diagnostic_report : error := ErrMsg "diagnostic report does not match analysis".
Definition err_diagnostic_markdown : error := ErrMsg "diagnostic Markdown report is invalid".
Definition err_no_captures : error := ErrMsg "analysis does not reference both good and bad captures".

Fixpoint read_diagnostic_loop (count total : Z) (items : list tar_item) (entries : files) : result files :=
  fail? bool_decide (maxDiagnosticEntries ≤ count)%Z with err_diagnostic_limit in
  match items with
  | [] => Ok entries
  | TarBroken err :: _ => Err err
  | TarMember header content fail :: items =>
      let? _ := validateArchiveHeader header in
      let name := Header_Name header in
      fail? bool_decide (is_Some (entries !! name)) with err_duplicate_entry in
      fail? bool_decide (maxEntityBytes < Header_Size header)%Z with err_entry_size in
      let total := (total + Header_Size header)%Z in
      fail? bool_decide (maxDiagnosticTotal < total)%Z with err_diagnostic_total in
      let? content := read_limited (maxEntityBytes + 1) content fail in
      fail? negb (bool_decide (Z.of_nat (String.length content) = Header_Size header)) with err_invalid_size in
      read_diagnostic_loop (count + 1) total items (<[name := content]> entries)
  end.

Section diagnostic.
Context `{PEd : !Ed25519, PKeys : !KeyFiles, PCapture : !Json Capture, PAnalysis : !Json Analysis,
  PExperiments : !Json (list Experiment), PFactors : !Json factor_set, PClaims : !Json CertificateClaims,
  PSigned : !Json signedV2Value, PCertificate : !Json Certificate}.
Context `{PArchives : !Archives, PEncoders : !Encoders, PTime : !TimeFormat, PAudit : !Json AuditEvent,
  PReport : !Json AnalysisReport, PManifest : !Json diagnosticManifest, PEnvelope : !Json envelope,
  PIncident : !Json incident}.

Definition readDiagnosticArchive (file : result string) : result files :=
  let? file := file in
  fail? bool_decide (maxBundleBytes < Z.of_nat (String.length file))%Z with err_bundle_size in
  let? items := unpack (limit_reader (maxBundleBytes + 1) file) in
  read_diagnostic_loop 0 0 items ∅.

(** ** Export *)

Definition diagnosticIncidentID (analysis : Analysis) (good bad : Capture) : string :=
  "inc-" +:+ string_take 16 (digest (canonicalJSON (mkIncident analysis good bad))).

(** The analysis and its captures as [ExportDiagnostic] and
    [PreviewDiagnostic] load them *)
Definition load_case (s : data_store) (analysisID : string) : result (Analysis * Capture * Capture) :=
  let? analysis := loadAnalysis s analysisID in
  fail? bool_decide (Analysis_GoodCaptureID analysis = "") || bool_decide (Analysis_BadCaptureID analysis = "")
    with err_no_captures in
  let? good := loadCapture s (Analysis_GoodCaptureID analysis) in
  let? bad := loadCapture s (Analysis_BadCaptureID analysis) in
  Ok (analysis, good, bad).

(** The six members besides the manifest *)
Definition diagnostic_members (certificate : Certificate) (analysis : Analysis) (good bad : Capture) :
    result (list archiveEntry) :=
  let? reportJSON := JSON analysis in
  Ok [mkArchiveEntry "analysis.json" (canonicalJSON analysis) 0;
      mkArchiveEntry "captures/bad.json" (canonicalJSON bad) 0;
      mkArchiveEntry "captures/good.json" (canonicalJSON good) 0;
      mkArchiveEntry "certificate.json" (canonicalJSON certificate) 0;
      mkArchiveEntry "report.json" reportJSON 0;
      mkArchiveEntry "report.md" (Markdown analysis) 0].

Definition declared_entry (entry : archiveEntry) : diagnosticEntry :=
  mkDiagnosticEntry (Archive_Name entry) (Z.of_nat (String.length (Archive_Content entry)))
    (digest (Archive_Content entry)).

Definition diagnostic_manifest (analysis : Analysis) (good bad : Capture) (entries : list archiveEntry) :
    diagnosticManifest :=
  mkDiagnosticManifest diagnosticBundleFormat 1 (diagnosticIncidentID analysis good bad) (Analysis_ID analysis)
    (format_time (Analysis_CreatedAt analysis)) (declared_entry <$> entries).

Definition ExportDiagnostic (io : key_io) (s : data_store) (analysisID : string) (old : option out_file)
    (fail : option error) : data_store * option out_file * result unit :=
  match load_case s analysisID with
  | Err err => (s, old, Err err)
  | Ok (analysis, good, bad) =>
      let analysis := redactAnalysis analysis in
      let good := redactCapture good in
      let bad := redactCapture bad in
      match certificateForAnalysisWithEvidence io s analysis good bad with
      | (s, Err err) => (s, old, Err err)
      | (s, Ok certificate) =>
          match diagnostic_members certificate analysis good bad with
          | Err err => (s, old, Err err)
          | Ok entries =>
              let manifest := diagnostic_manifest analysis good bad entries in
              let '(file, r) := writeDeterministicTarGzip old fail
                (entries ++ [mkArchiveEntry "manifest.json" (canonicalJSON manifest) 0]) in
              (s, file, r)
          end
      end
  end.

Definition PreviewDiagnostic (s : data_store) (analysisID : string) : result DiagnosticPreview :=
  let? (analysis, good, bad) := load_case s analysisID in
  Ok (mkPreview (diagnosticIncidentID (redactAnalysis analysis) (redactCapture good) (redactCapture bad))
        (Analysis_ID analysis) (show_status (Analysis_Status analysis))
        ["analysis.json"; "captures/good.json"; "captures/bad.json"; "certificate.json"; "report.json"; "report.md";
         "manifest.json"]
        ["workspace roots"; "command arguments and directories"; "command output and errors";
         "sensitive environment values"; "oracle secrets and workspace digests";
         "factor values and experiment output"]
        true
        "retain only for the support period; delete the bundle and certificate after the case is closed").

(** ** Import *)

(** The declared entries; [declared] are the paths declared so far. *)
Fixpoint entries_loop (entries : files) (items : list diagnosticEntry) (declared : gset string) :
    result (gset string) :=
  match items with
  | [] => Ok declared
  | item :: items =>
      let path := Diagnostic_Path item in
      fail? match validateArchiveName path with Ok _ => false | Err _ => true end ||
            bool_decide (Diagnostic_Size item < 0)%Z || bool_decide (maxEntityBytes < Diagnostic_Size item)%Z ||
            negb (validDigest (Diagnostic_Digest item)) with err_diagnostic_entry in
      fail? bool_decide (path ∈ declared) || bool_decide (path = "manifest.json") with err_diagnostic_duplicate in
      match entries !! path with
      | None => Err err_diagnostic_content
      | Some content =>
          fail? negb (bool_decide (Z.of_nat (String.length content) = Diagnostic_Size item)) ||
                negb (bool_decide (digest content = Diagnostic_Digest item)) with err_diagnostic_content in
          entries_loop entries items ({[path]} ∪ declared)
      end
  end.

(** The manifest, and that it accounts for all of the archive *)
Definition check_manifest (entries : files) : result diagnosticManifest :=
  match entries !! "manifest.json" with
  | None => Err ErrNotDiagnosticBundle
  | Some manifestBytes =>
      let format := match json_decode (A := envelope) manifestBytes with Ok e => Envelope_Format e | Err _ => "" end in
      fail? negb (bool_decide (format = diagnosticBundleFormat)) with ErrNotDiagnosticBundle in
      let? manifest := json_strict (A := diagnosticManifest) manifestBytes in
      fail? negb (bool_decide (Manifest_Format manifest = diagnosticBundleFormat)) with ErrNotDiagnosticBundle in
      fail? negb (bool_decide (Manifest_SchemaVersion manifest = 1)%Z) ||
            negb (validDiagnosticID (Manifest_AnalysisID manifest)) ||
            negb (bool_decide (length (Manifest_Files manifest) = 6)) with err_diagnostic_manifest in
      let? declared := entries_loop entries (Manifest_Files manifest) ∅ in
      fail? negb (bool_decide (size entries = size declared + 1)) with err_diagnostic_unexpected in
      fail? negb (bool_decide (dom entries ∖ {["manifest.json"]} ⊆ declared)) with err_diagnostic_unexpected in
      Ok manifest
  end.

(** A missing entry reads as empty. *)
Definition entry_of (entries : files) (name : string) : string := default "" (entries !! name).

(** The contents, after the manifest *)
Definition check_contents (entries : files) (manifest : diagnosticManifest) :
    result (Analysis * Capture * Capture) :=
  let? analysis := json_strict (A := Analysis) (entry_of entries "analysis.json") in
  fail? negb (bool_decide (Analysis_ID analysis = Manifest_AnalysisID manifest)) with err_diagnostic_id in
  let? good := json_strict (A := Capture) (entry_of entries "captures/good.json") in
  let? bad := json_strict (A := Capture) (entry_of entries "captures/bad.json") in
  fail? negb (bool_decide (Capture_ID good = Analysis_GoodCaptureID analysis)) ||
        negb (bool_decide (Capture_ID bad = Analysis_BadCaptureID analysis)) with err_diagnostic_captures in
  let? certificate := json_strict (A := Certificate) (entry_of entries "certificate.json") in
  let verified := verifyCertificateValue certificate analysis good bad in
  fail? negb (Verification_Valid verified) with err_diagnostic_certificate (Verification_Error verified) in
  let? structured := json_strict (A := AnalysisReport) (entry_of entries "report.json") in
  fail? negb (bool_decide (Report_SchemaVersion structured = AnalysisReportSchemaVersion)) ||
        negb (bool_decide (Report_Format structured = "worldbisect.analysis-report.v1")) ||
        negb (bool_decide (Report_AnalysisID structured = Analysis_ID analysis)) ||
        negb (bool_decide (Report_Status structured = show_status (Analysis_Status analysis)))
    with err_diagnostic_report in
  fail? negb (has_prefix (entry_of entries "report.md") ("# WorldBisect diagnosis" +:+ NL)) with err_diagnostic_markdown in
  Ok (analysis, good, bad).

(** The outcomes of the four writes of an import, and its clock *)
Record diagnostic_io := mkDiagnosticIO {
  dio_save_good : option error;
  dio_save_bad : option error;
  dio_save_analysis : option error;
  dio_audit : audit_fault;
  dio_now : time;
}.

Definition store_diagnostic (io : diagnostic_io) (s : data_store) (analysis : Analysis) (good bad : Capture)
    (certificate : string) : data_store * result (string * string) :=
  match SaveCapture (ds_captures s) (dio_save_good io) good with
  | (captures, Err err) => (set_captures s captures, Err err)
  | (captures, Ok _) =>
      let s := set_captures s captures in
      match SaveCapture (ds_captures s) (dio_save_bad io) bad with
      | (captures, Err err) => (set_captures s captures, Err err)
      | (captures, Ok _) =>
          let s := set_captures s captures in
          match SaveAnalysis (ds_analyses s) (dio_save_analysis io) analysis with
          | (analyses, Err err) => (set_analyses s analyses, Err err)
          | (analyses, Ok _) =>
              let s := set_analyses s analyses in
              match AppendAudit (ds_audit s) (dio_audit io) (dio_now io) "diagnostic-import" "analysis"
                      (Analysis_ID analysis) {["format" := JString diagnosticBundleFormat]} with
              | (audit, Err err) => (set_audit s audit, Err err)
              | (audit, Ok _) => (set_audit s audit, Ok (Analysis_ID analysis, certificate))
              end
          end
      end
  end.

Definition ImportDiagnostic (io : diagnostic_io) (s : data_store) (file : result string) :
    data_store * result (string * string) :=
  match readDiagnosticArchive file with
  | Err err => (s, Err err)
  | Ok entries =>
      match (let? manifest := check_manifest entries in check_contents entries manifest) with
      | Err err => (s, Err err)
      | Ok (analysis, good, bad) => store_diagnostic io s analysis good bad (entry_of entries "certificate.json")
      end
  end.
End diagnostic.

(** ** What a handoff reveals

    Two captures, or two analyses, that agree on everything a handoff may
    carry.  They may differ in the output of processes, the arguments,
    directories and consulted paths, digests of files, the values of
    secret-looking variables, the pattern, file and digest of the oracle, the
    host name, factor values, and in names where both look secret. *)

Definition same_or_secret (x y : string) : Prop := x = y ∨ LooksSecret x = true ∧ LooksSecret y = true.

Record public_entry (e e' : WorkspaceEntry) : Prop := {
  pe_path : same_or_secret (Entry_Path e) (Entry_Path e');
  pe_type : Entry_Type e = Entry_Type e';
  pe_mode : Entry_Mode e = Entry_Mode e';
  pe_size : Entry_Size e = Entry_Size e';
  pe_link : Entry_LinkTarget e = Entry_LinkTarget e';
}.

Record public_manifest (m m' : WorkspaceManifest) : Prop := {
  pm_entries : Forall2 public_entry (Manifest_Entries m) (Manifest_Entries m');
  pm_files : Manifest_TotalFiles m = Manifest_TotalFiles m';
  pm_bytes : Manifest_TotalBytes m = Manifest_TotalBytes m';
}.

Record public_result (r r' : ProcessResult) : Prop := {
  pr_exit : ProcessResult_ExitCode r = ProcessResult_ExitCode r';
  pr_signal : ProcessResult_Signal r = ProcessResult_Signal r';
  pr_timed_out : ProcessResult_TimedOut r = ProcessResult_TimedOut r';
  pr_started : ProcessResult_StartedAt r = ProcessResult_StartedAt r';
  pr_finished : ProcessResult_FinishedAt r = ProcessResult_FinishedAt r';
  pr_duration : ProcessResult_DurationMS r = ProcessResult_DurationMS r';
  pr_truncated : ProcessResult_OutputTruncated r = ProcessResult_OutputTruncated r';
  pr_boundaries : ProcessResult_Boundaries r = ProcessResult_Boundaries r';
}.

Definition public_environment (values values' : gmap string string) : Prop :=
  ∀ name, match values !! name, values' !! name with
          | None, None => True
          | Some value, Some value' => LooksSecret name = true ∨ value = value'
          | _, _ => False
          end.

Record public_host (h h' : HostEvidence) : Prop := {
  ph_os : Host_OS h = Host_OS h';
  ph_arch : Host_Arch h = Host_Arch h';
  ph_kernel : Host_Kernel h = Host_Kernel h';
  ph_uid : Host_UID h = Host_UID h';
  ph_gid : Host_GID h = Host_GID h';
  ph_groups : Host_Groups h = Host_Groups h';
  ph_capabilities : Host_Capabilities h = Host_Capabilities h';
  ph_seccomp : Host_Seccomp h = Host_Seccomp h';
  ph_cgroups : Host_Cgroups h = Host_Cgroups h';
  ph_mounts : Host_MountDigest h = Host_MountDigest h';
  ph_resources : Host_ResourceDigest h = Host_ResourceDigest h';
  ph_security : Host_SecurityDigest h = Host_SecurityDigest h';
}.

Record public_capture (c c' : Capture) : Prop := {
  pc_schema : Capture_SchemaVersion c = Capture_SchemaVersion c';
  pc_id : Capture_ID c = Capture_ID c';
  pc_created : Capture_CreatedAt c = Capture_CreatedAt c';
  pc_started : Capture_StartedAt c = Capture_StartedAt c';
  pc_finished : Capture_FinishedAt c = Capture_FinishedAt c';
  pc_label : Capture_Label c = Capture_Label c';
  pc_environment : public_environment (CommandSpec_Environment (Capture_Command c))
    (CommandSpec_Environment (Capture_Command c'));
  pc_timeout : CommandSpec_TimeoutMS (Capture_Command c) = CommandSpec_TimeoutMS (Capture_Command c');
  pc_oracle : Oracle_Kind (Capture_Oracle c) = Oracle_Kind (Capture_Oracle c');
  pc_expected : Oracle_ExpectedExitCode (Capture_Oracle c) = Oracle_ExpectedExitCode (Capture_Oracle c');
  pc_result : public_result (Capture_Result c) (Capture_Result c');
  pc_oracle_result : Capture_OracleResult c = Capture_OracleResult c';
  pc_before : public_manifest (Capture_Before c) (Capture_Before c');
  pc_workspace : public_manifest (Capture_Workspace c) (Capture_Workspace c');
  pc_host : public_host (Capture_Host c) (Capture_Host c');
  pc_secrets : Capture_SecretEvidence c = Capture_SecretEvidence c';
  pc_boundaries : Capture_EvidenceBoundaries c = Capture_EvidenceBoundaries c';
  pc_warnings : Capture_Warnings c = Capture_Warnings c';
}.

(** The entry of a factor keeps its path. *)
Record public_factor_entry (e e' : WorkspaceEntry) : Prop := {
  pfe_path : Entry_Path e = Entry_Path e';
  pfe_entry : public_entry e e';
}.

Record public_factor (f f' : Factor) : Prop := {
  pf_id : Factor_ID f = Factor_ID f';
  pf_type : Factor_Type f = Factor_Type f';
  pf_key : same_or_secret (Factor_Key f) (Factor_Key f');
  pf_good_present : Factor_GoodPresent f = Factor_GoodPresent f';
  pf_bad_present : Factor_BadPresent f = Factor_BadPresent f';
  pf_good : public_factor_entry (Factor_GoodEntry f) (Factor_GoodEntry f');
  pf_bad : public_factor_entry (Factor_BadEntry f) (Factor_BadEntry f');
  pf_intervenable : Factor_Intervenable f = Factor_Intervenable f';
}.

Record public_experiment (e e' : Experiment) : Prop := {
  px_id : Experiment_ID e = Experiment_ID e';
  px_kind : Experiment_Kind e = Experiment_Kind e';
  px_hit : Experiment_CacheHit e = Experiment_CacheHit e';
  px_started : Experiment_StartedAt e = Experiment_StartedAt e';
  px_finished : Experiment_FinishedAt e = Experiment_FinishedAt e';
  px_base : Experiment_BaseCaptureID e = Experiment_BaseCaptureID e';
  px_source : Experiment_SourceCaptureID e = Experiment_SourceCaptureID e';
  px_factors : Experiment_FactorIDs e = Experiment_FactorIDs e';
  px_result : public_result (Experiment_Result e) (Experiment_Result e');
  px_oracle : Experiment_OracleResult e = Experiment_OracleResult e';
}.

Record public_analysis (a a' : Analysis) : Prop := {
  pa_schema : Analysis_SchemaVersion a = Analysis_SchemaVersion a';
  pa_id : Analysis_ID a = Analysis_ID a';
  pa_created : Analysis_CreatedAt a = Analysis_CreatedAt a';
  pa_good : Analysis_GoodCaptureID a = Analysis_GoodCaptureID a';
  pa_bad : Analysis_BadCaptureID a = Analysis_BadCaptureID a';
  pa_factors : Forall2 public_factor (Analysis_Factors a) (Analysis_Factors a');
  pa_causal : Analysis_CausalFactors a = Analysis_CausalFactors a';
  pa_experiments : Forall2 public_experiment (Analysis_Experiments a) (Analysis_Experiments a');
  pa_status : Analysis_Status a = Analysis_Status a';
  pa_forward : Analysis_ForwardVerified a = Analysis_ForwardVerified a';
  pa_reverse : Analysis_ReverseVerified a = Analysis_ReverseVerified a';
  pa_minimal : Analysis_MinimalInModel a = Analysis_MinimalInModel a';
  pa_repetitions : Analysis_Repetitions a = Analysis_Repetitions a';
  pa_budget : Analysis_ExperimentBudget a = Analysis_ExperimentBudget a';
  pa_summary : Analysis_Summary a = Analysis_Summary a';
  pa_boundaries : Analysis_EvidenceBoundaries a = Analysis_EvidenceBoundaries a';
  pa_limitations : Analysis_Limitations a = Analysis_Limitations a';
}.

Lemma hidden_name x y (placeholder : string) : same_or_secret x y →
  (if LooksSecret x then placeholder else x) = (if LooksSecret y then placeholder else y).
Proof. by intros [->|[-> ->]]. Qed.

Lemma redact_result_public r r' : public_result r r' → redact_result r = redact_result r'.
Proof. intros []. unfold redact_result. by f_equal. Qed.

Lemma redactManifest_public m m' : public_manifest m m' → redactManifest m = redactManifest m'.
Proof.
  intros [Hentries ? ?]. unfold redactManifest. f_equal; [|done..].
  induction Hentries as [|e e' l l' [Hpath ? ? ? ?] _ IH]; [done|]. cbn. f_equal; [|done].
  unfold redact_entry. f_equal; [by apply hidden_name|done..].
Qed.

Lemma redactEnvironment_public values values' : public_environment values values' →
  redactEnvironment values = redactEnvironment values'.
Proof.
  intros Hpub. apply map_eq. intros name. unfold redactEnvironment. rewrite !map_lookup_imap.
  specialize (Hpub name). destruct (values !! name), (values' !! name); [|done..]. cbn.
  by destruct Hpub as [->| ->].
Qed.

Section hiding.
Context `{PCapture : !Json Capture, PAnalysis : !Json Analysis, PCanonicalCapture : !CanonicalJson Capture,
  PCanonicalAnalysis : !CanonicalJson Analysis}.

Lemma cloneCapture_valid value : json_valid value → cloneCapture value = value.
Proof. intros Hv. unfold cloneCapture. by rewrite marshal_decode. Qed.
Lemma cloneAnalysis_valid value : json_valid value → cloneAnalysis value = value.
Proof. intros Hv. unfold cloneAnalysis. by rewrite marshal_decode. Qed.

Lemma redactCapture_public c c' : json_valid c → json_valid c' → public_capture c c' →
  redactCapture c = redactCapture c'.
Proof.
  intros Hv Hv' []. unfold redactCapture. rewrite !cloneCapture_valid by done.
  f_equal; try done; try by apply redactManifest_public.
  - f_equal; [by apply redactEnvironment_public|done].
  - by f_equal.
  - by apply redact_result_public.
  - unfold redact_host. match goal with H : public_host _ _ |- _ => destruct H end. by f_equal.
Qed.

Lemma redactAnalysis_public a a' : json_valid a → json_valid a' → public_analysis a a' →
  redactAnalysis a = redactAnalysis a'.
Proof.
  intros Hv Hv' [????? Hfactors ? Hexperiments ?????????]. unfold redactAnalysis. rewrite !cloneAnalysis_valid by done.
  f_equal; try done.
  - induction Hfactors as [|f f' l l' [??? ?? [Hg []] [Hb []] ?] _ IH]; [done|]. cbn. f_equal; [|done].
    unfold redact_factor, redact_factor_entry. f_equal; try done; [by apply hidden_name|by f_equal..].
  - induction Hexperiments as [|e e' l l' [????????? ?] _ IH]; [done|]. cbn. f_equal; [|done].
    unfold redact_experiment. f_equal; try done. by apply redact_result_public.
Qed.
End hiding.

(** ** What an import accepts *)

(** The manifest accounts for the whole archive, byte by byte. *)
Record declared `{!Json diagnosticManifest} (entries : files) (manifest : diagnosticManifest) : Prop := {
  declared_manifest : ∃ bytes, entries !! "manifest.json" = Some bytes ∧
    json_strict (A := diagnosticManifest) bytes = Ok manifest;
  declared_format : Manifest_Format manifest = diagnosticBundleFormat ∧ Manifest_SchemaVersion manifest = 1%Z;
  declared_files : Forall (λ item, validateArchiveName (Diagnostic_Path item) = Ok tt ∧
    ∃ content, entries !! Diagnostic_Path item = Some content ∧
      sha256_hex content = Diagnostic_Digest item ∧ Z.of_nat (String.length content) = Diagnostic_Size item)
    (Manifest_Files manifest);
  declared_once : NoDup ("manifest.json" :: (Diagnostic_Path <$> Manifest_Files manifest));
  declared_all : ∀ name, name ∈ dom entries ↔
    name = "manifest.json" ∨ name ∈ Diagnostic_Path <$> Manifest_Files manifest;
}.

Section import_lemmas.
Context `{PEd : !Ed25519, PKeys : !KeyFiles, PCapture : !Json Capture, PAnalysis : !Json Analysis,
  PExperiments : !Json (list Experiment), PFactors : !Json factor_set, PClaims : !Json CertificateClaims,
  PSigned : !Json signedV2Value, PCertificate : !Json Certificate}.
Context `{PArchives : !Archives, PEncoders : !Encoders, PTime : !TimeFormat, PAudit : !Json AuditEvent,
  PReport : !Json AnalysisReport, PManifest : !Json diagnosticManifest, PEnvelope : !Json envelope,
  PIncident : !Json incident}.

(** The analysis and captures are those of the archive, refer to each other,
    and carry a certificate that verifies for exactly them. *)
Record contained (entries : files) (manifest : diagnosticManifest) (analysis : Analysis) (good bad : Capture) : Prop := {
  contained_analysis : json_strict (A := Analysis) (entry_of entries "analysis.json") = Ok analysis;
  contained_good : json_strict (A := Capture) (entry_of entries "captures/good.json") = Ok good;
  contained_bad : json_strict (A := Capture) (entry_of entries "captures/bad.json") = Ok bad;
  contained_ids : Analysis_ID analysis = Manifest_AnalysisID manifest ∧
    Capture_ID good = Analysis_GoodCaptureID analysis ∧ Capture_ID bad = Analysis_BadCaptureID analysis;
  contained_certificate : ∃ certificate result,
    json_strict (A := Certificate) (entry_of entries "certificate.json") = Ok certificate ∧
    verifyCertificateForAnalysis certificate analysis good bad = Ok result ∧ Verification_Valid result = true;
  contained_report : ∃ structured,
    json_strict (A := AnalysisReport) (entry_of entries "report.json") = Ok structured ∧
    Report_AnalysisID structured = Analysis_ID analysis ∧
    Report_Status structured = show_status (Analysis_Status analysis);
}.

Lemma entries_loop_spec entries items : ∀ seen seen', entries_loop entries items seen = Ok seen' →
  Forall (λ item, validateArchiveName (Diagnostic_Path item) = Ok tt ∧
    ∃ content, entries !! Diagnostic_Path item = Some content ∧
      sha256_hex content = Diagnostic_Digest item ∧ Z.of_nat (String.length content) = Diagnostic_Size item) items ∧
  NoDup (Diagnostic_Path <$> items) ∧ Forall (λ item, Diagnostic_Path item ∉ seen) items ∧
  Forall (λ item, Diagnostic_Path item ≠ "manifest.json") items ∧
  seen' = list_to_set (Diagnostic_Path <$> items) ∪ seen.
Proof.
  induction items as [|item items IH]; intros seen seen' Hl; cbn [entries_loop] in Hl.
  { injection Hl as <-. split_and!; [by constructor..|set_solver]. }
  destruct (validateArchiveName (Diagnostic_Path item)) as [[]|] eqn:Hname; [|done].
  step_ok Hl. step_ok Hl. destruct (entries !! Diagnostic_Path item) as [content|] eqn:Hc; [|done]. step_ok Hl.
  bool_prop. apply IH in Hl as (Hall & Hnd & Hnew & Hman & ->).
  split_and!.
  - constructor; [|done]. split; [done|]. by exists content.
  - cbn. constructor; [|done]. intros (other & Heq & Ho)%list_elem_of_fmap. rewrite Forall_forall in Hnew.
    apply (Hnew _ Ho). rewrite <-Heq. set_solver.
  - constructor; [done|]. eapply Forall_impl; [exact Hnew|]. set_solver.
  - by constructor.
  - cbn. set_solver.
Qed.

Lemma check_manifest_spec entries manifest : check_manifest entries = Ok manifest → declared entries manifest.
Proof.
  unfold check_manifest. intros Hc. destruct (entries !! "manifest.json") as [bytes|] eqn:Hm; [|done].
  step_ok Hc. destruct (json_strict bytes) as [m|] eqn:Hd; [|done]. cbn [rbind] in Hc. step_ok Hc. step_ok Hc.
  destruct (entries_loop _ _ _) as [seen|] eqn:Hl; [|done]. cbn [rbind] in Hc. step_ok Hc.
  destruct (negb (bool_decide (_ ⊆ _))) eqn:Hsub in Hc; [done|]. injection Hc as ->. bool_prop.
  apply entries_loop_spec in Hl as (Hall & Hnd & _ & Hman & ->). split; try done.
  - by exists bytes.
  - constructor; [|done]. intros (item & Heq & Hitem)%list_elem_of_fmap. rewrite Forall_forall in Hman.
    by apply (Hman _ Hitem).
  - intros name. split.
    + intros Hn. destruct (decide (name = "manifest.json")) as [|Hne]; [by left|right].
      assert (name ∈ dom entries ∖ {["manifest.json"]}) as Hin%Hsub by set_solver.
      rewrite elem_of_union, elem_of_list_to_set in Hin. set_solver.
    + intros [->|(item & -> & Hitem)%list_elem_of_fmap]; rewrite elem_of_dom; [by eexists|].
      rewrite Forall_forall in Hall. destruct (Hall _ Hitem) as (_ & content & -> & _). by eexists.
Qed.

Lemma check_contents_spec entries manifest analysis good bad :
  check_contents entries manifest = Ok (analysis, good, bad) → contained entries manifest analysis good bad.
Proof.
  unfold check_contents. intros Hc.
  destruct (json_strict (entry_of entries "analysis.json")) as [a|] eqn:Ha; [|done]. cbn [rbind] in Hc. step_ok Hc.
  destruct (json_strict (entry_of entries "captures/good.json")) as [g|] eqn:Hg; [|done]. cbn [rbind] in Hc.
  destruct (json_strict (entry_of entries "captures/bad.json")) as [b|] eqn:Hb; [|done]. cbn [rbind] in Hc. step_ok Hc.
  destruct (json_strict (entry_of entries "certificate.json")) as [c|] eqn:Hcert; [|done]. cbn [rbind] in Hc.
  destruct (negb (Verification_Valid _)) eqn:Hv; [done|].
  destruct (json_strict (entry_of entries "report.json")) as [report|] eqn:Hr; [|done]. cbn [rbind] in Hc.
  step_ok Hc. destruct (negb (has_prefix _ _)); [done|]. injection Hc as -> -> ->. bool_prop.
  split; try done.
  - exists c. unfold verifyCertificateValue in Hv. destruct (verifyCertificateForAnalysis _ _ _ _) as [result|]; [|done].
    by exists result.
  - by exists report.
Qed.

(** C22: a handoff is stored only after every byte of it was checked.  Whatever
    the file contains and whichever file operation fails, either the store is
    unchanged and the answer is an error, or the manifest accounts for the
    whole archive, the analysis and captures in it refer to each other and
    their certificate verifies; and then only these captures and this analysis
    can change, and an import that succeeds has stored all three and answers
    the certificate that was verified. *)
Theorem ImportDiagnostic_verifies io s file s' r (Hrun : ImportDiagnostic io s file = (s', r)) :
  (s' = s ∧ ∃ err, r = Err err) ∨
  ∃ entries manifest analysis good bad, readDiagnosticArchive file = Ok entries ∧
    declared entries manifest ∧ contained entries manifest analysis good bad ∧
    ds_blobs s' = ds_blobs s ∧ ds_keys s' = ds_keys s ∧
    (∀ id, id ≠ Capture_ID good → id ≠ Capture_ID bad → ds_captures s' !! id = ds_captures s !! id) ∧
    (∀ id, id ≠ Analysis_ID analysis → ds_analyses s' !! id = ds_analyses s !! id) ∧
    ∀ id certificate, r = Ok (id, certificate) →
      id = Analysis_ID analysis ∧ certificate = entry_of entries "certificate.json" ∧
      ds_captures s' = <[Capture_ID bad := json_encode (Capture_Normalize (capture_with_schema bad))]>
        (<[Capture_ID good := json_encode (Capture_Normalize (capture_with_schema good))]> (ds_captures s)) ∧
      ds_analyses s' = <[id := json_encode (Analysis_Normalize (with_schema analysis))]> (ds_analyses s).
Proof.
  assert (∀ dir fail c dir' res, SaveCapture dir fail c = (dir', res) →
    (∃ err, res = Err err) ∧ dir' = dir ∨
    res = Ok tt ∧ dir' = <[Capture_ID c := json_encode (Capture_Normalize (capture_with_schema c))]> dir) as Hsave.
  { intros dir fail c dir' res. unfold SaveCapture, saveEntity. destruct (negb _); [intros [= <- <-]; left; eauto|].
    destruct fail; intros [= <- <-]; [left; eauto|by right]. }
  unfold ImportDiagnostic in Hrun.
  destruct (readDiagnosticArchive file) as [entries|err]; [|injection Hrun as <- <-; left; eauto].
  destruct (check_manifest entries) as [manifest|err] eqn:Hm; cbn [rbind] in Hrun;
    [|injection Hrun as <- <-; left; eauto].
  destruct (check_contents entries manifest) as [[[analysis good] bad]|err] eqn:Hc;
    [|injection Hrun as <- <-; left; eauto].
  right. exists entries, manifest, analysis, good, bad. split; [done|].
  split; [by apply check_manifest_spec|]. split; [by apply check_contents_spec|].
  unfold store_diagnostic in Hrun.
  destruct (SaveCapture _ _ good) as [captures1 r1] eqn:H1; apply Hsave in H1 as [[[err ->] ->]|[-> ->]].
  { injection Hrun as <- <-. by split_and!. }
  cbn [set_captures ds_captures] in Hrun.
  destruct (SaveCapture _ _ bad) as [captures2 r2] eqn:H2; apply Hsave in H2 as [[[err ->] ->]|[-> ->]].
  { injection Hrun as <- <-. cbn. split_and!; try done. intros id ? ?. by rewrite lookup_insert_ne. }
  cbn [set_captures set_analyses ds_analyses ds_audit ds_captures] in Hrun.
  unfold SaveAnalysis, saveEntity in Hrun. destruct (negb _) in Hrun.
  { injection Hrun as <- <-. cbn. split_and!; try done. intros id ? ?. by rewrite !lookup_insert_ne. }
  destruct (dio_save_analysis io).
  { injection Hrun as <- <-. cbn. split_and!; try done. intros id ? ?. by rewrite !lookup_insert_ne. }
  destruct (AppendAudit _ _ _ _ _ _ _) as [audit [[]|err]]; injection Hrun as <- <-; cbn; split_and!; try done;
    try (intros id ? ?; by rewrite !lookup_insert_ne); try (intros id ?; by rewrite lookup_insert_ne).
  intros id certificate [= <- <-]. by split_and!.
Qed.

(** C23: a handoff carries no withheld value.  If two stores hold, under one
    identifier, analyses with captures that agree on what a handoff may carry
    - whatever the outputs, arguments, secret variables, factor values and
    digests are - then the two exports are the same file, byte for byte,
    certificate, hashes, reports and incident identifier included, and so are
    the two previews. *)
Theorem diagnostic_hides_values `{!CanonicalJson Capture, !CanonicalJson Analysis} io s s' id old fail
    a good bad a' good' bad'
    (Hcase : load_case s id = Ok (a, good, bad)) (Hcase' : load_case s' id = Ok (a', good', bad'))
    (Hvalid : json_valid a ∧ json_valid good ∧ json_valid bad)
    (Hvalid' : json_valid a' ∧ json_valid good' ∧ json_valid bad')
    (Hkeys : ds_keys s = ds_keys s') (Ha : public_analysis a a') (Hgood : public_capture good good')
    (Hbad : public_capture bad bad') :
  (ExportDiagnostic io s id old fail).1.2 = (ExportDiagnostic io s' id old fail).1.2 ∧
  (ExportDiagnostic io s id old fail).2 = (ExportDiagnostic io s' id old fail).2 ∧
  PreviewDiagnostic s id = PreviewDiagnostic s' id.
Proof.
  destruct Hvalid as (? & ? & ?), Hvalid' as (? & ? & ?).
  pose proof (redactAnalysis_public a a') as Ea. pose proof (redactCapture_public good good') as Eg.
  pose proof (redactCapture_public bad bad') as Eb.
  unfold ExportDiagnostic, PreviewDiagnostic. rewrite Hcase, Hcase'. cbn [rbind].
  rewrite Ea, Eg, Eb by done. rewrite (pa_id _ _ Ha), (pa_status _ _ Ha).
  unfold certificateForAnalysisWithEvidence. rewrite Hkeys.
  destruct (loadOrCreateSigningKey io (ds_keys s')) as [keys [[private public]|err]]; [|done].
  destruct (signedV2Bytes _) as [payload|err]; cbn [rbind]; [|done].
  destruct (diagnostic_members _ _ _ _) as [entries|err]; [|done].
  by destruct (writeDeterministicTarGzip _ _ _) as [file r].
Qed.

(** ** Export, then import *)

Definition small (entry : archiveEntry) : Prop :=
  (Z.of_nat (String.length (Archive_Content entry)) ≤ maxEntityBytes)%Z.
Definition total_length (entries : list archiveEntry) : Z :=
  foldr (λ entry n, Z.of_nat (String.length (Archive_Content entry)) + n)%Z 0%Z entries.

Lemma total_length_nonneg entries : (0 ≤ total_length entries)%Z.
Proof. unfold total_length. induction entries as [|e entries IH]; cbn; lia. Qed.
Lemma total_length_perm entries entries' : entries ≡ₚ entries' → total_length entries = total_length entries'.
Proof. unfold total_length. induction 1; cbn; lia. Qed.

Lemma read_diagnostic_members entries : ∀ count total m,
  Forall (λ entry, validateArchiveName (Archive_Name entry) = Ok tt) entries → Forall small entries →
  NoDup (Archive_Name <$> entries) → Forall (λ entry, m !! Archive_Name entry = None) entries →
  (count + Z.of_nat (length entries) < maxDiagnosticEntries)%Z →
  (total + total_length entries ≤ maxDiagnosticTotal)%Z →
  read_diagnostic_loop count total (member_of <$> entries) m =
    Ok (foldl (λ m entry, <[Archive_Name entry := Archive_Content entry]> m) m entries).
Proof.
  induction entries as [|entry entries IH]; intros count total m Hnames Hsmall Hnd Hnew Hcount Htotal;
    cbn [fmap list_fmap read_diagnostic_loop].
  { rewrite bool_decide_eq_false_2; [done|]. cbn in Hcount. lia. }
  cbn [length] in Hcount. cbn [total_length foldr] in Htotal. fold (total_length entries) in Htotal.
  pose proof (total_length_nonneg entries). rewrite bool_decide_eq_false_2 by lia.
  apply Forall_cons in Hnames as [Hname Hnames]. apply Forall_cons in Hsmall as [Hfit Hsmall]. unfold small in Hfit.
  apply Forall_cons in Hnew as [Hm Hnew]. cbn in Hnd. apply NoDup_cons in Hnd as [Hnot Hnd].
  unfold member_of at 1. rewrite regular_header by done. cbn [rbind Header_Name Header_Size].
  rewrite (bool_decide_eq_false_2 (is_Some _)) by (rewrite Hm; by intros [? ?]).
  rewrite (bool_decide_eq_false_2 (maxEntityBytes < _)%Z) by lia.
  rewrite (bool_decide_eq_false_2 (maxDiagnosticTotal < _)%Z) by lia.
  unfold read_limited. rewrite (bool_decide_eq_false_2 (_ ≤ _)%Z) by lia. cbn [rbind].
  rewrite bool_decide_eq_true_2 by done. cbn [negb].
  rewrite IH; [done|done|done|done| |lia|lia].
  rewrite Forall_forall in Hnew |- *. intros e He. rewrite lookup_insert_ne; [by apply Hnew|].
  intros Heq. apply Hnot. rewrite Heq. by apply list_elem_of_fmap_2.
Qed.

Lemma exported_diagnostic_reads entries :
  NoDup (Archive_Name <$> entries) → tar_loop (with_mode <$> sort_by Archive_Name entries) = Ok tt →
  Forall small entries → (Z.of_nat (length entries) < maxDiagnosticEntries)%Z →
  (total_length entries ≤ maxDiagnosticTotal)%Z →
  (Z.of_nat (String.length (pack (with_mode <$> sort_by Archive_Name entries))) ≤ maxBundleBytes)%Z →
  readDiagnosticArchive (Ok (pack (with_mode <$> sort_by Archive_Name entries))) =
    Ok (files_of (with_mode <$> sort_by Archive_Name entries)).
Proof.
  intros Hnd Htar Hsmall Hcount Htotal Hsize. apply tar_loop_spec in Htar. apply exported_files in Hnd as (Hnd & _ & _).
  unfold readDiagnosticArchive. cbn [rbind]. rewrite bool_decide_eq_false_2 by lia. rewrite limit_reader_short by lia.
  rewrite unpack_pack by (eapply Forall_impl; [exact Htar|]; by intros ? [? _]). cbn [rbind].
  unfold files_of. apply read_diagnostic_members; [|..|done| | |].
  - eapply Forall_impl; [exact Htar|]; by intros ? [_ ?].
  - apply Forall_fmap. rewrite Forall_forall in Hsmall |- *. intros entry He%elem_of_sort_by. by apply (Hsmall entry).
  - apply Forall_forall. intros. apply lookup_empty.
  - rewrite length_fmap, length_sort_by. lia.
  - assert (∀ l, total_length (with_mode <$> l) = total_length l) as ->.
    { intros l. unfold total_length. induction l as [|e l IH]; cbn; [done|by rewrite IH]. }
    by rewrite (total_length_perm _ entries) by apply sort_by_perm.
Qed.

Lemma entries_loop_ok m entries : ∀ seen,
  Forall (λ entry, validateArchiveName (Archive_Name entry) = Ok tt ∧ small entry ∧
    Archive_Name entry ≠ "manifest.json" ∧ m !! Archive_Name entry = Some (Archive_Content entry)) entries →
  NoDup (Archive_Name <$> entries) → Forall (λ entry, Archive_Name entry ∉ seen) entries →
  entries_loop m (declared_entry <$> entries) seen = Ok (list_to_set (Archive_Name <$> entries) ∪ seen).
Proof.
  induction entries as [|entry entries IH]; intros seen Hok Hnd Hnew; cbn [fmap list_fmap entries_loop].
  { f_equal. set_solver. }
  apply Forall_cons in Hok as [(Hname & Hsmall & Hman & Hm) Hok]. unfold small in Hsmall.
  apply Forall_cons in Hnew as [Hn Hnew]. cbn in Hnd. apply NoDup_cons in Hnd as [Hnot Hnd].
  cbn [declared_entry Diagnostic_Path Diagnostic_Size Diagnostic_Digest]. rewrite Hname.
  unfold digest at 1. rewrite validDigest_sha256.
  rewrite (bool_decide_eq_false_2 (_ < 0)%Z), (bool_decide_eq_false_2 (maxEntityBytes < _)%Z) by lia. cbn [negb orb].
  rewrite !bool_decide_eq_false_2 by done. cbn [orb]. rewrite Hm, !bool_decide_eq_true_2 by done. cbn [negb orb].
  rewrite IH; [f_equal; cbn; set_solver|done..|].
  rewrite Forall_forall in Hnew |- *. intros e He. rewrite elem_of_union, elem_of_singleton.
  intros [Heq|?]; [|by apply (Hnew e)]. apply Hnot. rewrite <-Heq. by apply list_elem_of_fmap_2.
Qed.

Lemma members_names certificate analysis good bad entries :
  diagnostic_members certificate analysis good bad = Ok entries →
  Archive_Name <$> entries =
    ["analysis.json"; "captures/bad.json"; "captures/good.json"; "certificate.json"; "report.json"; "report.md"].
Proof.
  unfold diagnostic_members. destruct (JSON analysis) as [text|]; [|done]. cbn [rbind]. by intros [= <-].
Qed.

(** [json.MarshalIndent] and the decoders of the importer *)
Class HandoffJson := {
  report_decodes report text : json_valid report → report_json report = Ok text → json_strict (A := AnalysisReport) (text +:+ NL) = Ok report;
  envelope_decodes (manifest : diagnosticManifest) : json_valid manifest →
    json_decode (A := envelope) (canonicalJSON manifest) = Ok (mkEnvelope (Manifest_Format manifest));
}.

(** The certificate that an export makes verifies for what is exported. *)
Lemma exported_certificate io s s1 analysis good bad certificate :
  certificateForAnalysisWithEvidence io s analysis good bad = (s1, Ok certificate) →
  Verification_Valid (verifyCertificateValue certificate analysis good bad) = true.
Proof.
  unfold certificateForAnalysisWithEvidence.
  destruct (loadOrCreateSigningKey io (ds_keys s)) as [keys [[private public]|err]] eqn:Hkey; [|done].
  apply signing_key_kept in Hkey as [-> _]. intros [= <- <-].
  unfold verifyCertificateValue, verifyCertificateForAnalysis.
  cbn [with_signature Certificate_Format Certificate_Claims Certificate_GeneratedAt].
  rewrite bool_decide_eq_false_2, !bool_decide_eq_true_2 by done. cbn [negb].
  unfold signedV2Bytes. cbn [Certificate_Format Certificate_Claims Certificate_GeneratedAt rbind].
  unfold verifyCertificateSignature.
  cbn [with_signature Certificate_Format Certificate_Claims Certificate_PublicKey Certificate_Signature
    Certificate_GeneratedAt rbind].
  rewrite !decode_encode_length by first [apply ed_public_length|apply ed_sign_length]. by rewrite ed_correct.
Qed.

(** An exported archive passes the checks. *)
Lemma exported_handoff `{!CanonicalJson Capture, !CanonicalJson Analysis, !CanonicalJson Certificate,
    !CanonicalJson diagnosticManifest, !HandoffJson} io s s1 m analysis good bad certificate entries :
  let manifest := diagnostic_manifest analysis good bad entries in
  certificateForAnalysisWithEvidence io s analysis good bad = (s1, Ok certificate) →
  diagnostic_members certificate analysis good bad = Ok entries →
  validDiagnosticID (Analysis_ID analysis) = true →
  Capture_ID good = Analysis_GoodCaptureID analysis → Capture_ID bad = Analysis_BadCaptureID analysis →
  json_valid analysis → json_valid good → json_valid bad → json_valid certificate → json_valid manifest →
  json_valid (Build analysis) →
  Forall small entries →
  (∀ entry, entry ∈ entries ++ [mkArchiveEntry "manifest.json" (canonicalJSON manifest) 0] →
     m !! Archive_Name entry = Some (Archive_Content entry)) →
  (∀ name, is_Some (m !! name) → name ∈ Archive_Name <$> entries ++ [mkArchiveEntry "manifest.json" (canonicalJSON manifest) 0]) →
  check_manifest m = Ok manifest ∧ check_contents m manifest = Ok (analysis, good, bad) ∧
  entry_of m "certificate.json" = canonicalJSON certificate.
Proof.
  intros manifest Hcert Hmembers Hid Hg Hb Va Vg Vb Vc Vm Vr Hok Hin Hdom.
  pose proof (members_names _ _ _ _ _ Hmembers) as Hnames.
  assert (m !! "manifest.json" = Some (canonicalJSON manifest)) as Hman
    by (apply (Hin (mkArchiveEntry "manifest.json" (canonicalJSON manifest) 0)); set_solver).
  assert (NoDup (Archive_Name <$> entries)) as Hnd by (rewrite Hnames; apply (bool_decide_unpack _); vm_compute; exact I).
  assert (Forall (λ entry, Archive_Name entry ≠ "manifest.json") entries) as Hnot.
  { rewrite Forall_forall. intros entry Hentry%(list_elem_of_fmap_2 Archive_Name) Heq. rewrite Heq, Hnames in Hentry.
    repeat (apply elem_of_cons in Hentry as [?|Hentry]; [done|]). by apply elem_of_nil in Hentry. }
  assert (dom m = list_to_set ("manifest.json" :: (Archive_Name <$> entries))) as Hdomain.
  { apply set_eq. intros name. rewrite elem_of_dom, elem_of_list_to_set, elem_of_cons. split.
    - intros Hname%Hdom. rewrite fmap_app, elem_of_app in Hname. set_solver.
    - intros [->|(entry & -> & Hentry)%list_elem_of_fmap]; [by eexists|].
      rewrite (Hin entry) by set_solver. by eexists. }
  split.
  - unfold check_manifest. rewrite Hman, envelope_decodes by done. cbn [Envelope_Format].
    rewrite (bool_decide_eq_true_2 (Manifest_Format manifest = _)) by done. cbn [negb].
    rewrite canonical_reads by done. cbn [rbind]. rewrite (bool_decide_eq_true_2 (Manifest_Format manifest = _)) by done.
    cbn [negb]. cbn [manifest diagnostic_manifest Manifest_SchemaVersion Manifest_AnalysisID Manifest_Files].
    rewrite Hid, (bool_decide_eq_true_2 (1 = 1)%Z) by done.
    rewrite (bool_decide_eq_true_2 (length _ = 6)); [|by rewrite length_fmap, <-(length_fmap Archive_Name), Hnames].
    cbn [negb orb]. rewrite entries_loop_ok; [|..|done|].
    + cbn [rbind]. rewrite (bool_decide_eq_true_2 (size m = _)), (bool_decide_eq_true_2 (_ ⊆ _)); [done| |].
      * rewrite Hdomain. set_solver.
      * rewrite <-size_dom, Hdomain, (right_id_L ∅ (∪)).
        rewrite !size_list_to_set; [cbn; lia|done|]. constructor; [|done].
        intros (entry & Heq & Hentry)%list_elem_of_fmap. rewrite Forall_forall in Hnot. by apply (Hnot _ Hentry).
    + rewrite Forall_forall in Hok, Hnot |- *. intros entry Hentry.
      split_and!; [|by apply Hok|by apply Hnot|apply Hin; set_solver].
      apply (list_elem_of_fmap_2 Archive_Name) in Hentry. rewrite Hnames in Hentry.
      repeat (apply elem_of_cons in Hentry as [->|Hentry]; [reflexivity|]). by apply elem_of_nil in Hentry.
    + apply Forall_forall. set_solver.
  - assert (∀ entry, entry ∈ entries → entry_of m (Archive_Name entry) = Archive_Content entry) as Hof.
    { intros entry Hentry. unfold entry_of. by rewrite (Hin entry) by set_solver. }
    unfold diagnostic_members in Hmembers. destruct (JSON analysis) as [text|] eqn:Htext; [|done].
    cbn [rbind] in Hmembers. injection Hmembers as <-. repeat setoid_rewrite elem_of_cons in Hof.
    pose proof (Hof (mkArchiveEntry "analysis.json" _ 0) ltac:(tauto)) as E1.
    pose proof (Hof (mkArchiveEntry "captures/bad.json" _ 0) ltac:(tauto)) as E2.
    pose proof (Hof (mkArchiveEntry "captures/good.json" _ 0) ltac:(tauto)) as E3.
    pose proof (Hof (mkArchiveEntry "certificate.json" _ 0) ltac:(tauto)) as E4.
    pose proof (Hof (mkArchiveEntry "report.json" _ 0) ltac:(tauto)) as E5.
    pose proof (Hof (mkArchiveEntry "report.md" _ 0) ltac:(tauto)) as E6.
    cbn [Archive_Name Archive_Content] in *. split; [|exact E4].
    unfold check_contents. rewrite E1, E2, E3, E4, E5, E6, !canonical_reads by done. cbn [rbind].
    cbn [manifest diagnostic_manifest Manifest_AnalysisID].
    rewrite Hg, Hb, !bool_decide_eq_true_2 by done. cbn [negb orb].
    rewrite (exported_certificate _ _ _ _ _ _ _ Hcert). cbn [negb].
    unfold JSON in Htext. destruct (report_json (Build analysis)) as [encoded|] eqn:Hr; [|done].
    cbn [rbind] in Htext. injection Htext as <-. rewrite (report_decodes _ _ Vr Hr). cbn [rbind].
    rewrite !bool_decide_eq_true_2 by done. cbn [negb orb].
    assert (has_prefix (Markdown analysis) ("# WorldBisect diagnosis" +:+ NL) = true) as -> by apply has_prefix_app.
    done.
Qed.

(** What the round trip asks of a case: its redacted form is encodable, and
    the members fit the importer's limits. *)
Definition transferable (io : key_io) (s : data_store) (analysis : Analysis) (good bad : Capture) : Prop :=
  json_valid analysis ∧ json_valid good ∧ json_valid bad ∧ json_valid (Build analysis) ∧
  json_valid (Analysis_Normalize (with_schema analysis)) ∧
  json_valid (Capture_Normalize (capture_with_schema good)) ∧
  json_valid (Capture_Normalize (capture_with_schema bad)) ∧
  ∀ s1 certificate entries, certificateForAnalysisWithEvidence io s analysis good bad = (s1, Ok certificate) →
    diagnostic_members certificate analysis good bad = Ok entries →
    let manifest := diagnostic_manifest analysis good bad entries in
    let entries := entries ++ [mkArchiveEntry "manifest.json" (canonicalJSON manifest) 0] in
    json_valid certificate ∧ json_valid manifest ∧ Forall small entries ∧ (total_length entries ≤ maxDiagnosticTotal)%Z.

(** The identifiers of a loaded case *)
Lemma load_case_spec s id a good bad : load_case s id = Ok (a, good, bad) →
  validIdentifier id = true ∧ validIdentifier (Analysis_GoodCaptureID a) = true ∧
  validIdentifier (Analysis_BadCaptureID a) = true ∧
  (Analysis_GoodCaptureID a = Analysis_BadCaptureID a → good = bad).
Proof.
  unfold load_case, loadAnalysis, loadCapture, loadEntity. intros Hcase.
  destruct (validIdentifier id); [|done]. cbn [negb] in Hcase. destruct (ds_analyses s !! id); [|done].
  destruct (json_strict _) as [x|] in Hcase; [|done]. cbn [rbind] in Hcase. step_ok Hcase.
  destruct (validIdentifier (Analysis_GoodCaptureID x)) eqn:Ig; [|done]. cbn [negb] in Hcase.
  destruct (ds_captures s !! Analysis_GoodCaptureID x) as [tg|] eqn:Hg; [|done].
  destruct (json_strict tg) as [y|] eqn:Hy; [|done].
  cbn [rbind] in Hcase. destruct (validIdentifier (Analysis_BadCaptureID x)) eqn:Ib; [|done]. cbn [negb] in Hcase.
  destruct (ds_captures s !! Analysis_BadCaptureID x) as [tb|] eqn:Hb; [|done].
  destruct (json_strict tb) as [z|] eqn:Hz; [|done].
  cbn [rbind] in Hcase. injection Hcase as <- <- <-. split_and!; [done..|].
  intros Heq. rewrite Heq, Hb in Hg. injection Hg as <-. rewrite Hz in Hy. by injection Hy.
Qed.

(** An import that has passed the checks stores all three entities. *)
Lemma store_diagnostic_spec io s analysis good bad text :
  validIdentifier (Analysis_ID analysis) = true → validIdentifier (Capture_ID good) = true →
  validIdentifier (Capture_ID bad) = true → (Capture_ID good = Capture_ID bad → good = bad) →
  json_valid (Analysis_Normalize (with_schema analysis)) →
  json_valid (Capture_Normalize (capture_with_schema good)) →
  json_valid (Capture_Normalize (capture_with_schema bad)) →
  dio_save_good io = None ∧ dio_save_bad io = None ∧ dio_save_analysis io = None →
  (AppendAudit (ds_audit s) (dio_audit io) (dio_now io) "diagnostic-import" "analysis" (Analysis_ID analysis)
    {["format" := JString diagnosticBundleFormat]}).2 = Ok tt →
  let '(s', r) := store_diagnostic io s analysis good bad text in
  r = Ok (Analysis_ID analysis, text) ∧
  loadAnalysis s' (Analysis_ID analysis) = Ok (Analysis_Normalize (with_schema analysis)) ∧
  loadCapture s' (Capture_ID good) = Ok (Capture_Normalize (capture_with_schema good)) ∧
  loadCapture s' (Capture_ID bad) = Ok (Capture_Normalize (capture_with_schema bad)) ∧
  (∀ other, other ≠ Analysis_ID analysis → ds_analyses s' !! other = ds_analyses s !! other) ∧
  (∀ other, other ≠ Capture_ID good → other ≠ Capture_ID bad → ds_captures s' !! other = ds_captures s !! other) ∧
  ds_blobs s' = ds_blobs s.
Proof.
  intros Ia Ig Ib Hsame Va Vg Vb (W1 & W2 & W3) Haudit.
  unfold store_diagnostic, SaveCapture, SaveAnalysis, saveEntity.
  cbn [Capture_ID Capture_Normalize capture_with_schema Analysis_ID Analysis_Normalize with_schema].
  rewrite Ia, Ig, Ib, W1, W2, W3. cbn [negb set_captures set_analyses ds_captures ds_analyses ds_audit].
  destruct (AppendAudit _ _ _ _ _ _ _) as [audit res]. cbn in Haudit. subst res.
  cbn [set_audit set_captures set_analyses ds_captures ds_analyses ds_blobs].
  split_and!; [done|by apply saved_loads| |by apply saved_loads|..|done].
  - destruct (decide (Capture_ID good = Capture_ID bad)) as [Heq|Hne].
    + rewrite Heq, (Hsame Heq). by apply saved_loads.
    + unfold loadCapture, loadEntity. rewrite Ig. cbn [negb set_audit set_captures set_analyses ds_captures].
      rewrite lookup_insert_ne, lookup_insert_eq by done.
      by apply json_strict_roundtrip.
  - intros other ?. by rewrite lookup_insert_ne.
  - intros other ? ?. by rewrite !lookup_insert_ne.
Qed.

(** C24: a handoff can be imported where it was sent.  When an analysis and its
    captures, each stored under its own identifier, were exported to a file
    within the limits, importing that file into any store succeeds if its
    writes do; the answer is the identifier of the analysis and the text of
    the certificate, which verifies for the redacted evidence; and the
    redacted analysis and captures can be loaded there in normal form, while
    the other entities and the blobs stay as they were. *)
Theorem ExportDiagnostic_imports `{!CanonicalJson Capture, !CanonicalJson Analysis, !CanonicalJson Certificate,
    !CanonicalJson diagnosticManifest, !HandoffJson} io dio s s1 s2 id old a0 good0 bad0 file mode s2' r
  (analysis := redactAnalysis a0) (good := redactCapture good0) (bad := redactCapture bad0)
  (Hcase : load_case s id = Ok (a0, good0, bad0))
  (Hvalid : json_valid a0 ∧ json_valid good0 ∧ json_valid bad0)
  (Hids : Analysis_ID a0 = id ∧ Capture_ID good0 = Analysis_GoodCaptureID a0 ∧ Capture_ID bad0 = Analysis_BadCaptureID a0)
  (Htransfer : transferable io s analysis good bad)
  (Hexport : ExportDiagnostic io s id old None = (s1, Some (file, mode), Ok tt))
  (Hsize : (Z.of_nat (String.length file) ≤ maxBundleBytes)%Z)
  (Hwrites : dio_save_good dio = None ∧ dio_save_bad dio = None ∧ dio_save_analysis dio = None)
  (Haudit : (AppendAudit (ds_audit s2) (dio_audit dio) (dio_now dio) "diagnostic-import" "analysis" id
              {["format" := JString diagnosticBundleFormat]}).2 = Ok tt)
  (Hrun : ImportDiagnostic dio s2 (Ok file) = (s2', r)) :
  ∃ certificate, r = Ok (id, canonicalJSON certificate) ∧
    json_strict (canonicalJSON certificate) = Ok certificate ∧
    Verification_Valid (verifyCertificateValue certificate analysis good bad) = true ∧
    loadAnalysis s2' id = Ok (Analysis_Normalize (with_schema analysis)) ∧
    loadCapture s2' (Analysis_GoodCaptureID a0) = Ok (Capture_Normalize (capture_with_schema good)) ∧
    loadCapture s2' (Analysis_BadCaptureID a0) = Ok (Capture_Normalize (capture_with_schema bad)) ∧
    (∀ other, other ≠ id → ds_analyses s2' !! other = ds_analyses s2 !! other) ∧
    (∀ other, other ≠ Analysis_GoodCaptureID a0 → other ≠ Analysis_BadCaptureID a0 →
       ds_captures s2' !! other = ds_captures s2 !! other) ∧
    ds_blobs s2' = ds_blobs s2.
Proof.
  assert (Analysis_ID analysis = id ∧ Analysis_GoodCaptureID analysis = Analysis_GoodCaptureID a0 ∧
    Analysis_BadCaptureID analysis = Analysis_BadCaptureID a0 ∧
    Capture_ID good = Analysis_GoodCaptureID a0 ∧ Capture_ID bad = Analysis_BadCaptureID a0) as (Ea & Eag & Eab & Eg & Eb).
  { destruct Hvalid as (? & ? & ?). unfold analysis, good, bad, redactAnalysis, redactCapture.
    rewrite cloneAnalysis_valid, !cloneCapture_valid by done. by destruct Hids as (? & ? & ?). }
  apply load_case_spec in Hcase as Hloaded. destruct Hloaded as (Iid & Ig & Ib & Hsame).
  assert (Analysis_GoodCaptureID a0 = Analysis_BadCaptureID a0 → good = bad) as Hsame'
    by (intros Heq; unfold good, bad; by rewrite (Hsame Heq)).
  unfold ExportDiagnostic in Hexport. rewrite Hcase in Hexport. fold analysis good bad in Hexport.
  clearbody analysis good bad.
  destruct (certificateForAnalysisWithEvidence io s analysis good bad) as [s1' [certificate|]] eqn:Hcert; [|done].
  destruct (diagnostic_members certificate analysis good bad) as [entries|] eqn:Hmembers; [|done].
  destruct Htransfer as (Va & Vg & Vb & Vr & Vna & Vng & Vnb & Hall).
  destruct (Hall _ _ _ Hcert Hmembers) as (Vc & Vm & Hsmall & Htotal). clear Hall.
  pose proof (members_names _ _ _ _ _ Hmembers) as Hnames.
  set (manifest := diagnostic_manifest analysis good bad entries) in *.
  set (all := entries ++ _) in *.
  assert (NoDup (Archive_Name <$> all)) as Hnd.
  { unfold all. rewrite fmap_app, Hnames. apply (bool_decide_unpack _). vm_compute. exact I. }
  assert (length all = 7) as Hlen.
  { rewrite <-(length_fmap Archive_Name). unfold all. by rewrite fmap_app, Hnames. }
  unfold writeDeterministicTarGzip in Hexport. destruct (tar_loop _) as [[]|] eqn:Htar; [|done].
  cbn in Hexport. injection Hexport as <- <- <-.
  unfold ImportDiagnostic in Hrun. rewrite exported_diagnostic_reads in Hrun by (done || (rewrite Hlen; done)).
  pose proof (exported_files _ Hnd) as (_ & Hin & Hdom).
  destruct (exported_handoff io s s1' (files_of (with_mode <$> sort_by Archive_Name all)) analysis good bad certificate
    entries) as (Hm & Hc & Hcertificate); try done; try congruence.
  { by rewrite Ea. }
  { unfold all in Hsmall. by apply Forall_app in Hsmall as [? _]. }
  fold manifest in Hm, Hc. rewrite Hm in Hrun. cbn [rbind] in Hrun. rewrite Hc, Hcertificate in Hrun.
  exists certificate.
  pose proof (store_diagnostic_spec dio s2 analysis good bad (canonicalJSON certificate)) as Hstored.
  rewrite Hrun, Ea, Eg, Eb in Hstored. destruct Hstored as (-> & ? & ? & ? & ? & ? & ?); [done..|].
  split_and!; [done|by apply canonical_reads|by eapply exported_certificate|done..].
Qed.
End import_lemmas.

(** ** Witnesses *)

#[export] Instance CommandSpec_eq_dec : EqDecision CommandSpec.
Proof. solve_decision. Defined.
#[export] Instance HostEvidence_eq_dec : EqDecision HostEvidence.
Proof. solve_decision. Defined.
#[export] Instance SecretEvidence_eq_dec : EqDecision SecretEvidence.
Proof. solve_decision. Defined.
#[export] Instance ConsultedPath_eq_dec : EqDecision ConsultedPath.
Proof. solve_decision. Defined.
#[export] Instance Capture_eq_dec : EqDecision Capture.
Proof. solve_decision. Defined.
#[export] Instance Analysis_eq_dec : EqDecision Analysis.
Proof. solve_decision. Defined.

(** The table codec, with decoders that do not mind white space *)
Lemma count_unary n : count_byte "x" (unary n) = n.
Proof. induction n as [|n IH]; [done|]. cbn. by rewrite IH. Qed.

Definition row_decode {A} (l : list A) (s : string) : result A :=
  match l !! count_byte "x" s with Some a => Ok a | None => Err (ErrMsg "invalid character") end.

Lemma row_roundtrip {A} `{EqDecision A} (l : list A) a suffix : a ∈ l → count_byte "x" suffix = 0 →
  row_decode l (table_encode l a +:+ suffix) = Ok a.
Proof.
  intros Ha Hs. unfold table_encode. destruct (list_find_elem_of (λ b, b = a) l a Ha eq_refl) as [[i b] Hf].
  rewrite Hf. apply list_find_Some in Hf as (Hi & -> & _).
  unfold row_decode. by rewrite count_byte_app, count_unary, Hs, Nat.add_0_r, Hi.
Qed.

Lemma row_roundtrip_nil {A} `{EqDecision A} (l : list A) a : a ∈ l → row_decode l (table_encode l a) = Ok a.
Proof. intros Ha. rewrite <-(string_app_nil_r (table_encode l a)). by apply row_roundtrip. Qed.

Definition rows_json {A} `{EqDecision A} (l : list A) : Json A.
Proof.
  refine {| json_encode := table_encode l; json_marshal := table_encode l;
            json_decode := row_decode l; json_strict := row_decode l; json_valid a := a ∈ l |}.
  all: apply row_roundtrip_nil.
Defined.

Lemma in_rows {A} `{EqDecision A} (l : list A) a : bool_decide (a ∈ l) = true → @json_valid A (rows_json l) a.
Proof. apply bool_decide_eq_true_1. Qed.

#[export] Instance rows_canonical {A} `{EqDecision A} (l : list A) : @CanonicalJson A (rows_json l).
Proof. split; intros a Ha; [by apply row_roundtrip|by apply row_roundtrip_nil]. Defined.

(** A good and a bad capture with secrets in them; a second good capture that
    differs in what is withheld *)
Definition demo_case_capture (id output token file : string) : Capture :=
  let manifest := mkWorkspaceManifest "/home/ada" [mkWorkspaceEntry "a" "file" 420 5 (sha256_hex file) (sha256_hex file) ""]
    1 5 (sha256_hex output) in
  mkCapture 3 id 0 0 0 "" "/home/ada" (mkCommandSpec ["make"; output] "/home/ada" {["API_TOKEN" := token; "LANG" := "C"]} 0)
    (mkOracle "stdout" None token "" "")
    (mkProcessResult 0 "" false 0 0 0 output "" false [output] []) zero_oracle_result manifest manifest zero_host [] [] [] [].
Definition demo_good : Capture := demo_case_capture "cap-good" "all good" "hunter2" "hello".
Definition demo_bad : Capture := demo_case_capture "cap-bad" "all bad" "hunter3" "world".
Definition demo_other : Capture := demo_case_capture "cap-good" "well" "swordfish" "sword".
Definition demo_case (value : string) : Analysis :=
  mkAnalysis 3 "ana-1" 7 "cap-good" "cap-bad"
    [mkFactor "env:API_TOKEN" FactorEnvironment "API_TOKEN" true true value "hunter3" zero_entry zero_entry true]
    ["env:API_TOKEN"] [] StatusProven true true true 3 100 "API_TOKEN differs." [] ["one host"].

Definition redacted_capture (c : Capture) : Capture := @redactCapture (single_json c) c.
Definition redacted_case (a : Analysis) : Analysis := @redactAnalysis (single_json a) a.
Definition case_captures : Json Capture :=
  rows_json [demo_good; demo_bad; demo_other; redacted_capture demo_good; redacted_capture demo_bad].
Definition case_analyses : Json Analysis :=
  rows_json [demo_case "hunter2"; demo_case "swordfish"; redacted_case (demo_case "hunter2")].
Definition case_encoders : Encoders :=
  {| quote s := s; report_json _ := Ok "{}"; sarif_json _ := Ok "{}"; junit_xml _ := Ok "" |}.
Definition case_report : Json AnalysisReport := single_json (@Build case_encoders (redacted_case (demo_case "hunter2"))).
Definition case_envelope : Json envelope := single_json (mkEnvelope diagnosticBundleFormat).
Definition case_incident : Json incident :=
  single_json (mkIncident (redacted_case (demo_case "hunter2")) (redacted_capture demo_good) (redacted_capture demo_bad)).
Definition case_times : TimeFormat := {| format_time t := "2026-01-01T00:00:00Z" |}.

#[local] Existing Instances demo_ed25519 demo_key_files case_captures case_analyses demo_experiments
  demo_factor_sets demo_claims_json demo_signed_json demo_archives case_encoders case_times quick_codec case_report
  case_envelope case_incident.

Definition demo_desk (good : string) (analysis : string) : data_store :=
  mkDataStore ∅ {["cap-good" := good; "cap-bad" := "x"]} {["ana-1" := analysis]} None ∅.
Definition case_certificate : Certificate :=
  match (certificateForAnalysisWithEvidence demo_key_io (demo_desk "" "") (redacted_case (demo_case "hunter2"))
           (redacted_capture demo_good) (redacted_capture demo_bad)).2 with
  | Ok certificate => certificate
  | Err _ => demo_certificate
  end.
Definition case_certificates : Json Certificate := single_json case_certificate.
#[local] Existing Instance case_certificates.
Definition case_members : list archiveEntry :=
  match diagnostic_members case_certificate (redacted_case (demo_case "hunter2")) (redacted_capture demo_good)
          (redacted_capture demo_bad) with
  | Ok entries => entries
  | Err _ => []
  end.
Definition case_manifest : diagnosticManifest :=
  diagnostic_manifest (redacted_case (demo_case "hunter2")) (redacted_capture demo_good) (redacted_capture demo_bad)
    case_members.
Definition case_manifests : Json diagnosticManifest := single_json case_manifest.
#[local] Existing Instance case_manifests.
Definition case_exported : data_store * option out_file * result unit :=
  ExportDiagnostic demo_key_io (demo_desk "" "") "ana-1" None None.
Definition case_file : string := default "" (fst <$> case_exported.1.2).
Definition case_writes : diagnostic_io := mkDiagnosticIO None None None NoFault 9.
Definition case_imported : data_store * result (string * string) :=
  ImportDiagnostic case_writes demo_receiver (Ok case_file).

Lemma case_imported_ok : case_imported.2 = Ok ("ana-1", "{}" +:+ NL).
Proof. vm_compute. reflexivity. Qed.

Lemma ImportDiagnostic_verifies_witness :
  ∃ entries manifest analysis good bad, readDiagnosticArchive (Ok case_file) = Ok entries ∧
    declared entries manifest ∧ contained entries manifest analysis good bad.
Proof.
  destruct (ImportDiagnostic_verifies case_writes demo_receiver (Ok case_file) case_imported.1 case_imported.2
    (surjective_pairing _)) as [[_ [err Herr]]|(entries & manifest & analysis & good & bad & Hr & Hd & Hc & _)].
  - exfalso. rewrite case_imported_ok in Herr. discriminate Herr.
  - exists entries, manifest, analysis, good, bad. split; [exact Hr|]. split; [exact Hd|exact Hc].
Defined.

Lemma redacts_capture c : c ∈ [demo_good; demo_bad] → redactCapture c = redacted_capture c.
Proof. intros [->|[->|[]%elem_of_nil]%elem_of_cons]%elem_of_cons; vm_compute; reflexivity. Qed.

Lemma case_certified io s s1 certificate : io = demo_key_io → s = demo_desk "" "" →
  certificateForAnalysisWithEvidence io s (redacted_case (demo_case "hunter2")) (redacted_capture demo_good)
    (redacted_capture demo_bad) = (s1, Ok certificate) → certificate = case_certificate.
Proof. intros -> -> Hc. unfold case_certificate. by rewrite Hc. Qed.

Lemma case_transferable : transferable demo_key_io (demo_desk "" "") (redacted_case (demo_case "hunter2"))
  (redacted_capture demo_good) (redacted_capture demo_bad).
Proof.
  split_and!; try (apply in_rows; vm_compute; reflexivity); [reflexivity|].
  intros s1 certificate entries ->%case_certified Hm; [|done..].
  assert (entries = case_members) as -> by (unfold case_members; by rewrite Hm).
  split_and!; [reflexivity..|apply (bool_decide_unpack _); vm_compute; exact I|vm_compute; discriminate].
Qed.

Lemma demo_case_public id output output' token token' file file' :
  public_capture (demo_case_capture id output token file) (demo_case_capture id output' token' file').
Proof.
  split; try reflexivity; try (split; reflexivity).
  - intros name. cbn [demo_case_capture Capture_Command CommandSpec_Environment].
    destruct (decide (name = "API_TOKEN")) as [->|]; [rewrite !lookup_insert_eq; by left|].
    rewrite !(lookup_insert_ne _ "API_TOKEN") by done.
    destruct (decide (name = "LANG")) as [->|]; [rewrite !lookup_singleton_eq; by right|].
    by rewrite !lookup_singleton_ne.
  - split; try reflexivity. constructor; [|constructor]. split; try reflexivity. by left.
  - split; try reflexivity. constructor; [|constructor]. split; try reflexivity. by left.
Qed.

Lemma diagnostic_hides_values_witness :
  ds_captures (demo_desk "" "") ≠ ds_captures (demo_desk "xx" "x") ∧
  (ExportDiagnostic demo_key_io (demo_desk "" "") "ana-1" None None).1.2 =
    (ExportDiagnostic demo_key_io (demo_desk "xx" "x") "ana-1" None None).1.2 ∧
  (ExportDiagnostic demo_key_io (demo_desk "" "") "ana-1" None None).2 =
    (ExportDiagnostic demo_key_io (demo_desk "xx" "x") "ana-1" None None).2 ∧
  PreviewDiagnostic (demo_desk "" "") "ana-1" = PreviewDiagnostic (demo_desk "xx" "x") "ana-1".
Proof.
  split; [intros Heq; apply (f_equal (λ m, m !! "cap-good")) in Heq; vm_compute in Heq; discriminate Heq|].
  apply (diagnostic_hides_values demo_key_io (demo_desk "" "") (demo_desk "xx" "x") "ana-1" None None
    (demo_case "hunter2") demo_good demo_bad (demo_case "swordfish") demo_other demo_bad).
  - reflexivity.
  - reflexivity.
  - split_and!; apply in_rows; vm_compute; reflexivity.
  - split_and!; apply in_rows; vm_compute; reflexivity.
  - reflexivity.
  - split; try reflexivity; [|constructor].
    constructor; [|constructor]. split; try reflexivity; try (by left); split; try reflexivity; split; try reflexivity; by left.
  - apply demo_case_public.
  - apply demo_case_public.
Defined.

Lemma written_file (e : data_store * option out_file * result unit) mode :
  e.2 = Ok tt → snd <$> e.1.2 = Some mode → e = (e.1.1, Some (default "" (fst <$> e.1.2), mode), Ok tt).
Proof. destruct e as [[s [[file m]|]] r]; cbn; [by intros -> [= ->]|done]. Qed.

Lemma ExportDiagnostic_imports_witness :
  case_imported.2 = Ok ("ana-1", "{}" +:+ NL) ∧
  ∃ certificate, case_imported.2 = Ok ("ana-1", canonicalJSON certificate) ∧
    json_strict (canonicalJSON certificate) = Ok certificate ∧
    Verification_Valid (verifyCertificateValue certificate (redactAnalysis (demo_case "hunter2"))
      (redactCapture demo_good) (redactCapture demo_bad)) = true ∧
    loadAnalysis case_imported.1 "ana-1" = Ok (Analysis_Normalize (with_schema (redactAnalysis (demo_case "hunter2")))) ∧
    loadCapture case_imported.1 "cap-good" = Ok (Capture_Normalize (capture_with_schema (redactCapture demo_good))) ∧
    loadCapture case_imported.1 "cap-bad" = Ok (Capture_Normalize (capture_with_schema (redactCapture demo_bad))) ∧
    (∀ other, other ≠ "ana-1" → ds_analyses case_imported.1 !! other = ds_analyses demo_receiver !! other) ∧
    (∀ other, other ≠ "cap-good" → other ≠ "cap-bad" →
       ds_captures case_imported.1 !! other = ds_captures demo_receiver !! other) ∧
    ds_blobs case_imported.1 = ds_blobs demo_receiver.
Proof.
  split; [exact case_imported_ok|].
  assert (@CanonicalJson Certificate case_certificates) as C1 by (by split; intros a ->).
  assert (@CanonicalJson diagnosticManifest case_manifests) as C2 by (by split; intros a ->).
  assert (HandoffJson) as C3 by (by split; [intros report text -> _|intros manifest ->]).
  apply (ExportDiagnostic_imports demo_key_io case_writes (demo_desk "" "") case_exported.1.1 demo_receiver "ana-1" None
    (demo_case "hunter2") demo_good demo_bad case_file 420 case_imported.1 case_imported.2).
  - reflexivity.
  - split_and!; apply in_rows; vm_compute; reflexivity.
  - split_and!; reflexivity.
  - exact case_transferable.
  - apply (written_file case_exported 420); vm_compute; reflexivity.
  - vm_compute. discriminate.
  - split_and!; reflexivity.
  - vm_compute. reflexivity.
  - apply surjective_pairing.
Defined.

(** A path that looks secret is withheld in a workspace manifest, and kept in
    the identifier and entries of a factor. *)
Example factor_path_kept :
  let entry := mkWorkspaceEntry "deploy/secret.pem" "file" 384 5 "d" "d" "" in
  let factor := mkFactor "workspace:deploy/secret.pem" FactorWorkspace "deploy/secret.pem" true true "v" "w" entry
    entry true in
  Entry_Path (redact_entry entry) = "[redacted path]" ∧
  Factor_Key (redact_factor factor) = "[redacted factor]" ∧
  Factor_ID (redact_factor factor) = "workspace:deploy/secret.pem" ∧
  Entry_Path (Factor_GoodEntry (redact_factor factor)) = "deploy/secret.pem".
Proof. vm_compute. split_and!; reflexivity. Qed.
