(* ===== verification/Api.v ===== *)
(** * Api: the HTTP interface of the daemon

    Models [src/internal/api/server.go]: the middleware, the routes, the bearer
    tokens with their scopes, every handler, the error answers and the
    counters.  [http.ServeMux] is the function [mux]; whether it finds the path
    clean is part of the request, and so are the decoded path segments.  The
    JSON decoder of a request body is the interface [BodyDecoder]; random
    identifiers are inputs.  Trace spans, the log and panics are not modelled. *)

From S2P Require Import Prelude Sha256 Model Json AuditLog Jobs Manager Paths Fs Config Store Oracle Runner Bundle.
From S2P Require Import Certificate Capturer Authorize Service.

(** ** Requests and responses *)

Record request := mkHTTP {
  http_method : string;
  http_clean : bool;
  http_segments : list string;
  http_limit : string;              (** the query parameter *)
  http_authorization : string;
  http_request_id : string;
  http_traceparent : string;
  http_key : string;                (** [Idempotency-Key] *)
  http_body : string;
}.

Inductive body :=
  | BodyNone
  | BodyError (code message request_id : string) (details : list (string * string))
  | BodyStatus (status : string)
  | BodyVersion (info : list (string * string))
  | BodyCaptures (values : list Capture)
  | BodyCapture (value : Capture)
  | BodyAnalyses (values : list Analysis)
  | BodyAnalysis (value : Analysis)
  | BodyJobs (values : list Job)
  | BodyJob (value : Job)
  | BodyVerification (value : AuditVerification)
  | BodyMetrics (lines : list (string * Z))
  | BodyAsset (content : string).

(** Status, content type, body *)
Definition reply : Type := Z * string * body.

Record response := mkResponse {
  Response_Status : Z;
  Response_ContentType : string;
  Response_Body : body;
  Response_RequestID : string;
  Response_TraceParent : string;
  Response_Security : list (string * string);
}.

Definition security_headers : list (string * string) :=
  [("X-Content-Type-Options", "nosniff"); ("X-Frame-Options", "DENY"); ("Referrer-Policy", "no-referrer");
   ("Content-Security-Policy", "default-src 'self'; script-src 'self'; style-src 'self'; connect-src 'self'; frame-ancestors 'none'; base-uri 'none'; form-action 'none'");
   ("Cache-Control", "no-store")].

(** ** State *)

Record metrics := mkMetrics {
  metric_requests : Z;
  metric_errors : Z;
  metric_captures : Z;
  metric_analyses : Z;
  metric_authFails : Z;
}.

Record Server := mkServer {
  srv_cfg : Config;
  srv_metrics : metrics;
  srv_jobs : mstate;
  srv_data : data_store;
}.

Definition New (cfg : Config) (jobs : mstate) (data : data_store) : Server :=
  mkServer cfg (mkMetrics 0 0 0 0 0) jobs data.

Definition set_metrics (s : Server) (m : metrics) : Server := mkServer (srv_cfg s) m (srv_jobs s) (srv_data s).
Definition set_jobs (s : Server) (jobs : mstate) : Server := mkServer (srv_cfg s) (srv_metrics s) jobs (srv_data s).

(** Atomic counters wrap around. *)
Definition add_request (m : metrics) : metrics :=
  mkMetrics (wrap_uint64 (metric_requests m + 1)) (metric_errors m) (metric_captures m) (metric_analyses m) (metric_authFails m).
Definition add_error (m : metrics) : metrics :=
  mkMetrics (metric_requests m) (wrap_uint64 (metric_errors m + 1)) (metric_captures m) (metric_analyses m) (metric_authFails m).
Definition add_capture (m : metrics) : metrics :=
  mkMetrics (metric_requests m) (metric_errors m) (wrap_uint64 (metric_captures m + 1)) (metric_analyses m) (metric_authFails m).
Definition add_analysis (m : metrics) : metrics :=
  mkMetrics (metric_requests m) (metric_errors m) (metric_captures m) (wrap_uint64 (metric_analyses m + 1)) (metric_authFails m).
Definition add_authFail (m : metrics) : metrics :=
  mkMetrics (metric_requests m) (metric_errors m) (metric_captures m) (metric_analyses m) (wrap_uint64 (metric_authFails m + 1)).

Record principal := mkPrincipal {
  Principal_Name : string;
  Principal_Scopes : list string;
  Principal_Hash : string;
}.

(** The outside world of one request: the random identifiers of the middleware
    and of an error answer, the authorisation, and the queue's files *)
Record api_io := mkAPIIO {
  aio_request_id : string;
  aio_error_id : string;
  aio_traceparent : string;
  aio_auth : auth_io;
  aio_enqueue : enqueue_io;
}.

(** ** Routes *)

Inductive route :=
  | RHealth | RVersion
  | RListCaptures | RCreateCapture | RGetCapture (id : string)
  | RListAnalyses | RCreateAnalysis | RGetAnalysis (id : string)
  | RListJobs | RGetJob (id : string)
  | RVerifyAudit | RMetrics | RDashboard
  | RMethodNotAllowed | RRedirect.

Definition route_get (segments : list string) : route :=
  match segments with
  | ["api"; "v1"; "health"] => RHealth
  | ["api"; "v1"; "version"] => RVersion
  | ["api"; "v1"; "captures"] => RListCaptures
  | ["api"; "v1"; "captures"; id] => if bool_decide (id = "") then RDashboard else RGetCapture id
  | ["api"; "v1"; "analyses"] => RListAnalyses
  | ["api"; "v1"; "analyses"; id] => if bool_decide (id = "") then RDashboard else RGetAnalysis id
  | ["api"; "v1"; "jobs"] => RListJobs
  | ["api"; "v1"; "jobs"; id] => if bool_decide (id = "") then RDashboard else RGetJob id
  | ["api"; "v1"; "metrics"] => RMetrics
  | _ => RDashboard
  end.

Definition route_post (segments : list string) : route :=
  match segments with
  | ["api"; "v1"; "captures"] => RCreateCapture
  | ["api"; "v1"; "analyses"] => RCreateAnalysis
  | ["api"; "v1"; "audit"; "verify"] => RVerifyAudit
  | _ => RMethodNotAllowed
  end.

(** A pattern for GET also serves HEAD; [GET /] matches every path, so an
    unknown path is only found with another method. *)
Definition mux (r : request) : route :=
  if negb (http_clean r) then RRedirect
  else if bool_decide (http_method r = "GET") || bool_decide (http_method r = "HEAD") then route_get (http_segments r)
  else if bool_decide (http_method r = "POST") then route_post (http_segments r)
  else RMethodNotAllowed.

(** [None]: the route needs no token. *)
Definition route_scope (r : route) : option string :=
  match r with
  | RHealth | RMethodNotAllowed | RRedirect => None
  | RCreateCapture => Some "capture:write"
  | RCreateAnalysis => Some "analysis:write"
  | _ => Some "read"
  end.

(** ** Answers *)

Definition writeJSON (status : Z) (value : body) : reply := (status, "application/json", value).

(** The identifier in the body is the one of the request, or a new one. *)
Definition writeError (io : api_io) (s : Server) (r : request) (status : Z) (code message : string)
    (details : list (string * string)) : Server * reply :=
  let requestID := if bool_decide (http_request_id r = "") then aio_error_id io else http_request_id r in
  (set_metrics s (add_error (srv_metrics s)), writeJSON status (BodyError code message requestID details)).

Definition writeStoreError (io : api_io) (s : Server) (r : request) (err : error) : Server * reply :=
  if bool_decide (err = ErrNotExist) then writeError io s r 404 "not_found" "entity not found" []
  else writeError io s r 500 "store_error" "store operation failed" [].

Definition writeServiceError (io : api_io) (s : Server) (r : request) (err : failure) : Server * reply :=
  match err with
  | Typed e => writeError io s r (Error_HTTPStatus e) (Error_Code e) (Error_Message e) []
  | Plain _ => writeError io s r 500 "service_error" "service operation failed" []
  end.

(** [strconv.Atoi] gives the nearest bound with an error of range, and 0 with
    an error of syntax; only the value is used. *)
Definition atoi_value (s : string) : Z :=
  match Atoi s with
  | Ok n => n
  | Err err => if bool_decide (err = out_of_range) then (if has_prefix s "-" then - 2 ^ 63 else 2 ^ 63 - 1) else 0
  end.

Definition limit (r : request) : Z :=
  let value := atoi_value (http_limit r) in
  if bool_decide (value ≤ 0)%Z then 50 else if bool_decide (200 < value)%Z then 200 else value.

(** ** Authentication *)

Inductive verdict :=
  | Unauthorized (message : string)
  | Forbidden (scope : string)
  | Granted (p : principal).

(** The first token with the hash decides. *)
Definition authenticate (cfg : Config) (scope authorization : string) : verdict :=
  if negb (has_prefix authorization "Bearer ") then Unauthorized "bearer token required"
  else
    let raw := trim_prefix authorization "Bearer " in
    match list_find (λ token, VerifyToken raw (Token_Hash token) = true) (Config_Tokens cfg) with
    | None => Unauthorized "invalid bearer token"
    | Some (_, token) =>
        if negb (bool_decide (scope = "")) && negb (bool_decide (scope ∈ Token_Scopes token)) &&
           negb (bool_decide ("admin" ∈ Token_Scopes token))
        then Forbidden scope
        else Granted (mkPrincipal (Token_Name token) (Token_Scopes token) (Fingerprint raw))
    end.

(** ** Bodies *)

(** [json.Decoder] with unknown fields refused: the first value with what
    follows it, and whether only white space follows *)
Class BodyDecoder (A : Type) := {
  decode_first : string → result (A * string);
  decode_end : string → bool;
}.

(** Reading stops at the size limit; what was cut off is never an end of the
    body. *)
Definition decodeJSON {A} `{!BodyDecoder A} (io : api_io) (s : Server) (r : request) : (Server * reply) + A :=
  let max := Quotas_MaxRequestBytes (Config_Quotas (srv_cfg s)) in
  match decode_first (limit_reader max (http_body r)) with
  | Err err => inl (writeError io s r 400 "invalid_json" "invalid JSON request" [("cause", error_text err)])
  | Ok (value, rest) =>
      if negb (decode_end rest) || bool_decide (max < Z.of_nat (String.length (http_body r)))%Z
      then inl (writeError io s r 400 "invalid_json" "request must contain one JSON object" [])
      else inr value
  end.

(** ** The lists of jobs *)

Fixpoint read_all (d : disk) (names : list string) : result (list Job) :=
  match names with
  | [] => Ok []
  | name :: names => let? job := read_file (disk_jobs d) name in let? jobs := read_all d names in Ok (job :: jobs)
  end.

Definition ListJobs (d : disk) (limit : Z) : result (list Job) :=
  let names := reverse (job_files d) in
  read_all d (if bool_decide (0 < limit)%Z && bool_decide (limit < Z.of_nat (length names))%Z
              then take (Z.to_nat limit) names else names).

Definition LoadJob (d : disk) (identifier : string) : result Job :=
  fail? negb (validIdentifier identifier) with bad_identifier in read_file (disk_jobs d) identifier.

(** ** Handlers *)

Section api.
Context `{PAudit : !Json AuditEvent, PCaptureJob : !Json CaptureJobRequest, PAnalysisJob : !Json AnalysisJobRequest,
  PCapture : !Json Capture, PAnalysis : !Json Analysis, PCaptureBody : !BodyDecoder CaptureJobRequest,
  PAnalysisBody : !BodyDecoder AnalysisJobRequest}.
(** [version.Info], and [web.Asset]: content and type of an embedded file *)
Variables (version_info : list (string * string)) (asset : string → option (string * string)).

Definition answer {A} (io : api_io) (s : Server) (r : request) (value : result A) (show : A → body) : Server * reply :=
  match value with
  | Err err => writeStoreError io s r err
  | Ok value => (s, writeJSON 200 (show value))
  end.

Definition enqueued (io : api_io) (s : Server) (r : request) (count : metrics → metrics)
    (outcome : mstate * (failure + Job * bool)) : Server * reply :=
  let '(jobs, result) := outcome in
  let s := set_jobs s jobs in
  match result with
  | inl err => writeServiceError io s r err
  | inr (job, true) => (s, writeJSON 200 (BodyJob job))
  | inr (job, false) => (set_metrics s (count (srv_metrics s)), writeJSON 202 (BodyJob job))
  end.

Definition createCapture (io : api_io) (s : Server) (r : request) (p : principal) : Server * reply :=
  if negb (Config_RemoteExecutionEnabled (srv_cfg s))
  then writeError io s r 403 "remote_execution_disabled" "remote execution is disabled" []
  else
    match decodeJSON io s r with
    | inl refused => refused
    | inr request =>
        enqueued io s r add_capture
          (EnqueueCapture (srv_cfg s) (aio_auth io) (aio_enqueue io) (srv_jobs s) (Principal_Name p) (Principal_Hash p)
             (http_key r) request)
    end.

Definition createAnalysis (io : api_io) (s : Server) (r : request) (p : principal) : Server * reply :=
  match decodeJSON io s r with
  | inl refused => refused
  | inr request =>
      enqueued io s r add_analysis
        (EnqueueAnalysis (aio_enqueue io) (srv_jobs s) (Principal_Name p) (Principal_Hash p) (http_key r) request)
  end.

Definition prometheus (s : Server) : reply :=
  let m := srv_metrics s in
  (200%Z, "text/plain; version=0.0.4",
   BodyMetrics [("worldbisect_http_requests_total", metric_requests m); ("worldbisect_http_errors_total", metric_errors m);
     ("worldbisect_auth_failures_total", metric_authFails m); ("worldbisect_capture_jobs_total", metric_captures m);
     ("worldbisect_analysis_jobs_total", metric_analyses m)]).

(** [http.NotFound] does not go through [writeError]. *)
Definition dashboard (r : request) : reply :=
  let path := join "/" (http_segments r) in
  match asset (if bool_decide (path = "") then "index.html" else path) with
  | None => (404%Z, "text/plain; charset=utf-8", BodyNone)
  | Some (content, contentType) => (200%Z, contentType, BodyAsset content)
  end.

Definition health (s : Server) : Server * reply := (s, writeJSON 200 (BodyStatus "ok")).
Definition version (s : Server) : Server * reply := (s, writeJSON 200 (BodyVersion version_info)).
Definition listCaptures (io : api_io) (s : Server) (r : request) : Server * reply :=
  answer io s r (listEntities (ds_captures (srv_data s)) (limit r)) BodyCaptures.
Definition getCapture (io : api_io) (s : Server) (r : request) (id : string) : Server * reply :=
  answer io s r (loadCapture (srv_data s) id) BodyCapture.
Definition listAnalyses (io : api_io) (s : Server) (r : request) : Server * reply :=
  answer io s r (listEntities (ds_analyses (srv_data s)) (limit r)) BodyAnalyses.
Definition getAnalysis (io : api_io) (s : Server) (r : request) (id : string) : Server * reply :=
  answer io s r (loadAnalysis (srv_data s) id) BodyAnalysis.
Definition listJobs (io : api_io) (s : Server) (r : request) : Server * reply :=
  answer io s r (ListJobs (m_disk (srv_jobs s)) (limit r)) BodyJobs.
Definition getJob (io : api_io) (s : Server) (r : request) (id : string) : Server * reply :=
  answer io s r (LoadJob (m_disk (srv_jobs s)) id) BodyJob.
Definition verifyAudit (io : api_io) (s : Server) (r : request) : Server * reply :=
  answer io s r (VerifyAudit (disk_audit (m_disk (srv_jobs s)))) BodyVerification.

(** The handler of a route.  [http.ServeMux] itself answers the last two. *)
Definition handle (io : api_io) (s : Server) (r : request) (p : principal) (target : route) : Server * reply :=
  match target with
  | RHealth => health s
  | RVersion => version s
  | RListCaptures => listCaptures io s r
  | RCreateCapture => createCapture io s r p
  | RGetCapture id => getCapture io s r id
  | RListAnalyses => listAnalyses io s r
  | RCreateAnalysis => createAnalysis io s r p
  | RGetAnalysis id => getAnalysis io s r id
  | RListJobs => listJobs io s r
  | RGetJob id => getJob io s r id
  | RVerifyAudit => verifyAudit io s r
  | RMetrics => (s, prometheus s)
  | RDashboard => (s, dashboard r)
  | RMethodNotAllowed => (s, (405%Z, "text/plain; charset=utf-8", BodyNone))
  | RRedirect => (s, (301%Z, "", BodyNone))
  end.

Definition nobody : principal := mkPrincipal "" [] "".

Definition serve (io : api_io) (s : Server) (r : request) : Server * reply :=
  let target := mux r in
  match route_scope target with
  | None => handle io s r nobody target
  | Some scope =>
      match authenticate (srv_cfg s) scope (http_authorization r) with
      | Unauthorized message =>
          let s := set_metrics s (add_authFail (srv_metrics s)) in writeError io s r 401 "unauthorized" message []
      | Forbidden scope => writeError io s r 403 "forbidden" "token lacks required scope" [("scope", scope)]
      | Granted p => handle io s r p target
      end
  end.

(** The middleware around the routes *)
Definition ServeHTTP (io : api_io) (s : Server) (r : request) : Server * response :=
  let s := set_metrics s (add_request (srv_metrics s)) in
  let requestID := if bool_decide (http_request_id r = "") then aio_request_id io else http_request_id r in
  let traceParent := if bool_decide (http_traceparent r = "") then aio_traceparent io else http_traceparent r in
  let '(s, (status, contentType, value)) := serve io s r in
  (s, mkResponse status contentType value requestID traceParent security_headers).
End api.

(** [handler] shows what the handler of a known route does. *)
Ltac handler :=
  cbn [handle]; unfold health, version, listCaptures, getCapture, listAnalyses, getAnalysis, listJobs, getJob, verifyAudit.

(** ** Lemmas: authentication *)

(** The first configured token with the hash of the presented one *)
Definition presented (cfg : Config) (authorization : string) (raw : string) (token : Token) : Prop :=
  authorization = "Bearer " +:+ raw ∧
  ∃ i, Config_Tokens cfg !! i = Some token ∧ Token_Hash token = HashToken raw ∧
    ∀ j earlier, Config_Tokens cfg !! j = Some earlier → j < i → Token_Hash earlier ≠ HashToken raw.

Definition allows (token : Token) (scope : string) : Prop := scope ∈ Token_Scopes token ∨ "admin" ∈ Token_Scopes token.

Definition token_principal (token : Token) (raw : string) : principal :=
  mkPrincipal (Token_Name token) (Token_Scopes token) (Fingerprint raw).

Lemma bearer_raw authorization raw : authorization = "Bearer " +:+ raw ↔
  has_prefix authorization "Bearer " = true ∧ trim_prefix authorization "Bearer " = raw.
Proof.
  split.
  - intros ->. split; [apply has_prefix_app|apply trim_prefix_app].
  - intros [Hp <-]. apply has_prefix_true in Hp as [t ->]. by rewrite trim_prefix_app.
Qed.

Lemma presented_list_find cfg raw token :
  (∃ i, list_find (λ t, VerifyToken raw (Token_Hash t) = true) (Config_Tokens cfg) = Some (i, token)) ↔
  presented cfg ("Bearer " +:+ raw) raw token.
Proof.
  unfold presented. split.
  - intros [i Hi]. apply list_find_Some in Hi as (H1 & H2%VerifyToken_spec & H3). split; [done|].
    exists i. split_and!; [done..|]. intros j t Hj Hlt Heq. apply (H3 j t Hj Hlt). by apply VerifyToken_spec.
  - intros [_ (i & H1 & H2 & H3)]. exists i. apply list_find_Some. split_and!; [done|by apply VerifyToken_spec|].
    intros j t Hj Hlt Heq%VerifyToken_spec. by apply (H3 j t).
Qed.

(** What the answer of the middleware means *)
Lemma authenticate_verdict cfg scope authorization : scope ≠ "" →
  match authenticate cfg scope authorization with
  | Unauthorized _ => ∀ raw token, ¬ presented cfg authorization raw token
  | Forbidden scope' => scope' = scope ∧ ∃ raw token, presented cfg authorization raw token ∧ ¬ allows token scope
  | Granted p => ∃ raw token, presented cfg authorization raw token ∧ allows token scope ∧ p = token_principal token raw
  end.
Proof.
  intros Hscope. unfold authenticate. destruct (has_prefix authorization "Bearer ") eqn:Hp; cbn [negb].
  2:{ intros raw token [(Hp' & _)%bearer_raw _]. by rewrite Hp in Hp'. }
  set (raw := trim_prefix authorization "Bearer ") in *.
  pose proof (proj2 (bearer_raw authorization raw) (conj Hp eq_refl)) as Hraw.
  destruct (list_find _ _) as [[i token]|] eqn:Hf.
  - assert (presented cfg authorization raw token) as Hpres by (rewrite Hraw; apply presented_list_find; by exists i).
    rewrite (bool_decide_eq_false_2 (scope = "")) by done. cbn [negb andb].
    destruct (decide (scope ∈ Token_Scopes token)) as [Hin|Hin].
    { rewrite (bool_decide_eq_true_2 _ Hin). cbn [negb andb]. exists raw, token. split_and!; [done|by left|done]. }
    rewrite (bool_decide_eq_false_2 _ Hin). destruct (decide ("admin" ∈ Token_Scopes token)) as [Ha|Ha].
    { rewrite (bool_decide_eq_true_2 _ Ha). cbn [negb andb]. exists raw, token. split_and!; [done|by right|done]. }
    rewrite (bool_decide_eq_false_2 _ Ha). cbn [negb andb]. split; [done|]. exists raw, token. split; [done|]. by intros [?|?].
  - intros raw' token Hpres. assert (raw' = raw) as ->.
    { destruct Hpres as [(_ & <-)%bearer_raw _]. done. }
    rewrite Hraw in Hpres. apply presented_list_find in Hpres as [i Hi]. by rewrite Hf in Hi.
Qed.

(** ** Lemmas: what a request changes *)

Definition is_error (b : body) : bool := match b with BodyError _ _ _ _ => true | _ => false end.
Definition is_create_capture (t : route) : bool := match t with RCreateCapture => true | _ => false end.
Definition is_create_analysis (t : route) : bool := match t with RCreateAnalysis => true | _ => false end.

(** The counters after an answer to a request that is already counted *)
Definition tally (t : route) (status : Z) (b : body) (m : metrics) : metrics :=
  let m := if is_error b then add_error m else m in
  let m := if bool_decide (status = 401)%Z then add_authFail m else m in
  let m := if is_create_capture t && bool_decide (status = 202)%Z then add_capture m else m in
  if is_create_analysis t && bool_decide (status = 202)%Z then add_analysis m else m.

(** A server is its queue and its counters; the rest stays. *)
Definition same_rest (s s' : Server) : Prop := srv_cfg s' = srv_cfg s ∧ srv_data s' = srv_data s.

Definition refusal (status : Z) : Prop := (status ≠ 200 ∧ status ≠ 401 ∧ status ≠ 202)%Z.

Section effects.
Context `{PAudit : !Json AuditEvent, PCaptureJob : !Json CaptureJobRequest, PAnalysisJob : !Json AnalysisJobRequest,
  PCapture : !Json Capture, PAnalysis : !Json Analysis, PCaptureBody : !BodyDecoder CaptureJobRequest,
  PAnalysisBody : !BodyDecoder AnalysisJobRequest}.
Variables (version_info : list (string * string)) (asset : string → option (string * string)).

(** [effect t s a]: the answer [a] to a request for [t] from state [s] counts what it is. *)
Definition effect (t : route) (s : Server) (a : Server * reply) : Prop :=
  same_rest s a.1 ∧ srv_metrics a.1 = tally t a.2.1.1 a.2.2 (srv_metrics s).

Lemma writeError_effect io t s r status code message details : refusal status →
  effect t s (writeError io s r status code message details).
Proof.
  intros (H0 & H1 & H2). split; [done|]. unfold tally. cbn.
  rewrite (bool_decide_eq_false_2 (status = 401)%Z), (bool_decide_eq_false_2 (status = 202)%Z) by done.
  by rewrite !andb_false_r.
Qed.

Lemma answer_effect {A} io t s r (value : result A) show : (∀ a, is_error (show a) = false) →
  effect t s (answer io s r value show).
Proof.
  intros Hshow. unfold answer. destruct value as [a|err].
  - split; [done|]. unfold tally. cbn. by rewrite Hshow, !andb_false_r.
  - unfold writeStoreError. destruct (bool_decide _); by apply writeError_effect.
Qed.

Lemma answer_jobs {A} io s r (value : result A) show : srv_jobs (answer io s r value show).1 = srv_jobs s.
Proof. unfold answer, writeStoreError. destruct value; [done|]. by destruct (bool_decide _). Qed.

(** The service reports a refusal. *)
Definition refused (out : failure + Job * bool) : Prop :=
  match out with inl (Typed e) => refusal (Error_HTTPStatus e) | _ => True end.

Lemma enqueue_refused {A} `{!Json A} io s kind principal fingerprint key (request : A) :
  refused (enqueue io s kind principal fingerprint key request).2.
Proof.
  unfold enqueue. destruct (canonicalPayload request). destruct (Enqueue _ _ _ _ _ _ _ _ _ _ _) as [s' [x|err]]; [done|].
  cbn. unfold enqueue_failure. by destruct (bool_decide _).
Qed.

Lemma EnqueueCapture_refused cfg auth io s principal fingerprint key request :
  refused (EnqueueCapture cfg auth io s principal fingerprint key request).2.
Proof.
  unfold EnqueueCapture. destruct (negb _); [done|]. destruct (validateCaptureRequest _); [|done].
  destruct (authorizeExecution _ _ _); [apply enqueue_refused|done].
Qed.

Lemma EnqueueAnalysis_refused io s principal fingerprint key request :
  refused (EnqueueAnalysis io s principal fingerprint key request).2.
Proof. unfold EnqueueAnalysis. destruct (_ || _); [done|apply enqueue_refused]. Qed.

Lemma enqueued_effect io t s r count outcome : refused outcome.2 →
  (∀ m, count m = tally t 202 BodyNone m) → effect t s (enqueued io s r count outcome).
Proof.
  intros Hout Hcount. unfold enqueued. destruct outcome as [jobs [err|[job existed]]].
  - unfold writeServiceError. destruct err as [e|err].
    + by apply (writeError_effect io t (set_jobs s jobs)).
    + by apply (writeError_effect io t (set_jobs s jobs)).
  - destruct existed; (split; [done|]); [|apply Hcount]. unfold tally. cbn. by rewrite !andb_false_r.
Qed.

Lemma decodeJSON_refused {A} `{!BodyDecoder A} io s r a : decodeJSON (A := A) io s r = inl a →
  ∃ code message details, a = writeError io s r 400 code message details.
Proof.
  unfold decodeJSON. destruct (decode_first _) as [[v rest]|err]; [|intros [= <-]; by eauto].
  destruct (_ || _); [|done]. intros [= <-]. by eauto.
Qed.

Lemma createCapture_effect io s r p : effect RCreateCapture s (createCapture io s r p).
Proof.
  unfold createCapture. destruct (negb _); [by apply writeError_effect|].
  destruct (decodeJSON io s r) as [a|request] eqn:Hd.
  - apply decodeJSON_refused in Hd as (? & ? & ? & ->). by apply writeError_effect.
  - apply enqueued_effect; [apply EnqueueCapture_refused|done].
Qed.

Lemma createAnalysis_effect io s r p : effect RCreateAnalysis s (createAnalysis io s r p).
Proof.
  unfold createAnalysis. destruct (decodeJSON io s r) as [a|request] eqn:Hd.
  - apply decodeJSON_refused in Hd as (? & ? & ? & ->). by apply writeError_effect.
  - apply enqueued_effect; [apply EnqueueAnalysis_refused|done].
Qed.

Lemma handle_effect io s r p t : effect t s (handle version_info asset io s r p t).
Proof.
  destruct t; handler; try (by apply answer_effect); try (by (split; [done|])).
  - apply createCapture_effect.
  - apply createAnalysis_effect.
  - unfold dashboard. destruct (asset _) as [[content kind]|]; by split.
Qed.

Lemma handle_status io s r p t : (handle version_info asset io s r p t).2.1.1 ≠ 401%Z.
Proof.
  assert (∀ s status code message details, status ≠ 401%Z → (writeError io s r status code message details).2.1.1 ≠ 401%Z) as Herr
    by done.
  assert (∀ {A} (v : result A) show, (answer io s r v show).2.1.1 ≠ 401%Z) as Hans.
  { intros A v show. unfold answer, writeStoreError. destruct v; [done|]. by destruct (bool_decide _). }
  assert (∀ count out, refused out.2 → (enqueued io s r count out).2.1.1 ≠ 401%Z) as Hen.
  { intros count [jobs [[e|err]|[job []]]] Hout; try done. by destruct Hout as (_ & ? & _). }
  destruct t; handler; try done; try apply Hans.
  - unfold createCapture. destruct (negb _); [done|]. destruct (decodeJSON io s r) as [a|request] eqn:Hd.
    + apply decodeJSON_refused in Hd as (? & ? & ? & ->). done.
    + apply Hen, EnqueueCapture_refused.
  - unfold createAnalysis. destruct (decodeJSON io s r) as [a|request] eqn:Hd.
    + apply decodeJSON_refused in Hd as (? & ? & ? & ->). done.
    + apply Hen, EnqueueAnalysis_refused.
  - unfold dashboard. by destruct (asset _) as [[content kind]|].
Qed.
End effects.

Lemma EnqueueCapture_changes `{!Json AuditEvent, !Json CaptureJobRequest} cfg auth io s principal fingerprint key request :
  (EnqueueCapture cfg auth io s principal fingerprint key request).1 ≠ s → acceptable cfg auth request.
Proof.
  unfold EnqueueCapture, acceptable. destruct (Config_RemoteExecutionEnabled cfg); cbn [negb]; [|done].
  destruct (validateCaptureRequest request) as [[]|]; [|done]. destruct (authorizeExecution _ _ _); [|done].
  intros _. split_and!; [done|done|by eexists].
Qed.

Section serving.
Context `{PAudit : !Json AuditEvent, PCaptureJob : !Json CaptureJobRequest, PAnalysisJob : !Json AnalysisJobRequest,
  PCapture : !Json Capture, PAnalysis : !Json Analysis, PCaptureBody : !BodyDecoder CaptureJobRequest,
  PAnalysisBody : !BodyDecoder AnalysisJobRequest}.
Variables (version_info : list (string * string)) (asset : string → option (string * string)).

Lemma enqueued_jobs io s r count outcome : srv_jobs (enqueued io s r count outcome).1 = outcome.1.
Proof. destruct outcome as [jobs [[e|err]|[job []]]]; done. Qed.

Lemma createCapture_changes io s r p : srv_jobs (createCapture io s r p).1 ≠ srv_jobs s →
  ∃ request, decodeJSON io s r = inr request ∧ acceptable (srv_cfg s) (aio_auth io) request.
Proof.
  unfold createCapture. destruct (negb _); [done|]. destruct (decodeJSON io s r) as [a|request] eqn:Hd.
  - apply decodeJSON_refused in Hd as (? & ? & ? & ->). done.
  - rewrite enqueued_jobs. intros Hne%EnqueueCapture_changes. by exists request.
Qed.

(** Only the two routes that create jobs touch the queue. *)
Lemma handle_jobs io s r p t : srv_jobs (handle version_info asset io s r p t).1 ≠ srv_jobs s →
  (t = RCreateCapture ∧ ∃ request, acceptable (srv_cfg s) (aio_auth io) request) ∨ t = RCreateAnalysis.
Proof.
  destruct t; handler; rewrite ?answer_jobs; try done; intros Hne; [left|by right].
  apply createCapture_changes in Hne as (request & _ & Hacc). split; [done|by exists request].
Qed.

(** The middleware of the bearer tokens *)
Lemma serve_cases io s r :
  match route_scope (mux r) with
  | None => serve version_info asset io s r = handle version_info asset io s r nobody (mux r)
  | Some scope =>
      (∃ message, (∀ raw token, ¬ presented (srv_cfg s) (http_authorization r) raw token) ∧
         serve version_info asset io s r = writeError io (set_metrics s (add_authFail (srv_metrics s))) r 401 "unauthorized" message []) ∨
      (∃ raw token, presented (srv_cfg s) (http_authorization r) raw token ∧ ¬ allows token scope ∧
         serve version_info asset io s r = writeError io s r 403 "forbidden" "token lacks required scope" [("scope", scope)]) ∨
      (∃ raw token, presented (srv_cfg s) (http_authorization r) raw token ∧ allows token scope ∧
         serve version_info asset io s r = handle version_info asset io s r (token_principal token raw) (mux r))
  end.
Proof.
  unfold serve. destruct (route_scope (mux r)) as [scope|] eqn:Hs; [|done].
  assert (scope ≠ "") as Hne by by destruct (mux r); simplify_eq/=.
  pose proof (authenticate_verdict (srv_cfg s) scope (http_authorization r) Hne) as Hv.
  destruct (authenticate _ _ _) as [message|scope'|p].
  - left. by exists message.
  - right; left. destruct Hv as (-> & raw & token & ? & ?). by exists raw, token.
  - right; right. destruct Hv as (raw & token & ? & ? & ->). by exists raw, token.
Qed.

Lemma presented_unique cfg authorization raw token raw' token' :
  presented cfg authorization raw token → presented cfg authorization raw' token' → raw' = raw ∧ token' = token.
Proof.
  intros [Ha Hp] [Ha' Hp']. assert (raw' = raw) as ->.
  { apply bearer_raw in Ha as [_ <-], Ha' as [_ <-]. done. }
  split; [done|]. destruct Hp as (i & H1 & H2 & H3), Hp' as (j & H4 & H5 & H6).
  destruct (lt_eq_lt_dec i j) as [[Hlt| ->]|Hlt].
  - by destruct (H6 i token).
  - rewrite H1 in H4. by injection H4.
  - by destruct (H3 j token').
Qed.

Lemma serve_effect io s r : effect (mux r) s (serve version_info asset io s r).
Proof.
  pose proof (serve_cases io s r) as Hc. destruct (route_scope (mux r)) as [scope|].
  2:{ rewrite Hc. apply handle_effect. }
  destruct Hc as [(message & _ & ->)|[(raw & token & _ & _ & ->)|(raw & token & _ & _ & ->)]].
  - split; [done|]. unfold tally. cbn. by rewrite !andb_false_r.
  - by apply writeError_effect.
  - apply handle_effect.
Qed.
End serving.

(** ** Lemmas: replays *)

Section replays.
Context `{PAudit : !Json AuditEvent, PCaptureJob : !Json CaptureJobRequest, PAnalysisJob : !Json AnalysisJobRequest,
  PCaptureBody : !BodyDecoder CaptureJobRequest, PAnalysisBody : !BodyDecoder AnalysisJobRequest}.

Lemma enqueue_replay {A} `{!Json A} io io2 s kind principal fingerprint key (request : A) s1 job existing :
  cio_idem_unreadable (eio_create io) = false → cio_idem_unreadable (eio_create io2) = false →
  enqueue io s kind principal fingerprint key request = (s1, inr (job, existing)) →
  ∃ s2, enqueue io2 s1 kind principal fingerprint key request = (s2, inr (job, true)) ∧ m_disk s2 = m_disk s1.
Proof.
  intros Hr1 Hr2. unfold enqueue, canonicalPayload. set (payload := json_marshal request).
  assert (sha256_hex payload ≠ "") as Hdigest.
  { intros Heq. pose proof (sha256_hex_length payload) as Hlen. by rewrite Heq in Hlen. }
  generalize dependent (sha256_hex payload). intros digest Hdigest. unfold Enqueue. case_bool_decide as Hkey; [done|].
  destruct (CreateJobIdempotent (eio_create io) (m_disk s) _) as [d [[job' existing']|err]] eqn:Hc; [|done].
  intros Heq. assert (Notify (set_disk s d) = s1 ∧ job' = job) as [<- ->] by by split; congruence.
  eapply (CreateJob_idempotent (eio_create io) (m_disk s) _ d job existing' (eio_create io2)
    (mkCreateJobRequest (new_job (eio_id io2) kind payload principal (eio_created io2) (eio_updated io2)) fingerprint kind key digest))
    in Hc as Hc2; [|done..]. cbn [Create_RequestDigest] in Hc2. rewrite decide_True in Hc2 by done.
  change (m_disk (Notify (set_disk s d))) with d. rewrite Hc2. by eexists.
Qed.

Lemma EnqueueCapture_replay cfg auth io io2 s principal fingerprint key request s1 job existing :
  cio_idem_unreadable (eio_create io) = false → cio_idem_unreadable (eio_create io2) = false →
  EnqueueCapture cfg auth io s principal fingerprint key request = (s1, inr (job, existing)) →
  ∃ s2, EnqueueCapture cfg auth io2 s1 principal fingerprint key request = (s2, inr (job, true)) ∧ m_disk s2 = m_disk s1.
Proof.
  intros Hr1 Hr2. unfold EnqueueCapture. destruct (negb _); [done|]. destruct (validateCaptureRequest _); [|done].
  destruct (authorizeExecution _ _ _); [|done]. by apply enqueue_replay.
Qed.

Lemma EnqueueAnalysis_replay io io2 s principal fingerprint key request s1 job existing :
  cio_idem_unreadable (eio_create io) = false → cio_idem_unreadable (eio_create io2) = false →
  EnqueueAnalysis io s principal fingerprint key request = (s1, inr (job, existing)) →
  ∃ s2, EnqueueAnalysis io2 s1 principal fingerprint key request = (s2, inr (job, true)) ∧ m_disk s2 = m_disk s1.
Proof. intros Hr1 Hr2. unfold EnqueueAnalysis. destruct (_ || _); [done|]. by apply enqueue_replay. Qed.

(** An accepted answer comes from an accepted request. *)
Lemma enqueued_accepted io s r count outcome : (enqueued io s r count outcome).2.1.1 ∈ [200; 202]%Z → refused outcome.2 →
  ∃ jobs job existing, outcome = (jobs, inr (job, existing)) ∧ (enqueued io s r count outcome).2.2 = BodyJob job ∧
    srv_jobs (enqueued io s r count outcome).1 = jobs.
Proof.
  destruct outcome as [jobs [[e|err]|[job existing]]]; cbn.
  - intros H (H1 & _ & H2). exfalso. set_solver.
  - intros H. exfalso. set_solver.
  - intros _ _. exists jobs, job, existing. by destruct existing.
Qed.

Lemma decodeJSON_again {A} `{!BodyDecoder A} io io2 s s2 r (request : A) : srv_cfg s2 = srv_cfg s →
  decodeJSON io s r = inr request → decodeJSON io2 s2 r = inr request.
Proof.
  unfold decodeJSON. intros ->. destruct (decode_first _) as [[v rest]|err]; [|done]. by destruct (_ || _).
Qed.

Lemma create_again {A} `{!BodyDecoder A} io io2 s s2 r count (run run2 : A → mstate * (failure + Job * bool)) :
  srv_cfg s2 = srv_cfg s →
  (∀ request, refused (run request).2) →
  (∀ request jobs job existing, run request = (jobs, inr (job, existing)) → srv_jobs s2 = jobs →
     ∃ s', run2 request = (s', inr (job, true)) ∧ m_disk s' = m_disk jobs) →
  let answer io s run := match decodeJSON io s r with inl a => a | inr request => enqueued io s r count (run request) end in
  (answer io s run).2.1.1 ∈ [200; 202]%Z → srv_jobs s2 = srv_jobs (answer io s run).1 →
  (answer io2 s2 run2).2 = (200%Z, "application/json", (answer io s run).2.2) ∧
  m_disk (srv_jobs (answer io2 s2 run2).1) = m_disk (srv_jobs s2).
Proof.
  intros Hcfg Href Hagain answer. subst answer. cbn beta. destruct (decodeJSON io s r) as [a|request] eqn:Hd.
  { apply decodeJSON_refused in Hd as (? & ? & ? & ->). cbn. intros. exfalso. set_solver. }
  rewrite (decodeJSON_again _ _ _ _ _ _ Hcfg Hd). intros Hstatus Hjobs.
  apply enqueued_accepted in Hstatus as (jobs & job & existing & Hrun & Hbody & Hjobs'); [|apply Href].
  rewrite Hjobs' in Hjobs. destruct (Hagain request jobs job existing Hrun Hjobs) as (s' & Hrun2 & Hdisk).
  rewrite Hrun2, Hbody. cbn. split; [done|]. by rewrite Hjobs.
Qed.
End replays.

(** ** Lemmas: pages *)

Lemma limit_range r : (1 ≤ limit r ≤ 200)%Z.
Proof. unfold limit. repeat case_bool_decide; lia. Qed.

Lemma page_length {A} (l : list A) n : (0 < n)%Z →
  Z.of_nat (length (if bool_decide (0 < n)%Z && bool_decide (n < Z.of_nat (length l))%Z then take (Z.to_nat n) l else l)) =
  Z.min n (Z.of_nat (length l)).
Proof.
  intros Hn. rewrite bool_decide_eq_true_2 by done. cbn [andb]. case_bool_decide; [rewrite length_take|]; lia.
Qed.

Lemma length_names {V} key (m : gmap string V) : length (reverse (sort_by key (map_to_list m).*1)) = size m.
Proof. by rewrite length_reverse, length_sort_by, length_fmap, length_map_to_list. Qed.

Lemma listEntities_length `{!Json A} dir n (values : list A) : (0 < n)%Z → listEntities dir n = Ok values →
  Z.of_nat (length values) = Z.min n (Z.of_nat (size dir)).
Proof.
  intros Hn Hl. apply decode_all_spec, Forall2_length in Hl. rewrite <-Hl, length_fmap, page_length, length_names by done. done.
Qed.

Lemma read_all_length d names : ∀ jobs, read_all d names = Ok jobs → length jobs = length names.
Proof. induction names as [|name names IH]; intros jobs Hr; cbn in Hr; [by injection Hr as <-|].
  step_all Hr. injection Hr as <-. cbn. by rewrite (IH _ eq_refl). Qed.

Lemma ListJobs_length d n jobs : (0 < n)%Z → ListJobs d n = Ok jobs →
  Z.of_nat (length jobs) = Z.min n (Z.of_nat (size (disk_jobs d))).
Proof. intros Hn ->%read_all_length. rewrite page_length by done. unfold job_files. by rewrite length_names. Qed.

(** The page that an answer shows is as long as it can be. *)
Definition page_ok (s : Server) (r : request) (b : body) : Prop :=
  let page n := Z.min (limit r) (Z.of_nat n) in
  match b with
  | BodyCaptures values => Z.of_nat (length values) = page (size (ds_captures (srv_data s)))
  | BodyAnalyses values => Z.of_nat (length values) = page (size (ds_analyses (srv_data s)))
  | BodyJobs values => Z.of_nat (length values) = page (size (disk_jobs (m_disk (srv_jobs s))))
  | _ => True
  end.

Lemma answer_page {A} io s r (value : result A) show : (∀ a, value = Ok a → page_ok s r (show a)) →
  page_ok s r (answer io s r value show).2.2.
Proof.
  intros Hshow. unfold answer, writeStoreError. destruct value as [a|err]; [by apply Hshow|]. by destruct (bool_decide _).
Qed.

Lemma handle_page `{!Json AuditEvent, !Json CaptureJobRequest, !Json AnalysisJobRequest, !Json Capture,
    !Json Analysis, !BodyDecoder CaptureJobRequest, !BodyDecoder AnalysisJobRequest} version_info asset io s r p t :
  page_ok s r (handle version_info asset io s r p t).2.2.
Proof.
  pose proof (limit_range r) as Hl. assert (∀ count out, page_ok s r (enqueued io s r count out).2.2) as Hen.
  { intros count [jobs [[e|err]|[job []]]]; done. }
  destruct t; handler; try done; try (apply answer_page; intros a Ha; cbn);
    try (apply listEntities_length; [lia|done]); try (apply ListJobs_length; [lia|done]); try done.
  - unfold createCapture. destruct (negb _); [done|]. destruct (decodeJSON io s r) as [a|request] eqn:Hd; [|apply Hen].
    apply decodeJSON_refused in Hd as (? & ? & ? & ->). done.
  - unfold createAnalysis. destruct (decodeJSON io s r) as [a|request] eqn:Hd; [|apply Hen].
    apply decodeJSON_refused in Hd as (? & ? & ? & ->). done.
  - unfold dashboard. by destruct (asset _) as [[content kind]|].
Qed.

(** ** Runs of requests *)

(** A request, with the queue and the store as it finds them: the workers and
    other requests change both between two requests. *)
Record event := mkEvent {
  ev_io : api_io;
  ev_request : request;
  ev_jobs : mstate;
  ev_data : data_store;
}.

Section runs.
Context `{PAudit : !Json AuditEvent, PCaptureJob : !Json CaptureJobRequest, PAnalysisJob : !Json AnalysisJobRequest,
  PCapture : !Json Capture, PAnalysis : !Json Analysis, PCaptureBody : !BodyDecoder CaptureJobRequest,
  PAnalysisBody : !BodyDecoder AnalysisJobRequest}.
Variables (version_info : list (string * string)) (asset : string → option (string * string)).

Definition respond (s : Server) (e : event) : Server * response :=
  ServeHTTP version_info asset (ev_io e) (mkServer (srv_cfg s) (srv_metrics s) (ev_jobs e) (ev_data e)) (ev_request e).

Fixpoint respond_all (s : Server) (events : list event) : Server * list (route * response) :=
  match events with
  | [] => (s, [])
  | e :: events =>
      let '(s, resp) := respond s e in
      let '(s, log) := respond_all s events in
      (s, (mux (ev_request e), resp) :: log)
  end.
End runs.

Definition count_if {A} (p : A → bool) (l : list A) : Z := foldr (λ x n, if p x then (n + 1)%Z else n) 0%Z l.

Definition is_failed (x : route * response) : bool := is_error (Response_Body x.2).
Definition is_unauthorized (x : route * response) : bool := bool_decide (Response_Status x.2 = 401)%Z.
Definition is_accepted (kind : route → bool) (x : route * response) : bool :=
  kind x.1 && bool_decide (Response_Status x.2 = 202)%Z.

(** Counters that start at [m] *)
Definition counted (m : metrics) (log : list (route * response)) : metrics :=
  mkMetrics (wrap_uint64 (metric_requests m + count_if (λ _, true) log)) (wrap_uint64 (metric_errors m + count_if is_failed log))
    (wrap_uint64 (metric_captures m + count_if (is_accepted is_create_capture) log))
    (wrap_uint64 (metric_analyses m + count_if (is_accepted is_create_analysis) log))
    (wrap_uint64 (metric_authFails m + count_if is_unauthorized log)).

Definition in_range (m : metrics) : Prop := counted m [] = m.

Lemma wrap_uint64_add a b : wrap_uint64 (wrap_uint64 a + b) = wrap_uint64 (a + b).
Proof. unfold wrap_uint64. apply Zplus_mod_idemp_l. Qed.
Lemma wrap_uint64_twice a : wrap_uint64 (wrap_uint64 a) = wrap_uint64 a.
Proof. unfold wrap_uint64. apply Zmod_mod. Qed.

Lemma counted_cons m x log : in_range m →
  in_range (tally x.1 (Response_Status x.2) (Response_Body x.2) (add_request m)) ∧
  counted (tally x.1 (Response_Status x.2) (Response_Body x.2) (add_request m)) log = counted m (x :: log).
Proof.
  unfold in_range, counted, tally, add_request, add_error, add_authFail, add_capture, add_analysis, count_if. destruct m as [m1 m2 m3 m4 m5]. cbn -[wrap_uint64]. rewrite !Z.add_0_r.
  intros [= H1 H2 H3 H4 H5]. unfold is_failed, is_unauthorized, is_accepted.
  destruct (is_error _), (bool_decide (Response_Status x.2 = 401)%Z), (is_create_capture x.1), (is_create_analysis x.1),
    (bool_decide (Response_Status x.2 = 202)%Z); cbn -[wrap_uint64];
    rewrite ?Z.add_0_r, ?wrap_uint64_twice, ?wrap_uint64_add; (split; [congruence|f_equal; f_equal; lia]).
Qed.

Lemma respond_all_counted `{PAudit : !Json AuditEvent, PCaptureJob : !Json CaptureJobRequest,
    PAnalysisJob : !Json AnalysisJobRequest, PCapture : !Json Capture, PAnalysis : !Json Analysis,
    PCaptureBody : !BodyDecoder CaptureJobRequest, PAnalysisBody : !BodyDecoder AnalysisJobRequest} version_info asset events :
  ∀ s, in_range (srv_metrics s) →
    let '(s', log) := respond_all version_info asset s events in
    srv_metrics s' = counted (srv_metrics s) log ∧ length log = length events.
Proof.
  induction events as [|e events IH]; intros s Hs; [by split; [symmetry|]|]. cbn. unfold respond, ServeHTTP.
  set (s0 := set_metrics _ _). pose proof (serve_effect version_info asset (ev_io e) s0 (ev_request e)) as [_ Heff].
  destruct (serve version_info asset (ev_io e) s0 (ev_request e)) as [s1 [[status kind] b]] eqn:Hserve.
  match goal with |- context [mkResponse ?a ?b ?c ?d ?f ?g] => set (resp := mkResponse a b c d f g) end.
  destruct (counted_cons (srv_metrics s) (mux (ev_request e), resp) [] Hs) as [Hr _].
  assert (srv_metrics s1 = tally (mux (ev_request e)) (Response_Status resp) (Response_Body resp) (add_request (srv_metrics s)))
    as Hm by exact Heff.
  cbn [fst snd] in Hr. rewrite <-Hm in Hr. specialize (IH s1 Hr).
  destruct (respond_all version_info asset s1 events) as [s' log]. destruct IH as [-> Hlen].
  split; [|by cbn; rewrite Hlen]. rewrite Hm. by apply (counted_cons (srv_metrics s) (mux (ev_request e), resp)).
Qed.

(** ** Properties *)

(** C8: nothing but the health check is served without a token that allows it.
    A request for any other route is answered 401 exactly when its bearer token
    is not configured; when the first configured token with its hash lacks the
    scope of the route (and is no admin token), the answer is an error with
    status 403.  In both cases neither the queue nor the store changes.  The
    queue changes only for a valid and authorised capture request by a token
    that may write captures, or for a request by a token that may write
    analyses; the store never changes. *)
Theorem ServeHTTP_authorised `{!Json AuditEvent, !Json CaptureJobRequest, !Json AnalysisJobRequest, !Json Capture,
    !Json Analysis, !BodyDecoder CaptureJobRequest, !BodyDecoder AnalysisJobRequest} version_info asset io s r s' resp
    (Hrun : ServeHTTP version_info asset io s r = (s', resp)) :
  same_rest s s' ∧
  match route_scope (mux r) with
  | None => srv_jobs s' = srv_jobs s ∧ (Response_Body resp = BodyStatus "ok" ∨ Response_Body resp = BodyNone)
  | Some scope =>
      (Response_Status resp = 401%Z ↔ ∀ raw token, ¬ presented (srv_cfg s) (http_authorization r) raw token) ∧
      ((∀ raw token, presented (srv_cfg s) (http_authorization r) raw token → ¬ allows token scope) →
         srv_jobs s' = srv_jobs s ∧ is_error (Response_Body resp) = true ∧ Response_Status resp ∈ [401; 403]%Z) ∧
      (srv_jobs s' ≠ srv_jobs s → ∃ raw token,
         presented (srv_cfg s) (http_authorization r) raw token ∧ allows token scope ∧
         ((mux r = RCreateCapture ∧ scope = "capture:write" ∧ ∃ request, acceptable (srv_cfg s) (aio_auth io) request) ∨
          (mux r = RCreateAnalysis ∧ scope = "analysis:write")))
  end.
Proof.
  unfold ServeHTTP in Hrun. set (s1 := set_metrics s _) in Hrun.
  pose proof (serve_effect version_info asset io s1 r) as [Hsame _]. pose proof (serve_cases version_info asset io s1 r) as Hc.
  destruct (serve version_info asset io s1 r) as [s2 [[status kind] b]] eqn:Hserve. injection Hrun as <- <-. cbn in *.
  split; [exact Hsame|]. destruct (route_scope (mux r)) as [scope|] eqn:Hscope.
  2:{ destruct (mux r); try done; injection Hc as -> -> -> ->; split_and!; [done|by left|done|by right|done|by right]. }
  destruct Hc as [(message & Hno & Heq)|[(raw & token & Hp & Hno & Heq)|(raw & token & Hp & Hal & Heq)]].
  - injection Heq as -> -> _ ->. split_and!; [done| |done]. intros _. split_and!; [done|done|left].
  - injection Heq as -> -> _ ->. split_and!; [|intros _; split_and!; [done|done|by right; left]|done].
    split; [done|]. intros Hnone. by destruct (Hnone raw token).
  - pose proof (handle_status version_info asset io s1 r (token_principal token raw) (mux r)) as Hst.
    pose proof (handle_jobs version_info asset io s1 r (token_principal token raw) (mux r)) as Hjobs.
    rewrite <-Heq in Hst, Hjobs. cbn in Hst, Hjobs. split_and!.
    + split; [done|]. intros Hnone. by destruct (Hnone raw token).
    + intros Hnone. by destruct (Hnone raw token).
    + intros [[Ht Hacc]|Ht]%Hjobs; exists raw, token; rewrite Ht in Hscope; injection Hscope as <-;
        (split_and!; [done..|]); [left|right]; by split_and!.
Qed.

(** the counters count.  Whatever requests a new server has answered, and
    however the queue and the store change meanwhile, its counters are, modulo
    2^64, the numbers of requests, of error answers, of failed authentications,
    and of the accepted new capture and analysis jobs. *)
Theorem counters_count `{!Json AuditEvent, !Json CaptureJobRequest, !Json AnalysisJobRequest, !Json Capture,
    !Json Analysis, !BodyDecoder CaptureJobRequest, !BodyDecoder AnalysisJobRequest} version_info asset cfg jobs data events :
  let '(s, log) := respond_all version_info asset (New cfg jobs data) events in
  srv_metrics s = mkMetrics (wrap_uint64 (Z.of_nat (length events))) (wrap_uint64 (count_if is_failed log))
    (wrap_uint64 (count_if (is_accepted is_create_capture) log)) (wrap_uint64 (count_if (is_accepted is_create_analysis) log))
    (wrap_uint64 (count_if is_unauthorized log)).
Proof.
  pose proof (respond_all_counted version_info asset events (New cfg jobs data) eq_refl) as Hall.
  destruct (respond_all _ _ _ _) as [s log]. destruct Hall as [-> Hlen].
  unfold counted. cbn -[wrap_uint64 count_if]. rewrite !Z.add_0_l. f_equal. f_equal. rewrite <-Hlen. clear.
  unfold count_if. induction log as [|x log IH]; [done|]. cbn [foldr length]. rewrite IH. lia.
Qed.

(** a client may send a request for a job again.  After an accepted answer
    (202, or 200 for a job that existed), the same request under the same key,
    while the executable and the directory of a capture are still authorised,
    is answered 200 with the same job, and no file of the queue changes. *)
Theorem ServeHTTP_replay `{!Json AuditEvent, !Json CaptureJobRequest, !Json AnalysisJobRequest, !Json Capture,
    !Json Analysis, !BodyDecoder CaptureJobRequest, !BodyDecoder AnalysisJobRequest} version_info asset io io2 s r s1 resp1 s2 resp2
    (Hroute : mux r = RCreateCapture ∨ mux r = RCreateAnalysis)
    (Hfirst : ServeHTTP version_info asset io s r = (s1, resp1)) (Hstatus : Response_Status resp1 ∈ [200; 202]%Z)
    (Hauth : aio_auth io2 = aio_auth io)
    (Hread : cio_idem_unreadable (eio_create (aio_enqueue io)) = false)
    (Hread2 : cio_idem_unreadable (eio_create (aio_enqueue io2)) = false)
    (Hagain : ServeHTTP version_info asset io2 s1 r = (s2, resp2)) :
  Response_Status resp2 = 200%Z ∧ Response_Body resp2 = Response_Body resp1 ∧
  m_disk (srv_jobs s2) = m_disk (srv_jobs s1).
Proof.
  unfold ServeHTTP, serve in Hfirst, Hagain. set (s0 := set_metrics s _) in Hfirst. set (s0' := set_metrics s1 _) in Hagain.
  pose proof (serve_effect version_info asset io s0 r) as [[Hcfg _] _]. unfold serve in Hcfg.
  assert (∃ scope, route_scope (mux r) = Some scope) as [scope Hscope] by (destruct Hroute as [-> | ->]; by eexists).
  rewrite Hscope in Hfirst, Hagain, Hcfg.
  destruct (authenticate (srv_cfg s0) scope (http_authorization r)) as [message|scope'|p] eqn:Hp.
  1,2: injection Hfirst as <- <-; cbn in Hstatus; exfalso; set_solver.
  destruct (handle version_info asset io s0 r p (mux r)) as [s1' [[status kind] b]] eqn:Hh. injection Hfirst as -> <-.
  change (srv_cfg s1 = srv_cfg s0) in Hcfg. cbn in Hstatus. change (srv_cfg s0') with (srv_cfg s1) in Hagain. rewrite Hcfg, Hp in Hagain.
  destruct (handle version_info asset io2 s0' r p (mux r)) as [s2' [[status2 kind2] b2]] eqn:Hh2. injection Hagain as -> <-.
  cbn. enough ((handle version_info asset io2 s0' r p (mux r)).2 = (200%Z, "application/json", b) ∧
    m_disk (srv_jobs (handle version_info asset io2 s0' r p (mux r)).1) = m_disk (srv_jobs s1)) as [H1 H2].
  { rewrite Hh2 in H1, H2. cbn in H1, H2. split_and!; [congruence|congruence|done]. }
  clear Hh2. assert (srv_jobs s0' = srv_jobs s1) as Hj by done. assert (srv_cfg s0' = srv_cfg s0) as Hc by by rewrite <-Hcfg.
  revert Hh. destruct Hroute as [-> | ->]; handler; unfold createCapture, createAnalysis; rewrite ?Hc.
  - destruct (negb _); [intros [= _ <- _ _]; exfalso; set_solver|]. intros Hh.
    match type of Hh with match _ with inl _ => _ | inr request => enqueued _ _ _ ?count (@?run request) end = _ =>
      pose proof (λ Href Hag, create_again io io2 s0 s0' r count run (λ request, EnqueueCapture (srv_cfg s0) (aio_auth io2)
        (aio_enqueue io2) (srv_jobs s0') (Principal_Name p) (Principal_Hash p) (http_key r) request) Hc Href Hag) as Hag end.
    cbn zeta beta in Hag. rewrite Hh in Hag. apply Hag; [intros; apply EnqueueCapture_refused| |done|done].
    intros request jobs job existing Hrun Hjobs. rewrite Hauth, Hjobs. exact (EnqueueCapture_replay _ _ _ _ _ _ _ _ _ _ _ _ Hread Hread2 Hrun).
  - intros Hh.
    match type of Hh with match _ with inl _ => _ | inr request => enqueued _ _ _ ?count (@?run request) end = _ =>
      pose proof (λ Href Hag, create_again io io2 s0 s0' r count run (λ request, EnqueueAnalysis
        (aio_enqueue io2) (srv_jobs s0') (Principal_Name p) (Principal_Hash p) (http_key r) request) Hc Href Hag) as Hag end.
    cbn zeta beta in Hag. rewrite Hh in Hag. apply Hag; [intros; apply EnqueueAnalysis_refused| |done|done].
    intros request jobs job existing Hrun Hjobs. rewrite Hjobs. exact (EnqueueAnalysis_replay _ _ _ _ _ _ _ _ _ _ Hread Hread2 Hrun).
Qed.

(** an answer never lists more than 200 entities.  The [limit] parameter is
    clamped to [1, 200], a missing, malformed or non-positive one counts as 50,
    also one that does not fit in 64 bits; an answer that lists captures,
    analyses or jobs holds exactly as many of the stored ones as that allows. *)
Theorem lists_bounded `{!Json AuditEvent, !Json CaptureJobRequest, !Json AnalysisJobRequest, !Json Capture,
    !Json Analysis, !BodyDecoder CaptureJobRequest, !BodyDecoder AnalysisJobRequest} version_info asset io s r s' resp
    (Hrun : ServeHTTP version_info asset io s r = (s', resp)) :
  (1 ≤ limit r ≤ 200)%Z ∧
  (∀ n, Atoi (http_limit r) = Ok n → limit r = if bool_decide (n ≤ 0)%Z then 50%Z else Z.min n 200) ∧
  (Atoi (http_limit r) = Err out_of_range → limit r = if has_prefix (http_limit r) "-" then 50%Z else 200%Z) ∧
  let page n := Z.min (limit r) (Z.of_nat n) in
  match Response_Body resp with
  | BodyCaptures values => Z.of_nat (length values) = page (size (ds_captures (srv_data s)))
  | BodyAnalyses values => Z.of_nat (length values) = page (size (ds_analyses (srv_data s)))
  | BodyJobs values => Z.of_nat (length values) = page (size (disk_jobs (m_disk (srv_jobs s))))
  | _ => True
  end.
Proof.
  split; [apply limit_range|]. split_and!.
  { intros n Hn. unfold limit, atoi_value. rewrite Hn. repeat case_bool_decide; lia. }
  { intros Hn. unfold limit, atoi_value. rewrite Hn, (bool_decide_eq_true_2 (out_of_range = out_of_range)) by done. destruct (has_prefix _ _); reflexivity. }
  cbn zeta. unfold ServeHTTP in Hrun. set (s1 := set_metrics s _) in Hrun.
  pose proof (serve_cases version_info asset io s1 r) as Hc.
  destruct (serve version_info asset io s1 r) as [s2 [[status kind] b]]. injection Hrun as _ <-. cbn [Response_Body].
  enough (∀ p, (s2, (status, kind, b)) = handle version_info asset io s1 r p (mux r) → page_ok s1 r b) as Hp.
  { destruct (route_scope (mux r)) as [scope|]; [|by apply (Hp nobody)].
    destruct Hc as [(message & _ & Heq)|[(raw & token & _ & _ & Heq)|(raw & token & _ & _ & Heq)]]; [| |by apply (Hp _ Heq)];
      injection Heq as _ _ _ ->; done. }
  intros p Hh. pose proof (handle_page version_info asset io s1 r p (mux r)) as Hpage. by rewrite <-Hh in Hpage.
Qed.

(** ** Witnesses *)

Definition api_config : Config :=
  mkConfig 1 "127.0.0.1:8787" "/data" "info" true ["/usr/bin/make"] ["/srv"] 2 30 3 (Config_Quotas Default)
    [mkToken "ada" (HashToken "s3cret") ["capture:write"; "read"]].
Definition api_decoder : BodyDecoder CaptureJobRequest :=
  {| decode_first s := if bool_decide (s = "{}") then Ok (remote_request, "") else Err (ErrMsg "EOF"); decode_end s := bool_decide (s = "") |}.
Definition no_decoder : BodyDecoder AnalysisJobRequest :=
  {| decode_first _ := Err (ErrMsg "EOF"); decode_end _ := true |}.
Definition no_analysis_job : Json AnalysisJobRequest := single_json (mkAnalysisJobRequest "" "" 0).
Definition api_analysis : Json Analysis := single_json demo_analysis.

Definition post_capture (authorization : string) : request :=
  mkHTTP "POST" true ["api"; "v1"; "captures"] "" authorization "" "" "k1" "{}".
Definition api_world (n : string) : api_io :=
  mkAPIIO ("req_" +:+ n) ("req_err_" +:+ n) "00-1-2-01" demo_auth remote_io.
Definition api_server : Server := New api_config remote_state demo_store.
Definition api_serve (io : api_io) (s : Server) (r : request) : Server * response :=
  @ServeHTTP sample_codec remote_json no_analysis_job remote_capture api_analysis api_decoder no_decoder [] (λ _, None) io s r.

Definition first_post : Server * response := api_serve (api_world "1") api_server (post_capture "Bearer s3cret").
Definition second_post : Server * response :=
  api_serve (api_world "2") first_post.1 (post_capture "Bearer s3cret").

Example api_answers :
  Response_Status first_post.2 = 202%Z ∧
  Response_Status (api_serve (api_world "1") api_server (post_capture "Bearer wrong")).2 = 401%Z ∧
  Response_Status (api_serve (api_world "1") api_server (mkHTTP "GET" true ["api"; "v1"; "jobs"] "" "Bearer s3cret" "" "" "" "")).2 = 200%Z ∧
  Response_Status (api_serve (api_world "1") api_server
    (mkHTTP "POST" true ["api"; "v1"; "analyses"] "" "Bearer s3cret" "" "" "k" "{}")).2 = 403%Z.
Proof. by vm_compute. Qed.

(** Without an [X-Request-ID] from the client, an error answer carries two
    different request identifiers. *)
Example error_request_id :
  let resp := (api_serve (api_world "1") api_server (post_capture "")).2 in
  Response_RequestID resp = "req_1" ∧
  Response_Body resp = BodyError "unauthorized" "bearer token required" "req_err_1" [].
Proof. by vm_compute. Qed.

Lemma first_post_eq : first_post = (first_post.1, first_post.2).
Proof. by destruct first_post. Qed.
Lemma second_post_eq : second_post = (second_post.1, second_post.2).
Proof. by destruct second_post. Qed.

Lemma ServeHTTP_authorised_witness :
  same_rest api_server first_post.1 ∧
  (Response_Status first_post.2 = 401%Z ↔ ∀ raw token, ¬ presented api_config "Bearer s3cret" raw token).
Proof.
  destruct (@ServeHTTP_authorised sample_codec remote_json no_analysis_job remote_capture api_analysis api_decoder no_decoder []
    (λ _, None) (api_world "1") api_server (post_capture "Bearer s3cret") _ _ first_post_eq) as (H1 & H2 & _).
  exact (conj H1 H2).
Defined.

Lemma ServeHTTP_replay_witness :
  Response_Status second_post.2 = 200%Z ∧ Response_Body second_post.2 = Response_Body first_post.2 ∧
  m_disk (srv_jobs second_post.1) = m_disk (srv_jobs first_post.1).
Proof.
  apply (@ServeHTTP_replay sample_codec remote_json no_analysis_job remote_capture api_analysis api_decoder no_decoder []
    (λ _, None) (api_world "1") (api_world "2") api_server (post_capture "Bearer s3cret") first_post.1 first_post.2).
  - by left.
  - exact first_post_eq.
  - replace (Response_Status first_post.2) with 202%Z by (vm_compute; reflexivity). by right; left.
  - reflexivity.
  - reflexivity.
  - reflexivity.
  - exact second_post_eq.
Defined.

Lemma lists_bounded_witness :
  (1 ≤ limit (post_capture "Bearer s3cret") ≤ 200)%Z.
Proof.
  destruct (@lists_bounded sample_codec remote_json no_analysis_job remote_capture api_analysis api_decoder no_decoder []
    (λ _, None) (api_world "1") api_server (post_capture "Bearer s3cret") _ _ first_post_eq) as [H _].
  exact H.
Defined.
