(* ===== verification/Flags.v ===== *)
(** * Flags: the command line flags

    What the programs use of Go's package [flag]: [FlagSet.Parse] with
    [ContinueOnError], for flags whose values are strings, integers, durations
    or booleans.  A flag set is the map from its names to their present values;
    the constructor of the value is the type of the flag.  [strconv.ParseInt]
    and [time.ParseDuration] are the interface [FlagText]. *)

From S2P Require Import Prelude Model.

(** ** Values *)

Inductive flag_value :=
  | VString (s : string)
  | VInt (n : Z)
  | VDuration (d : Z)
  | VBool (b : bool).

#[export] Instance flag_value_eq_dec : EqDecision flag_value.
Proof. solve_decision. Defined.

Abbreviation flag_set := (gmap string flag_value).

(** The flags of a program with their defaults *)
Definition flag_list (l : list (string * flag_value)) : flag_set := list_to_map l.

Class FlagText := {
  parse_int : string → result Z;
  parse_duration : string → result Z;
}.

Definition err_parse : error := ErrMsg "parse error".

(** [strconv.ParseBool] *)
Definition ParseBool (s : string) : result bool :=
  if bool_decide (s ∈ ["1"; "t"; "T"; "true"; "TRUE"; "True"]) then Ok true
  else if bool_decide (s ∈ ["0"; "f"; "F"; "false"; "FALSE"; "False"]) then Ok false
  else Err err_parse.

Definition is_bool (v : flag_value) : bool := match v with VBool _ => true | _ => false end.

Section flags.
Context `{PText : !FlagText}.

(** [flag.Value.Set] *)
Definition set_flag (old : flag_value) (text : string) : result flag_value :=
  match old with
  | VString _ => Ok (VString text)
  | VInt _ => let? n := parse_int text in Ok (VInt n)
  | VDuration _ => let? d := parse_duration text in Ok (VDuration d)
  | VBool _ => let? b := ParseBool text in Ok (VBool b)
  end.

(** ** Arguments *)

(** What an argument is to [parseOne] *)
Inductive argument :=
  | Positional                           (** no flag: parsing ends before it *)
  | Terminator                           (** [--]: parsing ends after it *)
  | BadSyntax
  | Named (name : string) (value : option string).

(** A name with a value after the first equals sign *)
Definition named (name : string) : argument :=
  match name with
  | EmptyString => BadSyntax
  | String c _ =>
      if bool_decide (c = "-"%char) || bool_decide (c = "="%char) then BadSyntax
      else match cut name "=" with Some (name, value) => Named name (Some value) | None => Named name None end
  end.

Definition read_argument (s : string) : argument :=
  match s with
  | String "-" (String "-" EmptyString) => Terminator
  | String "-" (String "-" name) => named name
  | String "-" (String c name) => named (String c name)
  | _ => Positional
  end.

Definition err_help : error := ErrMsg "flag: help requested".
Definition err_syntax : error := ErrMsg "bad flag syntax".
Definition err_undefined : error := ErrMsg "flag provided but not defined".
Definition err_argument : error := ErrMsg "flag needs an argument".

(** The result is the set with the new values and the remaining arguments. *)
Fixpoint Parse (args : list string) (f : flag_set) : result (flag_set * list string) :=
  match args with
  | [] => Ok (f, [])
  | s :: rest =>
      match read_argument s with
      | Positional => Ok (f, s :: rest)
      | Terminator => Ok (f, rest)
      | BadSyntax => Err err_syntax
      | Named name value =>
          match f !! name with
          | None => Err (if bool_decide (name = "help") || bool_decide (name = "h") then err_help else err_undefined)
          | Some old =>
              match value with
              | Some text => let? v := set_flag old text in Parse rest (<[name := v]> f)
              | None =>
                  if is_bool old then let? v := set_flag old "true" in Parse rest (<[name := v]> f)
                  else
                    match rest with
                    | [] => Err err_argument
                    | text :: rest => let? v := set_flag old text in Parse rest (<[name := v]> f)
                    end
              end
          end
      end
  end.
End flags.

(** Reading a parsed flag: the type is known from the definition of the set. *)
Definition flag_string (f : flag_set) (name : string) : string := match f !! name with Some (VString s) => s | _ => "" end.
Definition flag_int (f : flag_set) (name : string) : Z := match f !! name with Some (VInt n) => n | _ => 0%Z end.
Definition flag_duration (f : flag_set) (name : string) : Z := match f !! name with Some (VDuration d) => d | _ => 0%Z end.
Definition flag_bool (f : flag_set) (name : string) : bool := match f !! name with Some (VBool b) => b | _ => false end.

(** ** Theorems *)

Section theorems.
Context `{PText : !FlagText}.

Definition same_type (v w : flag_value) : Prop :=
  match v, w with
  | VString _, VString _ | VInt _, VInt _ | VDuration _, VDuration _ | VBool _, VBool _ => True
  | _, _ => False
  end.

Lemma set_flag_type old text v : set_flag old text = Ok v → same_type old v.
Proof.
  destruct old; cbn; [by intros [= <-]| | |].
  - destruct (parse_int text); [by intros [= <-]|done].
  - destruct (parse_duration text); [by intros [= <-]|done].
  - destruct (ParseBool text); [by intros [= <-]|done].
Qed.

Lemma same_type_trans u v w : same_type u v → same_type v w → same_type u w.
Proof. by destruct u, v, w. Qed.
Lemma same_type_refl v : same_type v v.
Proof. by destruct v. Qed.

(** Two flag sets with the same flags of the same types *)
Definition same_flags (f g : flag_set) : Prop := ∀ name,
  match f !! name, g !! name with
  | Some v, Some w => same_type v w
  | None, None => True
  | _, _ => False
  end.

Lemma same_flags_refl f : same_flags f f.
Proof. intros name. destruct (f !! name); [apply same_type_refl|done]. Qed.
Lemma same_flags_trans f g h : same_flags f g → same_flags g h → same_flags f h.
Proof.
  intros Hf Hg name. specialize (Hf name). specialize (Hg name).
  destruct (f !! name), (g !! name), (h !! name); try done. by eapply same_type_trans.
Qed.

Lemma same_flags_insert f name old v : f !! name = Some old → same_type old v → same_flags f (<[name := v]> f).
Proof.
  intros Hn Ht key. destruct (decide (key = name)) as [->|Hne].
  - by rewrite Hn, lookup_insert_eq.
  - rewrite lookup_insert_ne by done. destruct (f !! key); [apply same_type_refl|done].
Qed.

(** Parsing keeps the flags and their types, and leaves a tail of the
    arguments. *)
Lemma Parse_keeps : ∀ n args f g rest, length args ≤ n → Parse args f = Ok (g, rest) →
  same_flags f g ∧ rest `suffix_of` args.
Proof.
  induction n as [|n IH]; intros args f g rest Hn; (destruct args as [|s args];
    [intros [= <- <-]; split; [apply same_flags_refl|done]|]); cbn in Hn |- *; [lia|].
  assert (∀ args' name old text, args' `suffix_of` args → f !! name = Some old →
    (let? v := set_flag old text in Parse args' (<[name := v]> f)) = Ok (g, rest) → same_flags f g ∧ rest `suffix_of` s :: args) as Hset.
  { intros args' name old text Hsuf Hold. destruct (set_flag old text) as [v|] eqn:Hv; [|done]. cbn [rbind].
    intros Hrun. apply set_flag_type in Hv. apply IH in Hrun as [Hs Hr].
    - split; [by eapply same_flags_trans; [eapply same_flags_insert|]|]. apply suffix_cons_r. by etrans.
    - apply suffix_length in Hsuf. lia. }
  destruct (read_argument s) as [| | |name value]; 
    [intros [= <- <-]; split; [apply same_flags_refl|done]
    |intros [= <- <-]; split; [apply same_flags_refl|by apply suffix_cons_r]|done|].
  destruct (f !! name) as [old|] eqn:Hold; [|done]. destruct value as [text|]; [by apply Hset|].
  destruct (is_bool old); [by apply Hset|]. destruct args as [|text args]; [done|].
  apply Hset; [by apply suffix_cons_r|done].
Qed.

(** A name that [parseOne] takes as it is *)
Definition plain_name (name : string) : Prop :=
  name ≠ "" ∧ string_existsb (λ d, bool_decide (d = "="%char)) name = false ∧ has_prefix name "-" = false.

Definition render (setting : string * string) : string := "--" +:+ setting.1 +:+ "=" +:+ setting.2.

Lemma read_render name text : plain_name name → read_argument (render (name, text)) = Named name (Some text).
Proof.
  intros (Hne & Heq & Hdash). unfold render. cbn [fst snd].
  change ("--" +:+ name +:+ "=" +:+ text) with (String "-" (String "-" (name +:+ String "=" text))).
  destruct name as [|c name]; [done|]. rewrite string_app_cons. cbn [read_argument].
  change (read_argument (String "-" (String "-" (String c (name +:+ String "=" text))))) with (named (String c (name +:+ String "=" text))).
  rewrite <-string_app_cons. unfold named. rewrite string_app_cons. rewrite <-string_app_cons, cut_byte_app by done.
  rewrite bool_decide_eq_false_2, bool_decide_eq_false_2; [done|..].
  - intros ->. unfold string_existsb in Heq. cbn in Heq. done.
  - intros ->. unfold has_prefix in Hdash. cbn in Hdash. by destruct name.
Qed.

(** The set after setting flags one after the other *)
Fixpoint assign (settings : list (string * string)) (f : flag_set) : option flag_set :=
  match settings with
  | [] => Some f
  | (name, text) :: settings =>
      match f !! name with
      | None => None
      | Some old => match set_flag old text with Ok v => assign settings (<[name := v]> f) | Err _ => None end
      end
  end.
End theorems.

(** Settings that are written as flags are read back, with everything that
    follows [--] untouched. *)
Theorem Parse_render `{!FlagText} settings f g rest
    (Hnames : Forall (λ setting, plain_name setting.1) settings) (Hassign : assign settings f = Some g) :
  Parse ((render <$> settings) ++ "--" :: rest) f = Ok (g, rest).
Proof.
  revert f Hassign. induction Hnames as [|[name text] settings Hname _ IH]; intros f; cbn [assign fmap list_fmap app].
  { by intros [= ->]. }
  cbn [Parse]. rewrite read_render by done. destruct (f !! name) as [old|]; [|done].
  destruct (set_flag old text) as [v|]; [|done]. cbn [rbind]. apply IH.
Qed.
