(* ===== verification/Cli.v ===== *)
(** * Cli: the command line program

    Models [src/cmd/worldbisect/main.go]: the choice of the command, its flags,
    and the commands themselves as programs over the store and the files they
    read and write, put together from the other components.  A command is a
    computation of the small state and error monad [M]; what the machine
    answers is an input ([cli_io]).  The standard output is a list of [line]s,
    whose JSON or help texts are not spelled out; writing to it succeeds.
    [serve] is modelled up to the configuration it runs with; the texts of errors are given without their arguments. *)

From S2P Require Import Prelude Sha256 Model Json AuditLog Paths Fs Config Store Workspace Oracle Runner Engine.
From S2P Require Import Report Bundle Capturer Certificate Diagnostic Flags Observe.

(** ** State *)

Inductive line :=
  | Text (text : string)
  | Help (command : string)
  | JCapture (value : Capture)
  | JPreview (value : DiagnosticPreview)
  | JHandoff (incidentID analysisID output : string)
  | JVerification (value : VerificationResult)
  | JAudit (value : AuditVerification)
  | JDoctor (version : string) (checks : list check).

Section state.
Context `{PWorld : !World}.

(** The store, with its layout and its experiment cache, the file system that
    experiments use, the other files by name, and the output *)
Record cli := mkCli {
  cli_store : data_store;
  cli_layout : layout;
  cli_cache : files;
  cli_fs : fs;
  cli_world : world;
  cli_files : gmap string out_file;
  cli_stdout : list line;
  cli_stderr : list ProgressEvent;
  cli_starts : list process_start;
}.

Definition with_store (s : cli) (store : data_store) : cli :=
  mkCli store (cli_layout s) (cli_cache s) (cli_fs s) (cli_world s) (cli_files s) (cli_stdout s) (cli_stderr s) (cli_starts s).
Definition with_layout (s : cli) (l : layout) : cli :=
  mkCli (cli_store s) l (cli_cache s) (cli_fs s) (cli_world s) (cli_files s) (cli_stdout s) (cli_stderr s) (cli_starts s).
Definition with_analysis (s : cli) (store : data_store) (cache : files) (f : fs) (w : world) (events : list ProgressEvent) : cli :=
  mkCli store (cli_layout s) cache f w (cli_files s) (cli_stdout s) events (cli_starts s).
Definition with_cli_files (s : cli) (files : gmap string out_file) : cli :=
  mkCli (cli_store s) (cli_layout s) (cli_cache s) (cli_fs s) (cli_world s) files (cli_stdout s) (cli_stderr s) (cli_starts s).
Definition with_output (s : cli) (out : list line) : cli :=
  mkCli (cli_store s) (cli_layout s) (cli_cache s) (cli_fs s) (cli_world s) (cli_files s) out (cli_stderr s) (cli_starts s).
Definition with_starts (s : cli) (starts : list process_start) : cli :=
  mkCli (cli_store s) (cli_layout s) (cli_cache s) (cli_fs s) (cli_world s) (cli_files s) (cli_stdout s) (cli_stderr s) starts.

(** ** The monad

    [None] would be a command that does not end. *)

Definition M (A : Type) : Type := cli → option (cli * result A).
Definition ret {A} (a : A) : M A := λ s, Some (s, Ok a).
Definition lift {A} (r : result A) : M A := λ s, Some (s, r).
Definition bind {A B} (m : M A) (k : A → M B) : M B := λ s,
  match m s with
  | None => None
  | Some (s, Err err) => Some (s, Err err)
  | Some (s, Ok a) => k a s
  end.
Definition fail {A} (err : error) : M A := lift (Err err).
Definition get : M cli := λ s, Some (s, Ok s).
Definition update (f : cli → cli) : M unit := λ s, Some (f s, Ok tt).
(** [return err] *)
Definition return_error (err : option error) : M unit := match err with Some err => fail err | None => ret tt end.
End state.

Notation "'do' x '<-' m ';' k" := (bind m (λ x, k)) (at level 200, x pattern, m at level 100, k at level 200) : go_scope.
Notation "'do_' m ';' k" := (bind m (λ _, k)) (at level 200, m at level 100, k at level 200) : go_scope.
Notation "'refuse' c 'with' e ';' k" := (if (c : bool) then fail e else k) (at level 200, c at level 100, e at level 100, k at level 200) : go_scope.

(** ** What the machine answers *)

Record cli_io := mkCliIO {
  io_cwd : result string;
  io_environ : list string;
  io_schema : Z → option error;          (** writing the schema file *)
  io_capture : capture_io;
  io_key : key_io;
  io_import : string → import_io;
  io_diagnostic : diagnostic_io;
  io_audit : audit_fault;
  io_audit_now : time;
  io_write : string → option error;      (** writing a file *)
  io_host : host_io;
  io_creates : string → bool;            (** a temporary file can be made there *)
}.

(** ** Flags *)

Definition err_missing_command : error := ErrMsg "missing command after --".
Definition err_separator : error := ErrMsg "command separator -- is required".

(** The flags and the command, before and after the first [--] *)
Fixpoint splitCommand (args : list string) : result (list string * list string) :=
  match args with
  | [] => Err err_separator
  | argument :: args =>
      if bool_decide (argument = "--")
      then match args with [] => Err err_missing_command | _ => Ok ([], args) end
      else let? (flags, command) := splitCommand args in Ok (argument :: flags, command)
  end.

Section flag_sets.
Context (defaultStore : string).

Definition capture_flags : flag_set := flag_list
  [("store", VString defaultStore); ("workspace", VString ""); ("label", VString ""); ("oracle", VString "exit=0");
   ("timeout", VDuration (2 * Minute)); ("max-workspace-files", VInt 10000); ("max-workspace-bytes", VInt (2 ^ 30));
   ("max-output-bytes", VInt (8 * 2 ^ 20)); ("trace", VString "auto"); ("output", VString ""); ("format", VString "text")].
Definition report_flags : list (string * flag_value) :=
  [("format", VString "text"); ("report-url", VString ""); ("bundle-url", VString ""); ("fail-on", VString "never")].
Definition compare_flags : flag_set := flag_list
  ([("store", VString defaultStore); ("good", VString ""); ("bad", VString ""); ("repetitions", VInt 3);
    ("max-experiments", VInt 128); ("max-factors", VInt 512); ("max-output-bytes", VInt (8 * 2 ^ 20));
    ("timeout", VDuration 0); ("progress", VBool false); ("certificate", VString "")] ++ report_flags).
Definition explain_flags : flag_set := flag_list (("store", VString defaultStore) :: report_flags).
Definition handoff_flags : flag_set := flag_list
  [("store", VString defaultStore); ("output", VString ""); ("analysis", VString ""); ("preview", VBool false);
   ("confirm", VBool false)].
Definition import_flags : flag_set := flag_list [("store", VString defaultStore); ("certificate-output", VString "")].
Definition verify_flags : flag_set := flag_list [("public-key", VString "")].
Definition audit_flags : flag_set := flag_list [("store", VString defaultStore)].
End flag_sets.

Definition milliseconds (d : Z) : Z := Z.quot d 1000000.

(** ** Commands *)

Section commands.
Context `{PEd : !Ed25519, PKeys : !KeyFiles, PCapture : !Json Capture, PAnalysis : !Json Analysis,
  PExperiments : !Json (list Experiment), PFactors : !Json factor_set, PClaims : !Json CertificateClaims,
  PSigned : !Json signedV2Value, PCertificate : !Json Certificate}.
Context `{PArchives : !Archives, PEncoders : !Encoders, PTime : !TimeFormat, PAudit : !Json AuditEvent,
  PReport : !Json AnalysisReport, PManifest : !Json diagnosticManifest, PEnvelope : !Json envelope,
  PIncident : !Json incident, PBundle : !Json bundleManifest}.
Context `{PWorld : !World, PGzip : !Gzip, PRegexp : !Regexp, PInput : !Json cacheInput, PEntry : !Json experimentCacheEntry}.
Context `{PText : !FlagText}.
(** The variables of package [version], and the result of [defaultStore] *)
Context (version commit buildTime platform defaultStore : string) (io : cli_io).

Definition print (l : line) : M unit := update (λ s, with_output s (cli_stdout s ++ [l])).

Definition openStore : M unit := λ s,
  match initialize (io_schema io) (cli_layout s) with
  | None => None
  | Some (l, r) => Some (with_layout s l, r)
  end.

Definition read_file (s : cli) (path : string) : result string :=
  match cli_files s !! path with Some (content, _) => Ok content | None => Err ErrNotExist end.
Definition put_file (s : cli) (path : string) (file : option out_file) : cli :=
  match file with Some file => with_cli_files s (<[path := file]> (cli_files s)) | None => s end.

Definition load {A} (find : data_store → result A) : M A := do s <- get; lift (find (cli_store s)).

Definition export_capture (identifier path : string) : M unit := λ s,
  let '(file, r) := ExportCapture (cli_store s) identifier (cli_files s !! path) (io_write io path) in
  Some (put_file s path file, r).
Definition import_bundle (path : string) : M string := λ s,
  let '(store, r) := ImportBundle (io_import io path) (cli_store s) path (read_file s path) in Some (with_store s store, r).
Definition export_diagnostic (analysisID path : string) : M unit := λ s,
  let '(store, file, r) := ExportDiagnostic (io_key io) (cli_store s) analysisID (cli_files s !! path) (io_write io path) in
  Some (put_file (with_store s store) path file, r).
Definition import_diagnostic (path : string) : cli → cli * result (string * string) := λ s,
  let '(store, r) := ImportDiagnostic (io_diagnostic io) (cli_store s) (read_file s path) in (with_store s store, r).
Definition write_certificate (analysisID path : string) : M unit := λ s,
  let '(store, file, r) := WriteCertificate (io_key io) (cli_store s) analysisID (cli_files s !! path) (io_write io path) in
  Some (put_file (with_store s store) path file, r).
(** [os.WriteFile]; a failure is one of opening the file. *)
Definition write_file (path content : string) (mode : Z) : M unit := λ s,
  match io_write io path with
  | Some err => Some (s, Err err)
  | None => Some (put_file s path (Some (content, mode)), Ok tt)
  end.
Definition append_audit_event (action entityType entityID : string) (details : gmap string json_scalar) : M unit := λ s,
  let '(audit, r) := AppendAudit (ds_audit (cli_store s)) (io_audit io) (io_audit_now io) action entityType entityID details in
  Some (with_store s (set_audit (cli_store s) audit), r).

Definition capture_command (request : capture_request) : M (option Capture * option error) := λ s,
  let '(store, starts, r) := Capture_ (io_capture io) (cli_store s) request in
  Some (with_starts (with_store s store) starts, Ok r).

(** [Engine.Analyze]: with an error there may be an analysis all the same. *)
Definition analyze (request : Engine.Request) : M (option Analysis * option error) := λ s,
  let store := cli_store s in
  match Analyze version commit request (Engine.mkState (cli_fs s) (ds_blobs store) (cli_cache s) (ds_analyses store) (ds_audit store) []
          (cli_world s)) with
  | None => None
  | Some (r, st) =>
      Some (with_analysis s (set_audit (set_analyses (set_blobs store (st_blobs st)) (st_analyses st)) (st_audit st)) (st_cache st)
              (st_fs st) (st_world st) (st_progress st), Ok r)
  end.

(** *** capture *)

Definition err_trace_mode : error := ErrMsg "unsupported --trace value (use auto, on, or off)".

Definition capture_request_of_flags (f : flag_set) (root : string) (oracle : Oracle) (command : list string) : capture_request :=
  let timeout := flag_duration f "timeout" in
  mkCaptureRequest (flag_string f "label") root
    (mkCommandSpec command root (EnvironmentFromList (io_environ io)) (milliseconds timeout)) oracle
    (mkCaptureLimits (flag_int f "max-workspace-files") (flag_int f "max-workspace-bytes") (flag_int f "max-output-bytes") timeout)
    (flag_string f "trace").

(** The end of [runCapture]: with the format json the error is dropped. *)
Definition finishCapture (f : flag_set) (record : option Capture) (err : option error) : M unit :=
  match record with
  | None => return_error err
  | Some record =>
      do_ (if bool_decide (flag_string f "output" = "") then ret tt else export_capture (Capture_ID record) (flag_string f "output"));
      if bool_decide (flag_string f "format" = "json") then print (JCapture record)
      else do_ print (Text (Capture_text record)); return_error err
  end.

Definition runCapture (args : list string) : M unit :=
  do (flags, command) <- lift (splitCommand args);
  do (f, _) <- lift (Flags.Parse flags (capture_flags defaultStore));
  refuse negb (bool_decide (flag_string f "trace" ∈ ["auto"; "on"; "off"])) with err_trace_mode;
  do absolute <- lift (Abs (io_cwd io) (flag_string f "workspace"));
  do root <- (if bool_decide (flag_string f "workspace" = "") then lift (io_cwd io) else ret absolute);
  do oracle <- lift (Oracle.Parse (flag_string f "oracle"));
  do_ openStore;
  do (record, err) <- capture_command (capture_request_of_flags f root oracle command);
  finishCapture f record err.

(** *** compare and explain *)

Definition err_sides : error := ErrMsg "--good and --bad are required".
Definition err_format : error := ErrMsg "unsupported analysis format (use text, markdown, junit, or sarif)".
Definition err_status (status : ProofStatus) (failOn : string) : error :=
  ErrMsg ("analysis status " +:+ show_status status +:+ " matched --fail-on " +:+ failOn).

Definition resolveCapture (reference : string) : M string :=
  if has_suffix reference ".wcap" || has_suffix reference ".tar.gz" then import_bundle reference else ret reference.

Definition writeAnalysis (analysis : Analysis) (format : string) (links : OutputLinks) : M unit :=
  if bool_decide (format ∈ ["text"; "markdown"]) then print (Text (Markdown analysis))
  else if bool_decide (format = "json") then do encoded <- lift (JSON analysis); print (Text encoded)
  else if bool_decide (format = "junit") then do encoded <- lift (JUnit analysis links); print (Text encoded)
  else if bool_decide (format = "sarif") then do encoded <- lift (SARIF analysis links); print (Text encoded)
  else fail err_format.

Definition finishAnalysis (analysis : Analysis) (format : string) (links : OutputLinks) (failOn : string) : M unit :=
  do_ writeAnalysis analysis format links;
  do fails <- lift (ShouldFail (Analysis_Status analysis) failOn);
  if (fails : bool) then fail (err_status (Analysis_Status analysis) failOn) else ret tt.

Definition with_timeout (timeout : Z) (c : Capture) : Capture :=
  let command := Capture_Command c in
  mkCapture (Capture_SchemaVersion c) (Capture_ID c) (Capture_CreatedAt c) (Capture_StartedAt c) (Capture_FinishedAt c)
    (Capture_Label c) (Capture_WorkspaceRoot c)
    (mkCommandSpec (CommandSpec_Arguments command) (CommandSpec_Directory command) (CommandSpec_Environment command)
       (milliseconds timeout))
    (Capture_Oracle c) (Capture_Result c) (Capture_OracleResult c) (Capture_Before c) (Capture_Workspace c) (Capture_Host c)
    (Capture_SecretEvidence c) (Capture_ConsultedPaths c) (Capture_EvidenceBoundaries c) (Capture_Warnings c).

Definition links_of (f : flag_set) : OutputLinks := mkOutputLinks (flag_string f "report-url") (flag_string f "bundle-url").

(** [splitCommand] never gives an empty command, so the command of the bad
    capture is not used. *)
Definition compare_request (f : flag_set) (good bad : Capture) (command : list string) : Engine.Request :=
  let timeout := flag_duration f "timeout" in
  let timed c := if bool_decide (0 < timeout)%Z then with_timeout timeout c else c in
  Engine.mkRequest (Some (timed good)) (Some (timed bad))
    (match command with [] => CommandSpec_Arguments (Capture_Command bad) | _ => command end)
    (flag_int f "repetitions") (flag_int f "max-experiments") (flag_int f "max-factors") (flag_int f "max-output-bytes").

Definition runCompare (args : list string) : M unit :=
  do (flags, command) <- lift (splitCommand args);
  do (f, _) <- lift (Flags.Parse flags (compare_flags defaultStore));
  refuse bool_decide (flag_string f "good" = "") || bool_decide (flag_string f "bad" = "") with err_sides;
  do_ openStore;
  do goodID <- resolveCapture (flag_string f "good");
  do badID <- resolveCapture (flag_string f "bad");
  do good <- load (λ s, loadCapture s goodID);
  do bad <- load (λ s, loadCapture s badID);
  do (analysis, err) <- analyze (compare_request f good bad command);
  do_ (if flag_bool f "progress" then ret tt else update (λ s, with_analysis s (cli_store s) (cli_cache s) (cli_fs s) (cli_world s) []));
  match analysis with
  | None => return_error err
  | Some analysis =>
      do_ (if bool_decide (flag_string f "certificate" = "") then ret tt
           else write_certificate (Analysis_ID analysis) (flag_string f "certificate"));
      do_ finishAnalysis analysis (flag_string f "format") (links_of f) (flag_string f "fail-on");
      return_error err
  end.

Definition err_analysis_id : error := ErrMsg "analysis ID is required".

Definition runExplain (args : list string) : M unit :=
  do (f, rest) <- lift (Flags.Parse args (explain_flags defaultStore));
  match rest with
  | [identifier] =>
      do_ openStore;
      do analysis <- load (λ s, loadAnalysis s identifier);
      finishAnalysis analysis (flag_string f "format") (links_of f) (flag_string f "fail-on")
  | _ => fail err_analysis_id
  end.

(** *** export and handoff *)

Definition err_entity : error := ErrMsg "entity ID and --output are required".
Definition err_no_entity : error := ErrMsg "do not provide an entity ID with --analysis".
Definition err_handoff_flags : error :=
  ErrMsg "--analysis and --output are required (output may be omitted for --preview)".
Definition err_handoff_entity : error := ErrMsg "handoff does not accept a positional entity ID".
Definition err_confirm : error :=
  ErrMsg "diagnostic handoff requires explicit confirmation; run with --preview, review the redaction result, then repeat with --confirm".

Definition runDiagnosticHandoff (analysisID output : string) (preview confirm : bool) : M unit :=
  do value <- load (λ s, PreviewDiagnostic s analysisID);
  if preview then print (JPreview value)
  else
    refuse negb confirm with err_confirm;
    do_ export_diagnostic analysisID output;
    do_ append_audit_event "support-handoff-export" "analysis" analysisID
          {["incident_id" := JString (Preview_IncidentID value)]};
    print (JHandoff (Preview_IncidentID value) analysisID output).

Definition runExport (args : list string) : M unit :=
  do (f, rest) <- lift (Flags.Parse args (handoff_flags defaultStore));
  let output := flag_string f "output" in
  let analysisID := flag_string f "analysis" in
  refuse bool_decide (output = "") && negb (negb (bool_decide (analysisID = "")) && flag_bool f "preview") with err_entity;
  do_ openStore;
  if negb (bool_decide (analysisID = "")) then
    refuse negb (bool_decide (rest = [])) with err_no_entity;
    runDiagnosticHandoff analysisID output (flag_bool f "preview") (flag_bool f "confirm")
  else
    match rest with
    | [identifier] => do_ export_capture identifier output; print (Text output)
    | _ => fail err_entity
    end.

Definition runHandoff (args : list string) : M unit :=
  do (f, rest) <- lift (Flags.Parse args (handoff_flags defaultStore));
  let output := flag_string f "output" in
  let analysisID := flag_string f "analysis" in
  refuse bool_decide (analysisID = "") || (bool_decide (output = "") && negb (flag_bool f "preview")) with err_handoff_flags;
  refuse negb (bool_decide (rest = [])) with err_handoff_entity;
  do_ openStore;
  runDiagnosticHandoff analysisID output (flag_bool f "preview") (flag_bool f "confirm").

(** *** import *)

Definition err_bundle_path : error := ErrMsg "bundle path is required".

(** A file that is no diagnostic handoff is imported as a capture. *)
Definition import_path (certificateOutput path : string) : M unit := λ s,
  match import_diagnostic path s with
  | (s, Ok (identifier, certificate)) =>
      (do_ (if bool_decide (certificateOutput = "") then ret tt else write_file certificateOutput certificate 420);
       print (Text identifier)) s
  | (s, Err err) =>
      (refuse negb (bool_decide (err = ErrNotDiagnosticBundle)) with err;
       do identifier <- import_bundle path; print (Text identifier)) s
  end.

Definition runImport (args : list string) : M unit :=
  do (f, rest) <- lift (Flags.Parse args (import_flags defaultStore));
  match rest with
  | [path] => do_ openStore; import_path (flag_string f "certificate-output") path
  | _ => fail err_bundle_path
  end.

(** *** verify and audit *)

Definition err_certificate_path : error := ErrMsg "certificate path is required".
Definition err_verification : error := ErrMsg "certificate verification failed".

Definition runVerify (args : list string) : M unit :=
  do (f, rest) <- lift (Flags.Parse args verify_flags);
  match rest with
  | [path] =>
      do s <- get;
      let key := flag_string f "public-key" in
      do r <- lift (VerifyCertificate (read_file s path) (if bool_decide (key = "") then None else Some (read_file s key)));
      do_ print (JVerification r);
      refuse negb (Verification_Valid r) with err_verification;
      ret tt
  | _ => fail err_certificate_path
  end.

Definition runAudit (args : list string) : M unit :=
  do (f, _) <- lift (Flags.Parse args (audit_flags defaultStore));
  do_ openStore;
  do r <- load (λ s, VerifyAudit (ds_audit s));
  print (JAudit r).

(** *** doctor *)

Definition doctor_flags : flag_set := flag_list [("store", VString defaultStore)].

Definition runDoctor (version_text : string) (args : list string) : M unit :=
  do (f, _) <- lift (Flags.Parse args doctor_flags);
  λ s, match doctor_checks (io_host io) (cli_fs s) (io_creates io) (flag_string f "store") with
       | None => None
       | Some checks => print (JDoctor version_text checks) s
       end.

(** *** The configuration of serve *)

Definition serve_flags : flag_set := flag_list
  [("config", VString ""); ("listen", VString ""); ("store", VString defaultStore)].

Definition with_listen (cfg : Config.Config) (listen : string) : Config.Config :=
  if bool_decide (listen = "") then cfg
  else mkConfig (Config_SchemaVersion cfg) listen (Config_DataDir cfg) (Config_LogLevel cfg)
         (Config_RemoteExecutionEnabled cfg) (Config_AllowedCommands cfg) (Config_AllowedWorkingDirectories cfg)
         (Config_Workers cfg) (Config_LeaseSeconds cfg) (Config_MaxAttempts cfg) (Config_Quotas cfg) (Config_Tokens cfg).

(** Without a configuration file: the defaults, with the token of the
    environment variable when there is one *)
Definition environment_config (dataDir token : string) : Config.Config :=
  mkConfig 1 (Config_Listen Config.Default) dataDir (Config_LogLevel Config.Default) false [] [] 2 30 3 (Config_Quotas Config.Default)
    (if bool_decide (token = "") then []
     else [mkToken "environment" (HashToken token) ["read"; "capture:write"; "analysis:write"]]).

Definition serve_config `{!ConfigDecoder} (token : string) (args : list string) : M Config.Config :=
  do (f, _) <- lift (Flags.Parse args serve_flags);
  do s <- get;
  do cfg <- (if bool_decide (flag_string f "config" = "") then ret (environment_config (flag_string f "store") token)
             else lift (Config.Load (cli_fs s) (flag_string f "config")));
  let cfg := with_listen cfg (flag_string f "listen") in
  do_ openStore;
  ret cfg.

(** *** The choice of the command *)

Definition err_command (command : string) : error := ErrMsg ("unknown command " +:+ command).

Definition is_help (argument : string) : bool := bool_decide (argument ∈ ["--help"; "-h"]).

(** [version.String] *)
Definition version_text : string :=
  "worldbisect " +:+ version +:+ " (" +:+ commit +:+ ", " +:+ buildTime +:+ ", " +:+ platform +:+ ")".

(** [runServe] is an argument. *)
Definition run (runServe : list string → M unit) (args : list string) : M unit :=
  match args with
  | [] => print (Help "")
  | command :: rest =>
      if is_help command then print (Help "")
      else if (match rest with argument :: _ => is_help argument || bool_decide (argument = "-help") | [] => false end)
      then print (Help command)
      else if bool_decide (command = "help") then print (Help (match rest with [] => "" | topic :: _ => topic end))
      else if bool_decide (command = "capture") then runCapture rest
      else if bool_decide (command = "compare") then runCompare rest
      else if bool_decide (command = "explain") then runExplain rest
      else if bool_decide (command = "export") then runExport rest
      else if bool_decide (command = "handoff") then runHandoff rest
      else if bool_decide (command = "import") then runImport rest
      else if bool_decide (command = "verify") then runVerify rest
      else if bool_decide (command = "audit") then runAudit rest
      else if bool_decide (command = "doctor") then runDoctor version_text rest
      else if bool_decide (command = "serve") then runServe rest
      else if bool_decide (command ∈ ["version"; "--version"; "-version"]) then print (Text version_text)
      else fail (err_command command)
  end.
End commands.

(** ** Lemmas: every command ends *)

Create HintDb ends.

Section ends.
Context `{PWorld : !World}.

Definition ends {A} (m : M A) : Prop := ∀ s, is_Some (m s).

Lemma ends_ret {A} (a : A) : ends (ret a).
Proof. by eexists. Qed.
Lemma ends_lift {A} (r : result A) : ends (lift r).
Proof. by eexists. Qed.
Lemma ends_fail {A} err : ends (A := A) (fail err).
Proof. by eexists. Qed.
Lemma ends_get : ends get.
Proof. by eexists. Qed.
Lemma ends_update f : ends (update f).
Proof. by eexists. Qed.
Lemma ends_return_error err : ends (return_error err).
Proof. by destruct err; eexists. Qed.
Lemma ends_bind {A B} (m : M A) (k : A → M B) : ends m → (∀ a, ends (k a)) → ends (bind m k).
Proof. intros Hm Hk s. unfold bind. destruct (Hm s) as [[s' [a|err]] ->]; [apply Hk|by eexists]. Qed.
Lemma ends_if {A} (b : bool) (m n : M A) : ends m → ends n → ends (if b then m else n).
Proof. by destruct b. Qed.
End ends.

#[export] Hint Resolve ends_ret ends_lift ends_fail ends_get ends_update ends_return_error ends_bind ends_if : ends.
(** [finishes] proves that a straight-line command ends. *)
Ltac finishes := repeat (first [progress intros | solve [auto with ends] | apply ends_bind | apply ends_if | case_match]).

Section run_ends.
Context `{PEd : !Ed25519, PKeys : !KeyFiles, PCapture : !Json Capture, PAnalysis : !Json Analysis,
  PExperiments : !Json (list Experiment), PFactors : !Json factor_set, PClaims : !Json CertificateClaims,
  PSigned : !Json signedV2Value, PCertificate : !Json Certificate}.
Context `{PArchives : !Archives, PEncoders : !Encoders, PTime : !TimeFormat, PAudit : !Json AuditEvent,
  PReport : !Json AnalysisReport, PManifest : !Json diagnosticManifest, PEnvelope : !Json envelope,
  PIncident : !Json incident, PBundle : !Json bundleManifest}.
Context `{PWorld : !World, PGzip : !Gzip, PRegexp : !Regexp, PInput : !Json cacheInput, PEntry : !Json experimentCacheEntry}.
Context `{PText : !FlagText}.
Context (version commit buildTime platform defaultStore : string) (io : cli_io).

Lemma initialize_total fail l : is_Some (initialize fail l).
Proof. pose proof (initialize_migrates fail l) as H. destruct (initialize fail l) as [[l' r]|]; [by eexists|done]. Qed.

Lemma openStore_ends : ends (openStore io).
Proof. intros s. unfold openStore. destruct (initialize_total (io_schema io) (cli_layout s)) as [[l r] ->]. by eexists. Qed.
Lemma load_ends {A} (find : data_store → result A) : ends (load find).
Proof. unfold load. finishes. Qed.
Lemma print_ends l : ends (print l).
Proof. apply ends_update. Qed.
Lemma export_capture_ends identifier path : ends (export_capture io identifier path).
Proof. intros s. unfold export_capture. destruct (ExportCapture _ _ _ _). by eexists. Qed.
Lemma import_bundle_ends path : ends (import_bundle io path).
Proof. intros s. unfold import_bundle. destruct (ImportBundle _ _ _ _). by eexists. Qed.
Lemma export_diagnostic_ends analysisID path : ends (export_diagnostic io analysisID path).
Proof. intros s. unfold export_diagnostic. destruct (ExportDiagnostic _ _ _ _ _) as [[? ?] ?]. by eexists. Qed.
Lemma write_certificate_ends analysisID path : ends (write_certificate io analysisID path).
Proof. intros s. unfold write_certificate. destruct (WriteCertificate _ _ _ _ _) as [[? ?] ?]. by eexists. Qed.
Lemma write_file_ends path content mode : ends (write_file io path content mode).
Proof. intros s. unfold write_file. destruct (io_write io path); by eexists. Qed.
Lemma append_audit_event_ends a b c d : ends (append_audit_event io a b c d).
Proof. intros s. unfold append_audit_event. destruct (AppendAudit _ _ _ _ _ _ _). by eexists. Qed.
Lemma capture_command_ends request : ends (capture_command io request).
Proof. intros s. unfold capture_command. destruct (Capture_ _ _ _) as [[? ?] ?]. by eexists. Qed.
Lemma analyze_ends request : ends (analyze version commit request).
Proof.
  intros s. unfold analyze. destruct (Analyze_total version commit request (Engine.mkState (cli_fs s) (ds_blobs (cli_store s))
    (cli_cache s) (ds_analyses (cli_store s)) (ds_audit (cli_store s)) [] (cli_world s))) as [[r st] ->]. by eexists.
Qed.
End run_ends.

#[export] Hint Resolve openStore_ends load_ends print_ends export_capture_ends import_bundle_ends export_diagnostic_ends
  write_certificate_ends write_file_ends append_audit_event_ends capture_command_ends analyze_ends : ends.

Section commands_end.
Context `{PEd : !Ed25519, PKeys : !KeyFiles, PCapture : !Json Capture, PAnalysis : !Json Analysis,
  PExperiments : !Json (list Experiment), PFactors : !Json factor_set, PClaims : !Json CertificateClaims,
  PSigned : !Json signedV2Value, PCertificate : !Json Certificate}.
Context `{PArchives : !Archives, PEncoders : !Encoders, PTime : !TimeFormat, PAudit : !Json AuditEvent,
  PReport : !Json AnalysisReport, PManifest : !Json diagnosticManifest, PEnvelope : !Json envelope,
  PIncident : !Json incident, PBundle : !Json bundleManifest}.
Context `{PWorld : !World, PGzip : !Gzip, PRegexp : !Regexp, PInput : !Json cacheInput, PEntry : !Json experimentCacheEntry}.
Context `{PText : !FlagText}.
Context (version commit buildTime platform defaultStore : string) (io : cli_io).

Lemma writeAnalysis_ends analysis format links : ends (writeAnalysis analysis format links).
Proof. unfold writeAnalysis. finishes. Qed.
Lemma finishAnalysis_ends analysis format links failOn : ends (finishAnalysis analysis format links failOn).
Proof. unfold finishAnalysis. apply ends_bind; [apply writeAnalysis_ends|]. finishes. Qed.
Lemma runDiagnosticHandoff_ends analysisID output preview confirm : ends (runDiagnosticHandoff io analysisID output preview confirm).
Proof. unfold runDiagnosticHandoff. finishes. Qed.
Lemma resolveCapture_ends reference : ends (resolveCapture io reference).
Proof. unfold resolveCapture. finishes. Qed.
Lemma finishCapture_ends f record err : ends (finishCapture io f record err).
Proof. unfold finishCapture. finishes. Qed.
Lemma runDoctor_ends version_text args : ends (runDoctor defaultStore io version_text args).
Proof.
  unfold runDoctor. apply ends_bind; [auto with ends|]. intros [f rest] s.
  destruct (doctor_ends (io_host io) (cli_fs s) (io_creates io) (flag_string f "store")) as [checks ->]. apply print_ends.
Qed.
Lemma import_path_ends output path : ends (import_path io output path).
Proof.
  intros s. unfold import_path. destruct (import_diagnostic io path s) as [s' [[identifier certificate]|err]].
  - revert s'. fold (ends (A := unit)). change (ends (A := unit)
      (do_ (if bool_decide (output = "") then ret tt else write_file io output certificate 420); print (Text identifier))). finishes.
  - revert s'. change (ends (A := unit) (refuse negb (bool_decide (err = ErrNotDiagnosticBundle)) with err;
       do identifier <- import_bundle io path; print (Text identifier))). finishes.
Qed.
End commands_end.

#[export] Hint Resolve writeAnalysis_ends finishAnalysis_ends runDiagnosticHandoff_ends resolveCapture_ends finishCapture_ends
  import_path_ends runDoctor_ends : ends.

(** ** Lemmas: what a handoff changes *)

Section handoff.
Context `{PEd : !Ed25519, PKeys : !KeyFiles, PCapture : !Json Capture, PAnalysis : !Json Analysis,
  PExperiments : !Json (list Experiment), PFactors : !Json factor_set, PClaims : !Json CertificateClaims,
  PSigned : !Json signedV2Value, PCertificate : !Json Certificate}.
Context `{PArchives : !Archives, PEncoders : !Encoders, PTime : !TimeFormat, PAudit : !Json AuditEvent,
  PReport : !Json AnalysisReport, PManifest : !Json diagnosticManifest, PEnvelope : !Json envelope,
  PIncident : !Json incident, PBundle : !Json bundleManifest}.
Context `{PWorld : !World}.
Context (defaultStore : string) (io : cli_io).

(** The case of the store: everything but the audit log and the keys *)
Definition same_case (s s' : data_store) : Prop :=
  ds_blobs s' = ds_blobs s ∧ ds_captures s' = ds_captures s ∧ ds_analyses s' = ds_analyses s.

Lemma ExportDiagnostic_store kio s analysisID old fail s' file r :
  ExportDiagnostic kio s analysisID old fail = (s', file, r) → same_case s s' ∧ ds_audit s' = ds_audit s.
Proof.
  unfold ExportDiagnostic, certificateForAnalysisWithEvidence. destruct (load_case s analysisID) as [[[a g] b]|];
    [|by intros [= <- _ _]].
  destruct (loadOrCreateSigningKey kio (ds_keys s)) as [keys [[private public]|]]; [|by intros [= <- _ _]].
  destruct (rbind _ _) as [certificate|]; [|by intros [= <- _ _]].
  destruct (diagnostic_members _ _ _ _); [|by intros [= <- _ _]].
  destruct (writeDeterministicTarGzip _ _ _). by intros [= <- _ _].
Qed.

(** [bind_inv H]: the first statement of a finished command has run. *)
Lemma bind_Some {A B} (m : M A) (k : A → M B) s s' r : bind m k s = Some (s', r) →
  (∃ err, m s = Some (s', Err err) ∧ r = Err err) ∨ (∃ a s1, m s = Some (s1, Ok a) ∧ k a s1 = Some (s', r)).
Proof.
  unfold bind. destruct (m s) as [[s1 [a|err]]|] eqn:Hm; [|intros [= <- <-]; left; by exists err|done].
  intros Hk. right. by exists a, s1.
Qed.

(** What a confirmed handoff has done *)
Record handed_off (analysisID output : string) (s s' : cli) (r : result unit) : Prop := {
  ho_case : same_case (cli_store s) (cli_store s');
  ho_files : ∀ path, path ≠ output → cli_files s' !! path = cli_files s !! path;
  ho_done : r = Ok tt → ∃ value store file mode,
    PreviewDiagnostic (cli_store s) analysisID = Ok value ∧
    ExportDiagnostic (io_key io) (cli_store s) analysisID (cli_files s !! output) (io_write io output) =
      (store, Some (file, mode), Ok tt) ∧
    cli_files s' !! output = Some (file, mode) ∧
    AppendAudit (ds_audit (cli_store s)) (io_audit io) (io_audit_now io) "support-handoff-export" "analysis" analysisID
      {["incident_id" := JString (Preview_IncidentID value)]} = (ds_audit (cli_store s'), Ok tt) ∧
    cli_stdout s' = cli_stdout s ++ [JHandoff (Preview_IncidentID value) analysisID output];
}.

Lemma ExportDiagnostic_written kio s analysisID old fail store file : ExportDiagnostic kio s analysisID old fail = (store, file, Ok tt) →
  is_Some file.
Proof.
  unfold ExportDiagnostic. destruct (load_case s analysisID) as [[[a g] b]|]; [|done].
  destruct (certificateForAnalysisWithEvidence _ _ _ _ _) as [s1 [certificate|]]; [|done].
  destruct (diagnostic_members _ _ _ _); [|done]. unfold writeDeterministicTarGzip, atomicWriteFile.
  repeat case_match; intros; simplify_eq/=; by eexists.
Qed.

Lemma handoff_effect analysisID output preview confirm s s' r :
  runDiagnosticHandoff io analysisID output preview confirm s = Some (s', r) →
  cli_layout s' = cli_layout s ∧
  (preview = false → confirm = false → cli_store s' = cli_store s ∧ cli_files s' = cli_files s ∧
     ∃ err, r = Err err ∧ cli_stdout s' = cli_stdout s) ∧
  (preview = true → cli_store s' = cli_store s ∧ cli_files s' = cli_files s ∧
     ((∃ value, PreviewDiagnostic (cli_store s) analysisID = Ok value ∧ r = Ok tt ∧
         cli_stdout s' = cli_stdout s ++ [JPreview value]) ∨
      ∃ err, r = Err err ∧ cli_stdout s' = cli_stdout s)) ∧
  (preview = false → confirm = true → handed_off analysisID output s s' r).
Proof.
  unfold runDiagnosticHandoff. intros Hrun. apply bind_Some in Hrun as [(err & Hl & ->)|(value & s1 & Hl & Hrun)];
    unfold load, bind, get, lift in Hl; cbn in Hl.
  { injection Hl as <- Hp. split_and!; [done|intros; split_and!; [done..|by eexists]|intros; split_and!; [done..|right; by eexists]|].
    intros _ _. by split. }
  injection Hl as <- Hp. destruct preview.
  { injection Hrun as <- <-. split_and!; [done..| |done]. intros _. split_and!; [done..|]. left. by exists value. }
  destruct confirm; cbn [negb] in Hrun; [|injection Hrun as <- <-; split_and!; [done| |done..]; intros; split_and!; [done..|by eexists]].
  apply bind_Some in Hrun as [(err & He & ->)|([] & s2 & He & Hrun)]; unfold export_diagnostic in He;
    (destruct (ExportDiagnostic _ _ _ _ _) as [[store file] x] eqn:Hx; injection He as <- ->);
    pose proof (ExportDiagnostic_store _ _ _ _ _ _ _ _ Hx) as [Hcase Haudit].
  { split; [by destruct file|]. split_and!; [done..|]. intros _ _.
    split; [by destruct file|by destruct file; [intros path Hne; apply lookup_insert_ne|]|done]. }
  destruct (ExportDiagnostic_written _ _ _ _ _ _ _ Hx) as [[content mode] ->].
  apply bind_Some in Hrun as [(err & He & ->)|([] & s3 & He & Hrun)]; unfold append_audit_event in He;
    (destruct (AppendAudit _ _ _ _ _ _ _) as [audit x] eqn:Ha; injection He as <- ->).
  { split_and!; [done..|]. intros _ _. split; [done|by intros path Hne; apply lookup_insert_ne|done]. }
  injection Hrun as <- <-. split_and!; [done..|]. intros _ _.
  split; [done|by intros path Hne; apply lookup_insert_ne|]. intros _.
  exists value, store, content, mode. cbn in Ha |- *. rewrite Haudit in Ha. split_and!; [done|done|apply lookup_insert_eq|done|done].
Qed.

Lemma openStore_effect s s' r : openStore io s = Some (s', r) →
  ∃ l, s' = with_layout s l ∧ initialize (io_schema io) (cli_layout s) = Some (l, r).
Proof. unfold openStore. destruct (initialize _ _) as [[l x]|]; [|done]. intros [= <- <-]. by exists l. Qed.

Lemma flags_complete (analysisID output : string) (preview : bool) :
  bool_decide (analysisID = "") || (bool_decide (output = "") && negb preview) = false →
  analysisID ≠ "" ∧ (output = "" → preview = true).
Proof. destruct preview; repeat case_bool_decide; naive_solver. Qed.
End handoff.

(** ** Lemmas: arguments and renderings *)

(** The text of an analysis in a format *)
Definition rendering `{!Encoders} (analysis : Analysis) (format : string) (links : OutputLinks) : result string :=
  if bool_decide (format ∈ ["text"; "markdown"]) then Ok (Markdown analysis)
  else if bool_decide (format = "json") then JSON analysis
  else if bool_decide (format = "junit") then JUnit analysis links
  else if bool_decide (format = "sarif") then SARIF analysis links
  else Err err_format.

Lemma writeAnalysis_rendering `{!Encoders, !World} analysis format links :
  writeAnalysis analysis format links = bind (lift (rendering analysis format links)) (λ text, print (Text text)).
Proof. unfold writeAnalysis, rendering. by repeat case_match. Qed.

Lemma splitCommand_app flags command : "--" ∉ flags → command ≠ [] → splitCommand (flags ++ "--" :: command) = Ok (flags, command).
Proof.
  intros Hno Hc. induction flags as [|a flags IH]; cbn; [by destruct command|].
  rewrite bool_decide_eq_false_2 by set_solver. rewrite IH by set_solver. done.
Qed.

Lemma splitCommand_inv args : ∀ flags command, splitCommand args = Ok (flags, command) →
  args = flags ++ "--" :: command ∧ "--" ∉ flags ∧ command ≠ [].
Proof.
  induction args as [|a args IH]; intros flags command; cbn; [done|].
  case_bool_decide as Ha.
  - destruct args as [|x args]; [done|]. intros [= <- <-]. subst. split_and!; [done|set_solver|done].
  - destruct (splitCommand args) as [[flags' command']|err] eqn:Hs; cbn [rbind]; [|done]. intros [= <- <-].
    destruct (IH _ _ eq_refl) as (-> & Hno & Hc). split_and!; [done|set_solver|done].
Qed.

(** ** Properties *)

(** Every command returns on the answers of the machine: no loop of the
    commands themselves goes on forever.  The runs of processes are answers of
    the machine here; whether a run returns is the subject of [Wait].  [serve],
    which runs until it is stopped, is left out. *)
Lemma run_ends `{!Ed25519, !KeyFiles, !Json Capture, !Json Analysis, !Json (list Experiment), !Json factor_set,
    !Json CertificateClaims, !Json signedV2Value, !Json Certificate, !Archives, !Encoders, !TimeFormat, !Json AuditEvent,
    !Json AnalysisReport, !Json diagnosticManifest, !Json envelope, !Json incident, !Json bundleManifest, !World, !Gzip,
    !Regexp, !Json cacheInput, !Json experimentCacheEntry, !FlagText}
    version commit buildTime platform defaultStore io runServe args s
    (Hargs : head args ≠ Some "serve") :
  ∃ s' r, run version commit buildTime platform defaultStore io runServe args s = Some (s', r).
Proof.
  enough (is_Some (run version commit buildTime platform defaultStore io runServe args s)) as [[s' r] ->] by by eexists _, _.
  destruct args as [|command rest]; [by eexists|]. revert s. fold (ends (run version commit buildTime platform defaultStore io runServe (command :: rest))).
  assert (command ≠ "serve") as Hs by (intros ->; done). clear Hargs.
  unfold run. rewrite (bool_decide_eq_false_2 (command = "serve")) by done.
  repeat (apply ends_if; [|]); try apply print_ends; try apply ends_fail;
    unfold runCapture, runCompare, runExplain, runExport, runHandoff, runImport, runVerify, runAudit; finishes.
Qed.

(** How [handoff] can end *)
Inductive handoff_end `{!Ed25519, !KeyFiles, !Json Capture, !Json Analysis, !Json (list Experiment), !Json factor_set,
    !Json CertificateClaims, !Json signedV2Value, !Json Certificate, !Archives, !Encoders, !TimeFormat, !Json AuditEvent,
    !Json diagnosticManifest, !Json incident, !World, !FlagText} (defaultStore : string) (io : cli_io) (args : list string)
    (s s' : cli) (r : result unit) : Prop :=
  | HandoffRefused err (Hr : r = Err err) (Hstore : cli_store s' = cli_store s) (Hfiles : cli_files s' = cli_files s)
      (Hout : cli_stdout s' = cli_stdout s)
  | HandoffPreviewed f value (Hparse : Flags.Parse args (handoff_flags defaultStore) = Ok (f, []))
      (Hpreview : flag_bool f "preview" = true) (Hr : r = Ok tt)
      (Hstore : cli_store s' = cli_store s) (Hfiles : cli_files s' = cli_files s)
      (Hvalue : PreviewDiagnostic (cli_store s) (flag_string f "analysis") = Ok value)
      (Hout : cli_stdout s' = cli_stdout s ++ [JPreview value])
  | HandoffConfirmed f (Hparse : Flags.Parse args (handoff_flags defaultStore) = Ok (f, []))
      (Hpreview : flag_bool f "preview" = false) (Hconfirm : flag_bool f "confirm" = true)
      (Hdone : handed_off io (flag_string f "analysis") (flag_string f "output") s s' r).

(** The store directory after [handoff]: it is looked at only when the flags
    make sense, and is then created or brought to the current schema. *)
Definition handoff_layout `{!World, !FlagText} (defaultStore : string) (io : cli_io) (args : list string) (s s' : cli) : Prop :=
  cli_layout s' = cli_layout s ∨
  ∃ f opened, Flags.Parse args (handoff_flags defaultStore) = Ok (f, []) ∧ flag_string f "analysis" ≠ "" ∧
    (flag_string f "output" = "" → flag_bool f "preview" = true) ∧
    initialize (io_schema io) (cli_layout s) = Some (cli_layout s', opened).

(** C38: a handoff is made only when it is confirmed, and a success is never a
    handoff that was not made.  Whatever the arguments are, [handoff] ends in one
    of three ways.  It fails before the export, and has changed nothing in the
    store, has written no file and has answered nothing.  Or [--preview] was
    given: it succeeds with the preview as its answer, and has changed nothing in
    the store and written no file.  Or it was given [--confirm] and no
    [--preview]: the captures, analyses and blobs stay as they are, no file but
    the one after [--output] is written, and when it succeeds that file is the
    exported handoff, the export is in the audit log, and the answer names the
    incident that the preview shows.  Opening the store comes first in all of
    this, also for a preview: it may create the directories of the store and
    bring its schema up to date, but only when the flags are complete. *)
Theorem handoff_confirmed `{!Ed25519, !KeyFiles, !Json Capture, !Json Analysis, !Json (list Experiment), !Json factor_set,
    !Json CertificateClaims, !Json signedV2Value, !Json Certificate, !Archives, !Encoders, !TimeFormat, !Json AuditEvent,
    !Json diagnosticManifest, !Json incident, !World, !FlagText} defaultStore io args s s' r
    (Hrun : runHandoff defaultStore io args s = Some (s', r)) :
  handoff_end defaultStore io args s s' r ∧ handoff_layout defaultStore io args s s'.
Proof.
  unfold runHandoff in Hrun. apply bind_Some in Hrun as [(err & Hl & ->)|([f rest] & s1 & Hl & Hrun)].
  { injection Hl as <- _. by split; [eapply HandoffRefused|left]. }
  injection Hl as <- Hparse.
  destruct (_ || _) eqn:Hflags in Hrun; [injection Hrun as <- <-; by split; [eapply HandoffRefused|left]|].
  destruct (negb (bool_decide (rest = []))) eqn:Hrest in Hrun; [injection Hrun as <- <-; by split; [eapply HandoffRefused|left]|].
  apply negb_false_iff, bool_decide_eq_true in Hrest as ->. apply flags_complete in Hflags as [Ha Hopt].
  apply bind_Some in Hrun as [(err & Ho & ->)|([] & s2 & Ho & Hrun)]; apply openStore_effect in Ho as (l & -> & Hl).
  { split; [by eapply HandoffRefused|]. right. by eexists f, _. }
  apply handoff_effect in Hrun as (Hlayout & Hno & Hpre & Hyes). split; [|right; rewrite Hlayout; by eexists f, _].
  destruct (flag_bool f "preview") eqn:Hpreview.
  - destruct (Hpre eq_refl) as (Hs & Hf & [(value & Hp & -> & Hout)|(err & -> & Hout)]).
    + by eapply HandoffPreviewed.
    + by eapply HandoffRefused.
  - destruct (flag_bool f "confirm") eqn:Hconfirm.
    + destruct Hyes as [Hc Hf Hd]; [done..|]. by eapply HandoffConfirmed.
    + destruct (Hno eq_refl eq_refl) as (Hs & Hf & err & -> & Hout). by eapply HandoffRefused.
Qed.

(** The command failed, and something is missing. *)
Ltac not_explained :=
  split_and!; [done|done|]; split; [done|];
  intros (? & ? & ? & ? & ? & ? & ? & ? & ? & ? & _); congruence.

(** an explanation answers with its exit code.  [explain] changes neither
    the store nor a file.  It succeeds exactly when its arguments are a single
    identifier, the store can be opened, the analysis can be loaded and rendered,
    and the status does not match the policy of [--fail-on]; the rendering has
    then been printed. *)
Theorem explain_exit `{!Json Analysis, !Encoders, !World, !FlagText} defaultStore io args s s' r
    (Hrun : runExplain defaultStore io args s = Some (s', r)) :
  cli_store s' = cli_store s ∧ cli_files s' = cli_files s ∧
  (r = Ok tt ↔ ∃ f identifier l analysis text,
    Flags.Parse args (explain_flags defaultStore) = Ok (f, [identifier]) ∧
    initialize (io_schema io) (cli_layout s) = Some (l, Ok tt) ∧
    loadAnalysis (cli_store s) identifier = Ok analysis ∧
    rendering analysis (flag_string f "format") (links_of f) = Ok text ∧
    ShouldFail (Analysis_Status analysis) (flag_string f "fail-on") = Ok false ∧
    cli_stdout s' = cli_stdout s ++ [Text text]).
Proof.
  unfold runExplain in Hrun. apply bind_Some in Hrun as [(err & Hl & ->)|([f rest] & s1 & Hl & Hrun)]; injection Hl as <- Hp; [not_explained|].
  destruct rest as [|identifier [|? ?]]; try (injection Hrun as <- <-; not_explained).
  apply bind_Some in Hrun as [(err & Ho & ->)|([] & s2 & Ho & Hrun)]; unfold openStore in Ho;
    (destruct (initialize _ _) as [[l x]|] eqn:Hi; [|done]; injection Ho as <- ->); [not_explained|].
  apply bind_Some in Hrun as [(err & Ho & ->)|(analysis & s2 & Ho & Hrun)]; unfold load, bind, get, lift in Ho; cbn in Ho;
    injection Ho as <- Ha; [not_explained|].
  unfold finishAnalysis in Hrun. rewrite writeAnalysis_rendering in Hrun. unfold bind, lift, print, update in Hrun.
  destruct (rendering analysis _ _) as [text|err] eqn:Hr; [|injection Hrun as <- <-; not_explained].
  destruct (ShouldFail _ _) as [[]|err] eqn:Hs; injection Hrun as <- <-; [not_explained| |not_explained].
  split_and!; [done|done|]. split; [|done]. intros _. exists f, identifier, l, analysis, text. by split_and!.
Qed.

(** With [--format json] a capture whose command could not be run succeeds;
    with the text format it fails. *)
Lemma capture_json_hides_failure `{!Archives, !Gzip, !Json Capture, !Json bundleManifest, !World} io f record err s :
  flag_string f "output" = "" →
  finishCapture io f (Some record) (Some err) s =
    if bool_decide (flag_string f "format" = "json")
    then Some (with_output s (cli_stdout s ++ [JCapture record]), Ok tt)
    else Some (with_output s (cli_stdout s ++ [Text (Capture_text record)]), Err err).
Proof. intros Ho. unfold finishCapture. rewrite (bool_decide_eq_true_2 _ Ho). by case_bool_decide. Qed.

(** Flag parsing ends at the first argument that is no flag, and what is left
    before the [--] is never looked at: the flags after such an argument make
    no difference. *)
Lemma positional_hides_flags `{!Ed25519, !KeyFiles, !Json Capture, !Json AuditEvent, !TimeFormat, !Archives, !Gzip,
    !Json bundleManifest, !Regexp, !World, !FlagText} defaultStore io argument flags flags' command
    (Hpositional : read_argument argument = Positional) (Hcommand : command ≠ [])
    (Hflags : "--" ∉ argument :: flags) (Hflags' : "--" ∉ argument :: flags') :
  runCapture defaultStore io ((argument :: flags) ++ "--" :: command) =
  runCapture defaultStore io ((argument :: flags') ++ "--" :: command).
Proof. unfold runCapture. rewrite !splitCommand_app by done. unfold lift, bind. cbn [Flags.Parse]. by rewrite Hpositional. Qed.

(** ** Witnesses *)

#[local] Existing Instances demo_ed25519 demo_key_files case_captures case_analyses demo_experiments
  demo_factor_sets demo_claims_json demo_signed_json demo_archives case_encoders case_times quick_codec case_report
  case_envelope case_incident case_certificates case_manifests stored_gzip literal_regexp input_codec entry_codec demo_manifests.
Definition cli_world_codec : World := demo_world (needs []).
Definition cli_text : FlagText := {| parse_int s := Atoi s; parse_duration _ := Err err_parse |}.
#[local] Existing Instances cli_world_codec cli_text.

Definition cli_answers : cli_io :=
  mkCliIO (Ok "/w") [] (λ _, None) Capturer.demo_io demo_key_io (λ _, mkImportIO (λ _, None) None NoFault 9) case_writes NoFault 9
    (λ _, None) (mkHostIO (λ _, Err ErrNotExist) "host" (Ok []) (Ok []) 0 0 "linux" "amd64" 1) (λ _, true).
Definition cli_desk : cli := @mkCli cli_world_codec (demo_desk "" "") (mkLayout ∅ None) ∅ ∅ 0 ∅ [] [] [].

Definition handoff_arguments : list string := ["--analysis=ana-1"; "-output"; "case.wdiag"; "--confirm"].
Definition handed : option (cli * result unit) := runHandoff "store" cli_answers handoff_arguments cli_desk.
Definition handed_state : cli := match handed with Some (s, _) => s | None => cli_desk end.

Example handoff_succeeds : snd <$> handed = Some (Ok tt) ∧ snd <$> (cli_files handed_state !! "case.wdiag") = Some 420%Z ∧ length (cli_stdout handed_state) = 1.
Proof. split_and!; vm_compute; reflexivity. Qed.

Lemma handed_eq : handed = Some (handed_state, Ok tt).
Proof.
  unfold handed_state. pose proof (proj1 handoff_succeeds) as H. destruct handed as [[s r]|]; [|done]. cbn in H. by injection H as ->.
Qed.

Lemma handoff_confirmed_witness :
  handoff_end "store" cli_answers handoff_arguments cli_desk handed_state (Ok tt) ∧
  handoff_layout "store" cli_answers handoff_arguments cli_desk handed_state.
Proof. exact (handoff_confirmed "store" cli_answers handoff_arguments cli_desk handed_state (Ok tt) handed_eq). Defined.

Definition explained : option (cli * result unit) := runExplain "store" cli_answers ["--format"; "json"; "ana-1"] cli_desk.
Definition explained_state : cli := match explained with Some (s, _) => s | None => cli_desk end.
Definition explained_result : result unit := match explained with Some (_, r) => r | None => Ok tt end.

Lemma explained_eq : explained = Some (explained_state, explained_result).
Proof.
  assert (is_Some explained) as [[s r] H] by (vm_compute; by eexists). unfold explained_state, explained_result. by rewrite H.
Qed.

Lemma explain_exit_witness :
  cli_store explained_state = cli_store cli_desk ∧ cli_files explained_state = cli_files cli_desk.
Proof.
  destruct (explain_exit "store" cli_answers ["--format"; "json"; "ana-1"] cli_desk explained_state explained_result explained_eq)
    as (H1 & H2 & _).
  exact (conj H1 H2).
Defined.
