(* ===== verification/Daemon.v ===== *)
(** * Daemon: the program of the daemon

    Models [src/cmd/worldbisectd/main.go]: [init], which writes a configuration
    with one token, and [run], which loads it, opens the store and puts the
    service and the API together; serving is [Api], the workers are [Manager].
    The file system is the one of [Fs], with the root as working directory.
    The JSON encoder of a configuration, with the documented fact that the
    decoder reads its output back, is the interface [ConfigEncoder]. *)

From S2P Require Import Prelude Sha256 Base64 Text Model Json AuditLog Jobs Manager Paths Fs Config Store Oracle Runner Bundle.
From S2P Require Import Certificate Capturer Authorize Service Api Flags.

(** [json.MarshalIndent] of a configuration *)
Class ConfigEncoder `{PDecoder : !ConfigDecoder} := {
  encode_config : Config → string;
  encodable_config : Config → Prop;
  encode_decodes cfg : encodable_config cfg → decode_into Default (encode_config cfg +:+ NL) = Ok cfg;
}.

Inductive line :=
  | Usage
  | Initialized (configPath dataDir token : string)
  | Version
  | Listening (address : string).

(** What the machine answers: the random bytes of the token, writing the
    configuration (see [AtomicFile]), writing the schema file of the store,
    listening *)
Record daemon_io := mkDaemonIO {
  dio_random : result (list Z);
  dio_write : option error;
  dio_schema : Z → option error;
  dio_listen : option error;
}.

(** [atomicWrite]: the file is replaced by a rename, or nothing changes.  A
    symbolic link is replaced, not followed. *)
Definition put_file (f : fs) (path content : string) (mode : Z) (fail : option error) : fs * result unit :=
  match fail with
  | Some err => (f, Err err)
  | None =>
      match resolve f false path with
      | Err err => (f, Err err)
      | Ok p =>
          match get_node f p with
          | Some (NDir _) => (f, Err ErrExist)
          | _ => (<[p := NFile mode content]> f, Ok tt)
          end
      end
  end.

Definition err_configured (path : string) : error := ErrMsg ("configuration already exists: " +:+ path).
Definition err_daemon_command (command : string) : error := ErrMsg ("unknown command " +:+ command).

Definition daemon_init_flags : flag_set := flag_list
  [("config", VString "/etc/worldbisect/config.json"); ("data-dir", VString "/var/lib/worldbisect");
   ("listen", VString "127.0.0.1:8787"); ("force", VBool false)].
Definition daemon_run_flags : flag_set := flag_list [("config", VString "/etc/worldbisect/config.json")].

Definition admin_scopes : list string := ["read"; "capture:write"; "analysis:write"; "admin"].

(** The configuration that [init] writes *)
Definition new_config (listen dataDir token : string) : Config :=
  let cfg := Default in
  mkConfig (Config_SchemaVersion cfg) listen dataDir (Config_LogLevel cfg) (Config_RemoteExecutionEnabled cfg)
    (Config_AllowedCommands cfg) (Config_AllowedWorkingDirectories cfg) (Config_Workers cfg) (Config_LeaseSeconds cfg)
    (Config_MaxAttempts cfg) (Config_Quotas cfg) [mkToken "initial-admin" (HashToken token) admin_scopes].

(** [base64.RawURLEncoding.EncodeToString] *)
Definition url_token (random : list Z) : string := base64_chars "-" "_" random.

(** The daemon that serves *)
Record daemon := mkDaemon {
  dm_server : Server;
  dm_manager : Manager;
  dm_address : string;
}.

Section daemon.
Context `{PDecoder : !ConfigDecoder, PEncoder : !ConfigEncoder, PText : !FlagText}.

Definition runInit (io : daemon_io) (args : list string) (f : fs) : fs * result line :=
  match Flags.Parse args daemon_init_flags with
  | Err err => (f, Err err)
  | Ok (set, _) =>
      let configPath := flag_string set "config" in
      let dataDir := flag_string set "data-dir" in
      if match Stat f configPath with Ok _ => negb (flag_bool set "force") | Err _ => false end then (f, Err (err_configured configPath))
      else
        match dio_random io with
        | Err err => (f, Err err)
        | Ok random =>
            let token := url_token random in
            match Config.Validate f (new_config (flag_string set "listen") dataDir token) with
            | Err err => (f, Err err)
            | Ok cfg =>
                match MkdirAll f (Dir configPath) 488 with
                | Err err => (f, Err err)
                | Ok f =>
                    match MkdirAll f dataDir 488 with
                    | Err err => (f, Err err)
                    | Ok f =>
                        let '(f, written) := put_file f configPath (encode_config cfg +:+ NL) 384 (dio_write io) in
                        (f, let? _ := written in Ok (Initialized configPath dataDir token))
                    end
                end
            end
        end
  end.

(** [run] up to serving.  [jobs] and [data] are what the store at the data
    directory holds, with its layout [l]. *)
Definition runServer (io : daemon_io) (args : list string) (f : fs) (l : layout) (jobs : disk) (data : data_store) :
    option (layout * result daemon) :=
  match Flags.Parse args daemon_run_flags with
  | Err err => Some (l, Err err)
  | Ok (set, _) =>
      match Config.Load f (flag_string set "config") with
      | Err err => Some (l, Err err)
      | Ok cfg =>
          match initialize (dio_schema io) l with
          | None => None
          | Some (l, Err err) => Some (l, Err err)
          | Some (l, Ok _) =>
              let manager := service_manager cfg in
              let server := Api.New cfg (start manager jobs) data in
              Some (l, match dio_listen io with
                       | Some err => Err err
                       | None => Ok (mkDaemon server manager (Config_Listen cfg))
                       end)
          end
      end
  end.

(** The choice of the command: the file system, the layout of the store, and
    the line that is printed with the daemon that serves, if one does *)
Definition daemon_run (io : daemon_io) (args : list string) (f : fs) (l : layout) (jobs : disk) (data : data_store) :
    option (fs * layout * result (line * option daemon)) :=
  match args with
  | [] => Some (f, l, Ok (Usage, None))
  | command :: args =>
      if bool_decide (command = "init") then
        let '(f, r) := runInit io args f in Some (f, l, let? printed := r in Ok (printed, None))
      else if bool_decide (command = "run") then
        match runServer io args f l jobs data with
        | None => None
        | Some (l, r) => Some (f, l, let? d := r in Ok (Listening (dm_address d), Some d))
        end
      else if bool_decide (command ∈ ["version"; "--version"]) then Some (f, l, Ok (Version, None))
      else Some (f, l, Err (err_daemon_command command))
  end.
End daemon.

(** ** Lemmas *)

Lemma Mkdir_grows f path perm f' : Mkdir f path perm = Ok f' → f ⊆ f'.
Proof.
  unfold Mkdir. intros Hm. step_ok Hm. destruct (get_node f x) eqn:Hn; [done|]. injection Hm as <-.
  apply insert_subseteq. destruct x; [done|exact Hn].
Qed.

Lemma mkdir_one_grows f path perm f' : mkdir_one f path perm = Ok f' → f ⊆ f'.
Proof.
  unfold mkdir_one. destruct (Stat f path) as [[]|]; [done|by intros [= <-]|done|].
  destruct (Mkdir f path perm) as [g|] eqn:Hm; [intros [= <-]; by eapply Mkdir_grows|].
  destruct (Lstat f path) as [[]|]; [done|by intros [= <-]|done|done].
Qed.

Lemma MkdirAll_grows f path perm f' : MkdirAll f path perm = Ok f' → f ⊆ f'.
Proof.
  unfold MkdirAll. destruct (Stat f path) as [[]|]; [done|by intros [= <-]|done|].
  generalize (path_comps path). intros cs. revert f. generalize (@nil string). induction cs as [|c cs IH]; intros done_ f Hm; cbn in Hm.
  { by injection Hm as <-. }
  destruct (mkdir_one _ _ _) as [g|] eqn:Ho; [|done]. cbn in Hm. etrans; [by eapply mkdir_one_grows|by eapply IH].
Qed.

Lemma real_dir_grows f f' cur : f ⊆ f' → real_dir f cur → real_dir f' cur.
Proof.
  intros Hsub [Hp Hd]. split; [done|]. intros pre Hpre Hne. destruct (Hd pre Hpre Hne) as [m Hm]. exists m.
  by eapply lookup_weaken.
Qed.

Lemma Dir_snoc ds c : Forall plain ds → plain c → Dir (abs_path (ds ++ [c])) = abs_path ds.
Proof.
  intros Hds Hc. change (abs_path (ds ++ [c])) with (Paths.render true (ds ++ [c])). rewrite Dir_render.
  - by rewrite length_app, Nat.add_sub, take_app_length.
  - exists 0, (ds ++ [c]). split_and!; [done| |done]. apply Forall_app. split; [done|by apply Forall_singleton].
Qed.

Lemma real_dirs_snoc f ds c : real_dir f ds → real_dirs f [] (ds ++ [c]).
Proof.
  intros [_ Hd]. apply real_dirs_prefix. intros pre Hpre Hne Hneq. apply Hd; [|done]. by eapply prefix_snoc_inv.
Qed.

(** A file that was put in place is read back. *)
Lemma put_file_reads f ds c content mode f' : real_dir f ds → plain c →
  put_file f (abs_path (ds ++ [c])) content mode None = (f', Ok tt) →
  f' = <[ds ++ [c] := NFile mode content]> f ∧ ReadFile f' (abs_path (ds ++ [c])) = Ok content.
Proof.
  intros Hds Hc. pose proof Hds as [Hplain Hd].
  assert (Forall plain (ds ++ [c])) as Hall by (apply Forall_app; split; [done|by apply Forall_singleton]).
  assert (ds ++ [c] ≠ []) as Hne by by destruct ds.
  unfold put_file. rewrite resolve_real; [|done|done|by apply real_dirs_snoc|by left].
  intros Hput. assert (f' = <[ds ++ [c] := NFile mode content]> f) as ->.
  { destruct (get_node f (ds ++ [c])) as [[]|]; simplify_eq; done. }
  split; [done|]. unfold ReadFile, Stat, stat_with. rewrite resolve_real; [|done|done| |].
  - cbn. destruct (ds ++ [c]) eqn:Heq; [done|]. rewrite <-Heq. unfold get_node. rewrite Heq, <-Heq. by rewrite lookup_insert_eq.
  - apply real_dirs_snoc. split; [done|]. intros pre Hpre Hpne. rewrite lookup_insert_ne; [by apply Hd|].
    intros <-. apply prefix_length in Hpre. rewrite length_app in Hpre. cbn in Hpre. lia.
  - right. intros t. by rewrite lookup_insert_eq.
Qed.

(** A valid configuration without paths is valid on every file system. *)
Lemma Validate_pathless f cfg cfg' : Config_AllowedCommands cfg = [] → Config_AllowedWorkingDirectories cfg = [] →
  Config.Validate f cfg = Ok cfg' → cfg' = cfg ∧ ∀ g, Config.Validate g cfg = Ok cfg.
Proof.
  intros Hc Hd Hv. apply Config_Validate_inv in Hv as (Hvalid & Heq & Hlc & Hld). rewrite Hc in Hlc. rewrite Hd in Hld.
  apply nil_length_inv in Hlc, Hld. rewrite Hlc, Hld in Heq.
  assert (cfg' = cfg) as ->. { rewrite Heq. destruct cfg. cbn in *. by subst. }
  split; [done|]. intros g. apply valid_config_fixed. destruct Hvalid. split; try done; by rewrite ?Hc, ?Hd.
Qed.

Lemma authenticate_only cfg token scope raw : Config_Tokens cfg = [token] → "admin" ∈ Token_Scopes token →
  Api.authenticate cfg scope ("Bearer " +:+ raw) =
    if bool_decide (Token_Hash token = HashToken raw)
    then Granted (mkPrincipal (Token_Name token) (Token_Scopes token) (Fingerprint raw))
    else Unauthorized "invalid bearer token".
Proof.
  intros Ht Hadmin. unfold Api.authenticate. rewrite has_prefix_app, trim_prefix_app, Ht. cbn [negb].
  assert (∀ P : Token → Prop, ∀ dec : ∀ x, Decision (P x), list_find P [token] = if decide (P token) then Some (0, token) else None) as -> by done.
  destruct (decide (Token_Hash token = HashToken raw)) as [Hh|Hh].
  - rewrite (bool_decide_eq_true_2 _ Hh). destruct (decide _) as [_|Hno]; [|destruct Hno; by apply VerifyToken_spec].
    rewrite (bool_decide_eq_true_2 ("admin" ∈ _)) by done. cbn [negb andb]. by rewrite andb_false_r.
  - rewrite (bool_decide_eq_false_2 _ Hh). destruct (decide _) as [Hyes|_]; [|done]. by apply VerifyToken_spec in Hyes.
Qed.

(** ** Properties *)

(** C33: a daemon that was initialised serves the holder of its token.  When
    [init] succeeds in an existing directory, it has written one file, readable
    by its owner only, and changed no other; [run] with this file loads the
    configuration and, when the store opens, serves it; with the printed token
    every route may be used, with any other authorisation - whatever its text,
    short of a collision of the hash - none that needs a token; and no remote
    command is executed, since the configuration does not enable it. *)
Theorem init_serves `{PDecoder : !ConfigDecoder, PEncoder : !ConfigEncoder, PText : !FlagText} io args f f' ds c dataDir token
    (Hdir : real_dir f ds) (Hname : plain c)
    (Hencodable : ∀ listen, encodable_config (new_config listen dataDir token))
    (Hrun : runInit io args f = (f', Ok (Initialized (abs_path (ds ++ [c])) dataDir token))) :
  (∃ content, f' !! (ds ++ [c]) = Some (NFile 384 content)) ∧
  (∀ p n, p ≠ ds ++ [c] → f !! p = Some n → f' !! p = Some n) ∧
  ∃ cfg, Config.Load f' (abs_path (ds ++ [c])) = Ok cfg ∧ Config_RemoteExecutionEnabled cfg = false ∧
    Config_DataDir cfg = dataDir ∧
    (∀ io' l l' jobs data, dio_listen io' = None → initialize (dio_schema io') l = Some (l', Ok tt) →
       runServer io' ["--config"; abs_path (ds ++ [c])] f' l jobs data =
         Some (l', Ok (mkDaemon (Api.New cfg (start (service_manager cfg) jobs) data) (service_manager cfg) (Config_Listen cfg)))) ∧
    (∀ scope, Api.authenticate cfg scope ("Bearer " +:+ token) = Granted (mkPrincipal "initial-admin" admin_scopes (Fingerprint token))) ∧
    (∀ scope authorization, (∀ raw, authorization = "Bearer " +:+ raw → HashToken raw ≠ HashToken token) →
       ∃ message, Api.authenticate cfg scope authorization = Unauthorized message).
Proof.
  unfold runInit in Hrun. destruct (Flags.Parse _ _) as [[set rest]|]; [|done].
  destruct (match Stat f _ with Ok _ => _ | Err _ => _ end); [done|]. destruct (dio_random io) as [random|]; [|done].
  destruct (Config.Validate f _) as [cfg|] eqn:Hv; [|done]. apply Validate_pathless in Hv as [-> Hvalid]; [|done..].
  destruct (MkdirAll f _ _) as [f1|] eqn:H1; [|done]. destruct (MkdirAll f1 _ _) as [f2|] eqn:H2; [|done].
  destruct (put_file f2 _ _ _ _) as [f3 [[]|]] eqn:Hput; [|done]. cbn [rbind] in Hrun.
  assert (f3 = f' ∧ flag_string set "config" = abs_path (ds ++ [c]) ∧ flag_string set "data-dir" = dataDir ∧ url_token random = token)
    as (-> & Hpath & Hdata & Htoken).
  { revert Hrun. generalize (url_token random). intros t [= -> -> -> ->]. done. }
  rewrite Hpath, Hdata, Htoken in *. clear Hrun. set (cfg := new_config _ dataDir token) in *.
  apply MkdirAll_grows in H1 as Hgrow1. apply MkdirAll_grows in H2 as Hgrow2. assert (f ⊆ f2) as Hgrow by by etrans.
  assert (dio_write io = None) as Hwrite by (unfold put_file in Hput; by destruct (dio_write io)).
  rewrite Hwrite in Hput. apply put_file_reads in Hput as [-> Hread]; [|by eapply real_dir_grows|done].
  assert (Config.Load (<[ds ++ [c] := NFile 384 (encode_config cfg +:+ NL)]> f2) (abs_path (ds ++ [c])) = Ok cfg) as Hload.
  { unfold Config.Load. rewrite Hread. cbn [rbind]. rewrite encode_decodes by apply Hencodable. apply Hvalid. }
  split_and!.
  - eexists. by rewrite lookup_insert_eq.
  - intros p n Hp Hn. rewrite lookup_insert_ne by done. by eapply lookup_weaken.
  - exists cfg. split_and!; [done|done|done| | |].
    + intros io' l l' jobs data Hlisten Hinit. unfold runServer.
      assert (Flags.Parse ["--config"; abs_path (ds ++ [c])] daemon_run_flags =
        Ok (<["config" := VString (abs_path (ds ++ [c]))]> daemon_run_flags, [])) as -> by done.
      assert (flag_string (<["config" := VString (abs_path (ds ++ [c]))]> daemon_run_flags) "config" = abs_path (ds ++ [c])) as ->
        by (unfold flag_string; by rewrite lookup_insert_eq).
      by rewrite Hload, Hinit, Hlisten.
    + intros scope. rewrite (authenticate_only cfg (mkToken "initial-admin" (HashToken token) admin_scopes)); [|done|cbn; set_solver].
      by rewrite bool_decide_eq_true_2.
    + intros scope authorization Hother. destruct (has_prefix authorization "Bearer ") eqn:Hp.
      2:{ unfold Api.authenticate. rewrite Hp. by eexists. }
      apply has_prefix_true in Hp as [raw ->].
      rewrite (authenticate_only cfg (mkToken "initial-admin" (HashToken token) admin_scopes)); [|done|cbn; set_solver].
      rewrite bool_decide_eq_false_2; [by eexists|]. cbn. intros Heq. by apply (Hother raw).
Qed.

(** ** Witness *)

Definition daemon_random : list Z := replicate 32 5%Z.
Definition daemon_token : string := url_token daemon_random.
(** A codec for the configurations of this token: their listen address *)
Definition listen_decoder : ConfigDecoder :=
  {| decode_into _ text := Ok (new_config (trim_suffix text NL) "/var/lib/worldbisect" daemon_token) |}.
Definition listen_encoder : @ConfigEncoder listen_decoder.
Proof.
  refine {| encode_config := Config_Listen;
            encodable_config cfg := ∃ listen, cfg = new_config listen "/var/lib/worldbisect" daemon_token |}.
  intros cfg [listen ->]. cbn [decode_into listen_decoder Config_Listen new_config]. by rewrite trim_suffix_exact.
Defined.
Definition daemon_text : FlagText := {| parse_int _ := Err err_parse; parse_duration _ := Err err_parse |}.
#[local] Existing Instances listen_decoder listen_encoder daemon_text.

Definition fresh_machine : fs :=
  {[["etc"] := NDir 493; ["etc"; "worldbisect"] := NDir 488; ["etc"; "passwd"] := NFile 420 "root"; ["var"] := NDir 493]}.
Definition daemon_answers : daemon_io := mkDaemonIO (Ok daemon_random) None (λ _, None) None.
Definition initialized : fs * result line := runInit daemon_answers [] fresh_machine.
Definition config_path : list string := ["etc"; "worldbisect"; "config.json"].

Example init_once :
  initialized.1 !! ["var"; "lib"; "worldbisect"] = Some (NDir 488) ∧ initialized.1 !! ["etc"; "passwd"] = Some (NFile 420 "root") ∧
  (runInit daemon_answers [] initialized.1).2 = Err (err_configured "/etc/worldbisect/config.json").
Proof. split_and!; vm_compute; reflexivity. Qed.

Lemma initialized_eq : initialized = (initialized.1, Ok (Initialized (abs_path config_path) "/var/lib/worldbisect" daemon_token)).
Proof.
  assert (initialized.2 = Ok (Initialized (abs_path config_path) "/var/lib/worldbisect" daemon_token)) as <- by (vm_compute; reflexivity).
  apply surjective_pairing.
Qed.

Lemma init_serves_witness :
  (∃ content, initialized.1 !! config_path = Some (NFile 384 content)) ∧
  ∃ cfg, Config.Load initialized.1 "/etc/worldbisect/config.json" = Ok cfg ∧ Config_DataDir cfg = "/var/lib/worldbisect".
Proof.
  destruct (init_serves daemon_answers [] fresh_machine initialized.1 ["etc"; "worldbisect"] "config.json" "/var/lib/worldbisect" daemon_token)
    as (Hfile & _ & cfg & Hload & _ & Hdata & _).
  - split; [by repeat constructor|]. intros pre Hpre Hne. destruct pre as [|a [|b [|? pre]]]; [done| | |].
    + apply prefix_cons_inv_1 in Hpre as ->. exists 493%Z. reflexivity.
    + pose proof (prefix_cons_inv_1 _ _ _ _ Hpre) as ->. apply prefix_cons_inv_2, prefix_cons_inv_1 in Hpre as ->. exists 488%Z. reflexivity.
    + apply prefix_length in Hpre. cbn in Hpre. exfalso. lia.
  - by repeat constructor.
  - intros listen. exists listen. reflexivity.
  - exact initialized_eq.
  - split; [exact Hfile|]. exists cfg. exact (conj Hload Hdata).
Defined.
