(* ===== verification/HubConfig.v ===== *)
(** * HubConfig: configuration and access rules of the team hub

    Models [src/internal/hub/config.go], [access.go], [provision.go] and the
    publisher rules of [oidc.go]: who may do what with which credential, the
    validation of a configuration, and the two operations that write one. *)

From S2P Require Import Prelude Sha256 Json Text.

(** ** Data *)

Definition MaxBodyBytes : Z := 16 * 1024.

Record Subject := mkSubject {
  Subject_ID : string;
  Subject_Kind : string;
  Subject_Disabled : bool;
}.
Record Membership := mkMembership {
  Membership_SubjectID : string;
  Membership_Workspace : string;
  Membership_Role : string;
}.
Record Key := mkKey {
  Key_ID : string;
  Key_SubjectID : string;
  Key_Scopes : list string;
  Key_ExpiresAt : option time;
  Key_TokenSHA256 : string;
  Key_Workspace : string;
  Key_Permission : string;
}.
Record CIPublisher := mkCIPublisher {
  Publisher_SubjectID : string;
  Publisher_Workspace : string;
  Publisher_Audience : string;
  Publisher_Repository : string;
  Publisher_RepositoryID : string;
  Publisher_RepositoryOwnerID : string;
  Publisher_WorkflowRef : string;
  Publisher_Ref : string;
  Publisher_Subject : string;
}.
Record Config := mkConfig {
  Config_Subjects : list Subject;
  Config_Memberships : list Membership;
  Config_CIQuarantineUntil : option time;
  Config_CIPublishers : list CIPublisher;
  Config_AuditRetentionDays : Z;
  Config_Version : Z;
  Config_RetentionDays : Z;
  Config_MaxReportsPerWorkspace : Z;
  Config_Keys : list Key;
}.
Record Principal := mkPrincipal {
  Principal_SubjectID : string;
  Principal_Kind : string;
  Principal_Workspace : string;
  Principal_CredentialID : string;
  Principal_Scopes : list string;
}.

Definition zero_key : Key := mkKey "" "" [] None "" "" "".
Definition zero_config : Config := mkConfig [] [] None [] 0 0 0 0 [].

(** ** Access rules *)

Definition roleScopes (role : string) : list string :=
  if bool_decide (role = "viewer") then ["reports:read"]
  else if bool_decide (role = "publisher") then ["reports:write"]
  else if bool_decide (role = "editor") then ["reports:read"; "reports:write"; "reports:delete"]
  else [].

(** The first membership of the list decides. *)
Definition is_member (subject workspace : string) (member : Membership) : bool :=
  bool_decide (Membership_SubjectID member = subject) &&
  bool_decide (Membership_Workspace member = workspace).

Definition membershipScopes (c : Config) (subject workspace : string) : list string :=
  match list_find (λ member, is_member subject workspace member = true) (Config_Memberships c) with
  | Some (_, member) => roleScopes (Membership_Role member)
  | None => []
  end.

Definition keyScopes (key : Key) : list string :=
  if bool_decide (0 < length (Key_Scopes key)) then Key_Scopes key
  else if bool_decide (Key_Permission key = "write") then roleScopes "editor"
  else roleScopes "viewer".

(** A credential has expired at its expiry time already. *)
Definition key_expired (key : Key) (now : time) : bool :=
  match Key_ExpiresAt key with Some expires => negb (Before now expires) | None => false end.

Definition active_subject (c : Config) (key : Key) (subject : Subject) : bool :=
  bool_decide (Subject_ID subject = Key_SubjectID key) && negb (Subject_Disabled subject) &&
  bool_decide (0 < length (membershipScopes c (Subject_ID subject) (Key_Workspace key))).

(** [TokenSHA256[:12]] does not panic: every key in use belongs to a validated
    configuration, where the hash has 64 characters. *)
Definition principalForKey (c : Config) (key : Key) (now : time) : option Principal :=
  if bool_decide (Key_TokenSHA256 key = "") then None
  else if key_expired key now then None
  else if bool_decide (Config_Version c = 1%Z) then
    let legacy := "legacy-" +:+ string_take 12 (Key_TokenSHA256 key) in
    Some (mkPrincipal legacy "legacy-service" (Key_Workspace key) legacy (keyScopes key))
  else
    match list_find (λ subject, active_subject c key subject = true) (Config_Subjects c) with
    | Some (_, subject) =>
        Some (mkPrincipal (Subject_ID subject) (Subject_Kind subject) (Key_Workspace key) (Key_ID key)
                (keyScopes key))
    | None => None
    end.

Definition principalRole (c : Config) (p : Principal) : string :=
  if bool_decide (Config_Version c = 1%Z) then
    if bool_decide ("reports:write" ∈ Principal_Scopes p) then "editor" else "viewer"
  else
    match list_find (λ member, is_member (Principal_SubjectID p) (Principal_Workspace p) member = true)
            (Config_Memberships c) with
    | Some (_, member) => Membership_Role member
    | None => ""
    end.

(** ** validateAccessConfig *)

Definition err_quarantine := ErrMsg "ci_quarantine_until requires version 2 and a valid timestamp".
Definition err_audit_days := ErrMsg "audit_retention_days must be 1..30 or omitted for 7 days".
Definition err_access_size := ErrMsg "access configuration exceeds 100 subjects or 200 memberships".
Definition err_access_v2 :=
  ErrMsg "subjects, memberships and CI publishers require configuration version 2".
Definition err_subjects := ErrMsg "subjects require unique identifiers and kind user or service".
Definition err_membership :=
  ErrMsg "membership requires a configured subject, workspace and unique viewer/editor/publisher role".
Definition err_credential_v2 := ErrMsg "credential identities and scopes require configuration version 2".
Definition err_credential_id := ErrMsg "v2 credentials require unique id and configured subject_id".
Definition err_no_membership (id : string) :=
  ErrMsg ("credential " +:+ id +:+ " has no workspace membership").
Definition err_scope_count := ErrMsg "a credential accepts at most three report scopes".
Definition err_scopes :=
  ErrMsg "credential scopes must be unique reports:read, reports:write or reports:delete".
Definition err_exceeds (id : string) := ErrMsg ("credential " +:+ id +:+ " exceeds its membership role").

(** A Go [map[string]bool] used as a set is a [gset string]. *)
Fixpoint subjects_loop (subjects : gset string) (l : list Subject) : result (gset string) :=
  match l with
  | [] => Ok subjects
  | subject :: l =>
      fail? negb (workspacePattern (Subject_ID subject)) ||
            (negb (bool_decide (Subject_Kind subject = "user")) &&
             negb (bool_decide (Subject_Kind subject = "service"))) ||
            bool_decide (Subject_ID subject ∈ subjects) with err_subjects in
      subjects_loop ({[Subject_ID subject]} ∪ subjects) l
  end.

Definition member_key (subject workspace : string) : string := subject +:+ "/" +:+ workspace.

Fixpoint memberships_loop (subjects memberships : gset string) (l : list Membership) :
    result (gset string) :=
  match l with
  | [] => Ok memberships
  | member :: l =>
      let key := member_key (Membership_SubjectID member) (Membership_Workspace member) in
      fail? negb (bool_decide (Membership_SubjectID member ∈ subjects)) ||
            negb (workspacePattern (Membership_Workspace member)) ||
            bool_decide (key ∈ memberships) ||
            bool_decide (length (roleScopes (Membership_Role member)) = 0) with err_membership in
      memberships_loop subjects ({[key]} ∪ memberships) l
  end.

Fixpoint scopes_loop (seen : gset string) (scopes : list string) : result unit :=
  match scopes with
  | [] => Ok tt
  | scope :: scopes =>
      fail? negb (bool_decide (scope ∈ ["reports:read"; "reports:write"; "reports:delete"])) ||
            bool_decide (scope ∈ seen) with err_scopes in
      scopes_loop ({[scope]} ∪ seen) scopes
  end.

Fixpoint within_role_loop (c : Config) (key : Key) (scopes : list string) : result unit :=
  match scopes with
  | [] => Ok tt
  | scope :: scopes =>
      fail? negb (bool_decide (scope ∈ membershipScopes c (Key_SubjectID key) (Key_Workspace key)))
        with err_exceeds (Key_ID key) in
      within_role_loop c key scopes
  end.

Fixpoint credentials_loop (c : Config) (subjects memberships ids : gset string) (l : list Key) :
    result unit :=
  match l with
  | [] => Ok tt
  | key :: l =>
      if bool_decide (Config_Version c = 1%Z) then
        fail? negb (bool_decide (Key_ID key = "")) || negb (bool_decide (Key_SubjectID key = "")) ||
              bool_decide (0 < length (Key_Scopes key)) with err_credential_v2 in
        credentials_loop c subjects memberships ids l
      else
        fail? negb (workspacePattern (Key_ID key)) || bool_decide (Key_ID key ∈ ids) ||
              negb (bool_decide (Key_SubjectID key ∈ subjects)) with err_credential_id in
        fail? negb (bool_decide (member_key (Key_SubjectID key) (Key_Workspace key) ∈ memberships))
          with err_no_membership (Key_ID key) in
        fail? bool_decide (3 < length (Key_Scopes key)) with err_scope_count in
        let? _ := scopes_loop ∅ (Key_Scopes key) in
        let? _ := within_role_loop c key (keyScopes key) in
        credentials_loop c subjects memberships ({[Key_ID key]} ∪ ids) l
  end.

Definition validateAccessConfig (c : Config) : result unit :=
  fail? match Config_CIQuarantineUntil c with
        | Some until => negb (bool_decide (Config_Version c = 2%Z)) || IsZero until
        | None => false
        end with err_quarantine in
  fail? bool_decide (Config_AuditRetentionDays c < 0)%Z || bool_decide (30 < Config_AuditRetentionDays c)%Z
    with err_audit_days in
  fail? bool_decide (100 < length (Config_Subjects c)) || bool_decide (200 < length (Config_Memberships c))
    with err_access_size in
  fail? bool_decide (Config_Version c = 1%Z) &&
        (bool_decide (0 < length (Config_Subjects c)) || bool_decide (0 < length (Config_Memberships c)) ||
         bool_decide (0 < length (Config_CIPublishers c))) with err_access_v2 in
  let? subjects := subjects_loop ∅ (Config_Subjects c) in
  let? memberships := memberships_loop subjects ∅ (Config_Memberships c) in
  credentials_loop c subjects memberships ∅ (Config_Keys c).

(** ** CI publishers *)

Definition ci_service (p : CIPublisher) (requireEnabled : bool) (subject : Subject) : bool :=
  bool_decide (Subject_ID subject = Publisher_SubjectID p) && bool_decide (Subject_Kind subject = "service") &&
  (negb requireEnabled || negb (Subject_Disabled subject)).

Definition ci_member (p : CIPublisher) (member : Membership) : bool :=
  is_member (Publisher_SubjectID p) (Publisher_Workspace p) member &&
  (bool_decide (Membership_Role member = "publisher") || bool_decide (Membership_Role member = "editor")).

Definition ciMembership (c : Config) (p : CIPublisher) (requireEnabled : bool) : bool :=
  existsb (ci_service p requireEnabled) (Config_Subjects c) &&
  existsb (ci_member p) (Config_Memberships c).

Definition err_ci_version := ErrMsg "CI publishing requires configuration v2 and at most 50 trust rules".
Definition err_ci_publisher :=
  ErrMsg "CI publisher requires exact workspace, service subject, repository IDs and branch ref".
Definition err_ci_audience :=
  ErrMsg "CI audience must be a dedicated HTTPS identifier, at most 256 bytes".
Definition err_ci_workflow :=
  ErrMsg "CI workflow_ref must name one workflow file in the configured repository and branch".
Definition err_ci_subject :=
  ErrMsg "CI subject must be an exact OIDC subject without whitespace or wildcards".
Definition err_ci_membership :=
  ErrMsg "CI publisher requires a service subject and publisher or editor membership".
Definition err_ci_duplicate := ErrMsg "duplicate CI publisher trust binding".

Definition workflow_name (repository ref workflowRef : string) : string :=
  trim_suffix (trim_prefix workflowRef (repository +:+ "/.github/workflows/")) ("@" +:+ ref).
Definition workflow_ref (repository ref file : string) : string :=
  repository +:+ "/.github/workflows/" +:+ file +:+ "@" +:+ ref.

Definition ci_binding (p : CIPublisher) : string :=
  Publisher_Audience p +:+ NL +:+ Publisher_Subject p +:+ NL +:+ Publisher_RepositoryID p +:+ NL +:+
  Publisher_WorkflowRef p.

Definition white_cut : string := " " +:+ String "009" (String "013" NL).

Section config.
Context `{!Urls}.

Definition audience_ok (audience : string) : bool :=
  match url_Parse audience with
  | Err _ => false
  | Ok u => bool_decide (URL_Scheme u = "https") && negb (bool_decide (URL_Host u = "")) &&
            negb (URL_HasUser u) && bool_decide (URL_RawQuery u = "") && bool_decide (URL_Fragment u = "") &&
            negb (bool_decide (256 < String.length audience))
  end.

Fixpoint publishers_loop (c : Config) (seen : gset string) (l : list CIPublisher) : result unit :=
  match l with
  | [] => Ok tt
  | p :: l =>
      fail? negb (workspacePattern (Publisher_SubjectID p)) ||
            negb (workspacePattern (Publisher_Workspace p)) ||
            negb (repositoryPattern (Publisher_Repository p)) ||
            negb (decimalID (Publisher_RepositoryID p)) || negb (decimalID (Publisher_RepositoryOwnerID p)) ||
            negb (branchRef (Publisher_Ref p)) || contains (Publisher_Ref p) ".." ||
            has_suffix (Publisher_Ref p) "/" with err_ci_publisher in
      fail? negb (audience_ok (Publisher_Audience p)) with err_ci_audience in
      let file := workflow_name (Publisher_Repository p) (Publisher_Ref p) (Publisher_WorkflowRef p) in
      fail? negb (bool_decide (Publisher_WorkflowRef p =
                               workflow_ref (Publisher_Repository p) (Publisher_Ref p) file)) ||
            negb (workflowFile file) with err_ci_workflow in
      fail? bool_decide (String.length (Publisher_Subject p) < 8) ||
            bool_decide (512 < String.length (Publisher_Subject p)) ||
            contains_any (Publisher_Subject p) (white_cut +:+ "*") with err_ci_subject in
      fail? negb (ciMembership c p false) with err_ci_membership in
      fail? bool_decide (ci_binding p ∈ seen) with err_ci_duplicate in
      publishers_loop c ({[ci_binding p]} ∪ seen) l
  end.

Definition ValidateCIPublishers (c : Config) : result unit :=
  fail? bool_decide (50 < length (Config_CIPublishers c)) ||
        (bool_decide (0 < length (Config_CIPublishers c)) && negb (bool_decide (Config_Version c = 2%Z)))
    with err_ci_version in
  publishers_loop c ∅ (Config_CIPublishers c).

(** ** Config.Validate *)

Definition err_version := ErrMsg "hub configuration version must be 1 or 2".
Definition err_retention := ErrMsg "retention_days must be between 1 and 30".
Definition err_max_reports := ErrMsg "max_reports_per_workspace must be between 1 and 1000".
Definition err_key_count := ErrMsg "configuration requires between 1 and 100 keys".
Definition err_key_hash (i : nat) :=
  ErrMsg ("key " +:+ show_nat i +:+ " requires a lowercase SHA-256 token hash").
Definition err_duplicate_hash := ErrMsg "duplicate token hashes are not allowed".
Definition err_key_workspace (i : nat) :=
  ErrMsg ("key " +:+ show_nat i +:+ " has an invalid workspace identifier").
Definition err_key_permission (i : nat) :=
  ErrMsg ("key " +:+ show_nat i +:+ " permission must be read or write").

Fixpoint key_hashes_loop (seen : gset string) (i : nat) (l : list Key) : result unit :=
  match l with
  | [] => Ok tt
  | key :: l =>
      fail? negb (digest_text (Key_TokenSHA256 key)) with err_key_hash i in
      fail? bool_decide (Key_TokenSHA256 key ∈ seen) with err_duplicate_hash in
      fail? negb (workspacePattern (Key_Workspace key)) with err_key_workspace i in
      fail? negb (bool_decide (Key_Permission key = "read")) && negb (bool_decide (Key_Permission key = "write"))
        with err_key_permission i in
      key_hashes_loop ({[Key_TokenSHA256 key]} ∪ seen) (S i) l
  end.

Definition Validate (c : Config) : result unit :=
  fail? negb (bool_decide (Config_Version c = 1%Z)) && negb (bool_decide (Config_Version c = 2%Z))
    with err_version in
  fail? bool_decide (Config_RetentionDays c < 1)%Z || bool_decide (30 < Config_RetentionDays c)%Z
    with err_retention in
  fail? bool_decide (Config_MaxReportsPerWorkspace c < 1)%Z ||
        bool_decide (1000 < Config_MaxReportsPerWorkspace c)%Z with err_max_reports in
  fail? (bool_decide (length (Config_Keys c) = 0) && bool_decide (length (Config_CIPublishers c) = 0)) ||
        bool_decide (100 < length (Config_Keys c)) with err_key_count in
  let? _ := validateAccessConfig c in
  let? _ := key_hashes_loop ∅ 0 (Config_Keys c) in
  ValidateCIPublishers c.

(** ** Files

    How [atomicWrite] (store.go) ends: the new content is in place; nothing
    has changed; or the content is in place and the final sync of the
    directory failed. *)

Inductive write_outcome :=
  | Written
  | NotWritten (err : error)
  | WrittenUnsynced (err : error).

Definition atomicWrite {A} (old new : A) (outcome : write_outcome) : A * result unit :=
  match outcome with
  | Written => (new, Ok tt)
  | NotWritten err => (old, Err err)
  | WrittenUnsynced err => (new, Err err)
  end.

(** A file as [Lstat] and [ReadAll] see it: whether it is regular, its
    permission bits, its content. *)
Record private_file := mkPrivateFile {
  file_regular : bool;
  file_perm : Z;
  file_content : string;
}.

Definition private (f : private_file) : bool :=
  file_regular f && bool_decide (Z.land (file_perm f) 63 = 0%Z).

Context `{!Json Config}.

Definition err_config_file :=
  ErrMsg "hub configuration must be a regular file accessible only to its owner (0600)".
Definition err_config_size := ErrMsg "hub configuration exceeds 64 KiB".
Definition err_config_json (err : error) := ErrMsg ("invalid hub configuration: " +:+ error_text err).

(** [fail] is a failure of [Open] or [ReadAll]. *)
Definition LoadConfig (file : option private_file) (fail : option error) : result Config :=
  match file with
  | None => Err ErrNotExist
  | Some f =>
      fail? negb (private f) with err_config_file in
      match fail with
      | Some err => Err err
      | None =>
          fail? longer (file_content f) 65536 with err_config_size in
          match json_strict (file_content f) with
          | Err err => Err (err_config_json err)
          | Ok c => let? _ := Validate c in Ok c
          end
      end
  end.

(** *** Initialize *)

Definition raw_token (random : list Z) : string := "wbh_" +:+ EncodeToString random.
Definition token_hash (token : string) : string := sha256_hex token.

Definition add_default (c : Config) (permission token : string) : Config :=
  let subject := "default-" +:+ permission in
  let role := if bool_decide (permission = "write") then "editor" else "viewer" in
  mkConfig (Config_Subjects c ++ [mkSubject subject "service" false])
    (Config_Memberships c ++ [mkMembership subject "default" role])
    (Config_CIQuarantineUntil c) (Config_CIPublishers c) (Config_AuditRetentionDays c)
    (Config_Version c) (Config_RetentionDays c) (Config_MaxReportsPerWorkspace c)
    (Config_Keys c ++ [mkKey (subject +:+ "-key") subject [] None (token_hash token) "default" permission]).

Definition initial_config (readToken writeToken : string) : Config :=
  add_default (add_default (mkConfig [] [] None [] 7 2 7 500 []) "read" readToken) "write" writeToken.

(** What can go wrong: the random source for either token, the creation of
    the file, and a write, [Sync] or [Close] after which the file is removed
    again ([O_EXCL] refuses an existing file). *)
Record init_io := mkInitIO {
  init_random_read : result (list Z);
  init_random_write : result (list Z);
  init_create_fail : option error;
  init_write_fail : option error;
}.

Definition Initialize (file : option private_file) (io : init_io) :
    option private_file * result (gmap string string) :=
  match init_random_read io, init_random_write io with
  | Err err, _ => (file, Err err)
  | Ok _, Err err => (file, Err err)
  | Ok r, Ok w =>
      let '(read, write) := (raw_token r, raw_token w) in
      let content := json_encode (initial_config read write) +:+ NL in
      match file, init_create_fail io with
      | Some _, _ => (file, Err (ErrMsg "file exists"))
      | None, Some err => (file, Err err)
      | None, None =>
          match init_write_fail io with
          | Some err => (None, Err err)
          | None => (Some (mkPrivateFile true 384 content), Ok {["read" := read; "write" := write]})
          end
      end
  end.

(** *** ProvisionCredential *)

Record CredentialOptions := mkCredentialOptions {
  Options_SubjectID : string;
  Options_Kind : string;
  Options_Workspace : string;
  Options_Role : string;
  Options_ExpiresIn : Z;
}.

Definition err_provision_version := ErrMsg
  "credential provisioning requires config version 2; migrate named subjects/memberships first".
Definition err_provision_options :=
  ErrMsg "provide valid subject, kind user/service, workspace and role viewer/editor/publisher".
Definition err_provision_expiry :=
  ErrMsg "credential expiry duration must be zero (no expiry) or at most 365 days".
Definition err_provision_subject := ErrMsg "existing subject kind differs or subject is disabled".
Definition err_provision_role :=
  ErrMsg "existing membership role differs; review and edit the membership explicitly".
Definition err_provision_size := ErrMsg "updated configuration would exceed 64 KiB".

(** The two search loops: whether the subject, or the membership, is there,
    or the error for one that differs. *)
Fixpoint search_loop {A} (same differs : A → bool) (err : error) (found : bool) (l : list A) :
    result bool :=
  match l with
  | [] => Ok found
  | x :: l =>
      if same x then fail? differs x with err in search_loop same differs err true l
      else search_loop same differs err found l
  end.

Definition same_subject (options : CredentialOptions) (subject : Subject) : bool :=
  bool_decide (Subject_ID subject = Options_SubjectID options).

Definition find_subject (options : CredentialOptions) (l : list Subject) : result bool :=
  search_loop (same_subject options)
    (λ subject, negb (bool_decide (Subject_Kind subject = Options_Kind options)) || Subject_Disabled subject)
    err_provision_subject false l.

Definition same_membership (options : CredentialOptions) : Membership → bool :=
  is_member (Options_SubjectID options) (Options_Workspace options).

Definition find_membership (options : CredentialOptions) (l : list Membership) : result bool :=
  search_loop (same_membership options)
    (λ member, negb (bool_decide (Membership_Role member = Options_Role options)))
    err_provision_role false l.

Definition with_access (c : Config) (subjects : list Subject) (memberships : list Membership)
    (keys : list Key) : Config :=
  mkConfig subjects memberships (Config_CIQuarantineUntil c) (Config_CIPublishers c)
    (Config_AuditRetentionDays c) (Config_Version c) (Config_RetentionDays c)
    (Config_MaxReportsPerWorkspace c) keys.

Definition provisioned_key (options : CredentialOptions) (now : time) (token : string) (id : list Z) : Key :=
  mkKey ("key-" +:+ EncodeToString id) (Options_SubjectID options) (roleScopes (Options_Role options))
    (if bool_decide (0 < Options_ExpiresIn options)%Z then Some (now + Options_ExpiresIn options)%Z else None)
    (token_hash token) (Options_Workspace options)
    (if bool_decide (Options_Role options = "viewer") then "read" else "write").

(** The configuration computed in memory, up to its validation *)
Definition provision_config (c : Config) (options : CredentialOptions) (now : time)
    (random id : result (list Z)) : result (Config * Key * string) :=
  fail? negb (bool_decide (Config_Version c = 2%Z)) with err_provision_version in
  fail? negb (workspacePattern (Options_SubjectID options)) ||
        negb (workspacePattern (Options_Workspace options)) ||
        (negb (bool_decide (Options_Kind options = "user")) &&
         negb (bool_decide (Options_Kind options = "service"))) ||
        bool_decide (length (roleScopes (Options_Role options)) = 0) with err_provision_options in
  fail? bool_decide (Options_ExpiresIn options < 0)%Z ||
        bool_decide (365 * 24 * Hour < Options_ExpiresIn options)%Z with err_provision_expiry in
  let? found := find_subject options (Config_Subjects c) in
  let subjects := if (found : bool) then Config_Subjects c
    else Config_Subjects c ++ [mkSubject (Options_SubjectID options) (Options_Kind options) false] in
  let? found := find_membership options (Config_Memberships c) in
  let memberships := if (found : bool) then Config_Memberships c
    else Config_Memberships c ++
         [mkMembership (Options_SubjectID options) (Options_Workspace options) (Options_Role options)] in
  let? random := random in
  let token := raw_token random in
  let? id := id in
  let key := provisioned_key options now token id in
  let c' := with_access c subjects memberships (Config_Keys c ++ [key]) in
  let? _ := Validate c' in
  Ok (c', key, token).

Record provision_io := mkProvisionIO {
  prov_lock_fail : option error;
  prov_read_fail : option error;
  prov_random : result (list Z);
  prov_id : result (list Z);
  prov_now : time;
  prov_write : write_outcome;
}.

Definition ProvisionCredential (file : option private_file) (io : provision_io)
    (options : CredentialOptions) : option private_file * result (Key * string) :=
  match prov_lock_fail io with
  | Some err => (file, Err err)
  | None =>
      match LoadConfig file (prov_read_fail io) with
      | Err err => (file, Err err)
      | Ok c =>
          match provision_config c options (prov_now io) (prov_random io) (prov_id io) with
          | Err err => (file, Err err)
          | Ok (c', key, token) =>
              let b := json_encode c' in
              if longer (b +:+ NL) 65536 then (file, Err err_provision_size)
              else let '(file', written) :=
                     atomicWrite file (Some (mkPrivateFile true 384 (b +:+ NL))) (prov_write io) in
                   (file', let? _ := written in Ok (key, token))
          end
      end
  end.
End config.

(** ** Lemmas on the validation loops *)

Lemma subjects_loop_spec l : ∀ seen subjects, subjects_loop seen l = Ok subjects →
  subjects = list_to_set (Subject_ID <$> l) ∪ seen ∧ NoDup (Subject_ID <$> l) ∧
  (∀ s, s ∈ l → Subject_ID s ∉ seen).
Proof.
  induction l as [|s l IH]; intros seen subjects Hl; cbn in Hl.
  { simplify_eq. split_and!; [set_solver|constructor|set_solver]. }
  step_ok Hl. bool_prop. apply IH in Hl as (-> & Hnd & Hnew). split_and!.
  - set_solver.
  - cbn. constructor; [|done]. intros (s' & Hid & Hs')%list_elem_of_fmap.
    specialize (Hnew s' Hs'). set_solver.
  - intros s' [->|Hs']%elem_of_cons; [done|]. specialize (Hnew s' Hs'). set_solver.
Qed.

Lemma memberships_loop_spec subjects l : ∀ seen memberships,
  memberships_loop subjects seen l = Ok memberships →
  memberships = list_to_set ((λ m, member_key (Membership_SubjectID m) (Membership_Workspace m)) <$> l) ∪ seen ∧
  Forall (λ m, Membership_SubjectID m ∈ subjects ∧ workspacePattern (Membership_Workspace m) = true ∧
               roleScopes (Membership_Role m) ≠ []) l.
Proof.
  induction l as [|m l IH]; intros seen memberships Hl; cbn in Hl.
  { simplify_eq. split; [set_solver|constructor]. }
  step_ok Hl. bool_prop. apply IH in Hl as (-> & Hall). split; [set_solver|].
  constructor; [|done]. split_and!; [done|done|]. intros Hr. by rewrite Hr in *.
Qed.

Lemma within_role_spec c key scopes : within_role_loop c key scopes = Ok tt →
  scopes ⊆ membershipScopes c (Key_SubjectID key) (Key_Workspace key).
Proof.
  induction scopes as [|s l IH]; cbn; intros Hl; [set_solver|].
  step_ok Hl. bool_prop. specialize (IH Hl). set_solver.
Qed.

(** What a validated credential of version 2 satisfies *)
Definition credential_ok (c : Config) (subjects memberships : gset string) (key : Key) : Prop :=
  Key_SubjectID key ∈ subjects ∧
  member_key (Key_SubjectID key) (Key_Workspace key) ∈ memberships ∧
  keyScopes key ⊆ membershipScopes c (Key_SubjectID key) (Key_Workspace key).

Lemma credentials_loop_spec c subjects memberships l : Config_Version c ≠ 1%Z → ∀ ids,
  credentials_loop c subjects memberships ids l = Ok tt →
  Forall (credential_ok c subjects memberships) l.
Proof.
  intros Hv. induction l as [|key l IH]; intros ids Hl; cbn in Hl; [constructor|].
  rewrite bool_decide_eq_false_2 in Hl by done.
  do 3 step_ok Hl. destruct (scopes_loop _ _); [|done]. cbn [rbind] in Hl.
  destruct (within_role_loop _ _ _) as [[]|] eqn:Hw; [|done]. cbn [rbind] in Hl.
  bool_prop. constructor; [|by eapply IH]. unfold credential_ok.
  split_and!; [done|done|]. by apply within_role_spec.
Qed.

Lemma Validate_inv `{!Urls} c : Validate c = Ok tt →
  validateAccessConfig c = Ok tt ∧ (Config_Version c = 1 ∨ Config_Version c = 2)%Z.
Proof.
  unfold Validate. intros Hv. do 4 step_ok Hv.
  destruct (validateAccessConfig c) as [[]|]; [|done]. split; [done|].
  destruct (decide (Config_Version c = 1%Z)); [by left|right]. bool_prop. tauto.
Qed.

(** A validated configuration of version 2: unique subjects, memberships of
    known subjects, credentials within the role of their membership. *)
Lemma validateAccess_inv c : validateAccessConfig c = Ok tt → Config_Version c ≠ 1%Z →
  ∃ subjects memberships,
    subjects = list_to_set (Subject_ID <$> Config_Subjects c) ∧ NoDup (Subject_ID <$> Config_Subjects c) ∧
    memberships = list_to_set ((λ m, member_key (Membership_SubjectID m) (Membership_Workspace m)) <$>
                               Config_Memberships c) ∧
    Forall (λ m, Membership_SubjectID m ∈ subjects ∧ workspacePattern (Membership_Workspace m) = true ∧
                 roleScopes (Membership_Role m) ≠ []) (Config_Memberships c) ∧
    Forall (credential_ok c subjects memberships) (Config_Keys c).
Proof.
  unfold validateAccessConfig. intros Hv Hver. do 4 step_ok Hv.
  destruct (subjects_loop ∅ _) as [subjects|] eqn:Hs; [|done]. cbn [rbind] in Hv.
  destruct (memberships_loop subjects ∅ _) as [memberships|] eqn:Hm; [|done]. cbn [rbind] in Hv.
  apply subjects_loop_spec in Hs as (Hs & Hnd & _). apply memberships_loop_spec in Hm as (Hm & Hall).
  apply credentials_loop_spec in Hv; [|done].
  exists subjects, memberships. split_and!; try done; set_solver.
Qed.

Lemma is_member_true subject workspace m : is_member subject workspace m = true ↔
  Membership_SubjectID m = subject ∧ Membership_Workspace m = workspace.
Proof. unfold is_member. by rewrite andb_true_iff, !bool_decide_eq_true. Qed.

Lemma membershipScopes_elem c subject workspace scope : scope ∈ membershipScopes c subject workspace →
  ∃ m, m ∈ Config_Memberships c ∧ is_member subject workspace m = true ∧
       scope ∈ roleScopes (Membership_Role m).
Proof.
  unfold membershipScopes. destruct (list_find _ _) as [[i m]|] eqn:Hf; [|set_solver].
  apply list_find_Some in Hf as (Hi & Hm & _). intros Hs. exists m. split_and!; [|done|done].
  by eapply list_elem_of_lookup_2.
Qed.

Lemma keyScopes_nonempty key : keyScopes key ≠ [].
Proof.
  unfold keyScopes. destruct (Key_Scopes key); [|done]. cbn.
  by destruct (bool_decide (Key_Permission key = "write")).
Qed.

Lemma principalForKey_inv c key now p : principalForKey c key now = Some p →
  key_expired key now = false ∧ Principal_Workspace p = Key_Workspace key ∧
  Principal_Scopes p = keyScopes key ∧
  (Config_Version c ≠ 1%Z → ∃ s, s ∈ Config_Subjects c ∧ Subject_ID s = Key_SubjectID key ∧
     Subject_Disabled s = false ∧ Principal_SubjectID p = Subject_ID s ∧ Principal_Kind p = Subject_Kind s ∧
     Principal_CredentialID p = Key_ID key).
Proof.
  unfold principalForKey. case_bool_decide; [done|]. destruct (key_expired key now); [done|].
  case_bool_decide; [intros [= <-]; by split_and!|].
  destruct (list_find _ _) as [[i s]|] eqn:Hf; [|done]. intros [= <-]. split_and!; try done.
  intros _. apply list_find_Some in Hf as (Hi & Hs & _). unfold active_subject in Hs. bool_prop.
  exists s. split_and!; try done. by eapply list_elem_of_lookup_2.
Qed.

(** A validated configuration of version 1 has neither subjects nor
    memberships, and its credentials have no scopes of their own. *)
Lemma credentials_loop_v1 c subjects memberships l : Config_Version c = 1%Z → ∀ ids,
  credentials_loop c subjects memberships ids l = Ok tt → Forall (λ key, Key_Scopes key = []) l.
Proof.
  intros Hv. induction l as [|key l IH]; intros ids Hl; cbn in Hl; [constructor|].
  rewrite bool_decide_eq_true_2 in Hl by done. step_ok Hl. bool_prop.
  constructor; [|by eapply IH]. destruct (Key_Scopes key); [done|cbn in *; lia].
Qed.

Lemma validateAccess_v1 c : validateAccessConfig c = Ok tt → Config_Version c = 1%Z →
  Config_Subjects c = [] ∧ Config_Memberships c = [] ∧ Forall (λ key, Key_Scopes key = []) (Config_Keys c).
Proof.
  unfold validateAccessConfig. intros Hv Hver. do 4 step_ok Hv.
  destruct (subjects_loop ∅ _) as [subjects|]; [|done]. cbn [rbind] in Hv.
  destruct (memberships_loop subjects ∅ _) as [memberships|]; [|done]. cbn [rbind] in Hv.
  apply credentials_loop_v1 in Hv; [|done]. bool_prop.
  destruct (Config_Subjects c), (Config_Memberships c); cbn in *; try (exfalso; intuition lia). done.
Qed.

(** The role that a principal has, as the hub answers it: the first membership
    of its subject in its workspace *)
Lemma principalRole_scopes c p : Config_Version c ≠ 1%Z →
  roleScopes (principalRole c p) = membershipScopes c (Principal_SubjectID p) (Principal_Workspace p).
Proof.
  intros Hv. unfold principalRole, membershipScopes. rewrite bool_decide_eq_false_2 by done.
  by destruct (list_find _ _) as [[i m]|].
Qed.

Lemma legacy_role key : Key_Scopes key = [] →
  ∃ role, keyScopes key = roleScopes role ∧ role = (if bool_decide (Key_Permission key = "write") then "editor" else "viewer") ∧
    (if bool_decide ("reports:write" ∈ keyScopes key) then "editor" else "viewer") = role.
Proof.
  intros Hs. eexists. split_and!; [|reflexivity|].
  all: assert (keyScopes key = if bool_decide (Key_Permission key = "write") then roleScopes "editor" else roleScopes "viewer") as ->
    by (unfold keyScopes; by rewrite Hs).
  all: destruct (bool_decide (Key_Permission key = "write")); reflexivity.
Qed.

(** C19: a credential of a validated configuration never gives more than its
    role.  In both versions the principal it yields acts in the credential's own
    workspace, the credential has not expired, and every scope is one of the
    role that the hub reports for that principal.  In version 2 the principal
    is an enabled subject of the configuration, and the role is that of a
    membership of this subject in this workspace.  In version 1, which has
    no subjects and no memberships, the principal is a legacy service, and the
    role is editor for a credential with permission write and viewer for any
    other. *)
Theorem principal_within_role `{!Urls} c key now p
    (Hvalid : Validate c = Ok tt) (Hkey : key ∈ Config_Keys c) (Hp : principalForKey c key now = Some p) :
  Principal_Workspace p = Key_Workspace key ∧
  (∀ expires, Key_ExpiresAt key = Some expires → (now < expires)%Z) ∧
  Principal_Scopes p ≠ [] ∧
  (∀ scope, scope ∈ Principal_Scopes p → scope ∈ roleScopes (principalRole c p)) ∧
  ((Config_Version c = 2%Z ∧
    (∃ subject, subject ∈ Config_Subjects c ∧ Subject_ID subject = Principal_SubjectID p ∧
       Subject_Disabled subject = false ∧ Subject_Kind subject = Principal_Kind p) ∧
    ∃ member, member ∈ Config_Memberships c ∧
      Membership_SubjectID member = Principal_SubjectID p ∧
      Membership_Workspace member = Principal_Workspace p ∧ Membership_Role member = principalRole c p) ∨
   (Config_Version c = 1%Z ∧ Config_Subjects c = [] ∧ Config_Memberships c = [] ∧
    Principal_Kind p = "legacy-service" ∧
    principalRole c p = if bool_decide (Key_Permission key = "write") then "editor" else "viewer")).
Proof.
  pose proof (principalForKey_inv _ _ _ _ Hp) as (Hexp & Hw & Hs & Hsub).
  apply Validate_inv in Hvalid as [Hacc Hver].
  split; [done|]. split.
  { intros expires He. unfold key_expired, Before in Hexp. rewrite He in Hexp. bool_prop. done. }
  split; [rewrite Hs; apply keyScopes_nonempty|].
  destruct Hver as [Hv|Hv].
  - apply validateAccess_v1 in Hacc as (Hs0 & Hm0 & Hall); [|done]. rewrite Forall_forall in Hall.
    destruct (legacy_role key (Hall key Hkey)) as (role & Hscopes & Hrole & Hlegacy).
    assert (principalRole c p = role) as Hr.
    { unfold principalRole. rewrite bool_decide_eq_true_2 by done. by rewrite Hs. }
    split; [intros scope; by rewrite Hs, Hscopes, Hr|]. right. split_and!; [done..| |by rewrite Hr].
    revert Hp. unfold principalForKey. rewrite Hexp, (bool_decide_eq_true_2 (Config_Version c = 1%Z)) by done.
    destruct (bool_decide (Key_TokenSHA256 key = "")); [done|]. by intros [= <-].
  - destruct Hsub as (s & Hin & Hid & Hen & Hsid & Hkind & _); [lia|].
    apply validateAccess_inv in Hacc as (S & M & _ & _ & _ & _ & Hall); [|lia].
    rewrite Forall_forall in Hall. destruct (Hall key Hkey) as (_ & _ & Hsc).
    assert (∀ scope, scope ∈ Principal_Scopes p → scope ∈ roleScopes (principalRole c p)) as Hwithin.
    { intros scope Hscope. rewrite principalRole_scopes by lia. rewrite Hs in Hscope. rewrite Hsid, Hid, Hw. by apply Hsc. }
    split; [done|]. left. split_and!; [done|exists s; split_and!; congruence|].
    unfold principalRole in *. rewrite (bool_decide_eq_false_2 (Config_Version c = 1%Z)) in * by lia.
    destruct (list_find _ _) as [[i m]|] eqn:Hf.
    + apply list_find_Some in Hf as (Hi & [Hm1 Hm2]%is_member_true & _). exists m.
      split_and!; try done. by eapply list_elem_of_lookup_2.
    + exfalso. pose proof (keyScopes_nonempty key) as Hne. rewrite <-Hs in Hne.
      destruct (Principal_Scopes p) as [|scope l]; [done|]. specialize (Hwithin scope (list_elem_of_here _ _)).
      by apply elem_of_nil in Hwithin.
Qed.

(** ** Provisioning *)

(** What the search and the append that follows it leave: a list in which
    every matching element agrees with [x], with at least one of them, and in
    which nothing was added that matches an element already there. *)
Lemma search_loop_spec {A} (same differs : A → bool) err l : ∀ found0 found,
  search_loop same differs err found0 l = Ok found →
  Forall (λ y, same y = true → differs y = false) l ∧ found = found0 || existsb same l.
Proof.
  induction l as [|y l IH]; intros found0 found Hf; cbn in Hf.
  { simplify_eq. by rewrite orb_false_r. }
  destruct (same y) eqn:E.
  - step_ok Hf. apply IH in Hf as [Hall ->]. split; [by constructor|]. cbn. by rewrite E, orb_true_r.
  - apply IH in Hf as [Hall ->]. cbn. rewrite E. split; [|done]. constructor; [congruence|done].
Qed.

Lemma search_append {A} (same differs : A → bool) err l x found :
  same x = true → differs x = false → search_loop same differs err false l = Ok found →
  let l' := if found then l else l ++ [x] in
  Forall (λ y, same y = true → differs y = false) l' ∧ Exists (λ y, same y = true) l' ∧
  (l' = l ∨ l' = l ++ [x] ∧ Forall (λ y, same y = false) l).
Proof.
  intros Hx Hd [Hall Hfound]%search_loop_spec. cbn in Hfound. subst found. cbn zeta.
  destruct (existsb same l) eqn:E.
  - split_and!; [done| |by left]. apply existsb_exists in E as (y & Hy & Hs).
    apply Exists_exists. exists y. split; [by apply list_elem_of_In|done].
  - split_and!.
    + apply Forall_app. split; [done|]. by repeat constructor.
    + apply Exists_app. right. by constructor.
    + right. split; [done|]. apply Forall_forall. intros y Hy. apply not_true_is_false. intros Hs.
      assert (existsb same l = true) as E'; [|congruence].
      apply existsb_exists. exists y. split; [by apply list_elem_of_In|done].
Qed.

Section provisioning.
Context `{!Urls}.

Definition appended {A} (same : A → bool) (x : A) (l l' : list A) : Prop :=
  l' = l ∨ l' = l ++ [x] ∧ Forall (λ y, same y = false) l.

Lemma provision_config_inv c options now random id c' key token :
  provision_config c options now random id = Ok (c', key, token) →
  Config_Version c = 2%Z ∧ roleScopes (Options_Role options) ≠ [] ∧
  Validate c' = Ok tt ∧
  ∃ subjects memberships idb,
    c' = with_access c subjects memberships (Config_Keys c ++ [key]) ∧
    key = provisioned_key options now token idb ∧
    Forall (λ s, same_subject options s = true →
      Subject_Kind s = Options_Kind options ∧ Subject_Disabled s = false) subjects ∧
    Exists (λ s, same_subject options s = true) subjects ∧
    appended (same_subject options) (mkSubject (Options_SubjectID options) (Options_Kind options) false)
      (Config_Subjects c) subjects ∧
    Forall (λ m, same_membership options m = true → Membership_Role m = Options_Role options) memberships ∧
    Exists (λ m, same_membership options m = true) memberships ∧
    appended (same_membership options)
      (mkMembership (Options_SubjectID options) (Options_Workspace options) (Options_Role options))
      (Config_Memberships c) memberships.
Proof.
  unfold provision_config. intros Hp. do 3 step_ok Hp.
  destruct (find_subject options _) as [fs|] eqn:Hfs; [|done]. cbn [rbind] in Hp.
  destruct (find_membership options _) as [fm|] eqn:Hfm; [|done]. cbn [rbind] in Hp.
  destruct random as [rb|]; [|done]. destruct id as [idb|]; [|done]. cbn [rbind] in Hp.
  destruct (Validate _) as [[]|] eqn:Hv; [|done]. cbn [rbind] in Hp.
  eapply (search_append _ _ _ _ (mkSubject (Options_SubjectID options) (Options_Kind options) false))
    in Hfs as (Hs1 & Hs2 & Hs3).
  2: by apply bool_decide_eq_true_2.
  2: by cbn beta; rewrite bool_decide_eq_true_2.
  eapply (search_append _ _ _ _
    (mkMembership (Options_SubjectID options) (Options_Workspace options) (Options_Role options)))
    in Hfm as (Hm1 & Hm2 & Hm3).
  2: unfold same_membership; by apply is_member_true.
  2: by cbn beta; rewrite bool_decide_eq_true_2.
  injection Hp as <- <- <-. bool_prop. split_and!; [done| |done|].
  { intros Hr. by rewrite Hr in *. }
  eexists _, _, idb. split_and!; try done.
  - eapply Forall_impl; [exact Hs1|]. intros s Hs Hsame. specialize (Hs Hsame). by bool_prop.
  - eapply Forall_impl; [exact Hm1|]. intros m Hm Hsame. specialize (Hm Hsame). by bool_prop.
Qed.

(** Appending a membership does not change what a pair that has one may do. *)
Lemma membershipScopes_append c c' subject workspace x same :
  appended same x (Config_Memberships c) (Config_Memberships c') →
  membershipScopes c subject workspace ≠ [] →
  membershipScopes c' subject workspace = membershipScopes c subject workspace.
Proof.
  unfold membershipScopes. intros [->|[-> _]] Hne; [done|].
  destruct (list_find _ (Config_Memberships c)) as [[i m]|] eqn:Hf; [|done].
  by rewrite (list_find_app_l _ _ _ _ _ Hf).
Qed.

Lemma principal_append options c c' key now x :
  Config_Version c = 2%Z → Config_Version c' = 2%Z →
  membershipScopes c (Key_SubjectID key) (Key_Workspace key) ≠ [] →
  membershipScopes c' (Key_SubjectID key) (Key_Workspace key) =
    membershipScopes c (Key_SubjectID key) (Key_Workspace key) →
  (∃ s, s ∈ Config_Subjects c ∧ Subject_ID s = Key_SubjectID key) →
  appended (same_subject options) x (Config_Subjects c) (Config_Subjects c') →
  Subject_ID x = Options_SubjectID options →
  principalForKey c' key now = principalForKey c key now.
Proof.
  intros Hv Hv' Hne Heq (s0 & Hs0 & Hid0) Happ Hx. unfold principalForKey. rewrite Hv, Hv'.
  assert (∀ s, active_subject c' key s = active_subject c key s) as Hact.
  { intros s. unfold active_subject. case_bool_decide as Hs; [|done]. by rewrite Hs, Heq. }
  assert (list_find (λ s, active_subject c' key s = true) (Config_Subjects c') =
          list_find (λ s, active_subject c key s = true) (Config_Subjects c)) as ->; [|done].
  rewrite (list_find_ext _ (λ s, active_subject c key s = true)); [|intros s; by rewrite Hact].
  destruct Happ as [->|[-> Hno]]; [done|].
  destruct (list_find _ (Config_Subjects c)) as [[i s]|] eqn:Hf.
  { by rewrite (list_find_app_l _ _ _ _ _ Hf). }
  rewrite list_find_app_None. split; [done|]. apply list_find_None. repeat constructor.
  unfold active_subject. rewrite Forall_forall in Hno. specialize (Hno s0 Hs0).
  unfold same_subject in Hno. intros Ht. bool_prop. congruence.
Qed.

Lemma provisioned_key_usable options now token idb :
  key_expired (provisioned_key options now token idb) now = false ∧
  Key_TokenSHA256 (provisioned_key options now token idb) ≠ "".
Proof.
  split.
  - unfold key_expired, Before. cbn. case_bool_decide as Hpos; [|done].
    apply negb_false_iff, bool_decide_eq_true_2. lia.
  - cbn -[token_hash]. intros He. assert (String.length (token_hash token) = 0) as Hl by by rewrite He.
    unfold token_hash in Hl. by rewrite sha256_hex_length in Hl.
Qed.

Lemma provisioned_principal c' options key now :
  Config_Version c' = 2%Z → key_expired key now = false → Key_TokenSHA256 key ≠ "" →
  Key_SubjectID key = Options_SubjectID options → Key_Workspace key = Options_Workspace options →
  Key_Scopes key = roleScopes (Options_Role options) → roleScopes (Options_Role options) ≠ [] →
  Forall (λ s, same_subject options s = true →
      Subject_Kind s = Options_Kind options ∧ Subject_Disabled s = false) (Config_Subjects c') →
  Exists (λ s, same_subject options s = true) (Config_Subjects c') →
  Forall (λ m, same_membership options m = true → Membership_Role m = Options_Role options)
    (Config_Memberships c') →
  Exists (λ m, same_membership options m = true) (Config_Memberships c') →
  principalForKey c' key now =
    Some (mkPrincipal (Options_SubjectID options) (Options_Kind options) (Options_Workspace options)
            (Key_ID key) (roleScopes (Options_Role options))).
Proof.
  intros Hv Hexp Hhash Hks Hkw Hksc Hrole Hsub Hex Hmem Hmex.
  rewrite Forall_forall in Hsub. rewrite Forall_forall in Hmem.
  assert (membershipScopes c' (Options_SubjectID options) (Options_Workspace options) =
          roleScopes (Options_Role options)) as Hms.
  { unfold membershipScopes. apply Exists_exists in Hmex as (m & Hm & Hsame).
    edestruct (list_find_elem_of (λ m, is_member (Options_SubjectID options) (Options_Workspace options) m
      = true) _ m Hm Hsame) as [[i m'] Hf]. rewrite Hf.
    apply list_find_Some in Hf as (Hi & Hm' & _).
    by rewrite (Hmem m') by (done || by eapply list_elem_of_lookup_2). }
  unfold principalForKey. rewrite bool_decide_eq_false_2, Hexp, bool_decide_eq_false_2 by (done || lia).
  apply Exists_exists in Hex as (s & Hs & Hsame).
  edestruct (list_find_elem_of (λ s, active_subject c' key s = true) _ s Hs) as [[i s'] Hf].
  { unfold active_subject. destruct (Hsub s Hs Hsame) as [_ Hen]. unfold same_subject in Hsame.
    apply bool_decide_eq_true in Hsame. rewrite Hsame, Hks, Hkw, Hms, Hen, !bool_decide_eq_true_2; try done.
    destruct (roleScopes _); cbn; [done|lia]. }
  rewrite Hf. apply list_find_Some in Hf as (Hi & Hact & _).
  unfold active_subject in Hact. rewrite !andb_true_iff, !bool_decide_eq_true in Hact.
  destruct Hact as [[Hid _] _]. destruct (Hsub s') as [Hk _].
  { by eapply list_elem_of_lookup_2. } { apply bool_decide_eq_true_2. congruence. }
  rewrite Hid, Hks, Hk, Hkw. do 2 f_equal. unfold keyScopes. rewrite Hksc.
  by destruct (roleScopes (Options_Role options)).
Qed.
End provisioning.

Lemma LoadConfig_valid `{!Urls, !Json Config} file fail c : LoadConfig file fail = Ok c →
  Validate c = Ok tt ∧ ∃ f, file = Some f ∧ private f = true.
Proof.
  unfold LoadConfig. destruct file as [f|]; [|done]. intros Hl. step_ok Hl. destruct fail; [done|]. step_ok Hl.
  destruct (json_strict _) as [c'|]; [|done]. destruct (Validate c') as [[]|] eqn:Hv; [|done]. cbn in Hl. injection Hl as <-.
  split; [done|]. exists f. split; [done|]. by apply negb_false_iff.
Qed.

(** What the new configuration makes of the credentials *)
Lemma provisioned_principals `{!Urls} c options now random id c' key token : Validate c = Ok tt →
  provision_config c options now random id = Ok (c', key, token) →
  Validate c' = Ok tt ∧ Config_Keys c' = Config_Keys c ++ [key] ∧ Key_TokenSHA256 key = token_hash token ∧
  key_expired key now = false ∧
  (∀ old at_, old ∈ Config_Keys c → principalForKey c' old at_ = principalForKey c old at_) ∧
  (∀ at_, key_expired key at_ = false → principalForKey c' key at_ =
      Some (mkPrincipal (Options_SubjectID options) (Options_Kind options) (Options_Workspace options)
              (Key_ID key) (roleScopes (Options_Role options)))).
Proof.
  intros Hc (Hv & Hrole & Hvalid & subs & mems & idb & -> & -> & H1 & H2 & H3 & H4 & H5 & H6)%provision_config_inv.
  split_and!; [done|done|done|apply provisioned_key_usable| |].
  - intros old at_ Hold. apply Validate_inv in Hc as [Hc _].
    apply validateAccess_inv in Hc as (S & M & -> & _ & _ & _ & Hall); [|lia].
    rewrite Forall_forall in Hall. destruct (Hall old Hold) as (Hs & _ & Hsc).
    assert (membershipScopes c (Key_SubjectID old) (Key_Workspace old) ≠ []) as Hne.
    { intros He. rewrite He in Hsc. by apply (keyScopes_nonempty old), list_nil_subseteq. }
    eapply (principal_append options); try done.
    + by eapply membershipScopes_append.
    + apply elem_of_list_to_set, list_elem_of_fmap in Hs as (s & Hid & Hs). eauto.
  - intros at_ Hexp. apply provisioned_principal; try done; apply (provisioned_key_usable options now).
Qed.

(** A run that succeeds *)
Lemma ProvisionCredential_inv `{!Urls, !Json Config} file io options file' key token :
  ProvisionCredential file io options = (file', Ok (key, token)) →
  ∃ c c', LoadConfig file (prov_read_fail io) = Ok c ∧
    provision_config c options (prov_now io) (prov_random io) (prov_id io) = Ok (c', key, token) ∧
    file' = Some (mkPrivateFile true 384 (json_encode c' +:+ NL)) ∧ longer (json_encode c' +:+ NL) 65536 = false.
Proof.
  unfold ProvisionCredential. intros Hrun. destruct (prov_lock_fail io); [done|].
  destruct (LoadConfig _ _) as [c|] eqn:Hl; [|done]. destruct (provision_config _ _ _ _ _) as [[[c' key'] token']|] eqn:Hp; [|done].
  destruct (longer _ _) eqn:Hlong; [done|]. destruct (prov_write io); try done. injection Hrun as <- <- <-. by exists c, c'.
Qed.

(** provisioning a credential changes nothing else.  When the operation
    succeeds the file holds a valid configuration in which every earlier
    credential yields exactly the principal it yielded before, at any time,
    and the new credential, filed under the hash of the returned token,
    yields the requested subject, workspace and role. *)
Theorem ProvisionCredential_spec `{!Urls, !Json Config} file io options c file' key token
    (Hload : LoadConfig file (prov_read_fail io) = Ok c)
    (Hrun : ProvisionCredential file io options = (file', Ok (key, token))) :
  ∃ c', file' = Some (mkPrivateFile true 384 (json_encode c' +:+ NL)) ∧ Validate c' = Ok tt ∧
    Config_Keys c' = Config_Keys c ++ [key] ∧ Key_TokenSHA256 key = token_hash token ∧
    (∀ old now, old ∈ Config_Keys c → principalForKey c' old now = principalForKey c old now) ∧
    principalForKey c' key (prov_now io) =
      Some (mkPrincipal (Options_SubjectID options) (Options_Kind options) (Options_Workspace options)
              (Key_ID key) (roleScopes (Options_Role options))).
Proof.
  apply ProvisionCredential_inv in Hrun as (c0 & c' & Hl & Hp & -> & _). rewrite Hload in Hl. injection Hl as <-.
  apply LoadConfig_valid in Hload as [Hc _].
  destruct (provisioned_principals _ _ _ _ _ _ _ _ Hc Hp) as (? & ? & ? & ? & ? & Hprincipal).
  eexists. split_and!; [done..|]. by apply Hprincipal.
Qed.

(** ** Initialization *)

Lemma key_hashes_two i (h1 h2 : string) k1 k2 :
  digest_text h1 = true → digest_text h2 = true → h1 ≠ h2 →
  Key_TokenSHA256 k1 = h1 → Key_TokenSHA256 k2 = h2 →
  workspacePattern (Key_Workspace k1) = true → workspacePattern (Key_Workspace k2) = true →
  Key_Permission k1 = "read" → Key_Permission k2 = "write" →
  key_hashes_loop ∅ i [k1; k2] = Ok tt.
Proof.
  intros Hd1 Hd2 Hne Hk1 Hk2 Hw1 Hw2 Hp1 Hp2. cbn [key_hashes_loop].
  rewrite Hk1, Hk2, Hd1, Hd2, Hw1, Hw2, Hp1, Hp2.
  rewrite (bool_decide_eq_false_2 (h1 ∈ ∅)), (bool_decide_eq_false_2 (h2 ∈ _)) by set_solver. done.
Qed.

Lemma initial_config_valid `{!Urls} read write : token_hash read ≠ token_hash write →
  Validate (initial_config read write) = Ok tt.
Proof.
  intros Hne.
  assert (digest_text (token_hash read) = true ∧ digest_text (token_hash write) = true) as [Hr Hw]
    by (split; apply digest_text_sha256).
  unfold initial_config, add_default. revert Hne Hr Hw.
  generalize (token_hash read) (token_hash write). intros h1 h2 Hne Hr Hw.
  unfold Validate.
  match goal with |- context [validateAccessConfig ?c] =>
    assert (validateAccessConfig c = Ok tt) as -> by (vm_compute; reflexivity) end.
  cbn [rbind Config_Keys app]. erewrite (key_hashes_two 0 h1 h2); done.
Qed.

(** the initial configuration is valid.  [Initialize] never touches an
    existing file; when it succeeds the file holds the configuration for the
    two returned tokens, which passes [Validate] unless the two random tokens
    have the same hash, and a later [LoadConfig] of what was written is not
    refused for its type or permissions. *)
Theorem Initialize_valid `{!Urls, !Json Config} file io :
  (is_Some file → (Initialize file io).1 = file) ∧
  (∀ tokens, (Initialize file io).2 = Ok tokens → ∃ read write content,
     tokens = {["read" := read; "write" := write]} ∧
     (Initialize file io).1 = Some content ∧ private content = true ∧
     file_content content = json_encode (initial_config read write) +:+ NL ∧
     (token_hash read = token_hash write ∨ Validate (initial_config read write) = Ok tt)).
Proof.
  unfold Initialize. destruct (init_random_read io) as [r|], (init_random_write io) as [w|];
    try (by split; [|intros ? [=]]).
  destruct file, (init_create_fail io), (init_write_fail io); try (by split; [|intros ? [=]]).
  split; [by intros [? [=]]|].
  intros tokens [= <-]. eexists (raw_token r), (raw_token w), _. split_and!; [done|done|done|done|].
  destruct (decide (token_hash (raw_token r) = token_hash (raw_token w))) as [|Hne]; [by left|right].
  by apply initial_config_valid.
Qed.

(** ** Witnesses *)

Definition demo_config : Config := initial_config "wbh_read" "wbh_write".
Definition demo_json : Json Config := single_json demo_config.
Definition demo_file : option private_file := Some (mkPrivateFile true 384 "{}").
Definition demo_options : CredentialOptions := mkCredentialOptions "alice" "user" "team" "viewer" Hour.
Definition demo_io : provision_io := mkProvisionIO None None (Ok [1; 2; 3]%Z) (Ok [7]%Z) 1000 Written.
Definition demo_key : Key := provisioned_key demo_options 1000 (raw_token [1; 2; 3]%Z) [7]%Z.
Definition demo_writer : Key := default zero_key (last (Config_Keys demo_config)).

Lemma principal_within_role_witness :
  let p := mkPrincipal "default-write" "service" "default" "default-write-key" (roleScopes "editor") in
  Principal_Workspace p = Key_Workspace demo_writer ∧
  (∀ expires, Key_ExpiresAt demo_writer = Some expires → (5 < expires)%Z) ∧
  Principal_Scopes p ≠ [] ∧
  (∀ scope, scope ∈ Principal_Scopes p → scope ∈ roleScopes (principalRole demo_config p)) ∧
  ((Config_Version demo_config = 2%Z ∧
    (∃ subject, subject ∈ Config_Subjects demo_config ∧ Subject_ID subject = Principal_SubjectID p ∧
       Subject_Disabled subject = false ∧ Subject_Kind subject = Principal_Kind p) ∧
    ∃ member, member ∈ Config_Memberships demo_config ∧
      Membership_SubjectID member = Principal_SubjectID p ∧
      Membership_Workspace member = Principal_Workspace p ∧ Membership_Role member = principalRole demo_config p) ∨
   (Config_Version demo_config = 1%Z ∧ Config_Subjects demo_config = [] ∧ Config_Memberships demo_config = [] ∧
    Principal_Kind p = "legacy-service" ∧
    principalRole demo_config p = if bool_decide (Key_Permission demo_writer = "write") then "editor" else "viewer")).
Proof.
  intros p. apply (@principal_within_role simple_urls demo_config demo_writer 5 p).
  - apply initial_config_valid. vm_compute. discriminate.
  - right. left.
  - vm_compute. reflexivity.
Defined.

(** A credential of a version 1 configuration *)
Definition legacy_config : Config :=
  mkConfig [] [] None [] 0 1 30 100 [mkKey "" "" [] None (token_hash "wbh_old") "default" "write"].

Example legacy_valid : @Validate simple_urls legacy_config = Ok tt ∧
  match Config_Keys legacy_config with
  | key :: _ => option_map Principal_Scopes (principalForKey legacy_config key 5)
  | [] => None
  end = Some (roleScopes "editor").
Proof. split; vm_compute; reflexivity. Qed.

Lemma ProvisionCredential_spec_witness :
  ∃ c', Some (mkPrivateFile true 384 ("{}" +:+ NL)) =
      Some (mkPrivateFile true 384 (@json_encode _ demo_json c' +:+ NL)) ∧
    @Validate simple_urls c' = Ok tt ∧
    Config_Keys c' = Config_Keys demo_config ++ [demo_key] ∧
    Key_TokenSHA256 demo_key = token_hash (raw_token [1; 2; 3]%Z) ∧
    (∀ old now, old ∈ Config_Keys demo_config →
       principalForKey c' old now = principalForKey demo_config old now) ∧
    principalForKey c' demo_key (prov_now demo_io) =
      Some (mkPrincipal (Options_SubjectID demo_options) (Options_Kind demo_options)
              (Options_Workspace demo_options) (Key_ID demo_key) (roleScopes (Options_Role demo_options))).
Proof.
  apply (@ProvisionCredential_spec simple_urls demo_json demo_file demo_io demo_options demo_config
    (Some (mkPrivateFile true 384 ("{}" +:+ NL))) demo_key (raw_token [1; 2; 3]%Z)).
  - vm_compute. reflexivity.
  - vm_compute. reflexivity.
Defined.
