(* ===== verification/HubStore.v ===== *)
(** * HubStore: the reports of the team hub

    Models [src/internal/hub/report.go], [store.go] and the publisher identity
    of [oidc.go]: the checks on a submitted summary and the store that keeps
    one private directory of report files per workspace.  The operations run
    under the store's mutex, so each is a function from the directory tree to
    the directory tree and a result; the outcome of every file operation and
    every reading of the clock is an input ([store_io]). *)

From S2P Require Import Prelude Sha256 Json Text HubConfig.

(** ** Submissions *)

Record Submission := mkSubmission {
  Submission_Repository : string;
  Submission_CheckName : string;
  Submission_CommitSHA : string;
  Submission_RunURL : string;
  Submission_Status : string;
  Submission_Finding : string;
  Submission_Tested : string;
  Submission_NextStep : string;
  Submission_Experiments : Z;
  Submission_AnalysisID : string;
}.

Record PublisherIdentity := mkPublisherIdentity {
  Identity_Provider : string;
  Identity_SubjectID : string;
  Identity_RepositoryID : string;
  Identity_RepositoryOwnerID : string;
  Identity_WorkflowRef : string;
  Identity_Ref : string;
  Identity_RunID : string;
  Identity_RunAttempt : string;
}.

Record Report := mkReport {
  Report_ID : string;
  Report_CreatedAt : time;
  Report_Publisher : option PublisherIdentity;
  Report_Submission : Submission;
}.

#[export] Instance Submission_eq_dec : EqDecision Submission.
Proof. solve_decision. Defined.
#[export] Instance PublisherIdentity_eq_dec : EqDecision PublisherIdentity.
Proof. solve_decision. Defined.
#[export] Instance Report_eq_dec : EqDecision Report.
Proof. solve_decision. Defined.

Definition err_repository :=
  ErrMsg "repository must be an owner/name identifier (maximum 200 bytes)".
Definition err_field (name : string) (max : nat) :=
  ErrMsg (name +:+ " must contain valid text within " +:+ show_nat max +:+ " bytes").
Definition err_control (name : string) := ErrMsg (name +:+ " contains a control character").
Definition err_commit := ErrMsg "commit_sha must contain 40 or 64 hexadecimal characters".
Definition err_experiments := ErrMsg "experiments must be between 0 and 1000000".
Definition err_status := ErrMsg "status must be PROVEN, SUPPORTED, CORRELATED or UNPROVEN".
Definition err_run_url := ErrMsg
  "run_url must be an HTTPS github.com Actions run URL for the same repository, without query or fragment".
Definition err_identity := ErrMsg "invalid stored publisher identity".

Record text_field := mkField {
  field_name : string;
  field_value : string;
  field_max : nat;
  field_required : bool;
}.

Definition bad_rune (r : option Z) : bool :=
  IsControl r && negb (bool_decide (r = Some 10%Z)) && negb (bool_decide (r = Some 9%Z)).

Fixpoint fields_loop (fields : list text_field) : result unit :=
  match fields with
  | [] => Ok tt
  | f :: fields =>
      fail? bool_decide (field_max f < String.length (field_value f)) ||
            negb (ValidString (field_value f)) || (field_required f && blank (field_value f))
        with err_field (field_name f) (field_max f) in
      fail? existsb bad_rune (runes (field_value f)) with err_control (field_name f) in
      fields_loop fields
  end.

Definition submission_fields (s : Submission) : list text_field :=
  [mkField "check_name" (Submission_CheckName s) 120 true;
   mkField "finding" (Submission_Finding s) 2000 true;
   mkField "tested" (Submission_Tested s) 2000 true;
   mkField "next_step" (Submission_NextStep s) 2000 true;
   mkField "analysis_id" (Submission_AnalysisID s) 128 false].

Definition run_url (repository runID : string) : string :=
  "https://github.com/" +:+ repository +:+ "/actions/runs/" +:+ runID.

(** ** The directory tree *)

(** A workspace directory: whether it is a real directory, its permission
    bits, its files. *)
Record directory := mkDirectory {
  dir_real : bool;
  dir_perm : Z;
  dir_files : gmap string private_file;
}.

Inductive root_entry :=
  | RootDir (d : directory)
  | RootFile (f : private_file).

Abbreviation tree := (gmap string root_entry) (only parsing).

Definition empty_directory : directory := mkDirectory true 448 ∅.
Definition with_files (d : directory) (files : gmap string private_file) : directory :=
  mkDirectory (dir_real d) (dir_perm d) files.

Section store.
Context `{!Urls}.

Definition run_url_ok (s : Submission) : bool :=
  let prefix := "/" +:+ Submission_Repository s +:+ "/actions/runs/" in
  match url_Parse (Submission_RunURL s) with
  | Err _ => false
  | Ok u => bool_decide (URL_Scheme u = "https") && bool_decide (URL_Host u = "github.com") &&
            negb (URL_HasUser u) && bool_decide (URL_RawQuery u = "") && negb (URL_ForceQuery u) &&
            bool_decide (URL_Fragment u = "") && bool_decide (URL_RawPath u = "") &&
            has_prefix (URL_Path u) prefix && runIDPattern (trim_prefix (URL_Path u) prefix)
  end.

Definition Submission_Validate (s : Submission) : result unit :=
  fail? bool_decide (200 < String.length (Submission_Repository s)) ||
        negb (repositoryPattern (Submission_Repository s)) with err_repository in
  let? _ := fields_loop (submission_fields s) in
  fail? negb (bool_decide (Submission_CommitSHA s = "")) && negb (commitPattern (Submission_CommitSHA s))
    with err_commit in
  fail? bool_decide (Submission_Experiments s < 0)%Z || bool_decide (1000000 < Submission_Experiments s)%Z
    with err_experiments in
  fail? negb (bool_decide (Submission_Status s ∈ ["PROVEN"; "SUPPORTED"; "CORRELATED"; "UNPROVEN"]))
    with err_status in
  fail? negb (bool_decide (Submission_RunURL s = "")) && negb (run_url_ok s) with err_run_url in
  Ok tt.

Definition Identity_validate (p : option PublisherIdentity) (s : Submission) : result unit :=
  match p with
  | None => Ok tt
  | Some p =>
      let file := workflow_name (Submission_Repository s) (Identity_Ref p) (Identity_WorkflowRef p) in
      fail? negb (bool_decide (Identity_Provider p = "github-actions-oidc")) ||
            negb (workspacePattern (Identity_SubjectID p)) || negb (decimalID (Identity_RepositoryID p)) ||
            negb (decimalID (Identity_RepositoryOwnerID p)) || negb (decimalID (Identity_RunID p)) ||
            negb (decimalID (Identity_RunAttempt p)) || negb (branchRef (Identity_Ref p)) ||
            negb (workflowFile file) ||
            negb (bool_decide (Identity_WorkflowRef p =
                               workflow_ref (Submission_Repository s) (Identity_Ref p) file)) ||
            bool_decide (Submission_CommitSHA s = "") ||
            negb (bool_decide (Submission_RunURL s = run_url (Submission_Repository s) (Identity_RunID p)))
        with err_identity in
      Ok tt
  end.

(** ** File operations *)

(** Failures of the file operations of one call, by entry name, the order in
    which [ReadDir] lists a directory, and the readings of the clock. *)
Record store_io := mkStoreIO {
  io_order : list (string * private_file) → list (string * private_file);
  io_info : string → option error;
  io_read : string → option error;
  io_remove : string → option error;
  io_readdir : option error;
  io_readdir_root : option error;
  io_mkdir : option error;
  io_random : result (list Z);
  io_write : write_outcome;
  io_sync : option error;
  now_cutoff : time;
  now_entry : string → time;
  now_created : time;
}.

Definition err_closed := ErrMsg "hub store is closed".
Definition err_private_dir :=
  ErrMsg "hub data directories must be real directories accessible only to their owner (0700)".
Definition err_not_dir := ErrMsg "not a directory".
Definition err_dir_limit := ErrMsg "hub workspace directory limit reached".
Definition err_entry_limit := ErrMsg "hub storage directory exceeds its entry limit".
Definition err_file_type := ErrMsg "invalid hub report file type or permissions".
Definition err_file_name := ErrMsg "unexpected hub report filename".
Definition err_file_size := ErrMsg "stored hub report exceeds 64 KiB".
Definition err_file_json := ErrMsg "invalid stored hub report".
Definition err_file_identity := ErrMsg "invalid stored hub report identity or timestamp".
Definition err_file_submission (err : error) :=
  ErrMsg ("invalid stored hub report: " +:+ error_text err).
Definition err_encoded := ErrMsg "encoded report is too large".

Definition private_directory (d : directory) : bool :=
  dir_real d && bool_decide (Z.land (dir_perm d) 63 = 0%Z).

(** [MkdirAll] makes a missing directory with mode 0700; [fail] is a failure
    of [MkdirAll] or [Lstat]. *)
Definition privateDir (fail : option error) (e : option root_entry) :
    option root_entry * result directory :=
  match fail, e with
  | Some err, _ => (e, Err err)
  | None, None => (Some (RootDir empty_directory), Ok empty_directory)
  | None, Some (RootFile _) => (e, Err err_not_dir)
  | None, Some (RootDir d) =>
      (e, if private_directory d then Ok d else Err err_private_dir)
  end.

Definition boundedEntries {A} (fail : option error) (entries : list A) (limit : nat) : result (list A) :=
  match fail with
  | Some err => Err err
  | None => fail? bool_decide (limit < length entries) with err_entry_limit in Ok entries
  end.

Definition is_dir (e : root_entry) : bool :=
  match e with RootDir d => dir_real d | RootFile _ => false end.

Definition workspace_known (c : Config) (workspace : string) : bool :=
  existsb (λ key, bool_decide (Key_Workspace key = workspace)) (Config_Keys c) ||
  existsb (λ member, bool_decide (Membership_Workspace member = workspace)) (Config_Memberships c).

Definition dir_name (workspace : string) : string := sha256_hex workspace.

(** The directory of a workspace, created if it is missing.  [t'] is the tree
    afterwards. *)
Definition workspaceDir (io : store_io) (closed : bool) (c : Config) (t : tree) (workspace : string) :
    tree * result directory :=
  if closed then (t, Err err_closed)
  else if negb (workspace_known c workspace) then (t, Err ErrNotFound)
  else
    let dir := dir_name workspace in
    let made := privateDir (io_mkdir io) (t !! dir) in
    let create :=
      match made with
      | (Some e, r) => (<[dir := e]> t, r)
      | (None, r) => (t, r)
      end in
    match t !! dir with
    | Some _ => create
    | None =>
        match boundedEntries (io_readdir_root io) (map_to_list t) 116 with
        | Err err => (t, Err err)
        | Ok entries =>
            if bool_decide (100 <= length (filter (λ e, is_dir e.2 = true) entries)) then (t, Err err_dir_limit)
            else create
        end
    end.

(** *** load *)

Context `{!Json Report}.

(** What [load] decides about one file: an error, [None] to remove it, or the
    report it keeps. *)
Definition check_entry (io : store_io) (cutoff : time) (name : string) (f : private_file) :
    result (option Report) :=
  match io_info io name with
  | Some err => Err err
  | None =>
      fail? negb (private f) with err_file_type in
      if has_prefix name ".tmp-" then Ok None
      else
        let id := trim_suffix name ".json" in
        fail? negb (has_suffix name ".json") || negb (idPattern id) with err_file_name in
        match io_read io name with
        | Some err => Err err
        | None =>
            fail? longer (file_content f) 65536 with err_file_size in
            match json_strict (file_content f) with
            | Err _ => Err err_file_json
            | Ok report =>
                fail? negb (bool_decide (Report_ID report = id)) || IsZero (Report_CreatedAt report) ||
                      After (Report_CreatedAt report) (now_entry io name + Minute)%Z with err_file_identity in
                match Submission_Validate (Report_Submission report) with
                | Err err => Err (err_file_submission err)
                | Ok _ =>
                    let? _ := Identity_validate (Report_Publisher report) (Report_Submission report) in
                    if negb (After (Report_CreatedAt report) cutoff) then Ok None else Ok (Some report)
                end
            end
        end
  end.

Fixpoint load_loop (io : store_io) (cutoff : time) (files : gmap string private_file)
    (entries : list (string * private_file)) (reports : list Report) :
    gmap string private_file * result (list Report) :=
  match entries with
  | [] => (files, Ok reports)
  | (name, f) :: entries =>
      match check_entry io cutoff name f with
      | Err err => (files, Err err)
      | Ok (Some report) => load_loop io cutoff files entries (reports ++ [report])
      | Ok None =>
          match io_remove io name with
          | Some err => (files, Err err)
          | None => load_loop io cutoff (delete name files) entries reports
          end
      end
  end.

Definition retention (c : Config) : Z := Config_RetentionDays c * 24 * Hour.

(** [load] on a directory that [privateDir] accepted *)
Definition load (io : store_io) (c : Config) (d : directory) : directory * result (list Report) :=
  match boundedEntries (io_readdir io) (io_order io (map_to_list (dir_files d))) 1016 with
  | Err err => (d, Err err)
  | Ok entries =>
      let cutoff := (now_cutoff io - retention c)%Z in
      let '(files, r) := load_loop io cutoff (dir_files d) entries [] in
      (with_files d files, r)
  end.

(** [workspaceDir] and [load], as every operation begins *)
Definition open_workspace (io : store_io) (closed : bool) (c : Config) (t : tree) (workspace : string) :
    tree * result (directory * list Report) :=
  match workspaceDir io closed c t workspace with
  | (t, Err err) => (t, Err err)
  | (t, Ok d) =>
      match load io c d with
      | (d, Err err) => (<[dir_name workspace := RootDir d]> t, Err err)
      | (d, Ok reports) => (<[dir_name workspace := RootDir d]> t, Ok (d, reports))
      end
  end.

(** *** The operations *)

Definition newest_first (a b : Report) : Prop :=
  (Report_CreatedAt b < Report_CreatedAt a)%Z ∨
  Report_CreatedAt a = Report_CreatedAt b ∧ String.le (Report_ID b) (Report_ID a).
#[export] Instance newest_first_dec a b : Decision (newest_first a b).
Proof. unfold newest_first. apply _. Defined.

Definition List (io : store_io) (closed : bool) (c : Config) (t : tree) (workspace : string) :
    tree * result (list Report) :=
  match open_workspace io closed c t workspace with
  | (t, Err err) => (t, Err err)
  | (t, Ok (_, reports)) => (t, Ok (take 100 (merge_sort newest_first reports)))
  end.

Definition CreateVerified (io : store_io) (closed : bool) (c : Config) (t : tree) (workspace : string)
    (submission : Submission) (publisher : option PublisherIdentity) : tree * result Report :=
  match (let? _ := Submission_Validate submission in Identity_validate publisher submission) with
  | Err err => (t, Err err)
  | Ok _ =>
      match open_workspace io closed c t workspace with
      | (t, Err err) => (t, Err err)
      | (t, Ok (d, reports)) =>
          if bool_decide (Config_MaxReportsPerWorkspace c <= Z.of_nat (length reports))%Z then (t, Err ErrQuota)
          else
            match io_random io with
            | Err err => (t, Err err)
            | Ok random =>
                let report := mkReport (EncodeToString random) (now_created io) publisher submission in
                let b := json_encode report in
                if longer b 65536 then (t, Err err_encoded)
                else
                  let files' := <[Report_ID report +:+ ".json" := mkPrivateFile true 384 b]> (dir_files d) in
                  let '(files, written) := atomicWrite (dir_files d) files' (io_write io) in
                  (<[dir_name workspace := RootDir (with_files d files)]> t,
                   let? _ := written in Ok report)
            end
      end
  end.

Definition Create (io : store_io) (closed : bool) (c : Config) (t : tree) (workspace : string)
    (submission : Submission) : tree * result Report :=
  CreateVerified io closed c t workspace submission None.

Definition find_report (id : string) (reports : list Report) : option Report :=
  snd <$> list_find (λ report, Report_ID report = id) reports.

Definition Get (io : store_io) (closed : bool) (c : Config) (t : tree) (workspace id : string) :
    tree * result Report :=
  match open_workspace io closed c t workspace with
  | (t, Err err) => (t, Err err)
  | (t, Ok (_, reports)) =>
      (t, match find_report id reports with Some report => Ok report | None => Err ErrNotFound end)
  end.

Definition Delete (io : store_io) (closed : bool) (c : Config) (t : tree) (workspace id : string) :
    tree * result unit :=
  match open_workspace io closed c t workspace with
  | (t, Err err) => (t, Err err)
  | (t, Ok (d, reports)) =>
      match find_report id reports with
      | None => (t, Err ErrNotFound)
      | Some _ =>
          match io_remove io (id +:+ ".json") with
          | Some err => (t, Err err)
          | None =>
              (<[dir_name workspace := RootDir (with_files d (delete (id +:+ ".json") (dir_files d)))]> t,
               match io_sync io with Some err => Err err | None => Ok tt end)
          end
      end
  end.

(** *** PurgeExpired *)

Definition replayFilename : string := ".ci-replays.json".
Definition err_ledger := ErrMsg "invalid CI replay ledger".
Definition err_temporary := ErrMsg "invalid temporary hub file".
Definition err_root_entry := ErrMsg "unexpected entry in hub data directory".
Definition err_not_empty := ErrMsg "directory not empty".

(** One entry of the data directory: what becomes of it, and the error that
    stops the pass.  [purge_io] gives the outcomes inside that directory. *)
Definition purge_entry (io : store_io) (dir_io : store_io) (c : Config) (name : string) (e : root_entry) :
    option root_entry * result unit :=
  if bool_decide (name = ".hub.lock") then (Some e, Ok tt)
  else if bool_decide (name = replayFilename) then
    (Some e, match io_info io name, e with
             | None, RootFile f =>
                 fail? negb (private f) || longer (file_content f) (256 * 1024)
                   with err_ledger in Ok tt
             | _, _ => Err err_ledger
             end)
  else if has_prefix name ".tmp-" then
    match io_info io name, e with
    | None, RootFile f =>
        if negb (private f) then (Some e, Err err_temporary)
        else match io_remove io name with
             | Some err => (Some e, Err err)
             | None => (None, Ok tt)
             end
    | _, _ => (Some e, Err err_temporary)
    end
  else if negb (digest_text name) || negb (is_dir e) then (Some e, Err err_root_entry)
  else
    match privateDir (io_mkdir dir_io) (Some e) with
    | (_, Err err) => (Some e, Err err)
    | (_, Ok d) =>
        match load dir_io c d with
        | (d, Err err) => (Some (RootDir d), Err err)
        | (d, Ok reports) =>
            if bool_decide (length reports = 0) then
              match io_remove io name with
              | Some err => (Some (RootDir d), Err err)
              | None => if bool_decide (dir_files d = ∅) then (None, Ok tt)
                        else (Some (RootDir d), Err err_not_empty)
              end
            else (Some (RootDir d), Ok tt)
        end
    end.

Fixpoint purge_loop (io : store_io) (dir_io : string → store_io) (c : Config) (t : tree)
    (entries : list (string * root_entry)) : tree * result unit :=
  match entries with
  | [] => (t, Ok tt)
  | (name, e) :: entries =>
      let '(e', r) := purge_entry io (dir_io name) c name e in
      let t := partial_alter (λ _, e') name t in
      match r with
      | Err err => (t, Err err)
      | Ok _ => purge_loop io dir_io c t entries
      end
  end.

(** [root_order] is the order in which [ReadDir] lists the data directory. *)
Definition PurgeExpired (io : store_io) (dir_io : string → store_io)
    (root_order : list (string * root_entry) → list (string * root_entry))
    (closed : bool) (c : Config) (t : tree) : tree * result unit :=
  if closed then (t, Err err_closed)
  else match boundedEntries (io_readdir_root io) (root_order (map_to_list t)) 116 with
       | Err err => (t, Err err)
       | Ok entries => purge_loop io dir_io c t entries
       end.

(** [OpenStore]: [root] is the outcome of [privateDir] on the data directory,
    [lock] that of taking the lock. *)
Definition OpenStore (io : store_io) (dir_io : string → store_io)
    (root_order : list (string * root_entry) → list (string * root_entry))
    (root lock : result unit) (c : Config) (t : tree) : tree * result unit :=
  match (let? _ := Validate c in let? _ := root in
         match lock with
         | Err err => Err (ErrMsg ("lock hub data directory: " +:+ error_text err))
         | Ok _ => Ok tt
         end) with
  | Err err => (t, Err err)
  | Ok _ => PurgeExpired io dir_io root_order false c t
  end.
End store.

(** ** What loading does *)

Section load.
Context `{!Urls, !Json Report}.
Implicit Types (files : gmap string private_file) (entries : list (string * private_file)).

Definition kept (io : store_io) (cutoff : time) (e : string * private_file) : option Report :=
  match check_entry io cutoff e.1 e.2 with Ok (Some report) => Some report | _ => None end.

Lemma load_loop_spec io cutoff entries : ∀ files reports files' reports',
  load_loop io cutoff files entries reports = (files', Ok reports') →
  Forall (λ e, is_Ok (check_entry io cutoff e.1 e.2)) entries ∧
  reports' = reports ++ omap (kept io cutoff) entries ∧
  ∀ name f, files' !! name = Some f ↔
    files !! name = Some f ∧ ∀ f', (name, f') ∈ entries → is_Some (kept io cutoff (name, f')).
Proof.
  induction entries as [|[name f] entries IH]; intros files reports files' reports' Hl; cbn in Hl.
  { simplify_eq. split_and!; [constructor|by rewrite app_nil_r|set_solver]. }
  destruct (check_entry io cutoff name f) as [[r|]|] eqn:Hc; [| |done].
  - apply IH in Hl as (Hall & -> & Hf). split_and!.
    + constructor; [|done]. cbn. rewrite Hc. auto.
    + cbn. unfold kept at 2. cbn. by rewrite Hc, <-app_assoc.
    + intros n g. rewrite Hf. split; intros [Hn Hk]; (split; [done|]).
      * intros f' [[= -> ->]|?]%elem_of_cons; [|by eauto]. unfold kept. cbn. rewrite Hc. eauto.
      * intros f' Hin. apply Hk. by right.
  - destruct (io_remove io name); [done|]. apply IH in Hl as (Hall & -> & Hf). split_and!.
    + constructor; [|done]. cbn. rewrite Hc. auto.
    + cbn. unfold kept at 2. cbn. by rewrite Hc.
    + intros n g. rewrite Hf. destruct (decide (n = name)) as [->|Hne].
      * rewrite lookup_delete_eq. split; [by intros [??]|]. intros [_ Hk].
        destruct (Hk f) as [? Hk']; [by left|]. unfold kept in Hk'. cbn in Hk'. by rewrite Hc in Hk'.
      * rewrite lookup_delete_ne by done. split; intros [Hn Hk]; (split; [done|]).
        -- intros f' [[= -> ->]|?]%elem_of_cons; [done|by eauto].
        -- intros f' Hin. apply Hk. by right.
Qed.
(** A file that holds a report: what the checks of [load] establish about it
    that does not depend on the clock *)
Definition holds_report (name : string) (f : private_file) (report : Report) : Prop :=
  name = Report_ID report +:+ ".json" ∧ idPattern (Report_ID report) = true ∧ private f = true ∧
  longer (file_content f) 65536 = false ∧ json_strict (file_content f) = Ok report ∧
  Report_CreatedAt report ≠ 0%Z ∧ Submission_Validate (Report_Submission report) = Ok tt ∧
  Identity_validate (Report_Publisher report) (Report_Submission report) = Ok tt.

Lemma kept_spec io cutoff name f report : kept io cutoff (name, f) = Some report →
  holds_report name f report ∧ (cutoff < Report_CreatedAt report ≤ now_entry io name + Minute)%Z.
Proof.
  unfold kept, check_entry. cbn [fst snd]. destruct (io_info io name); [done|].
  destruct (private f) eqn:Hp; cbn; [|done]. destruct (has_prefix name ".tmp-"); [done|].
  destruct (negb (has_suffix name ".json") || _) eqn:Hn; [done|]. destruct (io_read io name); [done|].
  destruct (longer _ _) eqn:Hlen; [done|]. destruct (json_strict _) as [r|] eqn:Hj; [|done].
  destruct (negb (bool_decide (Report_ID r = _)) || _ || _) eqn:Hid; [done|].
  destruct (Submission_Validate _) as [[]|] eqn:Hs; [|done].
  destruct (Identity_validate _ _) as [[]|] eqn:Hi; cbn; [|done].
  unfold After, IsZero in *. destruct (negb (bool_decide (cutoff < _)%Z)) eqn:Hc; [done|].
  intros [= <-]. apply orb_false_iff in Hn as [Hn1 Hn2], Hid as [[Hid Hz]%orb_false_iff Hid2].
  bool_prop. unfold holds_report. rewrite Hid, trim_suffix_app by done. split_and!; done || lia.
Qed.

Lemma id_not_temporary id : idPattern id = true → has_prefix (id +:+ ".json") ".tmp-" = false.
Proof.
  unfold idPattern. destruct id as [|c id]; [done|]. intros [[Hc _]%andb_prop _]%andb_prop.
  apply not_true_is_false. intros [t Ht]%has_prefix_true. rewrite string_app_cons in Ht.
  change (".tmp-" +:+ t) with (String "." ("tmp-" +:+ t)) in Ht. injection Ht as -> _. discriminate Hc.
Qed.

Lemma check_entry_holds io cutoff name f report :
  io_info io name = None → io_read io name = None → holds_report name f report →
  (Report_CreatedAt report ≤ now_entry io name + Minute)%Z →
  check_entry io cutoff name f =
    Ok (if bool_decide (cutoff < Report_CreatedAt report)%Z then Some report else None).
Proof.
  intros Hinfo Hread (-> & Hid & Hp & Hlen & Hj & Hz & Hs & Hi) Hnow. unfold check_entry.
  rewrite Hinfo, Hp, id_not_temporary, has_suffix_app, trim_suffix_exact, Hid, Hread, Hlen, Hj by done.
  cbn [negb orb]. rewrite bool_decide_eq_true_2 by done. unfold IsZero, After.
  rewrite (bool_decide_eq_false_2 (Report_CreatedAt report = 0%Z)) by done.
  rewrite (bool_decide_eq_false_2 (_ + Minute < _)%Z) by lia. cbn. rewrite Hs, Hi. cbn.
  by destruct (bool_decide _).
Qed.

(** Loading does not fail when no file operation does and every check passes. *)
Lemma load_loop_total io cutoff entries : (∀ n, io_remove io n = None) →
  Forall (λ e, is_Ok (check_entry io cutoff e.1 e.2)) entries →
  ∀ files reports, ∃ files' reports', load_loop io cutoff files entries reports = (files', Ok reports').
Proof.
  intros Hrm. induction 1 as [|[name f] entries [o Ho] _ IH]; intros files reports; cbn; [by eauto|].
  cbn in Ho. rewrite Ho. destruct o; [apply IH|]. rewrite Hrm. apply IH.
Qed.

Lemma map_to_list_filter {A} (P : string * A → Prop) `{!∀ x, Decision (P x)} (m : gmap string A) :
  map_to_list (filter P m) ≡ₚ filter P (map_to_list m).
Proof.
  rewrite map_filter_alt. apply map_to_list_to_map.
  eapply NoDup_fmap_fst; [|apply NoDup_filter, NoDup_map_to_list].
  intros k a b [_ Ha]%list_elem_of_filter [_ Hb]%list_elem_of_filter.
  apply elem_of_map_to_list in Ha, Hb. congruence.
Qed.

Lemma length_omap_kept io cutoff (l : list (string * private_file)) :
  length (omap (kept io cutoff) l) = length (filter (λ e, is_Some (kept io cutoff e)) l).
Proof.
  induction l as [|e l IH]; [done|]. rewrite filter_cons. cbn [omap list_omap].
  destruct (kept io cutoff e) eqn:Hk; cbn; rewrite IH; [|by rewrite decide_False by by intros [??]].
  by rewrite decide_True by eauto.
Qed.

Definition cutoff (io : store_io) (c : Config) : time := (now_cutoff io - retention c)%Z.
Definition live_files (io : store_io) (c : Config) files : gmap string private_file :=
  filter (λ e, is_Some (kept io (cutoff io c) e)) files.

Lemma load_spec io c d d' reports : (∀ l, io_order io l ≡ₚ l) → load io c d = (d', Ok reports) →
  d' = with_files d (live_files io c (dir_files d)) ∧
  reports ≡ₚ omap (kept io (cutoff io c)) (map_to_list (dir_files d)) ∧
  length reports = size (dir_files d') ∧
  ∀ name f, dir_files d !! name = Some f → is_Ok (check_entry io (cutoff io c) name f).
Proof.
  intros Hord. unfold load, boundedEntries. fold (cutoff io c). destruct (io_readdir io); [done|].
  destruct (bool_decide (1016 < _)); [done|].
  destruct (load_loop _ _ _ _ _) as [files r] eqn:Hl. intros [= <- ->].
  apply load_loop_spec in Hl as (Hall & -> & Hf). cbn [app].
  assert (∀ e, e ∈ io_order io (map_to_list (dir_files d)) ↔ dir_files d !! e.1 = Some e.2) as Hin.
  { intros [n g]. by rewrite Hord, elem_of_map_to_list. }
  assert (files = live_files io c (dir_files d)) as ->.
  { apply map_eq. intros n. apply option_eq. intros g. rewrite Hf. unfold live_files.
    rewrite map_lookup_filter_Some. split; intros [Hn Hk]; (split; [done|]).
    - apply Hk. by apply Hin.
    - intros f' Hf'. apply Hin in Hf'. cbn in Hf'. by simplify_eq. }
  split_and!; [done|by rewrite Hord| |].
  - rewrite Hord, length_omap_kept. cbn. unfold live_files.
    by rewrite <-length_map_to_list, map_to_list_filter.
  - intros n g Hn. rewrite Forall_forall in Hall. by apply (Hall (n, g)), Hin.
Qed.
End load.

(** ** The operations *)

Section operations.
Context `{!Urls, !Json Report}.

Definition directory_of (t : tree) (workspace : string) : directory :=
  match t !! dir_name workspace with Some (RootDir d) => d | _ => empty_directory end.

Lemma workspaceDir_spec io closed c t ws t' r : workspaceDir io closed c t ws = (t', r) →
  (∀ name, name ≠ dir_name ws → t' !! name = t !! name) ∧
  (∀ d, r = Ok d → closed = false ∧ workspace_known c ws = true ∧ d = directory_of t ws ∧
     private_directory d = true ∧ t' !! dir_name ws = Some (RootDir d)).
Proof.
  unfold workspaceDir, directory_of. destruct closed; [by intros [= <- <-]|].
  destruct (workspace_known c ws); cbn [negb]; [|by intros [= <- <-]].
  set (dir := dir_name ws).
  destruct (t !! dir) as [[d0|f]|] eqn:Hd; unfold privateDir.
  - destruct (io_mkdir io); intros [= <- <-].
    { split; [|done]. intros name Hne. by rewrite lookup_insert_ne. }
    split; [intros name Hne; by rewrite lookup_insert_ne|]. rewrite lookup_insert_eq.
    destruct (private_directory d0) eqn:Hp; [|done]. by intros d [= <-].
  - destruct (io_mkdir io); intros [= <- <-]; (split; [|done]); intros name Hne; by rewrite lookup_insert_ne.
  - unfold boundedEntries. destruct (io_readdir_root io); [by intros [= <- <-]|].
    destruct (bool_decide (116 < _)); [by intros [= <- <-]|].
    destruct (bool_decide (100 ≤ _)); [by intros [= <- <-]|].
    destruct (io_mkdir io); intros [= <- <-]; [done|]. split.
    + intros name Hne. by rewrite lookup_insert_ne.
    + rewrite lookup_insert_eq. intros d [= <-]. done.
Qed.

Lemma open_workspace_spec io closed c t ws t' r : open_workspace io closed c t ws = (t', r) →
  (∀ name, name ≠ dir_name ws → t' !! name = t !! name) ∧
  (∀ d reports, r = Ok (d, reports) → closed = false ∧ workspace_known c ws = true ∧
     private_directory (directory_of t ws) = true ∧
     load io c (directory_of t ws) = (d, Ok reports) ∧ t' !! dir_name ws = Some (RootDir d)).
Proof.
  unfold open_workspace. destruct (workspaceDir _ _ _ _ _) as [t1 [d1|err]] eqn:Hw;
    apply workspaceDir_spec in Hw as [Hother Hd]; [|by intros [= <- <-]].
  destruct (Hd d1) as (Hcl & Hk & -> & Hp & Ht); [done|].
  destruct (load _ _ _) as [d2 [rs|err]] eqn:Hl; intros [= <- <-]; split.
  - intros name Hne. by rewrite lookup_insert_ne, Hother.
  - intros d reports [= <- <-]. by rewrite lookup_insert_eq.
  - intros name Hne. by rewrite lookup_insert_ne, Hother.
  - done.
Qed.

(** The operations of the store that a request can reach, as one type *)
Inductive store_op :=
  | OpList
  | OpCreate (submission : Submission) (publisher : option PublisherIdentity)
  | OpGet (id : string)
  | OpDelete (id : string).

(** The tree after the operation and the reports it returns *)
Definition run_store_op (io : store_io) (closed : bool) (c : Config) (t : tree) (workspace : string)
    (op : store_op) : tree * result (list Report) :=
  match op with
  | OpList => List io closed c t workspace
  | OpCreate s p => let '(t, r) := CreateVerified io closed c t workspace s p in (t, let? x := r in Ok [x])
  | OpGet id => let '(t, r) := Get io closed c t workspace id in (t, let? x := r in Ok [x])
  | OpDelete id => let '(t, r) := Delete io closed c t workspace id in (t, let? _ := r in Ok [])
  end.

(** A report that may be shown: it is stored in the directory of the
    workspace under its own identifier, it is valid, and its age is below the
    retention limit. *)
Definition live_report (io : store_io) (c : Config) (d : directory) (report : Report) : Prop :=
  ∃ f, dir_files d !! (Report_ID report +:+ ".json") = Some f ∧ private f = true ∧
    json_strict (file_content f) = Ok report ∧ Submission_Validate (Report_Submission report) = Ok tt ∧
    Identity_validate (Report_Publisher report) (Report_Submission report) = Ok tt ∧
    (now_cutoff io - retention c < Report_CreatedAt report)%Z.

Lemma load_live io c d d' reports r : (∀ l, io_order io l ≡ₚ l) → load io c d = (d', Ok reports) →
  r ∈ reports → live_report io c d r.
Proof.
  intros Hord Hl Hr. apply load_spec in Hl as (-> & Hp & _); [|done].
  rewrite Hp in Hr. apply list_elem_of_omap in Hr as ([name f] & Hin & Hk).
  apply elem_of_map_to_list in Hin. 
  apply kept_spec in Hk as [(-> & _ & Hpr & _ & Hj & _ & Hs & Hi) [Hc _]].
  exists f. split_and!; done.
Qed.

Lemma run_store_op_spec io closed c t ws op t' r :
  (∀ l, io_order io l ≡ₚ l) → run_store_op io closed c t ws op = (t', r) →
  (∀ name, name ≠ dir_name ws → t' !! name = t !! name) ∧
  (∀ reports, r = Ok reports → closed = false ∧ workspace_known c ws = true ∧
     match op with
     | OpCreate _ _ | OpDelete _ => True
     | OpList | OpGet _ => ∀ report, report ∈ reports → live_report io c (directory_of t ws) report
     end).
Proof.
  intros Hord Hrun.
  destruct op as [|s p|id|id]; cbn in Hrun; unfold List, CreateVerified, Get, Delete in Hrun.
  2: destruct (let? _ := Submission_Validate s in _); [|by simplify_eq/=].
  all: destruct (open_workspace _ _ _ _ _) as [t1 [[d reports]|err]] eqn:Ho;
    apply open_workspace_spec in Ho as [Hother Hd]; [|by simplify_eq/=];
    destruct (Hd d reports) as (Hcl & Hk & _ & Hl & _); [done|].
  - simplify_eq. split; [done|]. intros rs [= <-]. split_and!; [done..|].
    intros report Hr. eapply load_live; [done|done|].
    rewrite <-(merge_sort_Permutation newest_first). apply (subseteq_take 100), Hr.
  - destruct (bool_decide _); [by simplify_eq/=|]. destruct (io_random io); [|by simplify_eq/=].
    destruct (longer _ _); [by simplify_eq/=|].
    destruct (atomicWrite _ _ _) as [files w]. injection Hrun as <- <-. split; [|done].
    intros name Hne. by rewrite lookup_insert_ne, Hother.
  - destruct (find_report id reports) as [x|] eqn:Hf; simplify_eq/=; (split; [done|]); [|done].
    intros rs [= <-]. split_and!; [done..|]. intros report ->%list_elem_of_singleton.
    eapply load_live; [done|done|]. unfold find_report in Hf.
    destruct (list_find _ _) as [[i y]|] eqn:Hfind; simplify_eq/=.
    apply list_find_Some in Hfind as (Hi & _). by eapply list_elem_of_lookup_2.
  - destruct (find_report id reports); [|by simplify_eq/=].
    destruct (io_remove io _); [by simplify_eq/=|].
    injection Hrun as <- <-. split; [|done]. intros name Hne. by rewrite lookup_insert_ne, Hother.
Qed.

(** A purge never removes or replaces the replay ledger. *)
Lemma purge_loop_ledger io dir_io c entries : ∀ t t' r, purge_loop io dir_io c t entries = (t', r) →
  (∀ e, (replayFilename, e) ∈ entries → t !! replayFilename = Some e) →
  t' !! replayFilename = t !! replayFilename.
Proof.
  induction entries as [|[name e] entries IH]; intros t t' r Hp Hin; [by injection Hp as <- _|].
  cbn [purge_loop] in Hp. destruct (purge_entry io (dir_io name) c name e) as [e' res] eqn:He.
  assert (partial_alter (λ _, e') name t !! replayFilename = t !! replayFilename) as Hsame.
  { destruct (decide (name = replayFilename)) as [->|Hne]; [|by rewrite lookup_partial_alter_ne].
    rewrite lookup_partial_alter_eq. unfold purge_entry in He.
    rewrite bool_decide_eq_false_2, bool_decide_eq_true_2 in He by done.
    injection He as <- _. symmetry. apply Hin. by left. }
  destruct res as [|err]; [|by injection Hp as <- _]. apply IH in Hp; [by rewrite Hp|].
  intros e2 He2. rewrite Hsame. apply Hin. by right.
Qed.

Lemma purge_keeps_ledger io dir_io order closed c t t' r : (∀ l, order l ≡ₚ l) →
  PurgeExpired io dir_io order closed c t = (t', r) → t' !! replayFilename = t !! replayFilename.
Proof.
  intros Hord Hp. unfold PurgeExpired in Hp. destruct closed; [by injection Hp as <- _|].
  unfold boundedEntries in Hp. destruct (io_readdir_root io); [by injection Hp as <- _|].
  destruct (bool_decide _); [by injection Hp as <- _|].
  eapply purge_loop_ledger; [exact Hp|]. intros e He. rewrite Hord in He. by apply elem_of_map_to_list in He.
Qed.

(** The directory of another workspace is another directory, or there is a
    collision. *)
Lemma other_directory t t' ws other : (∀ name, name ≠ dir_name ws → t' !! name = t !! name) →
  directory_of t' other = directory_of t other ∨ sha256_hex other = sha256_hex ws.
Proof.
  intros Hframe. destruct (decide (dir_name other = dir_name ws)) as [|Hne]; [by right|left].
  unfold directory_of. by rewrite Hframe.
Qed.

(** C21: workspaces are isolated and expired or damaged reports are never
    shown.  Whatever an operation on a workspace does and however it fails,
    every other entry of the data directory stays as it was - the directory of
    every other workspace, unless their names have the same SHA-256 - and a report
    returned by listing or reading was stored, valid and live in that
    workspace's own directory. *)
Theorem store_isolation io closed c t ws op t' r
    (Hord : ∀ l, io_order io l ≡ₚ l) (Hrun : run_store_op io closed c t ws op = (t', r)) :
  (∀ name, name ≠ dir_name ws → t' !! name = t !! name) ∧
  (∀ other, other ≠ ws → directory_of t' other = directory_of t other ∨ sha256_hex other = sha256_hex ws) ∧
  (∀ reports, r = Ok reports → closed = false ∧ workspace_known c ws = true ∧
     match op with
     | OpCreate _ _ | OpDelete _ => True
     | OpList | OpGet _ => ∀ report, report ∈ reports → live_report io c (directory_of t ws) report
     end).
Proof.
  apply run_store_op_spec in Hrun as [Hframe Hread]; [|done].
  split_and!; [done| |done]. intros other _. by apply other_directory.
Qed.
(** *** Creating reports *)

Lemma CreateVerified_inv io closed c t ws s p t' report : (∀ l, io_order io l ≡ₚ l) →
  CreateVerified io closed c t ws s p = (t', Ok report) →
  ∃ random d, io_random io = Ok random ∧
    report = mkReport (EncodeToString random) (now_created io) p s ∧
    Submission_Validate s = Ok tt ∧ Identity_validate p s = Ok tt ∧
    closed = false ∧ workspace_known c ws = true ∧ longer (json_encode report) 65536 = false ∧
    t' !! dir_name ws = Some (RootDir d) ∧
    private_directory d = true ∧
    dir_files d = <[Report_ID report +:+ ".json" := mkPrivateFile true 384 (json_encode report)]>
                    (live_files io c (dir_files (directory_of t ws))) ∧
    (Z.of_nat (size (live_files io c (dir_files (directory_of t ws)))) < Config_MaxReportsPerWorkspace c)%Z.
Proof.
  intros Hord. unfold CreateVerified.
  destruct (Submission_Validate s) as [[]|] eqn:Hs; cbn [rbind]; [|done].
  destruct (Identity_validate p s) as [[]|] eqn:Hi; cbn [rbind]; [|done].
  destruct (open_workspace _ _ _ _ _) as [t1 [[d reports]|err]] eqn:Ho; [|done].
  apply open_workspace_spec in Ho as [_ Hd]. destruct (Hd d reports) as (-> & Hk & Hpriv & Hl & Ht); [done|].
  apply load_spec in Hl as (-> & _ & Hlen & _); [|done].
  destruct (bool_decide _) eqn:Hq; [done|]. destruct (io_random io) as [random|] eqn:Hr; [|done].
  destruct (longer _ _) eqn:Hlong; [done|].
  destruct (io_write io); cbn [atomicWrite]; intros [= <- <-].
  exists random. eexists. do 7 (split; [done|]). split; [by rewrite lookup_insert_eq|].
  do 2 (split; [done|]). bool_prop. cbn in Hlen. rewrite <-Hlen. lia.
Qed.

Lemma Validate_max_reports c : Validate c = Ok tt → (1 ≤ Config_MaxReportsPerWorkspace c ≤ 1000)%Z.
Proof. unfold Validate. intros Hv. do 3 step_ok Hv. bool_prop. lia. Qed.

(** No file operation of the call fails. *)
Definition io_fine (io : store_io) : Prop :=
  (∀ l, io_order io l ≡ₚ l) ∧ (∀ n, io_info io n = None) ∧ (∀ n, io_read io n = None) ∧
  (∀ n, io_remove io n = None) ∧ io_readdir io = None ∧ io_mkdir io = None.

Lemma load_total io c d : io_fine io → size (dir_files d) ≤ 1016 →
  (∀ name f, dir_files d !! name = Some f →
     ∃ report, holds_report name f report ∧ (Report_CreatedAt report ≤ now_entry io name + Minute)%Z) →
  ∃ d' reports, load io c d = (d', Ok reports).
Proof.
  intros (Hord & Hinfo & Hread & Hrm & Hdir & _) Hsize Hall. unfold load, boundedEntries. rewrite Hdir.
  rewrite bool_decide_eq_false_2 by (rewrite Hord, length_map_to_list; lia).
  destruct (load_loop_total io (cutoff io c) (io_order io (map_to_list (dir_files d))) Hrm) with
    (files := dir_files d) (reports := @nil Report) as (files' & reports & Hl).
  { rewrite Hord. apply Forall_forall. intros [name f] Hin%elem_of_map_to_list.
    destruct (Hall name f Hin) as (report & Hh & Hnow).
    cbn. erewrite check_entry_holds; eauto. }
  unfold cutoff in Hl. rewrite Hl. eauto.
Qed.

Lemma find_report_holds io c d d' reports report : (∀ l, io_order io l ≡ₚ l) →
  load io c d = (d', Ok reports) → report ∈ reports →
  find_report (Report_ID report) reports = Some report.
Proof.
  intros Hord Hl Hr. unfold find_report.
  destruct (list_find_elem_of (λ r, Report_ID r = Report_ID report) reports report Hr eq_refl) as [[i y] Hf].
  rewrite Hf. apply list_find_Some in Hf as (Hi & Hid & _). apply list_elem_of_lookup_2 in Hi.
  apply (load_live _ _ _ _ _ _ Hord Hl) in Hr, Hi.
  destruct Hr as (f & Hf & _ & Hj & _), Hi as (f' & Hf' & _ & Hj' & _). rewrite Hid in Hf'. cbn. congruence.
Qed.
(** A workspace directory whose files all hold reports with times in the past *)
Definition sound_directory (io : store_io) (t : tree) (ws : string) (d : directory) : Prop :=
  t !! dir_name ws = Some (RootDir d) ∧ private_directory d = true ∧ size (dir_files d) ≤ 1016 ∧
  ∀ name f, dir_files d !! name = Some f →
    ∃ report, holds_report name f report ∧ (Report_CreatedAt report ≤ now_entry io name + Minute)%Z.

Lemma open_total io c t ws d : io_fine io → workspace_known c ws = true → sound_directory io t ws d →
  ∃ d' reports, load io c d = (d', Ok reports) ∧
    open_workspace io false c t ws = (<[dir_name ws := RootDir d']> t, Ok (d', reports)).
Proof.
  intros Hfine Hk (Ht & Hp & Hsize & Hall). destruct (load_total io c d Hfine Hsize Hall) as (d' & rs & Hl).
  exists d', rs. split; [done|]. destruct Hfine as (_ & _ & _ & _ & _ & Hmk).
  unfold open_workspace, workspaceDir. rewrite Hk, Ht. unfold privateDir. rewrite Hmk, Hp. cbn.
  by rewrite (insert_id t), Hl.
Qed.

Lemma sound_subset io c t ws d files : sound_directory io t ws d → files ⊆ live_files io c (dir_files d) →
  sound_directory io (<[dir_name ws := RootDir (with_files d files)]> t) ws (with_files d files).
Proof.
  intros (Ht & Hp & Hsize & Hall) Hsub. split_and!; [by rewrite lookup_insert_eq|done| |].
  - cbn. etrans; [apply map_subseteq_size, Hsub|]. etrans; [apply map_size_filter|done].
  - cbn. intros name f Hf. eapply Hall. eapply lookup_weaken; [done|].
    etrans; [exact Hsub|]. apply map_filter_subseteq.
Qed.
(** The circumstances of the round trip: the report was created by the call
    [io], and the later calls [io'] read a clock that has advanced but not by
    the retention time, and meet no failure. *)
Record later (io io' : store_io) (c : Config) (report : Report) : Prop := {
  later_order : ∀ l, io_order io l ≡ₚ l;
  later_random : ∀ r, io_random io = Ok r → length r = 16 ∧ Forall (λ b, 0 ≤ b < 256)%Z r;
  later_nonzero : now_created io ≠ 0%Z;
  later_fine : io_fine io';
  later_clock : ∀ n, (now_entry io n ≤ now_entry io' n)%Z ∧ (now_created io ≤ now_entry io' n + Minute)%Z;
  later_live : (now_cutoff io' - retention c < now_created io)%Z;
  later_json : json_valid report;
}.

Lemma idPattern_encode r : length r = 16 → Forall (λ b, 0 ≤ b < 256)%Z r →
  idPattern (EncodeToString r) = true.
Proof.
  intros Hlen Hb. unfold idPattern. rewrite EncodeToString_lower by done.
  by rewrite length_EncodeToString, Hlen.
Qed.

Lemma created_sound io io' c t ws s p t' report : Validate c = Ok tt → later io io' c report →
  CreateVerified io false c t ws s p = (t', Ok report) →
  ∃ d f, sound_directory io' t' ws d ∧ dir_files d !! (Report_ID report +:+ ".json") = Some f ∧
    holds_report (Report_ID report +:+ ".json") f report ∧ Report_CreatedAt report = now_created io ∧
    workspace_known c ws = true ∧ (Z.of_nat (size (dir_files d)) ≤ Config_MaxReportsPerWorkspace c)%Z.
Proof.
  intros Hv Hlater Hrun. pose proof (Validate_max_reports c Hv) as Hmax. destruct Hlater.
  apply CreateVerified_inv in Hrun as (r & d & Hr & Hrep & Hs & Hi & _ & Hk & Hlong & Ht & Hp & Hfiles & Hq); [|done].
  destruct (later_random0 r Hr) as [Hlen Hb].
  exists d, (mkPrivateFile true 384 (json_encode report)).
  assert (holds_report (Report_ID report +:+ ".json") (mkPrivateFile true 384 (json_encode report)) report) as Hh.
  { split_and!; try done; try (by rewrite Hrep).
    - rewrite Hrep. by apply idPattern_encode.
    - cbn. by apply json_strict_roundtrip. }
  assert (Z.of_nat (size (dir_files d)) ≤ Config_MaxReportsPerWorkspace c)%Z as Hsz.
  { rewrite Hfiles, map_size_insert. case_match; unfold id; lia. }
  split_and!; try done.
  - split; [done|]. split; [done|]. split; [lia|].
    intros name f. rewrite Hfiles. intros [[<- <-]|[Hne Hf]]%lookup_insert_Some.
    + exists report. split; [done|]. rewrite Hrep. cbn. apply later_clock0.
    + apply map_lookup_filter_Some in Hf as [_ [old Ho]]. apply kept_spec in Ho as [Hho [_ Hnow]].
      exists old. split; [done|]. destruct (later_clock0 name). lia.
  - by rewrite Hfiles, lookup_insert_eq.
  - by rewrite Hrep.
Qed.

(** a created report can be read back until it is deleted.  If creation
    succeeds under a valid configuration, reading the identifier later, within
    the retention time, returns exactly that report and the directory holds at
    most the configured number of files; after deleting it, reading it reports
    that it does not exist. *)
Theorem Create_Get_Delete io io' c t ws s p t' report
    (Hvalid : Validate c = Ok tt) (Hlater : later io io' c report)
    (Hrun : CreateVerified io false c t ws s p = (t', Ok report)) :
  (Get io' false c t' ws (Report_ID report)).2 = Ok report ∧
  (Z.of_nat (size (dir_files (directory_of t' ws))) ≤ Config_MaxReportsPerWorkspace c)%Z ∧
  ∃ t2 r, Delete io' false c t' ws (Report_ID report) = (t2, r) ∧
    (io_sync io' = None → r = Ok tt) ∧
    (Get io' false c t2 ws (Report_ID report)).2 = Err ErrNotFound.
Proof.
  destruct (created_sound _ _ _ _ _ _ _ _ _ Hvalid Hlater Hrun) as (d & f & Hsound & Hf & Hh & Hat & Hk & Hsz).
  destruct Hlater as [_ _ _ Hfine Hclock Hlive _].
  destruct (open_total io' c t' ws d Hfine Hk Hsound) as (d' & rs & Hl & Ho).
  pose proof (load_spec _ _ _ _ _ (proj1 Hfine) Hl) as (-> & Hperm & _ & _).
  assert (report ∈ rs) as Hin.
  { rewrite Hperm, list_elem_of_omap. exists (Report_ID report +:+ ".json", f).
    rewrite elem_of_map_to_list. split; [done|]. unfold kept. cbn.
    destruct Hfine as (_ & Hinfo & Hread & _). rewrite (check_entry_holds _ _ _ f report); try done.
    - by rewrite bool_decide_eq_true_2 by (unfold cutoff; lia).
    - rewrite Hat. apply Hclock. }
  unfold Get at 1, Delete. rewrite Ho.
  rewrite (find_report_holds _ _ _ _ _ _ (proj1 Hfine) Hl Hin). split; [done|]. split.
  { destruct Hsound as [Ht _]. unfold directory_of. by rewrite Ht. }
  pose proof Hfine as (_ & _ & _ & Hrm & _). rewrite Hrm. eexists _, _. split; [done|].
  split; [by intros ->|]. rewrite insert_insert_eq.
  set (files := delete _ _).
  pose proof (sound_subset io' c t' ws d files Hsound (delete_subseteq _ _)) as Hsound2.
  destruct (open_total io' c _ ws _ Hfine Hk Hsound2) as (d2 & rs2 & Hl2 & Ho2).
  match goal with |- context [RootDir ?e] => change e with (with_files d files) end.
  unfold Get. rewrite Ho2. cbn [snd].
  destruct (find_report _ rs2) as [y|] eqn:Hfind; [|done]. exfalso.
  unfold find_report in Hfind. destruct (list_find _ rs2) as [[i z]|] eqn:Hlf; [|done].
  apply list_find_Some in Hlf as (Hi & Hid & _). apply list_elem_of_lookup_2 in Hi.
  apply (load_live _ _ _ _ _ _ (proj1 Hfine) Hl2) in Hi as (g & Hg & _).
  rewrite Hid in Hg. cbn in Hg. unfold files in Hg. by rewrite lookup_delete_eq in Hg.
Qed.
End operations.

(** ** Witnesses *)

Definition demo_submission : Submission :=
  mkSubmission "owner/repo" "unit tests" "" "" "PROVEN" "A setting differs." "Both settings" "Fix it." 3 "".
Definition demo_report : Report :=
  mkReport (EncodeToString (replicate 16 171%Z)) (100 * Hour)%Z None demo_submission.
Definition demo_reports : Json Report := single_json demo_report.
Definition demo_store_io (now : time) : store_io :=
  mkStoreIO id (λ _, None) (λ _, None) (λ _, None) None None None (Ok (replicate 16 171%Z)) Written None
    now (λ _, now) now.
Definition demo_create : gmap string root_entry * result Report :=
  @CreateVerified simple_urls demo_reports (demo_store_io (100 * Hour)) false demo_config ∅ "default"
    demo_submission None.

Lemma demo_later : @later demo_reports (demo_store_io (100 * Hour)) (demo_store_io (101 * Hour))
  demo_config demo_report.
Proof.
  split; try done.
  intros r [= <-]. split; [done|]. by repeat constructor.
Qed.

Lemma store_isolation_witness :
  let r := @run_store_op simple_urls demo_reports (demo_store_io (101 * Hour)) false demo_config
             demo_create.1 "default" OpList in
  (∀ name, name ≠ dir_name "default" → r.1 !! name = demo_create.1 !! name) ∧
  (∀ other, other ≠ "default" → directory_of r.1 other = directory_of demo_create.1 other ∨
     sha256_hex other = sha256_hex "default") ∧
  (∀ reports, r.2 = Ok reports → false = false ∧ workspace_known demo_config "default" = true ∧
     ∀ report, report ∈ reports → @live_report simple_urls demo_reports (demo_store_io (101 * Hour))
       demo_config (directory_of demo_create.1 "default") report).
Proof.
  intros r. apply (@store_isolation simple_urls demo_reports (demo_store_io (101 * Hour)) false demo_config
    demo_create.1 "default" OpList r.1 r.2).
  - intros l. reflexivity.
  - subst r. by destruct (run_store_op _ _ _ _ _ _).
Defined.

Lemma Create_Get_Delete_witness :
  let t' := demo_create.1 in
  let io' := demo_store_io (101 * Hour) in
  let id := Report_ID demo_report in
  (@Get simple_urls demo_reports io' false demo_config t' "default" id).2 = Ok demo_report ∧
  (Z.of_nat (size (dir_files (directory_of t' "default"))) ≤ Config_MaxReportsPerWorkspace demo_config)%Z ∧
  ∃ t2 r, @Delete simple_urls demo_reports io' false demo_config t' "default" id = (t2, r) ∧
    (io_sync io' = None → r = Ok tt) ∧
    (@Get simple_urls demo_reports io' false demo_config t2 "default" id).2 = Err ErrNotFound.
Proof.
  intros t' io' id.
  apply (@Create_Get_Delete simple_urls demo_reports (demo_store_io (100 * Hour)) io' demo_config ∅
    "default" demo_submission None t' demo_report).
  - apply initial_config_valid. vm_compute. discriminate.
  - apply demo_later.
  - vm_compute. reflexivity.
Defined.
