(* ===== verification/HubAudit.v ===== *)
(** * HubAudit: the segmented audit log of the team hub

    Models [src/internal/hub/audit.go]: an append-only hash chain kept in
    segment files, pruned by age and number, with a checkpoint file that
    commits the head and the anchor.  The directory is the checkpoint and the
    other files by name; a file is the list of its lines and the bytes after
    the last newline.  An operation maps the log object and the directory to
    both and a result; the outcome of every file operation and every reading
    of the clock is an input ([audit_io]). *)

From S2P Require Import Prelude Sha256 Text Json HubConfig HubStore.

(** ** Data *)

Record AuditEvent := mkAuditEvent {
  Event_Actor : string;
  Event_Kind : string;
  Event_Workspace : string;
  Event_CredentialID : string;
  Event_Action : string;
  Event_Outcome : string;
  Event_ReportID : string;
}.

Record auditEntry := mkAuditEntry {
  entry_Sequence : Z;
  entry_Time : time;
  entry_Previous : string;
  entry_Event : AuditEvent;
  entry_Hash : string;
}.

Record auditSegment := mkAuditSegment {
  segment_Name : string;
  segment_CreatedAt : time;
  segment_LastSequence : Z;
  segment_LastHash : string;
}.

Record auditState := mkAuditState {
  state_Version : Z;
  state_AnchorSequence : Z;
  state_AnchorHash : string;
  state_HeadSequence : Z;
  state_HeadHash : string;
  state_Segments : list auditSegment;
}.

Record AuditStatus := mkAuditStatus {
  status_Sequence : Z;
  status_HeadHash : string;
  status_RetainedSegments : Z;
  status_AnchorSequence : Z;
  status_AnchorHash : string;
}.

(** The log object; the mutex and the lock file are not modelled, every
    operation holds them. *)
Record AuditLog := mkAuditLog {
  log_state : auditState;
  log_retention : Z;
  log_segmentBytes : Z;
  log_maxSegments : nat;
  log_fault : option error;
  log_closed : bool;
}.

Record log_file := mkLogFile {
  log_regular : bool;
  log_perm : Z;
  log_lines : list string;
  log_tail : string;
}.

(** [disk_files] are all entries of the directory except the checkpoint and
    the lock file. *)
Record audit_disk := mkAuditDisk {
  disk_checkpoint : option private_file;
  disk_files : gmap string log_file;
}.

Definition private_log (f : log_file) : bool :=
  log_regular f && bool_decide (Z.land (log_perm f) 63 = 0%Z).

Definition file_bytes (f : log_file) : Z :=
  (foldr (λ line n, Z.of_nat (String.length line) + 1 + n) 0 (log_lines f) +
   Z.of_nat (String.length (log_tail f)))%Z.

(** How writing a line ends: written and synced; part of it or nothing is in
    the file; all of it, but [Sync] or [Close] failed. *)
Inductive line_outcome :=
  | LineWritten
  | LinePartial (part : string) (err : error)
  | LineUnsynced (err : error).

Record audit_io := mkAuditIO {
  aio_now_entry : time;
  aio_now_age : time;
  aio_now_prune : time;
  aio_lstat : option error;
  aio_open : option error;
  aio_line : line_outcome;
  aio_commit : write_outcome;
  aio_remove : string → option error;
  aio_sync : option error;
  aio_read : string → option error;
  aio_readdir : option error;
}.

(** ** Names *)

(** fmt's [%020d] for a number that is not negative *)
Fixpoint zeros (n : nat) (s : string) : string :=
  match n with O => s | S n => String "0" (zeros n s) end.
Definition pad20 (s : string) : string := zeros (20 - String.length s) s.
Definition segment_name (sequence : Z) : string := pad20 (show_Z sequence) +:+ ".jsonl".

(** [fmt.Sscanf(name, "%020d.jsonl", &start)] followed by the check that the
    name is the formatted number *)
Definition segment_start (name : string) : option Z :=
  match digits_value 0 (string_take 20 name) with
  | Some start => if bool_decide (start < 2 ^ 64)%Z && bool_decide (name = segment_name start)
                  then Some start else None
  | None => None
  end.

(** ** Events *)

Definition event_fields (e : AuditEvent) : list string :=
  [Event_Actor e; Event_Kind e; Event_Workspace e; Event_CredentialID e; Event_Action e;
   Event_Outcome e; Event_ReportID e].

Definition err_metadata := ErrMsg "invalid audit metadata".
Definition err_event_fields := ErrMsg "audit actor, action and outcome are required".

Definition validateAuditEvent (e : AuditEvent) : result unit :=
  fail? existsb (λ value, bool_decide (128 < String.length value) ||
                          contains_any value (NL +:+ String "013" NUL)) (event_fields e) with err_metadata in
  fail? bool_decide (Event_Actor e = "") || bool_decide (Event_Action e = "") ||
        bool_decide (Event_Outcome e = "") with err_event_fields in
  Ok tt.

Definition with_entry_hash (e : auditEntry) (hash : string) : auditEntry :=
  mkAuditEntry (entry_Sequence e) (entry_Time e) (entry_Previous e) (entry_Event e) hash.

Definition err_audit_closed := ErrMsg "audit log is closed".
Definition err_event_size := ErrMsg "audit event exceeds size limit".
Definition err_unsafe_segment := ErrMsg "unsafe audit segment".
Definition err_exists := ErrMsg "file exists".
Definition err_unsafe_file := ErrMsg "unsafe or oversized audit file".
Definition err_checkpoint := ErrMsg "invalid audit checkpoint".
Definition err_checkpoint_digest := ErrMsg "invalid audit checkpoint digest".
Definition err_segment_order := ErrMsg "invalid audit segment order".
Definition err_truncated := ErrMsg "truncated audit segment".
Definition err_too_long := ErrMsg "bufio.Scanner: token too long".
Definition err_chain := ErrMsg "audit hash chain mismatch".
Definition err_segment_checkpoint := ErrMsg "audit segment disagrees with committed checkpoint".
Definition err_head := ErrMsg "audit head disagrees with committed checkpoint".
Definition err_audit_temporary := ErrMsg "unsafe audit temporary file".
Definition err_unexpected := ErrMsg "unexpected or uncommitted audit file".
Definition err_unsafe_pruned := ErrMsg "unsafe pruned audit file".
Definition err_uncommitted := ErrMsg "audit directory has files but no committed checkpoint".
Definition err_audit_retention := ErrMsg "audit retention must be 1..30 days".
Definition err_external_head := ErrMsg "audit head does not match external expected checkpoint".
Definition storage_failure (err : error) : error :=
  ErrMsg ("audit integrity/storage failure: " +:+ error_text err).

Definition with_fault (a : AuditLog) (fault : error) : AuditLog :=
  mkAuditLog (log_state a) (log_retention a) (log_segmentBytes a) (log_maxSegments a) (Some fault)
    (log_closed a).
Definition with_state (a : AuditLog) (state : auditState) : AuditLog :=
  mkAuditLog state (log_retention a) (log_segmentBytes a) (log_maxSegments a) (log_fault a) (log_closed a).
Definition with_log_file (d : audit_disk) (name : string) (f : log_file) : audit_disk :=
  mkAuditDisk (disk_checkpoint d) (<[name := f]> (disk_files d)).

Definition fail (a : AuditLog) (err : error) : AuditLog * result unit :=
  let fault := storage_failure err in (with_fault a fault, Err fault).

(** ** Pruning *)

(** The loop of [pruned]: the segments dropped from the front *)
Fixpoint prune_loop (max : nat) (cutoff : time) (state : auditState) (segments : list auditSegment)
    (removed : list string) : auditState * list string :=
  let stop := (mkAuditState (state_Version state) (state_AnchorSequence state) (state_AnchorHash state)
                 (state_HeadSequence state) (state_HeadHash state) segments, removed) in
  match segments with
  | [] => stop
  | segment :: rest =>
      if bool_decide (max < length segments) || negb (After (segment_CreatedAt segment) cutoff) then
        prune_loop max cutoff
          (mkAuditState (state_Version state) (segment_LastSequence segment) (segment_LastHash segment)
             (state_HeadSequence state) (state_HeadHash state) rest)
          rest (removed ++ [segment_Name segment])
      else stop
  end.

Definition pruned (a : AuditLog) (now : time) (state : auditState) : auditState * list string :=
  prune_loop (log_maxSegments a) (now - log_retention a)%Z state (state_Segments state) [].

Section audit.
Context `{!Json auditEntry, !Json auditState}.

Definition hashAuditEntry (e : auditEntry) : string := sha256_hex (json_marshal (with_entry_hash e "")).

(** ** commit *)

(** [os.Remove] of every name; a missing file is not an error. *)
Fixpoint remove_files (fail : string → option error) (files : gmap string log_file) (names : list string) :
    gmap string log_file * result unit :=
  match names with
  | [] => (files, Ok tt)
  | name :: names =>
      match files !! name, fail name with
      | None, _ => remove_files fail files names
      | Some _, Some err => (files, Err err)
      | Some _, None => remove_files fail (delete name files) names
      end
  end.

Definition commit (io : audit_io) (a : AuditLog) (d : audit_disk) (state : auditState)
    (removed : list string) : AuditLog * audit_disk * result unit :=
  let checkpoint := Some (mkPrivateFile true 384 (json_encode state)) in
  let '(checkpoint, written) := atomicWrite (disk_checkpoint d) checkpoint (aio_commit io) in
  let d := mkAuditDisk checkpoint (disk_files d) in
  match written with
  | Err err => (a, d, Err err)
  | Ok _ =>
      let a := with_state a state in
      let '(files, r) := remove_files (aio_remove io) (disk_files d) removed in
      let d := mkAuditDisk checkpoint files in
      (a, d, match r with
             | Err err => Err err
             | Ok _ => match aio_sync io with Some err => Err err | None => Ok tt end
             end)
  end.

(** ** Append *)

Definition new_entry (now : time) (state : auditState) (event : AuditEvent) : auditEntry :=
  let entry := mkAuditEntry (wrap_uint64 (state_HeadSequence state + 1)) now (state_HeadHash state) event "" in
  with_entry_hash entry (hashAuditEntry entry).

(** Whether the entry, [size] bytes long with its newline, needs a new
    segment; an error is an unreadable or unsafe last segment. *)
Definition needs_segment (io : audit_io) (a : AuditLog) (d : audit_disk) (size : Z) : result bool :=
  match last (state_Segments (log_state a)) with
  | None => Ok true
  | Some segment =>
      match aio_lstat io, disk_files d !! segment_Name segment with
      | Some err, _ => Err err
      | None, None => Err ErrNotExist
      | None, Some f =>
          fail? negb (private_log f) with err_unsafe_segment in
          Ok (bool_decide (log_segmentBytes a < file_bytes f + size)%Z ||
              negb (After (segment_CreatedAt segment) (aio_now_age io - log_retention a)%Z))
      end
  end.

Definition empty_log_file : log_file := mkLogFile true 384 [] "".

(** The file a line goes to: created with [O_EXCL], or opened for appending *)
Definition open_segment (io : audit_io) (d : audit_disk) (name : string) (create : bool) : result log_file :=
  match aio_open io, disk_files d !! name with
  | Some err, _ => Err err
  | None, Some f => if create then Err err_exists else Ok f
  | None, None => if create then Ok empty_log_file else Err ErrNotExist
  end.

(** The file after the write: a line completes the bytes after the last
    newline, if there are any. *)
Definition write_line (outcome : line_outcome) (f : log_file) (line : string) : log_file * result unit :=
  let with_line := mkLogFile (log_regular f) (log_perm f) (log_lines f ++ [log_tail f +:+ line]) "" in
  match outcome with
  | LineWritten => (with_line, Ok tt)
  | LinePartial part err =>
      (mkLogFile (log_regular f) (log_perm f) (log_lines f) (log_tail f +:+ part), Err err)
  | LineUnsynced err => (with_line, Err err)
  end.

Definition set_last (segments : list auditSegment) (sequence : Z) (hash : string) : list auditSegment :=
  match last segments with
  | Some s => take (pred (length segments)) segments ++
              [mkAuditSegment (segment_Name s) (segment_CreatedAt s) sequence hash]
  | None => segments
  end.

Definition appended_state (state : auditState) (segments : list auditSegment) (entry : auditEntry) :
    auditState :=
  mkAuditState (state_Version state) (state_AnchorSequence state) (state_AnchorHash state)
    (entry_Sequence entry) (entry_Hash entry) (set_last segments (entry_Sequence entry) (entry_Hash entry)).

Definition next_segments (state : auditState) (create : bool) (entry : auditEntry) : list auditSegment :=
  if create then
    state_Segments state ++ [mkAuditSegment (segment_name (entry_Sequence entry)) (entry_Time entry) 0 ""]
  else state_Segments state.

Definition current_name (segments : list auditSegment) : string :=
  match last segments with Some s => segment_Name s | None => "" end.

Definition Append (io : audit_io) (a : AuditLog) (d : audit_disk) (event : AuditEvent) :
    AuditLog * audit_disk * result unit :=
  if log_closed a then (a, d, Err err_audit_closed)
  else
    match log_fault a with
    | Some fault => (a, d, Err fault)
    | None =>
        match validateAuditEvent event with
        | Err err => (a, d, Err err)
        | Ok _ =>
            let state := log_state a in
            let entry := new_entry (aio_now_entry io) state event in
            let line := json_encode entry in
            let size := (Z.of_nat (String.length line) + 1)%Z in
            if bool_decide (4096 < size)%Z then (a, d, Err err_event_size)
            else
              match needs_segment io a d size with
              | Err err => let '(a, r) := fail a err in (a, d, r)
              | Ok create =>
                  let segments := next_segments state create entry in
                  let name := current_name segments in
                  match open_segment io d name create with
                  | Err err => let '(a, r) := fail a err in (a, d, r)
                  | Ok f =>
                      let '(f, written) := write_line (aio_line io) f line in
                      let d := with_log_file d name f in
                      match written with
                      | Err err => let '(a, r) := fail a err in (a, d, r)
                      | Ok _ =>
                          let '(next, removed) :=
                            pruned a (aio_now_prune io) (appended_state state segments entry) in
                          match commit io a d next removed with
                          | (a, d, Err err) => let '(a, r) := fail a err in (a, d, r)
                          | (a, d, Ok _) => (a, d, Ok tt)
                          end
                      end
                  end
              end
        end
    end.

Definition PurgeExpired (io : audit_io) (a : AuditLog) (d : audit_disk) : AuditLog * audit_disk * result unit :=
  if log_closed a then (a, d, Err err_audit_closed)
  else
    match log_fault a with
    | Some fault => (a, d, Err fault)
    | None =>
        let '(next, removed) := pruned a (aio_now_prune io) (log_state a) in
        match removed with
        | [] => (a, d, Ok tt)
        | _ =>
            match commit io a d next removed with
            | (a, d, Err err) => let '(a, r) := fail a err in (a, d, r)
            | (a, d, Ok _) => (a, d, Ok tt)
            end
        end
    end.

Definition Status (a : AuditLog) : AuditStatus :=
  let s := log_state a in
  mkAuditStatus (state_HeadSequence s) (state_HeadHash s) (Z.of_nat (length (state_Segments s)))
    (state_AnchorSequence s) (state_AnchorHash s).

Definition day : Z := 24 * Hour.

Definition SetRetention (a : AuditLog) (days : Z) : AuditLog :=
  let days := if bool_decide (days = 0%Z) then 7%Z else days in
  mkAuditLog (log_state a) (days * day) (log_segmentBytes a) (log_maxSegments a) (log_fault a) (log_closed a).

(** ** Opening and verifying *)

Definition validHash (sequence : Z) (hash : string) : bool :=
  if bool_decide (sequence = 0%Z) then bool_decide (hash = "") else digest_text hash.

(** The scan of one segment.  The scanner refuses a line that does not fit
    its buffer of 4096 bytes. *)
Fixpoint scan_loop (lines : list string) (sequence : Z) (previous : string) : result (Z * string) :=
  match lines with
  | [] => Ok (sequence, previous)
  | line :: lines =>
      fail? bool_decide (4096 <= Z.of_nat (String.length line))%Z with err_too_long in
      let? entry := json_strict line in
      fail? negb (bool_decide (entry_Sequence entry = wrap_uint64 (sequence + 1))) ||
            negb (bool_decide (entry_Previous entry = previous)) || IsZero (entry_Time entry) ||
            negb (bool_decide (entry_Hash entry = hashAuditEntry entry)) with err_chain in
      let? _ := validateAuditEvent (entry_Event entry) in
      scan_loop lines (entry_Sequence entry) (entry_Hash entry)
  end.

(** [auditFile] on a segment *)
Definition audit_segment_file (io : audit_io) (d : audit_disk) (name : string) (max : Z) : result log_file :=
  match disk_files d !! name with
  | None => Err ErrNotExist
  | Some f =>
      fail? negb (private_log f) || bool_decide (max < file_bytes f)%Z with err_unsafe_file in
      match aio_read io name with Some err => Err err | None => Ok f end
  end.

Fixpoint segments_loop (io : audit_io) (d : audit_disk) (segments : list auditSegment) (keep : gset string)
    (sequence : Z) (previous : string) : result (gset string * Z * string) :=
  match segments with
  | [] => Ok (keep, sequence, previous)
  | segment :: segments =>
      let name := segment_Name segment in
      fail? negb (bool_decide (name = segment_name (wrap_uint64 (sequence + 1)))) ||
            bool_decide (name ∈ keep) || IsZero (segment_CreatedAt segment) with err_segment_order in
      let? f := audit_segment_file io d name (256 * 1024) in
      fail? bool_decide (log_lines f = []) || negb (bool_decide (log_tail f = "")) with err_truncated in
      let? (sequence, previous) := scan_loop (log_lines f) sequence previous in
      fail? negb (bool_decide (sequence = segment_LastSequence segment)) ||
            negb (bool_decide (previous = segment_LastHash segment)) with err_segment_checkpoint in
      segments_loop io d segments ({[name]} ∪ keep) sequence previous
  end.

Definition keep_always : gset string := {["state.json"; ".audit.lock"]}.

(** The files that are not part of the committed log: temporary files and
    segments that were pruned are removed, anything else is refused. *)
Fixpoint stray_loop (io : audit_io) (anchor : Z) (keep : gset string) (files : gmap string log_file)
    (entries : list (string * log_file)) : gmap string log_file * result unit :=
  match entries with
  | [] => (files, Ok tt)
  | (name, f) :: entries =>
      let remove :=
        match aio_remove io name with
        | Some err => (files, Err err)
        | None => stray_loop io anchor keep (delete name files) entries
        end in
      if bool_decide (name ∈ keep) then stray_loop io anchor keep files entries
      else if has_prefix name ".tmp-" then
        if log_regular f then remove else (files, Err err_audit_temporary)
      else
        match segment_start name with
        | None => (files, Err err_unexpected)
        | Some start =>
            if bool_decide (anchor < start)%Z then (files, Err err_unexpected)
            else if log_regular f then remove else (files, Err err_unsafe_pruned)
        end
  end.

Definition read_checkpoint (io : audit_io) (d : audit_disk) : result auditState :=
  match disk_checkpoint d with
  | None => Err ErrNotExist
  | Some f =>
      fail? negb (private f) || longer (file_content f) 65536 with err_unsafe_file in
      match aio_read io "state.json" with
      | Some err => Err err
      | None => json_strict (file_content f)
      end
  end.

(** The checks of [loadAndVerify] before it looks for stray files *)
Definition verify_committed (io : audit_io) (d : audit_disk) : result (auditState * gset string) :=
  let? state := read_checkpoint io d in
  fail? negb (bool_decide (state_Version state = 1%Z)) || bool_decide (16 < length (state_Segments state)) ||
        bool_decide (state_HeadSequence state < state_AnchorSequence state)%Z with err_checkpoint in
  fail? negb (validHash (state_AnchorSequence state) (state_AnchorHash state)) ||
        negb (validHash (state_HeadSequence state) (state_HeadHash state)) with err_checkpoint_digest in
  let? (keep, sequence, previous) :=
    segments_loop io d (state_Segments state) keep_always (state_AnchorSequence state)
      (state_AnchorHash state) in
  fail? negb (bool_decide (sequence = state_HeadSequence state)) ||
        negb (bool_decide (previous = state_HeadHash state)) with err_head in
  Ok (state, keep).

(** The two entries besides [disk_files] count towards the limit of 40. *)
Definition loadAndVerify (io : audit_io) (d : audit_disk) : audit_disk * result auditState :=
  match verify_committed io d with
  | Err err => (d, Err err)
  | Ok (state, keep) =>
      match boundedEntries (aio_readdir io) (map_to_list (disk_files d)) 38 with
      | Err err => (d, Err err)
      | Ok entries =>
          let '(files, r) := stray_loop io (state_AnchorSequence state) keep (disk_files d) entries in
          (mkAuditDisk (disk_checkpoint d) files, let? _ := r in Ok state)
      end
  end.

Definition initial_state : auditState := mkAuditState 1 0 "" 0 "" [].

Definition opened (state : auditState) (retentionDays : Z) : AuditLog :=
  mkAuditLog state (retentionDays * day) (256 * 1024) 16 None false.

(** [OpenAudit]; [prepared] is the outcome of preparing the directory and
    taking the lock. *)
Definition OpenAudit (io : audit_io) (prepared : result unit) (d : audit_disk) (retentionDays : Z) :
    audit_disk * result AuditLog :=
  let retentionDays := if bool_decide (retentionDays = 0%Z) then 7%Z else retentionDays in
  if bool_decide (retentionDays < 1)%Z || bool_decide (30 < retentionDays)%Z then (d, Err err_audit_retention)
  else
    match prepared with
    | Err err => (d, Err err)
    | Ok _ =>
        let start :=
          match disk_checkpoint d with
          | Some _ => (d, Ok tt)
          | None =>
              match boundedEntries (aio_readdir io) (map_to_list (disk_files d)) 19 with
              | Err err => (d, Err err)
              | Ok entries =>
                  if bool_decide (0 < length entries) then (d, Err err_uncommitted)
                  else
                    let '(checkpoint, written) :=
                      atomicWrite None (Some (mkPrivateFile true 384 (json_encode initial_state)))
                        (aio_commit io) in
                    (mkAuditDisk checkpoint (disk_files d), written)
              end
          end in
        match start with
        | (d, Err err) => (d, Err err)
        | (d, Ok _) =>
            match loadAndVerify io d with
            | (d, Err err) => (d, Err err)
            | (d, Ok state) => (d, Ok (opened state retentionDays))
            end
        end
    end.

Definition VerifyAudit (io : audit_io) (prepared : result unit) (d : audit_disk) (expectedHead : string) :
    audit_disk * (AuditStatus * option error) :=
  let zero := mkAuditStatus 0 "" 0 0 "" in
  match disk_checkpoint d with
  | None => (d, (zero, Some ErrNotExist))
  | Some _ =>
      match OpenAudit io prepared d 7 with
      | (d, Err err) => (d, (zero, Some err))
      | (d, Ok a) =>
          let status := Status a in
          (d, (status,
               if negb (bool_decide (expectedHead = "")) &&
                  negb (bool_decide (status_HeadHash status = expectedHead))
               then Some err_external_head else None))
      end
  end.
End audit.

(** ** Segment names *)

Lemma length_zdigits fuel : ∀ n k acc, (0 ≤ n < 10 ^ Z.of_nat (S k))%Z →
  String.length (zdigits_aux fuel n acc) ≤ S k + String.length acc.
Proof.
  induction fuel as [|fuel IH]; intros n k acc Hn; [cbn; lia|]. cbn [zdigits_aux].
  destruct (Z.eqb_spec (n / 10) 0) as [Hz|Hz]; [cbn; lia|].
  pose proof (Z.div_mod n 10 ltac:(lia)) as Hdm. pose proof (Z.mod_pos_bound n 10 ltac:(lia)).
  destruct k as [|k].
  { exfalso. change (10 ^ Z.of_nat 1)%Z with 10%Z in Hn. lia. }
  rewrite (Nat2Z.inj_succ (S k)), Z.pow_succ_r in Hn by lia.
  etrans; [apply (IH _ k)|cbn; lia]. lia.
Qed.

Lemma zeros_spec n s : String.length (zeros n s) = n + String.length s ∧
  digits_value 0 (zeros n s) = digits_value 0 s.
Proof. induction n as [|n [IH1 IH2]]; [done|]. split; [cbn; by rewrite IH1|exact IH2]. Qed.

Lemma pad20_spec n : (0 ≤ n < 2 ^ 64)%Z →
  String.length (pad20 (show_Z n)) = 20 ∧ digits_value 0 (pad20 (show_Z n)) = Some n.
Proof.
  intros Hn. unfold pad20. destruct (zeros_spec (20 - String.length (show_Z n)) (show_Z n)) as [-> ->].
  split; [|apply show_Z_value; lia]. unfold show_Z. destruct (Z.ltb_spec n 0); [lia|].
  pose proof (length_zdigits (S (Z.to_nat (Z.log2 (Z.abs n)))) n 19 "") as Hl. cbn [String.length] in *.
  rewrite Nat.add_0_r in Hl. rewrite Nat.sub_add; [done|]. apply Hl.
  change (10 ^ Z.of_nat 20)%Z with 100000000000000000000%Z. lia.
Qed.

Lemma segment_start_name n : (0 ≤ n < 2 ^ 64)%Z → segment_start (segment_name n) = Some n.
Proof.
  intros Hn. destruct (pad20_spec n Hn) as [Hlen Hval]. unfold segment_start.
  assert (string_take 20 (segment_name n) = pad20 (show_Z n)) as ->.
  { unfold segment_name. rewrite <-Hlen at 1. apply string_take_append. }
  rewrite Hval, !bool_decide_eq_true_2; [done|done|lia].
Qed.

Lemma segment_name_inj a b : (0 ≤ a < 2 ^ 64)%Z → (0 ≤ b < 2 ^ 64)%Z →
  segment_name a = segment_name b → a = b.
Proof.
  intros Ha Hb Hab. apply segment_start_name in Ha, Hb. congruence.
Qed.

Lemma segment_name_not_kept n : (0 ≤ n < 2 ^ 64)%Z → segment_name n ∉ keep_always.
Proof.
  intros Hn [E|E]%elem_of_union; apply elem_of_singleton in E; apply segment_start_name in Hn;
    rewrite E in Hn; discriminate Hn.
Qed.

Lemma segment_name_not_temporary n : (0 ≤ n < 2 ^ 64)%Z → has_prefix (segment_name n) ".tmp-" = false.
Proof.
  intros Hn. apply not_true_is_false. intros [t Ht]%has_prefix_true.
  apply segment_start_name in Hn. rewrite Ht in Hn. discriminate Hn.
Qed.

(** ** The committed log

    [verified d state]: the directory holds exactly the committed log of
    [state]: every segment in order, each line an entry of one hash chain
    from the anchor to the head, and no other file. *)

Section verified.
Context `{!Json auditEntry, !Json auditState}.
Implicit Types (files : gmap string log_file) (es : list auditEntry).

Definition reads (lines : list string) es : Prop :=
  Forall2 (λ line e, json_strict line = Ok e ∧ (Z.of_nat (String.length line) < 4096)%Z) lines es.

Inductive chain : Z → string → list auditEntry → Z → string → Prop :=
  | chain_nil s p : chain s p [] s p
  | chain_cons s p e es s' p' :
      entry_Sequence e = (s + 1)%Z → entry_Previous e = p → entry_Time e ≠ 0%Z →
      entry_Hash e = hashAuditEntry e → validateAuditEvent (entry_Event e) = Ok tt →
      chain (s + 1) (entry_Hash e) es s' p' → chain s p (e :: es) s' p'.

Definition segment_file files (s : Z) (p : string) (seg : auditSegment) (f : log_file) es : Prop :=
  segment_Name seg = segment_name (s + 1) ∧ segment_CreatedAt seg ≠ 0%Z ∧
  files !! segment_Name seg = Some f ∧ private_log f = true ∧ (file_bytes f ≤ 256 * 1024)%Z ∧
  log_tail f = "" ∧ es ≠ [] ∧ reads (log_lines f) es ∧
  chain s p es (segment_LastSequence seg) (segment_LastHash seg).

Inductive segments_ok files : Z → string → list auditSegment → Z → string → Prop :=
  | segments_nil s p : segments_ok files s p [] s p
  | segments_cons s p seg f es segs s' p' :
      segment_file files s p seg f es →
      segments_ok files (segment_LastSequence seg) (segment_LastHash seg) segs s' p' →
      segments_ok files s p (seg :: segs) s' p'.

Record structure files (state : auditState) : Prop := {
  s_version : state_Version state = 1%Z;
  s_anchor : (0 ≤ state_AnchorSequence state)%Z;
  s_head : (state_HeadSequence state < 2 ^ 64)%Z;
  s_anchor_hash : validHash (state_AnchorSequence state) (state_AnchorHash state) = true;
  s_segments : segments_ok files (state_AnchorSequence state) (state_AnchorHash state)
    (state_Segments state) (state_HeadSequence state) (state_HeadHash state);
  s_files : ∀ name, is_Some (files !! name) → name ∈ segment_Name <$> state_Segments state;
}.

Record verified (d : audit_disk) (state : auditState) : Prop := {
  v_checkpoint : ∃ f, disk_checkpoint d = Some f ∧ private f = true ∧
    longer (file_content f) 65536 = false ∧ json_strict (file_content f) = Ok state;
  v_length : length (state_Segments state) ≤ 16;
  v_structure : structure (disk_files d) state;
}.

(** *** Chains and segments *)

Lemma entries_sequence s p es s' p' : chain s p es s' p' → s' = (s + Z.of_nat (length es))%Z.
Proof. induction 1; cbn [length]; lia. Qed.

Lemma chain_snoc s p es s' p' e :
  chain s p es s' p' → entry_Sequence e = (s' + 1)%Z → entry_Previous e = p' → entry_Time e ≠ 0%Z →
  entry_Hash e = hashAuditEntry e → validateAuditEvent (entry_Event e) = Ok tt →
  chain s p (es ++ [e]) (s' + 1) (entry_Hash e).
Proof. induction 1; intros; cbn [app]; [|constructor; auto]. constructor; [done..|constructor]. Qed.

Lemma validHash_hash s x : s ≠ 0%Z → validHash s (sha256_hex x) = true.
Proof. intros Hs. unfold validHash. rewrite bool_decide_eq_false_2 by done. apply digest_text_sha256. Qed.

Lemma chain_hash s p es s' p' : (0 ≤ s)%Z → validHash s p = true → chain s p es s' p' → validHash s' p' = true.
Proof.
  intros Hs Hv Hc. induction Hc as [|s p e es s' p' Hseq _ _ Hh _ _ IH]; [done|].
  apply IH; [lia|]. rewrite Hh. apply validHash_hash. lia.
Qed.

Lemma segments_sequence files s p segs s' p' : segments_ok files s p segs s' p' → (s ≤ s')%Z.
Proof.
  induction 1 as [|s p seg f es segs s' p' Hf _ IH]; [lia|].
  destruct Hf as (_ & _ & _ & _ & _ & _ & _ & _ & Hc). apply entries_sequence in Hc. lia.
Qed.

Lemma segments_hash files s p segs s' p' : (0 ≤ s)%Z → validHash s p = true →
  segments_ok files s p segs s' p' → validHash s' p' = true.
Proof.
  intros Hs Hv Hok. induction Hok as [|s p seg f es segs s' p' Hf _ IH]; [done|].
  destruct Hf as (_ & _ & _ & _ & _ & _ & _ & _ & Hc). apply IH; [|by eapply chain_hash].
  apply entries_sequence in Hc. lia.
Qed.

(** The names of the segments lie between the sequence numbers. *)
Lemma segments_names files s p segs s' p' name : segments_ok files s p segs s' p' →
  name ∈ segment_Name <$> segs → ∃ n, name = segment_name n ∧ (s < n ≤ s')%Z.
Proof.
  induction 1 as [|s p seg f es segs s' p' Hf Hok IH]; [set_solver|].
  destruct Hf as (Hname & _ & _ & _ & _ & _ & Hne & _ & Hc). apply entries_sequence in Hc.
  apply segments_sequence in Hok. intros [->|Hin]%elem_of_cons.
  - exists (s + 1)%Z. split; [done|]. destruct es; [done|]. cbn [length] in Hc. lia.
  - destruct (IH Hin) as (n & -> & Hn). exists n. split; [done|lia].
Qed.

Lemma segments_app files s p l1 l2 s' p' : segments_ok files s p (l1 ++ l2) s' p' ↔
  ∃ m q, segments_ok files s p l1 m q ∧ segments_ok files m q l2 s' p'.
Proof.
  split.
  - revert s p. induction l1 as [|seg l1 IH]; intros s p Hok; cbn in *.
    + exists s, p. split; [constructor|done].
    + inversion Hok; subst. destruct (IH _ _ ltac:(done)) as (m & q & H1 & H2).
      exists m, q. split; [by econstructor|done].
  - intros (m & q & H1 & H2). induction H1; [done|]. cbn. econstructor; eauto.
Qed.

(** Only the files of the segments matter. *)
Lemma segments_frame files files' s p segs s' p' : segments_ok files s p segs s' p' →
  (∀ name, name ∈ segment_Name <$> segs → files' !! name = files !! name) →
  segments_ok files' s p segs s' p'.
Proof.
  induction 1 as [|s p seg f es segs s' p' Hf Hok IH]; intros Hfr; [constructor|].
  eapply (segments_cons _ _ _ _ f es).
  - destruct Hf as (Hname & Hct & Hlook & Hrest). unfold segment_file.
    rewrite Hfr by (by left). done.
  - apply IH. intros name Hin. apply Hfr. by right.
Qed.

(** *** Verification succeeds on a committed log *)

Lemma scan_loop_chain lines : ∀ es s p s' p', (0 ≤ s)%Z → (s' < 2 ^ 64)%Z →
  reads lines es → chain s p es s' p' → scan_loop lines s p = Ok (s', p').
Proof.
  induction lines as [|line lines IH]; intros es s p s' p' Hs Hs' Hr Hc;
    inversion Hr as [|? e ? es' [Hj Hlen] Hr']; subst; inversion Hc; subst; [done|].
  cbn [scan_loop]. rewrite bool_decide_eq_false_2 by lia. rewrite Hj. cbn [rbind].
  match goal with H : chain _ _ _ _ _ |- _ => pose proof (entries_sequence _ _ _ _ _ H) as Hn end.
  assert (wrap_uint64 (s + 1) = s + 1)%Z as -> by (apply Z.mod_small; cbn [length] in *; lia).
  unfold IsZero. rewrite (bool_decide_eq_true_2 (entry_Sequence e = _)),
    (bool_decide_eq_true_2 (entry_Previous e = _)), (bool_decide_eq_true_2 (entry_Hash e = _)),
    (bool_decide_eq_false_2 (entry_Time e = _)) by done. cbn.
  match goal with H : validateAuditEvent _ = _ |- _ => rewrite H end. cbn.
  match goal with H : entry_Sequence _ = _ |- _ => rewrite H end. eapply IH; [lia|done|done|done].
Qed.

Definition io_reads (io : audit_io) : Prop :=
  (∀ n, aio_read io n = None) ∧ (∀ n, aio_remove io n = None) ∧ aio_readdir io = None.

Lemma segments_loop_ok io d segs : ∀ s p s' p' keep, io_reads io → (0 ≤ s)%Z → (s' < 2 ^ 64)%Z →
  (∀ n, (s < n ≤ s')%Z → segment_name n ∉ keep) →
  segments_ok (disk_files d) s p segs s' p' →
  segments_loop io d segs keep s p = Ok (list_to_set (segment_Name <$> segs) ∪ keep, s', p').
Proof.
  induction segs as [|seg segs IH]; intros s p s' p' keep Hio Hs Hs' Hkeep Hok.
  { inversion Hok; subst. cbn. do 3 f_equal. set_solver. }
  inversion Hok as [|? ? ? f es ? ? ? Hf Hok']; subst.
  destruct Hf as (Hname & Hct & Hlook & Hp & Hb & Htail & Hne & Hr & Hc).
  pose proof (entries_sequence _ _ _ _ _ Hc) as Hseq. pose proof (segments_sequence _ _ _ _ _ _ Hok') as Hle.
  assert (0 < Z.of_nat (length es))%Z as Hpos by (destruct es; [done|cbn [length]; lia]).
  cbn [segments_loop]. unfold audit_segment_file, IsZero. rewrite Hlook, Hp.
  assert (wrap_uint64 (s + 1) = s + 1)%Z as -> by (apply Z.mod_small; lia).
  rewrite (bool_decide_eq_true_2 (segment_Name seg = _)), (bool_decide_eq_false_2 (segment_Name seg ∈ keep)),
    (bool_decide_eq_false_2 (segment_CreatedAt seg = _)), (bool_decide_eq_false_2 (_ < file_bytes f)%Z)
    by (try done; try lia; rewrite Hname; apply Hkeep; lia).
  cbn [negb orb]. destruct Hio as (Hread & Hio'). rewrite Hread. cbn [rbind]. rewrite Htail.
  rewrite (bool_decide_eq_false_2 (log_lines f = [])) by (intros E; rewrite E in Hr; by inversion Hr; subst).
  cbn. rewrite (scan_loop_chain _ es _ _ (segment_LastSequence seg) (segment_LastHash seg)) by (done || lia).
  cbn. rewrite (bool_decide_eq_true_2 (segment_LastSequence seg = _)),
    (bool_decide_eq_true_2 (segment_LastHash seg = _)) by done. cbn.
  rewrite (IH _ _ s' p'); try done; [|lia|].
  - do 3 f_equal. set_solver.
  - intros n Hn [Hin|Hin]%elem_of_union; [|by apply (Hkeep n); [lia|]].
    apply elem_of_singleton in Hin. rewrite Hname in Hin. apply segment_name_inj in Hin; lia.
Qed.

Lemma stray_loop_kept io anchor keep files entries :
  Forall (λ e, e.1 ∈ keep) entries → stray_loop io anchor keep files entries = (files, Ok tt).
Proof.
  induction 1 as [|[name f] entries Hin _ IH]; [done|]. cbn in *.
  by rewrite bool_decide_eq_true_2.
Qed.

Lemma verify_committed_ok io d state : io_reads io → verified d state →
  verify_committed io d = Ok (state, list_to_set (segment_Name <$> state_Segments state) ∪ keep_always).
Proof.
  intros Hio [(f & Hck & Hpf & Hlen & Hj) Hsegs [Hver Hanc Hhead Hah Hok _]].
  pose proof (segments_sequence _ _ _ _ _ _ Hok) as Hle.
  pose proof (segments_hash _ _ _ _ _ _ Hanc Hah Hok) as Hhh.
  unfold verify_committed, read_checkpoint. rewrite Hck, Hpf, Hlen. cbn [negb orb].
  pose proof Hio as [Hread _]. rewrite Hread, Hj. cbn [rbind]. rewrite Hver, Hah, Hhh.
  rewrite bool_decide_eq_true_2, !bool_decide_eq_false_2 by (done || lia). cbn [negb orb].
  erewrite segments_loop_ok; try done.
  - cbn. by rewrite !bool_decide_eq_true_2.
  - intros n Hn. apply segment_name_not_kept. lia.
Qed.

Lemma names_bound d state : verified d state → size (disk_files d) ≤ length (state_Segments state).
Proof.
  intros [_ _ [_ _ _ _ _ Hfiles]]. rewrite <-length_map_to_list, <-(length_fmap fst), <-(length_fmap segment_Name).
  apply submseteq_length, NoDup_submseteq; [apply NoDup_fst_map_to_list|].
  intros name ([n f] & -> & Hin)%list_elem_of_fmap. apply elem_of_map_to_list in Hin. apply Hfiles. eauto.
Qed.

Lemma loadAndVerify_ok io d state : io_reads io → verified d state →
  loadAndVerify io d = (d, Ok state).
Proof.
  intros Hio Hv. unfold loadAndVerify. rewrite (verify_committed_ok io d state Hio Hv).
  pose proof Hio as (_ & _ & Hdir). unfold boundedEntries. rewrite Hdir, bool_decide_eq_false_2.
  - rewrite stray_loop_kept; [by destruct d|]. apply Forall_forall. intros [name f] Hin%elem_of_map_to_list.
    apply elem_of_union_l, elem_of_list_to_set. cbn. apply (s_files _ _ (v_structure _ _ Hv)). eauto.
  - rewrite length_map_to_list. pose proof (names_bound d state Hv). pose proof (v_length d state Hv). lia.
Qed.
(** *** Pruning and committing *)

Definition anchor_after (s : Z) (p : string) (segs : list auditSegment) : Z * string :=
  match last segs with Some seg => (segment_LastSequence seg, segment_LastHash seg) | None => (s, p) end.

Lemma segments_last files s p segs s' p' : segments_ok files s p segs s' p' → (s', p') = anchor_after s p segs.
Proof.
  induction 1 as [|s p seg f es segs s' p' _ _ IH]; [done|]. rewrite IH. unfold anchor_after.
  rewrite last_cons. by destruct (last segs).
Qed.

Lemma pruned_loop_spec max cutoff segs : ∀ state removed state' removed',
  prune_loop max cutoff state segs removed = (state', removed') →
  ∃ l1 l2, segs = l1 ++ l2 ∧ removed' = removed ++ (segment_Name <$> l1) ∧ length l2 ≤ max ∧
    let anchor := anchor_after (state_AnchorSequence state) (state_AnchorHash state) l1 in
    state' = mkAuditState (state_Version state) anchor.1 anchor.2 (state_HeadSequence state)
               (state_HeadHash state) l2.
Proof.
  induction segs as [|seg segs IH]; intros state removed state' removed' Hp; cbn [prune_loop] in Hp.
  { injection Hp as <- <-. exists [], [].
    split_and!; [done|symmetry; apply app_nil_r|cbn; lia|done]. }
  destruct (bool_decide (max < length (seg :: segs)) || _) eqn:E.
  - apply IH in Hp as (l1 & l2 & -> & -> & Hlen & ->). exists (seg :: l1), l2.
    split_and!; [done|by rewrite <-app_assoc|done|]. unfold anchor_after. rewrite last_cons.
    by destruct (last l1).
  - injection Hp as <- <-. exists [], (seg :: segs). bool_prop.
    split_and!; [done|symmetry; apply app_nil_r|lia|done].
Qed.

Lemma remove_files_spec fail names : ∀ files files', remove_files fail files names = (files', Ok tt) →
  ∀ n, files' !! n = if bool_decide (n ∈ names) then None else files !! n.
Proof.
  induction names as [|name names IH]; intros files files' Hr n; cbn in Hr.
  { injection Hr as ->. rewrite bool_decide_eq_false_2; [done|]. apply not_elem_of_nil. }
  destruct (files !! name) eqn:Hl; [destruct (fail name); [done|]|]; rewrite (IH _ _ Hr n);
    destruct (decide (n = name)) as [->|Hne].
  - rewrite lookup_delete_eq, (bool_decide_eq_true_2 (name ∈ name :: names)) by (by left).
    by destruct (bool_decide _).
  - rewrite lookup_delete_ne by done.
    by rewrite (bool_decide_ext (n ∈ name :: names) (n ∈ names)) by set_solver.
  - rewrite Hl, (bool_decide_eq_true_2 (name ∈ name :: names)) by (by left). by destruct (bool_decide _).
  - by rewrite (bool_decide_ext (n ∈ name :: names) (n ∈ names)) by set_solver.
Qed.

Lemma structure_pruned files files' state l1 l2 :
  structure files state → state_Segments state = l1 ++ l2 →
  (∀ n, files' !! n = if bool_decide (n ∈ segment_Name <$> l1) then None else files !! n) →
  let anchor := anchor_after (state_AnchorSequence state) (state_AnchorHash state) l1 in
  structure files' (mkAuditState (state_Version state) anchor.1 anchor.2 (state_HeadSequence state)
                      (state_HeadHash state) l2).
Proof.
  intros [Hver Hanc Hhead Hah Hok Hfiles] Hsegs Hf. rewrite Hsegs in *.
  apply segments_app in Hok as (m & q & H1 & H2). cbn zeta. rewrite <-(segments_last _ _ _ _ _ _ H1).
  pose proof (segments_sequence _ _ _ _ _ _ H1) as Hle. pose proof (segments_sequence _ _ _ _ _ _ H2) as Hle2.
  split; cbn; [done|lia|done|by eapply segments_hash| |].
  - eapply segments_frame; [done|]. intros name Hin. rewrite Hf, bool_decide_eq_false_2; [done|].
    intros Hin1. destruct (segments_names _ _ _ _ _ _ _ H1 Hin1) as (n1 & -> & Hn1).
    destruct (segments_names _ _ _ _ _ _ _ H2 Hin) as (n2 & Heq & Hn2).
    apply segment_name_inj in Heq; lia.
  - intros name [f Hl]. rewrite Hf in Hl. case_bool_decide as Hnot; [done|].
    destruct (elem_of_app (segment_Name <$> l1) (segment_Name <$> l2) name) as [Happ _].
    destruct Happ as [?|?]; [|done..]. rewrite <-fmap_app. apply Hfiles. eauto.
Qed.

Definition encodable (state : auditState) : Prop :=
  json_valid state ∧ longer (json_encode state) 65536 = false.

Lemma commit_verified io a d state now next removed a' d' :
  structure (disk_files d) state → log_maxSegments a = 16 → pruned a now state = (next, removed) →
  encodable next → commit io a d next removed = (a', d', Ok tt) →
  verified d' next ∧ a' = with_state a next.
Proof.
  intros Hst Hmax Hpr [Hvalid Hsize] Hc. unfold pruned in Hpr. rewrite Hmax in Hpr.
  apply pruned_loop_spec in Hpr as (l1 & l2 & Hsegs & -> & Hlen & Hnext). unfold commit in Hc.
  destruct (aio_commit io); cbn [atomicWrite] in Hc; try done. cbn [disk_files] in Hc.
  destruct (remove_files _ _ _) as [files r] eqn:Hrm. destruct r as [[]|]; [|done].
  destruct (aio_sync io); [done|]. injection Hc as <- <-. split; [|done].
  pose proof (remove_files_spec _ _ _ _ Hrm) as Hfiles.
  split; cbn.
  - eexists. split; [done|]. split_and!; [done|done|by apply json_strict_roundtrip].
  - rewrite Hnext. cbn. done.
  - rewrite Hnext. by apply (structure_pruned (disk_files d)).
Qed.
(** *** Appending a line *)

Lemma file_bytes_nonneg lines : (0 ≤ foldr (λ line n, Z.of_nat (String.length line) + 1 + n) 0 lines)%Z.
Proof. induction lines as [|l lines IH]; cbn; lia. Qed.

Lemma file_bytes_append f line : log_tail f = "" →
  file_bytes (mkLogFile (log_regular f) (log_perm f) (log_lines f ++ [log_tail f +:+ line]) "") =
  (file_bytes f + (Z.of_nat (String.length line) + 1))%Z.
Proof.
  intros Ht. unfold file_bytes. cbn [log_lines log_tail]. rewrite Ht. cbn [String.length].
  change ("" +:+ line) with line.
  induction (log_lines f) as [|l lines IH]; [cbn; lia|]. cbn [app foldr] in *. lia.
Qed.

Lemma set_last_snoc l s sequence hash :
  set_last (l ++ [s]) sequence hash = l ++ [mkAuditSegment (segment_Name s) (segment_CreatedAt s) sequence hash].
Proof.
  unfold set_last. rewrite last_snoc, length_app, Nat.add_comm. cbn [pred length Nat.add].
  by rewrite take_app_length.
Qed.

Lemma new_entry_chain now state event : (0 ≤ state_HeadSequence state)%Z →
  (state_HeadSequence state + 1 < 2 ^ 64)%Z → now ≠ 0%Z → validateAuditEvent event = Ok tt →
  let e := new_entry now state event in
  entry_Sequence e = (state_HeadSequence state + 1)%Z ∧ entry_Previous e = state_HeadHash state ∧
  entry_Time e ≠ 0%Z ∧ entry_Hash e = hashAuditEntry e ∧ validateAuditEvent (entry_Event e) = Ok tt.
Proof. intros Hh Hb Hn He. split_and!; try done. apply Z.mod_small. lia. Qed.

(** The file and the segments after a line was written *)
Definition line_file files (create : bool) (name line : string) : log_file :=
  let f := if create then empty_log_file else default empty_log_file (files !! name) in
  mkLogFile (log_regular f) (log_perm f) (log_lines f ++ [log_tail f +:+ line]) "".

Lemma structure_new_segment files state now event :
  structure files state → (state_HeadSequence state + 1 < 2 ^ 64)%Z → now ≠ 0%Z →
  validateAuditEvent event = Ok tt →
  let e := new_entry now state event in
  let line := json_encode e in
  json_valid e → (Z.of_nat (String.length line) + 1 ≤ 4096)%Z →
  let name := segment_name (entry_Sequence e) in
  structure (<[name := line_file files true name line]> files)
    (appended_state state (next_segments state true e) e).
Proof.
  intros [Hver Hanc Hhead Hah Hok Hfiles] Hb Hnow Hev e line Hjson Hlen name.
  pose proof (segments_sequence _ _ _ _ _ _ Hok) as Hle.
  destruct (new_entry_chain now state event) as (Hs & Hp & Ht & Hh & Hv); [lia|done..|]. fold e in Hs, Hp, Ht, Hh, Hv.
  clearbody e.
  unfold next_segments, appended_state. rewrite set_last_snoc. cbn [segment_Name segment_CreatedAt].
  split; cbn; [done|done|lia|done| |].
  - apply segments_app. exists (state_HeadSequence state), (state_HeadHash state). split.
    + eapply segments_frame; [done|]. intros n Hin.
      destruct (segments_names _ _ _ _ _ _ _ Hok Hin) as (k & -> & Hk).
      apply lookup_insert_ne. unfold name. intros Heq%segment_name_inj; lia.
    + eapply (segments_cons _ _ _ _ (line_file files true name line) [e]); [|constructor].
      unfold segment_file. cbn. split_and!; try done.
      * unfold name. by rewrite Hs.
      * by rewrite lookup_insert_eq.
      * unfold file_bytes, line_file. cbn. change ("" +:+ line) with line. lia.
      * constructor; [|constructor]. split; [by apply json_strict_roundtrip|]. change ("" +:+ line) with line. lia.
      * rewrite Hs. constructor; [done..|constructor].
  - intros n [f Hl]. rewrite fmap_app. apply elem_of_app.
    apply lookup_insert_Some in Hl as [[<- _]|[_ Hl]]; [right|left; apply Hfiles; eauto].
    cbn. by apply list_elem_of_singleton.
Qed.

Lemma structure_same_segment files state now event f segs seg :
  structure files state → (state_HeadSequence state + 1 < 2 ^ 64)%Z → now ≠ 0%Z →
  validateAuditEvent event = Ok tt →
  let e := new_entry now state event in
  let line := json_encode e in
  json_valid e → (Z.of_nat (String.length line) + 1 ≤ 4096)%Z →
  state_Segments state = segs ++ [seg] → files !! segment_Name seg = Some f →
  (file_bytes f + (Z.of_nat (String.length line) + 1) ≤ 256 * 1024)%Z →
  structure (<[segment_Name seg := line_file files false (segment_Name seg) line]> files)
    (appended_state state (next_segments state false e) e).
Proof.
  intros [Hver Hanc Hhead Hah Hok Hfiles] Hb Hnow Hev e line Hjson Hlen Hsegs Hf Hbytes.
  pose proof (segments_sequence _ _ _ _ _ _ Hok) as Hle.
  destruct (new_entry_chain now state event) as (Hs & Hp & Ht & Hh & Hv); [lia|done..|]. fold e in Hs, Hp, Ht, Hh, Hv.
  clearbody e.
  unfold next_segments, appended_state. rewrite Hsegs in *. rewrite set_last_snoc.
  apply segments_app in Hok as (m & q & H1 & H2).
  pose proof (segments_sequence _ _ _ _ _ _ H1) as Hle1.
  inversion H2 as [|? ? ? f' es ? ? ? Hseg H3]; subst. inversion H3; subst.
  destruct Hseg as (Hname & Hct & Hlook & Hpr & Hfb & Htail & Hne & Hr & Hc).
  rewrite Hf in Hlook. injection Hlook as <-. pose proof (entries_sequence _ _ _ _ _ Hc) as Hcs.
  split; cbn; [done|done|lia|done| |].
  - apply segments_app. exists m, q. split.
    + eapply segments_frame; [done|]. intros n Hin.
      destruct (segments_names _ _ _ _ _ _ _ H1 Hin) as (k & -> & Hk).
      apply lookup_insert_ne. rewrite Hname. intros Heq%segment_name_inj; lia.
    + eapply (segments_cons _ _ _ _ (line_file files false (segment_Name seg) line) (es ++ [e])); [|constructor].
      unfold segment_file, line_file. rewrite Hf. cbn [default from_option id].
      cbn [segment_Name segment_CreatedAt segment_LastSequence segment_LastHash log_lines].
      rewrite file_bytes_append by done. split_and!; try done; [by rewrite lookup_insert_eq| | |].
      * by destruct es.
      * apply Forall2_app; [done|]. rewrite Htail. constructor; [|constructor].
        split; [by apply json_strict_roundtrip|]. change ("" +:+ line) with line. lia.
      * rewrite Hs. replace (state_HeadSequence state) with (segment_LastSequence seg) by congruence.
        eapply chain_snoc; try done; congruence.
  - intros n Hl. rewrite fmap_app. cbn. rewrite fmap_app in Hfiles. cbn in Hfiles.
    apply Hfiles. destruct Hl as [g Hl]. apply lookup_insert_Some in Hl as [[<- _]|[_ Hl]]; eauto.
Qed.
(** *** Append as a whole *)

Lemma last_Some_snoc {A} (l : list A) x : last l = Some x → ∃ l', l = l' ++ [x].
Proof. intros [l' ->]%last_Some. eauto. Qed.

Lemma commit_state io a d next removed a' d' :
  commit io a d next removed = (a', d', Ok tt) → log_state a' = next.
Proof.
  unfold commit. destruct (aio_commit io); cbn [atomicWrite]; try done.
  destruct (remove_files _ _ _) as [fs [[]|]]; [|done]. destruct (aio_sync io); [done|]. by intros [= <- _].
Qed.

(** An append that gets as far as writing its line: the structure it leaves *)
Lemma append_line_structure io a d event create name f :
  verified d (log_state a) → log_segmentBytes a = (256 * 1024)%Z →
  (state_HeadSequence (log_state a) + 1 < 2 ^ 64)%Z → aio_now_entry io ≠ 0%Z →
  validateAuditEvent event = Ok tt →
  let e := new_entry (aio_now_entry io) (log_state a) event in
  let line := json_encode e in
  json_valid e → (Z.of_nat (String.length line) + 1 ≤ 4096)%Z →
  needs_segment io a d (Z.of_nat (String.length line) + 1) = Ok create →
  name = current_name (next_segments (log_state a) create e) →
  open_segment io d name create = Ok f →
  structure (disk_files (with_log_file d name (write_line LineWritten f line).1))
    (appended_state (log_state a) (next_segments (log_state a) create e) e).
Proof.
  intros [_ _ Hst] Hbytes Hb Hnow Hev e line Hjson Hlen Hneeds Hname Hopen.
  unfold needs_segment in Hneeds. unfold open_segment in Hopen. destruct (aio_open io); [done|].
  destruct create.
  - assert (name = segment_name (entry_Sequence e)) as ->.
    { rewrite Hname. unfold next_segments, current_name. by rewrite last_snoc. }
    destruct (disk_files d !! _) eqn:Hl; [done|]. injection Hopen as <-.
    by apply structure_new_segment.
  - destruct (last (state_Segments (log_state a))) as [seg|] eqn:Hlast; [|done].
    assert (name = segment_Name seg) as ->.
    { rewrite Hname. unfold next_segments, current_name. by rewrite Hlast. }
    destruct (aio_lstat io); [done|]. destruct (disk_files d !! segment_Name seg) as [g|] eqn:Hl; [|done].
    injection Hopen as <-. destruct (negb (private_log g)); [done|]. injection Hneeds as Hneeds.
    apply orb_false_iff in Hneeds as [Hsize%bool_decide_eq_false _].
    destruct (last_Some_snoc _ _ Hlast) as [segs Hsegs].
    pose proof (structure_same_segment _ _ (aio_now_entry io) event g segs seg Hst Hb Hnow Hev Hjson Hlen
      Hsegs Hl) as Hgoal.
    unfold line_file in Hgoal. rewrite Hl in Hgoal. apply Hgoal. fold e line. lia.
Qed.

Lemma Append_verified io a d event a' d' :
  verified d (log_state a) → log_maxSegments a = 16 → log_segmentBytes a = (256 * 1024)%Z →
  (state_HeadSequence (log_state a) + 1 < 2 ^ 64)%Z → aio_now_entry io ≠ 0%Z →
  json_valid (new_entry (aio_now_entry io) (log_state a) event) → encodable (log_state a') →
  Append io a d event = (a', d', Ok tt) →
  verified d' (log_state a') ∧ a' = with_state a (log_state a') ∧
  state_HeadSequence (log_state a') = (state_HeadSequence (log_state a) + 1)%Z.
Proof.
  intros Hv Hmax Hbytes Hb Hnow Hjson Henc Hrun. unfold Append in Hrun.
  destruct (log_closed a); [done|]. destruct (log_fault a); [done|].
  destruct (validateAuditEvent event) as [[]|] eqn:Hev; [|done]. cbn zeta in Hrun.
  destruct (bool_decide (4096 < _)%Z) eqn:Hlen; [done|]. apply bool_decide_eq_false in Hlen.
  destruct (needs_segment _ _ _ _) as [create|] eqn:Hneeds; [|done].
  destruct (open_segment _ _ _ _) as [f|] eqn:Hopen; [|done].
  destruct (aio_line io) eqn:Hline; cbn [write_line] in Hrun; try done.
  destruct (pruned _ _ _) as [next removed] eqn:Hpr.
  destruct (commit _ _ _ _ _) as [[a2 d2] [[]|]] eqn:Hc; [|done]. injection Hrun as -> ->.
  pose proof (commit_state _ _ _ _ _ _ _ Hc) as Hnext.
  pose proof (append_line_structure _ _ _ _ _ _ _ Hv Hbytes Hb Hnow Hev Hjson ltac:(lia) Hneeds eq_refl Hopen) as Hst.
  rewrite Hnext in Henc.
  eapply commit_verified in Hc as [Hv' Ha']; [|exact Hst|done|exact Hpr|done].
  rewrite Hnext. split_and!; [done|done|].
  unfold pruned in Hpr. apply pruned_loop_spec in Hpr as (l1 & l2 & _ & _ & _ & ->). cbn.
  apply Z.mod_small. destruct Hv as [_ _ [_ Hanc _ _ Hok _]].
  apply segments_sequence in Hok. lia.
Qed.

Lemma Purge_verified io a d a' d' :
  verified d (log_state a) → log_maxSegments a = 16 → encodable (log_state a') →
  PurgeExpired io a d = (a', d', Ok tt) →
  verified d' (log_state a') ∧ a' = with_state a (log_state a') ∧
  state_HeadSequence (log_state a') = state_HeadSequence (log_state a).
Proof.
  intros Hv Hmax Henc Hrun. unfold PurgeExpired in Hrun.
  destruct (log_closed a); [done|]. destruct (log_fault a); [done|].
  destruct (pruned _ _ _) as [next removed] eqn:Hpr.
  destruct removed as [|name removed]; [injection Hrun as <- <-; by destruct a|].
  destruct (commit _ _ _ _ _) as [[a2 d2] [[]|]] eqn:Hc; [|done]. injection Hrun as -> ->.
  pose proof (commit_state _ _ _ _ _ _ _ Hc) as Hnext.
  rewrite Hnext in Henc.
  eapply commit_verified in Hc as [Hv' Ha']; [|by apply v_structure|done|exact Hpr|done].
  rewrite Hnext. split_and!; [done|done|].
  unfold pruned in Hpr. by apply pruned_loop_spec in Hpr as (l1 & l2 & _ & _ & _ & ->).
Qed.
(** *** Histories *)

(** The histories of an audit directory in which no file operation failed:
    it is opened empty, events are appended, old segments are purged, the
    retention changes, the log is closed and opened again.  [n] counts the
    appended events. *)
Inductive history : AuditLog → audit_disk → nat → Prop :=
  | history_open io d days d' a :
      disk_checkpoint d = None → io_reads io → encodable initial_state →
      OpenAudit io (Ok tt) d days = (d', Ok a) → history a d' 0
  | history_append io a d n event a' d' :
      history a d n → Append io a d event = (a', d', Ok tt) →
      aio_now_entry io ≠ 0%Z → json_valid (new_entry (aio_now_entry io) (log_state a) event) →
      encodable (log_state a') → history a' d' (S n)
  | history_purge io a d n a' d' :
      history a d n → PurgeExpired io a d = (a', d', Ok tt) → encodable (log_state a') → history a' d' n
  | history_retention a d n days : history a d n → history (SetRetention a days) d n
  | history_reopen io a d n days d' a' :
      history a d n → io_reads io → OpenAudit io (Ok tt) d days = (d', Ok a') → history a' d' n.

Definition log_ok (a : AuditLog) (d : audit_disk) (n : nat) : Prop :=
  verified d (log_state a) ∧ log_maxSegments a = 16 ∧ log_segmentBytes a = (256 * 1024)%Z ∧
  state_HeadSequence (log_state a) = Z.of_nat n.

Lemma initial_verified d : disk_files d = ∅ → encodable initial_state →
  verified (mkAuditDisk (Some (mkPrivateFile true 384 (json_encode initial_state))) (disk_files d)) initial_state.
Proof.
  intros Hd [Hj Hl]. split; [|cbn; lia|].
  - eexists. split; [done|]. split_and!; [done|done|]. by apply json_strict_roundtrip.
  - cbn. rewrite Hd. split; try done; [constructor|]. by intros name [? Hx].
Qed.

Lemma reopen_verified io d state days : io_reads io → verified d state →
  OpenAudit io (Ok tt) d days =
    if bool_decide ((if bool_decide (days = 0%Z) then 7 else days) < 1)%Z ||
       bool_decide (30 < (if bool_decide (days = 0%Z) then 7 else days))%Z
    then (d, Err err_audit_retention)
    else (d, Ok (opened state (if bool_decide (days = 0%Z) then 7%Z else days))).
Proof.
  intros Hio Hv. unfold OpenAudit. cbn zeta. destruct (_ || _); [done|].
  pose proof (v_checkpoint _ _ Hv) as (f & Hf & _). rewrite Hf.
  by rewrite (loadAndVerify_ok io d state Hio Hv).
Qed.

Lemma open_empty io d days d' a : disk_checkpoint d = None → io_reads io → encodable initial_state →
  OpenAudit io (Ok tt) d days = (d', Ok a) → log_ok a d' 0.
Proof.
  intros Hck Hio Henc Hopen. unfold OpenAudit in Hopen. cbn zeta in Hopen. destruct (_ || _); [done|].
  rewrite Hck in Hopen. unfold boundedEntries in Hopen. pose proof Hio as (_ & _ & Hdir). rewrite Hdir in Hopen.
  destruct (bool_decide (19 < _)); [done|]. destruct (bool_decide (0 < _)) eqn:Hne; [done|].
  destruct (aio_commit io); cbn [atomicWrite] in Hopen; try done.
  assert (disk_files d = ∅) as Hempty.
  { apply bool_decide_eq_false in Hne. apply map_to_list_empty_iff. destruct (map_to_list _); [done|cbn in Hne; lia]. }
  rewrite (loadAndVerify_ok io _ initial_state Hio) in Hopen by by apply initial_verified.
  injection Hopen as <- <-. split_and!; [by apply initial_verified|done..].
Qed.

Lemma history_ok a d n : history a d n → (Z.of_nat n < 2 ^ 64)%Z → log_ok a d n.
Proof.
  induction 1 as [io d days d' a Hck Hio Henc Hopen|io a d n event a' d' _ IH Hrun Hnow Hj Henc|
    io a d n a' d' _ IH Hrun Henc|a d n days _ IH|io a d n days d' a' _ IH Hio Hopen]; intros Hn.
  - by eapply open_empty.
  - destruct IH as (Hv & Hmax & Hbytes & Hhead); [lia|].
    destruct (Append_verified _ _ _ _ _ _ Hv Hmax Hbytes ltac:(lia) Hnow Hj Henc Hrun) as (Hv' & Ha' & Hh).
    rewrite Ha' in *. split_and!; try done. rewrite Hh, Hhead. lia.
  - destruct IH as (Hv & Hmax & Hbytes & Hhead); [done|].
    destruct (Purge_verified _ _ _ _ _ Hv Hmax Henc Hrun) as (Hv' & Ha' & Hh).
    rewrite Ha' in *. split_and!; try done. by rewrite Hh.
  - by apply IH.
  - destruct IH as (Hv & Hmax & Hbytes & Hhead); [done|].
    rewrite (reopen_verified _ _ _ _ Hio Hv) in Hopen. destruct (_ || _); [done|].
    injection Hopen as <- <-. by split_and!.
Qed.

(** C14: the audit log survives being closed.  After any history of opening,
    appending, purging by age or number and reopening in which no file
    operation failed, fewer than 2^64 events long, the directory still
    verifies: reopening it with any allowed retention succeeds, removes
    nothing, gives back the committed state, and the head counts every event
    ever appended, those already purged included. *)
Theorem audit_reopens a d n io days (Hhistory : history a d n) (Hn : (Z.of_nat n < 2 ^ 64)%Z)
    (Hio : io_reads io) (Hdays : (1 ≤ days ≤ 30)%Z) :
  ∃ a', OpenAudit io (Ok tt) d days = (d, Ok a') ∧ log_state a' = log_state a ∧
    status_Sequence (Status a') = Z.of_nat n ∧ (status_RetainedSegments (Status a') ≤ 16)%Z.
Proof.
  destruct (history_ok _ _ _ Hhistory Hn) as (Hv & _ & _ & Hhead).
  rewrite (reopen_verified _ _ _ _ Hio Hv), (bool_decide_eq_false_2 (days = 0%Z)) by lia.
  rewrite !bool_decide_eq_false_2 by lia. cbn [orb].
  eexists. split; [done|]. split; [done|]. split; [done|]. cbn. pose proof (v_length _ _ Hv). lia.
Qed.
(** *** Interrupted appends *)

Lemma scan_loop_app l1 l2 : ∀ s p,
  scan_loop (l1 ++ l2) s p = rbind (scan_loop l1 s p) (λ '(s, p), scan_loop l2 s p).
Proof.
  induction l1 as [|line l1 IH]; intros s p; [done|]. cbn [app scan_loop].
  destruct (bool_decide _); [done|]. destruct (json_strict line) as [e|]; [|done]. cbn [rbind].
  destruct (_ || _ || _ || _); [done|]. destruct (validateAuditEvent _); [|done]. cbn [rbind]. apply IH.
Qed.

Lemma scan_one_advances line s p s' p' : scan_loop [line] s p = Ok (s', p') → s' = wrap_uint64 (s + 1).
Proof.
  cbn. destruct (bool_decide _); [done|]. destruct (json_strict line) as [e|]; [|done]. cbn [rbind].
  destruct (_ || _ || _ || _) eqn:E; [done|]. destruct (validateAuditEvent _); [|done]. cbn [rbind].
  intros [= <- _]. apply orb_false_iff in E as [[[E _]%orb_false_iff _]%orb_false_iff _]. by bool_prop.
Qed.

(** What a successful pass over the segments has seen *)
Lemma segments_loop_inv io d segs : ∀ keep s p keep' s' p',
  segments_loop io d segs keep s p = Ok (keep', s', p') →
  keep' = list_to_set (segment_Name <$> segs) ∪ keep ∧
  ∀ l1 seg l2, segs = l1 ++ seg :: l2 → ∃ f, disk_files d !! segment_Name seg = Some f ∧ log_tail f = "" ∧
    let '(m, q) := anchor_after s p l1 in
    scan_loop (log_lines f) m q = Ok (segment_LastSequence seg, segment_LastHash seg).
Proof.
  induction segs as [|seg segs IH]; intros keep s p keep' s' p' Hl; cbn [segments_loop] in Hl.
  { injection Hl as <- <- <-. split; [set_solver|]. intros l1 sg l2 Heq. by destruct l1. }
  destruct (_ || _ || _); [done|]. unfold audit_segment_file in Hl.
  destruct (disk_files d !! segment_Name seg) as [f|] eqn:Hf; [|done].
  destruct (negb (private_log f) || _); [done|]. destruct (aio_read io _); [done|]. cbn [rbind] in Hl.
  destruct (bool_decide (log_lines f = []) || _) eqn:Ht; [done|].
  destruct (scan_loop (log_lines f) s p) as [[s1 p1]|] eqn:Hscan; [|done]. cbn [rbind] in Hl.
  destruct (negb (bool_decide (s1 = _)) || _) eqn:Hlast; [done|].
  apply orb_false_iff in Ht as [_ Ht]. apply orb_false_iff in Hlast as [H1 H2]. bool_prop. subst.
  apply IH in Hl as [-> Hrest]. split; [set_solver|]. intros [|x l1] sg l2 [= <- Heq].
  - exists f. split_and!; done.
  - destruct (Hrest _ _ _ Heq) as (g & Hg & Hgt & Hgs). exists g. split_and!; [done|done|].
    unfold anchor_after in *. rewrite last_cons. by destruct (last l1).
Qed.

Lemma stray_loop_inv io anchor keep entries : ∀ files files' name f,
  stray_loop io anchor keep files entries = (files', Ok tt) → (name, f) ∈ entries →
  name ∈ keep ∨ has_prefix name ".tmp-" = true ∨ ∃ start, segment_start name = Some start ∧ (start ≤ anchor)%Z.
Proof.
  induction entries as [|[n g] entries IH]; intros files files' name f Hl Hin; [by apply elem_of_nil in Hin|].
  cbn in Hl. apply elem_of_cons in Hin. destruct (bool_decide (n ∈ keep)) eqn:Hk.
  { apply bool_decide_eq_true in Hk. destruct Hin as [[= -> ->]|Hin]; [by left|by eapply IH]. }
  destruct (has_prefix n ".tmp-") eqn:Ht.
  { destruct (log_regular g); [|done]. destruct (aio_remove io n); [done|].
    destruct Hin as [[= -> ->]|Hin]; [by right; left|by eapply IH]. }
  destruct (segment_start n) as [start|] eqn:Hst; [|done].
  destruct (bool_decide (anchor < start)%Z) eqn:Ha; [done|]. apply bool_decide_eq_false in Ha.
  destruct (log_regular g); [|done]. destruct (aio_remove io n); [done|].
  destruct Hin as [[= -> ->]|Hin]; [|by eapply IH]. right; right. exists start. split; [done|lia].
Qed.

Lemma verified_checkpoint io d d' state st keep : verified d state → disk_checkpoint d' = disk_checkpoint d →
  verify_committed io d' = Ok (st, keep) →
  st = state ∧ keep = list_to_set (segment_Name <$> state_Segments state) ∪ keep_always ∧
  ∀ l1 seg l2, state_Segments state = l1 ++ seg :: l2 → ∃ f, disk_files d' !! segment_Name seg = Some f ∧
    log_tail f = "" ∧
    let '(m, q) := anchor_after (state_AnchorSequence state) (state_AnchorHash state) l1 in
    scan_loop (log_lines f) m q = Ok (segment_LastSequence seg, segment_LastHash seg).
Proof.
  intros Hv Hck Hc. destruct (v_checkpoint _ _ Hv) as (f & Hf & Hp & Hl & Hj).
  unfold verify_committed, read_checkpoint in Hc. rewrite Hck, Hf, Hp, Hl in Hc. cbn [negb orb] in Hc.
  destruct (aio_read io _); [done|]. rewrite Hj in Hc. cbn [rbind] in Hc.
  destruct (negb (bool_decide (state_Version state = _)) || _ || _); [done|].
  destruct (negb (validHash _ _) || _); [done|].
  destruct (segments_loop _ _ _ _ _ _) as [[[k s'] p']|] eqn:Hs; [|done]. cbn [rbind] in Hc.
  destruct (_ || _); [done|]. injection Hc as <- <-.
  apply segments_loop_inv in Hs as [-> Hsegs]. done.
Qed.

(** The last committed segment is read from where the earlier ones end. *)
Lemma verified_last d state segs seg f : verified d state → state_Segments state = segs ++ [seg] →
  disk_files d !! segment_Name seg = Some f →
  log_tail f = "" ∧ state_HeadSequence state = segment_LastSequence seg ∧
  let '(m, q) := anchor_after (state_AnchorSequence state) (state_AnchorHash state) segs in
  scan_loop (log_lines f) m q = Ok (segment_LastSequence seg, segment_LastHash seg).
Proof.
  intros [_ _ [_ Hanc Hhead _ Hok _]] Hsegs Hf. rewrite Hsegs in Hok.
  apply segments_app in Hok as (m & q & H1 & H2). rewrite <-(segments_last _ _ _ _ _ _ H1).
  apply segments_sequence in H1. inversion H2 as [|? ? ? f' es ? ? ? Hseg H3]; subst. inversion H3; subst.
  destruct Hseg as (_ & _ & Hlook & _ & _ & Htail & _ & Hr & Hc). rewrite Hf in Hlook. injection Hlook as <-.
  split_and!; [done|done|]. apply (scan_loop_chain _ es); [lia|lia|done|done].
Qed.

(** A line that the checkpoint does not commit is refused, whether it is in a
    new segment or at the end of the last one. *)
Lemma uncommitted_refused io d state d' d'' st name create f g :
  verified d state → (state_HeadSequence state + 1 < 2 ^ 64)%Z →
  disk_checkpoint d' = disk_checkpoint d → disk_files d' = <[name := g]> (disk_files d) →
  (if create : bool then name = segment_name (state_HeadSequence state + 1)
   else (∃ segs seg, state_Segments state = segs ++ [seg] ∧ name = segment_Name seg) ∧
        disk_files d !! name = Some f ∧
        (log_tail g ≠ "" ∨ ∃ line, log_lines g = log_lines f ++ [line])) →
  loadAndVerify io d' = (d'', Ok st) → False.
Proof.
  intros Hv Hb Hck Hfiles Hcase Hload. unfold loadAndVerify in Hload.
  destruct (verify_committed io d') as [[st' keep]|] eqn:Hc; [|done].
  destruct (verified_checkpoint _ _ _ _ _ _ Hv Hck Hc) as (-> & -> & Hsegs).
  pose proof (s_anchor _ _ (v_structure _ _ Hv)) as Hanc.
  pose proof (s_segments _ _ (v_structure _ _ Hv)) as Hok.
  pose proof (segments_sequence _ _ _ _ _ _ Hok) as Hle.
  destruct create.
  - unfold boundedEntries in Hload. destruct (aio_readdir io); [done|]. destruct (bool_decide (38 < _)); [done|].
    destruct (stray_loop _ _ _ _ _) as [fs [[]|]] eqn:Hstray; [|done].
    destruct (stray_loop_inv _ _ _ _ _ _ name g Hstray) as [Hin|[Ht|(start & Hst & Hs)]].
    + apply elem_of_map_to_list. by rewrite Hfiles, lookup_insert_eq.
    + subst name. apply elem_of_union in Hin as [Hin%elem_of_list_to_set|Hin].
      * destruct (segments_names _ _ _ _ _ _ _ Hok Hin) as (n & Heq & Hn). apply segment_name_inj in Heq; lia.
      * eapply segment_name_not_kept; [|done]. lia.
    + subst name. rewrite segment_name_not_temporary in Ht; [done|lia].
    + subst name. rewrite segment_start_name in Hst by lia. injection Hst as <-. lia.
  - destruct Hcase as ((segs & seg & Hsg & ->) & Hf & Hg).
    destruct (Hsegs segs seg [] Hsg) as (g' & Hg' & Hgt & Hgs).
    rewrite Hfiles, lookup_insert_eq in Hg'. injection Hg' as <-. destruct Hg as [?|[line Hg]]; [done|].
    destruct (verified_last _ _ _ _ _ Hv Hsg Hf) as (_ & Hhead & Hscan).
    destruct (anchor_after _ _ segs) as [m q]. rewrite Hg, scan_loop_app, Hscan in Hgs. cbn [rbind] in Hgs.
    apply scan_one_advances in Hgs. rewrite <-Hhead in Hgs. unfold wrap_uint64 in Hgs.
    rewrite Z.mod_small in Hgs by lia. lia.
Qed.
Lemma unchanged_state io d state d'' st : verified d state → loadAndVerify io d = (d'', Ok st) → st = state.
Proof.
  intros Hv Hload. unfold loadAndVerify in Hload.
  destruct (verify_committed io d) as [[st' keep]|] eqn:Hc; [|done].
  destruct (verified_checkpoint _ _ _ _ _ _ Hv eq_refl Hc) as (-> & _).
  destruct (boundedEntries _ _ _); [|done]. destruct (stray_loop _ _ _ _ _) as [fs [[]|]]; [|done].
  by injection Hload as _ <-.
Qed.

(** Where the line of an append goes *)
Lemma target_spec io a d size event now create f :
  (0 ≤ state_HeadSequence (log_state a))%Z → (state_HeadSequence (log_state a) + 1 < 2 ^ 64)%Z →
  needs_segment io a d size = Ok create →
  let e := new_entry now (log_state a) event in
  let name := current_name (next_segments (log_state a) create e) in
  open_segment io d name create = Ok f →
  if create then name = segment_name (state_HeadSequence (log_state a) + 1) ∧ f = empty_log_file
  else (∃ segs seg, state_Segments (log_state a) = segs ++ [seg] ∧ name = segment_Name seg) ∧
       disk_files d !! name = Some f.
Proof.
  intros H0 Hb Hneeds e name Hopen. unfold needs_segment in Hneeds. unfold open_segment in Hopen.
  destruct (aio_open io); [done|]. destruct create.
  - destruct (disk_files d !! name); [done|]. injection Hopen as <-. split; [|done].
    unfold name, next_segments, current_name. rewrite last_snoc. cbn. f_equal. apply Z.mod_small. lia.
  - destruct (last (state_Segments (log_state a))) as [seg|] eqn:Hlast; [|done].
    assert (name = segment_Name seg) as Hname.
    { unfold name, next_segments, current_name. by rewrite Hlast. }
    destruct (last_Some_snoc _ _ Hlast) as [segs Hsegs].
    destruct (disk_files d !! name) eqn:Hl; [|done]. injection Hopen as <-. split; [|done].
    by exists segs, seg.
Qed.

Lemma pruned_head a now state next removed : pruned a now state = (next, removed) →
  state_HeadSequence next = state_HeadSequence state.
Proof. intros Hpr. by apply pruned_loop_spec in Hpr as (l1 & l2 & _ & _ & _ & ->). Qed.

Lemma with_same_file d name f : disk_files d !! name = Some f → with_log_file d name f = d.
Proof. intros Hf. unfold with_log_file. rewrite insert_id by done. by destruct d. Qed.

Lemma appended_head now state segs event : (0 ≤ state_HeadSequence state + 1 < 2 ^ 64)%Z →
  state_HeadSequence (appended_state state segs (new_entry now state event)) = (state_HeadSequence state + 1)%Z.
Proof. intros Hb. by apply Z.mod_small. Qed.

Lemma commit_inv io a d next removed a' d' r : commit io a d next removed = (a', d', r) →
  disk_checkpoint d' = disk_checkpoint d ∧ disk_files d' = disk_files d ∨
  disk_checkpoint d' = Some (mkPrivateFile true 384 (json_encode next)).
Proof.
  unfold commit. destruct (aio_commit io); cbn [atomicWrite].
  - destruct (remove_files _ _ _) as [fs x]. intros [= _ <- _]. by right.
  - intros [= _ <- _]. by left.
  - intros [= _ <- _]. by right.
Qed.

Lemma committed_state io d next d'' st :
  disk_checkpoint d = Some (mkPrivateFile true 384 (json_encode next)) →
  loadAndVerify io d = (d'', Ok st) → json_valid next → st = next.
Proof.
  intros Hck Hload Hj. unfold loadAndVerify, verify_committed, read_checkpoint in Hload. rewrite Hck in Hload.
  destruct (_ || longer _ _); [done|]. destruct (aio_read io _); [done|]. cbn [file_content] in Hload.
  rewrite json_strict_roundtrip in Hload by done. cbn [rbind] in Hload.
  destruct (negb (bool_decide (state_Version next = _)) || _ || _); [done|].
  destruct (negb (validHash _ _) || _); [done|].
  destruct (segments_loop _ _ _ _ _ _) as [[[k s'] p']|]; [|done]. cbn [rbind] in Hload.
  destruct (negb (bool_decide (s' = _)) || _); [done|].
  destruct (boundedEntries _ _ _); [|done]. destruct (stray_loop _ _ _ _ _) as [fs [[]|]]; [|done].
  by injection Hload as _ <-.
Qed.

(** An append that failed after it touched the disk leaves the log faulted. *)
Lemma Append_faults io a d event a' d' err :
  Append io a d event = (a', d', Err err) → d' = d ∨ is_Some (log_fault a').
Proof.
  unfold Append. intros Hrun. destruct (log_closed a); [left; congruence|].
  destruct (log_fault a); [left; congruence|].
  destruct (validateAuditEvent event); [|left; congruence]. cbn zeta in Hrun.
  destruct (bool_decide (4096 < _)%Z); [left; congruence|].
  destruct (needs_segment _ _ _ _) as [create|]; [|left; cbn in Hrun; congruence].
  destruct (open_segment _ _ _ _) as [f|]; [|left; cbn in Hrun; congruence].
  destruct (write_line _ _ _) as [g [[]|werr]]; [|injection Hrun as <- <- <-; right; by eexists].
  destruct (pruned _ _ _) as [next removed].
  destruct (commit _ _ _ _ _) as [[a2 d2] [[]|cerr]]; [done|]. injection Hrun as <- <- <-.
  right. by eexists.
Qed.

(** C15: a failed append is all or nothing.  Whatever file operation fails
    while an event is appended to a verified log, the log object is left
    faulted if anything on disk changed, and every later reopening that
    succeeds either finds the directory untouched and yields the state before
    the append, or finds the checkpoint that commits the event; a line that
    was written but not committed is never silently kept or dropped. *)
Theorem Append_atomic io a d event a' d' err
    (Hv : verified d (log_state a)) (Hb : (state_HeadSequence (log_state a) + 1 < 2 ^ 64)%Z)
    (Hrun : Append io a d event = (a', d', Err err)) :
  (d' = d ∨ is_Some (log_fault a')) ∧
  (∀ io' d'' st, loadAndVerify io' d' = (d'', Ok st) →
     d' = d ∧ st = log_state a ∨
     ∃ next, disk_checkpoint d' = Some (mkPrivateFile true 384 (json_encode next)) ∧
       state_HeadSequence next = (state_HeadSequence (log_state a) + 1)%Z ∧ (json_valid next → st = next)).
Proof.
  split; [by eapply Append_faults|]. intros io' d'' st Hload.
  assert (d' = d → d' = d ∧ st = log_state a ∨
    ∃ next, disk_checkpoint d' = Some (mkPrivateFile true 384 (json_encode next)) ∧
     state_HeadSequence next = (state_HeadSequence (log_state a) + 1)%Z ∧ (json_valid next → st = next))
    as Hsame.
  { intros ->. left. split; [done|]. by eapply unchanged_state. }
  pose proof (s_anchor _ _ (v_structure _ _ Hv)) as Hanc.
  pose proof (segments_sequence _ _ _ _ _ _ (s_segments _ _ (v_structure _ _ Hv))) as Hle.
  unfold Append in Hrun. destruct (log_closed a); [apply Hsame; congruence|].
  destruct (log_fault a); [apply Hsame; congruence|].
  destruct (validateAuditEvent event); [|apply Hsame; congruence]. cbn zeta in Hrun.
  destruct (bool_decide (4096 < _)%Z); [apply Hsame; congruence|].
  destruct (needs_segment _ _ _ _) as [create|] eqn:Hneeds; [|apply Hsame; cbn in Hrun; congruence].
  destruct (open_segment _ _ _ _) as [f|] eqn:Hopen; [|apply Hsame; cbn in Hrun; congruence].
  assert (0 ≤ state_HeadSequence (log_state a))%Z as H0 by lia.
  pose proof (target_spec _ _ _ _ _ _ _ _ H0 Hb Hneeds Hopen) as Htarget.
  set (e := new_entry _ _ _) in *. set (name := current_name _) in *.
  assert (∀ g, disk_checkpoint d' = disk_checkpoint d → disk_files d' = <[name := g]> (disk_files d) →
    (log_tail g ≠ "" ∨ ∃ line, log_lines g = log_lines f ++ [line]) → False) as Hrefused.
  { intros g Hck Hfs Hg. eapply (uncommitted_refused io' d (log_state a) d' d'' st name create f g); try done.
    destruct create; [apply Htarget|]. destruct Htarget. done. }
  destruct (aio_line io) as [|part werr|werr]; cbn [write_line] in Hrun.
  - destruct (pruned _ _ _) as [next removed] eqn:Hpr.
    destruct (commit _ _ _ _ _) as [[a2 d2] [[]|cerr]] eqn:Hc; [done|]. injection Hrun as <- <- <-.
    apply commit_inv in Hc as [[Hck Hfs]|Hck].
    + exfalso. eapply Hrefused; [exact Hck|exact Hfs|]. right. by eexists.
    + right. exists next. split; [done|]. split; [|by eapply committed_state].
      rewrite (pruned_head _ _ _ _ _ Hpr). apply appended_head. lia.
  - injection Hrun as <- <- <-. destruct create.
    + exfalso.
      refine (uncommitted_refused io' d (log_state a) _ d'' st name true f _ Hv Hb _ _ (proj1 Htarget) Hload);
        reflexivity.
    + destruct (decide (part = "")) as [->|Hne].
      * apply Hsame. destruct Htarget as [(segs & seg & Hsegs & Hname) Hf].
        destruct (verified_last _ _ _ _ _ Hv Hsegs ltac:(by rewrite <-Hname)) as (Htail & _).
        apply with_same_file. rewrite Hf. f_equal. destruct f as [r p ls t]. cbn in *. by rewrite Htail.
      * exfalso. eapply Hrefused; [reflexivity|reflexivity|]. left. cbn. by destruct (log_tail f), part.
  - injection Hrun as <- <- <-. exfalso. eapply Hrefused; [reflexivity|reflexivity|]. right. by eexists.
Qed.
End verified.

(** ** Witnesses *)

#[export] Instance AuditEvent_eq_dec : EqDecision AuditEvent.
Proof. solve_decision. Defined.
#[export] Instance auditEntry_eq_dec : EqDecision auditEntry.
Proof. solve_decision. Defined.
#[export] Instance auditSegment_eq_dec : EqDecision auditSegment.
Proof. solve_decision. Defined.
#[export] Instance auditState_eq_dec : EqDecision auditState.
Proof. solve_decision. Defined.

(** Two events in one segment; the codec hashes every entry alike, which the
    theorems allow. *)
Definition demo_event : AuditEvent := mkAuditEvent "alice" "user" "team" "key-1" "reports.list" "200" "".
Definition demo_hash : string := sha256_hex "none".
Definition demo_entry (sequence : Z) (previous : string) : auditEntry :=
  mkAuditEntry sequence (100 * Hour)%Z previous demo_event demo_hash.
Definition demo_state (sequence : Z) : auditState :=
  mkAuditState 1 0 "" sequence demo_hash [mkAuditSegment (segment_name 1) (100 * Hour)%Z sequence demo_hash].
Definition demo_entries : Json auditEntry := table_json [demo_entry 1 ""; demo_entry 2 demo_hash].
Definition demo_states : Json auditState := table_json [initial_state; demo_state 1; demo_state 2].
Definition demo_audit_io (line : line_outcome) : audit_io :=
  mkAuditIO (100 * Hour) (100 * Hour) (100 * Hour) None None line Written (λ _, None) None (λ _, None) None.
Definition demo_empty : audit_disk := mkAuditDisk None ∅.
Definition demo_log (sequence : Z) : AuditLog :=
  opened (if bool_decide (sequence = 0%Z) then initial_state else demo_state sequence) 7.
Definition demo_opened : audit_disk :=
  (@OpenAudit demo_entries demo_states (demo_audit_io LineWritten) (Ok tt) demo_empty 7).1.
Definition demo_append (line : line_outcome) (a : AuditLog) (d : audit_disk) :
    AuditLog * audit_disk * result unit :=
  @Append demo_entries demo_states (demo_audit_io line) a d demo_event.
Definition demo_disk1 : audit_disk := (demo_append LineWritten (demo_log 0) demo_opened).1.2.
Definition demo_disk2 : audit_disk := (demo_append LineWritten (demo_log 1) demo_disk1).1.2.

Lemma demo_reads line : io_reads (demo_audit_io line).
Proof. done. Qed.

Lemma demo_encodable state : state ∈ [initial_state; demo_state 1; demo_state 2] →
  @encodable demo_states state.
Proof.
  intros Hs. split; [exact Hs|]. repeat (apply elem_of_cons in Hs as [->|Hs]; [by vm_compute|]).
  by apply elem_of_nil in Hs.
Qed.

Lemma demo_history1 : @history demo_entries demo_states (demo_log 1) demo_disk1 1.
Proof.
  eapply (@history_append demo_entries demo_states (demo_audit_io LineWritten) (demo_log 0) demo_opened 0
    demo_event).
  - eapply (@history_open demo_entries demo_states (demo_audit_io LineWritten) demo_empty 7%Z);
      [done|done|apply demo_encodable; by left|vm_compute; reflexivity].
  - vm_compute. reflexivity.
  - done.
  - change (@new_entry demo_entries (aio_now_entry (demo_audit_io LineWritten)) (log_state (demo_log 0)) demo_event
      ∈ [demo_entry 1 ""; demo_entry 2 demo_hash]). apply (bool_decide_unpack _). vm_compute. exact I.
  - apply demo_encodable. right. by left.
Qed.

Lemma demo_history2 : @history demo_entries demo_states (demo_log 2) demo_disk2 2.
Proof.
  eapply (@history_append demo_entries demo_states (demo_audit_io LineWritten) (demo_log 1) demo_disk1 1
    demo_event).
  - exact demo_history1.
  - vm_compute. reflexivity.
  - done.
  - change (@new_entry demo_entries (aio_now_entry (demo_audit_io LineWritten)) (log_state (demo_log 1)) demo_event
      ∈ [demo_entry 1 ""; demo_entry 2 demo_hash]). apply (bool_decide_unpack _). vm_compute. exact I.
  - apply demo_encodable. right. right. by left.
Qed.

Lemma audit_reopens_witness :
  ∃ a', @OpenAudit demo_entries demo_states (demo_audit_io LineWritten) (Ok tt) demo_disk2 30 =
      (demo_disk2, Ok a') ∧ log_state a' = log_state (demo_log 2) ∧
    status_Sequence (Status a') = Z.of_nat 2 ∧ (status_RetainedSegments (Status a') ≤ 16)%Z.
Proof.
  apply (@audit_reopens demo_entries demo_states (demo_log 2) demo_disk2 2).
  - exact demo_history2.
  - reflexivity.
  - apply demo_reads.
  - split; discriminate.
Defined.

(** An append of which one byte reaches the file *)
Lemma Append_atomic_witness :
  let r := demo_append (LinePartial "{" (ErrMsg "no space left on device")) (demo_log 1) demo_disk1 in
  (r.1.2 = demo_disk1 ∨ is_Some (log_fault r.1.1)) ∧
  (∀ io' d'' st, @loadAndVerify demo_entries demo_states io' r.1.2 = (d'', Ok st) →
     r.1.2 = demo_disk1 ∧ st = log_state (demo_log 1) ∨
     ∃ next, disk_checkpoint r.1.2 = Some (mkPrivateFile true 384 (@json_encode _ demo_states next)) ∧
       state_HeadSequence next = (state_HeadSequence (log_state (demo_log 1)) + 1)%Z ∧
       (@json_valid _ demo_states next → st = next)).
Proof.
  intros r. apply (@Append_atomic demo_entries demo_states
    (demo_audit_io (LinePartial "{" (ErrMsg "no space left on device"))) (demo_log 1) demo_disk1 demo_event
    r.1.1 r.1.2 (storage_failure (ErrMsg "no space left on device"))).
  - apply (@history_ok demo_entries demo_states _ _ _ demo_history1). reflexivity.
  - reflexivity.
  - vm_compute. reflexivity.
Defined.
