(* ===== verification/HubOidc.v ===== *)
(** * HubOidc: GitHub Actions identity tokens

    Models [src/internal/hub/oidc.go] below its HTTP handler: the object
    decoder (the strict base64 decoder is in [Base64]), the checks on a signed token, the
    cache of GitHub's signing keys, the search for a publisher rule, and the
    ledger that reserves a token before a report is stored.  The RSA
    signature check and the tokenizer of [encoding/json] are parameters
    ([Rsa], [JsonObjects]); nothing proved here depends on how they work. *)

From S2P Require Import Prelude Sha256 Base64 Json Text HubConfig HubStore.

(** [new(big.Int).SetBytes(n)] and [BitLen] *)
Definition SetBytes (bytes : list Z) : Z := foldl (λ n b, n * 256 + b)%Z 0%Z bytes.
Definition BitLen (n : Z) : Z := if bool_decide (n = 0)%Z then 0 else Z.log2 n + 1.

(** Seconds since 1970 of a time counted from the year 1 *)
Definition Unix (t : time) : Z := (t / Second - 62135596800)%Z.

(** ** Data *)

Definition githubIssuer : string := "https://token.actions.githubusercontent.com".

Record ciClaims := mkClaims {
  Claims_Issuer : string;
  Claims_Subject : string;
  Claims_Audience : string;
  Claims_ID : string;
  Claims_IssuedAt : Z;
  Claims_NotBefore : Z;
  Claims_Expires : Z;
  Claims_Repository : string;
  Claims_RepositoryID : string;
  Claims_RepositoryOwnerID : string;
  Claims_WorkflowRef : string;
  Claims_Ref : string;
  Claims_RefType : string;
  Claims_EventName : string;
  Claims_RunnerEnvironment : string;
  Claims_SHA : string;
  Claims_RunID : string;
  Claims_RunAttempt : string;
  Claims_HeadRef : string;
  Claims_BaseRef : string;
  Claims_JobWorkflowRef : string;
}.

(** One key of the key set, and the set *)
Record signing_key := mkSigningKey {
  jwk_Kty : string;
  jwk_Kid : string;
  jwk_Alg : string;
  jwk_Use : string;
  jwk_N : string;
  jwk_E : string;
}.
Definition key_set : Type := list string.

(** What of the verifier changes: the cached keys (their moduli; the exponent
    is always 65537), when they were fetched, the last attempt to do so. *)
Record ciVerifier := mkVerifier {
  ci_keys : gmap string Z;
  ci_fetched : time;
  ci_lastAttempt : time;
}.
Definition newCIVerifier : ciVerifier := mkVerifier ∅ 0 0.

Record replayRecord := mkReplay {
  replay_Digest : string;
  replay_Publisher : string;
  replay_Expires : Z;
}.
#[export] Instance replayRecord_eq_dec : EqDecision replayRecord.
Proof. solve_decision. Defined.

(** How the request for the key set goes *)
Record fetch_io := mkFetchIO {
  fetch_request : option error;
  fetch_do : option error;
  fetch_status : Z;
  fetch_body : result string;
}.

(** The readings of the clock during [verify], and that request *)
Record verify_io := mkVerifyIO {
  vio_now : time;
  vio_now_key : time;
  vio_fetch : fetch_io;
}.

Class JsonObjects := {
  (** the members of the one object in the text, in order, with their texts;
      an error if the text is anything else *)
  json_members : string → result (list (string * string));
}.
Class Rsa := {
  (** modulus, digest, signature *)
  VerifyPKCS1v15 : Z → list Z → list Z → bool;
}.

Definition err_member := ErrMsg "duplicate or invalid JSON field".
Definition err_token := ErrMsg "invalid token size or encoding".
Definition err_jwt := ErrMsg "expected signed JWT".
Definition err_header := ErrMsg "invalid JWT header".
Definition err_header_object := ErrMsg "invalid JWT header object".
Definition err_header_name := ErrMsg "unsupported JWT header".
Definition err_algorithm := ErrMsg "unsupported token algorithm, type or key".
Definition err_claims := ErrMsg "invalid JWT claims".
Definition err_lifetime := ErrMsg "invalid issuer or token lifetime".
Definition err_workflow := ErrMsg "unsupported workflow identity".
Definition err_signature_encoding := ErrMsg "invalid JWT signature encoding".
Definition err_signature := ErrMsg "invalid JWT signature".
Definition err_key_retry := ErrMsg "OIDC signing key unavailable; retry later".
Definition err_key_service := ErrMsg "OIDC key service unavailable".
Definition err_key_status := ErrMsg "OIDC key service rejected request".
Definition err_key_size := ErrMsg "OIDC key response exceeds limits".
Definition err_key_unknown := ErrMsg "unknown OIDC signing key".
Definition err_key_set := ErrMsg "invalid OIDC key set".
Definition err_key := ErrMsg "invalid or duplicate OIDC signing key".
Definition err_modulus := ErrMsg "unsupported RSA modulus".
Definition err_exponent := ErrMsg "unsupported RSA exponent".
Definition err_empty_json := ErrMsg "unexpected end of JSON input".

(** ** Checks on the claims *)

Definition lifetime_ok (c : ciClaims) (now : Z) : bool :=
  negb (negb (bool_decide (Claims_Issuer c = githubIssuer)) || bool_decide (Claims_IssuedAt c ≤ 0)%Z ||
        bool_decide (Claims_NotBefore c ≤ 0)%Z || bool_decide (Claims_Expires c ≤ now)%Z ||
        bool_decide (now + 30 < Claims_IssuedAt c)%Z || bool_decide (now + 30 < Claims_NotBefore c)%Z ||
        bool_decide (wrap_int64 (Claims_IssuedAt c + 30) < Claims_NotBefore c)%Z ||
        bool_decide (Claims_Expires c ≤ Claims_IssuedAt c)%Z ||
        bool_decide (600 < wrap_int64 (Claims_Expires c - Claims_IssuedAt c))%Z ||
        bool_decide (Claims_IssuedAt c < now - 600)%Z).

Definition workflow_ok (c : ciClaims) : bool :=
  negb (bool_decide (String.length (Claims_ID c) < 8) || bool_decide (128 < String.length (Claims_ID c)) ||
        contains_any (Claims_ID c) white_cut || negb (bool_decide (Claims_EventName c = "push")) ||
        negb (bool_decide (Claims_RefType c = "branch")) ||
        negb (bool_decide (Claims_RunnerEnvironment c = "github-hosted")) ||
        negb (bool_decide (Claims_HeadRef c = "")) || negb (bool_decide (Claims_BaseRef c = "")) ||
        (negb (bool_decide (Claims_JobWorkflowRef c = "")) &&
         negb (bool_decide (Claims_JobWorkflowRef c = Claims_WorkflowRef c))) ||
        negb (commitPattern (Claims_SHA c)) || negb (decimalID (Claims_RunID c)) ||
        negb (decimalID (Claims_RunAttempt c))).

Definition known_header (name : string) : bool :=
  bool_decide (name ∈ ["alg"; "typ"; "kid"; "x5t"; "x5t#S256"]).

Section oidc.
Context `{PObjects : !JsonObjects, PRsa : !Rsa, !Json string, !Json ciClaims, !Json key_set, !Json signing_key}.

(** ** objectJSON *)

(** The members of the object; a name that appears twice is refused. *)
Definition object_members (b : string) : result (list (string * string)) :=
  let? members := json_members b in
  fail? negb (bool_decide (NoDup members.*1)) with err_member in
  Ok members.

(** into a map of raw values, and into a struct *)
Definition object_map (b : string) : result (gmap string string) :=
  let? members := object_members b in Ok (list_to_map members).
Definition objectJSON {A} `{!Json A} (b : string) : result A :=
  let? _ := object_members b in json_decode b.

(** [json.Unmarshal(header[name], &s)]; a missing member is an empty text. *)
Definition header_string (header : gmap string string) (name : string) : result string :=
  match header !! name with Some raw => json_decode raw | None => Err err_empty_json end.

(** ** parseSigningKeys *)

Definition parse_key (keys : gmap string Z) (encoded : string) : result (string * Z) :=
  match objectJSON (A:=signing_key) encoded with
  | Err _ => Err err_key
  | Ok key =>
      fail? negb (bool_decide (jwk_Kty key = "RSA")) || negb (bool_decide (jwk_Alg key = "RS256")) ||
            negb (bool_decide (jwk_Use key = "sig")) || bool_decide (String.length (jwk_Kid key) = 0) ||
            bool_decide (128 < String.length (jwk_Kid key)) || bool_decide (is_Some (keys !! jwk_Kid key))
        with err_key in
      match base64_decode (jwk_N key) with
      | None => Err err_modulus
      | Some n =>
          fail? bool_decide (length n < 256) || bool_decide (512 < length n) with err_modulus in
          fail? negb (bool_decide (base64_decode (jwk_E key) = Some [1; 0; 1]%Z)) with err_exponent in
          let modulus := SetBytes n in
          fail? bool_decide (BitLen modulus < 2048)%Z || bool_decide (4096 < BitLen modulus)%Z ||
                negb (Z.testbit modulus 0) with err_modulus in
          Ok (jwk_Kid key, modulus)
      end
  end.

Fixpoint parse_keys_loop (keys : gmap string Z) (encoded : list string) : result (gmap string Z) :=
  match encoded with
  | [] => Ok keys
  | e :: encoded =>
      let? (kid, modulus) := parse_key keys e in
      parse_keys_loop (<[kid := modulus]> keys) encoded
  end.

Definition parseSigningKeys (raw : string) : result (gmap string Z) :=
  match objectJSON (A:=key_set) raw with
  | Err _ => Err err_key_set
  | Ok document =>
      fail? bool_decide (length document = 0) || bool_decide (10 < length document) with err_key_set in
      parse_keys_loop ∅ document
  end.

(** ** signingKey *)

Definition fetch_keys (io : fetch_io) : result (gmap string Z) :=
  match fetch_request io with
  | Some err => Err err
  | None =>
      match fetch_do io with
      | Some _ => Err err_key_service
      | None =>
          fail? negb (bool_decide (fetch_status io = 200%Z)) with err_key_status in
          match fetch_body io with
          | Err _ => Err err_key_size
          | Ok body => fail? longer body 65536 with err_key_size in parseSigningKeys body
          end
      end
  end.

Definition cached_key (v : ciVerifier) (now : time) (kid : string) : option Z :=
  if bool_decide (now - ci_fetched v < 10 * Minute)%Z then ci_keys v !! kid else None.

Definition signingKey (io : fetch_io) (now : time) (v : ciVerifier) (kid : string) : ciVerifier * result Z :=
  match cached_key v now kid with
  | Some key => (v, Ok key)
  | None =>
      if negb (IsZero (ci_lastAttempt v)) && bool_decide (now - ci_lastAttempt v < Minute)%Z
      then (v, Err err_key_retry)
      else
        match fetch_keys io with
        | Err err => (mkVerifier (ci_keys v) (ci_fetched v) now, Err err)
        | Ok keys =>
            (mkVerifier keys now now,
             match keys !! kid with Some key => Ok key | None => Err err_key_unknown end)
        end
  end.

(** ** verify *)

Definition header_kid (header : gmap string string) : result string :=
  match header_string header "alg", header_string header "typ", header_string header "kid" with
  | Ok alg, Ok typ, Ok kid =>
      fail? negb (bool_decide (alg = "RS256")) || negb (bool_decide (typ = "JWT")) ||
            bool_decide (String.length kid < 1) || bool_decide (128 < String.length kid) with err_algorithm in
      Ok kid
  | _, _, _ => Err err_algorithm
  end.

Definition parse_header (part : string) : result string :=
  match base64_decode part with
  | None => Err err_header
  | Some bytes =>
      fail? bool_decide (2048 < Z.of_nat (length bytes))%Z with err_header in
      match object_map (string_of_bytes bytes) with
      | Err _ => Err err_header_object
      | Ok header =>
          fail? negb (forallb known_header (map_to_list header).*1) with err_header_name in
          header_kid header
      end
  end.

Definition parse_claims (part : string) : result ciClaims :=
  match base64_decode part with
  | None => Err err_claims
  | Some bytes =>
      match objectJSON (A:=ciClaims) (string_of_bytes bytes) with
      | Err _ => Err err_claims
      | Ok claims => Ok claims
      end
  end.

(** Everything before the signing key is needed: the key's name, the claims
    and the signature. *)
Definition read_token (now : time) (token : string) : result (string * ciClaims * (string * list Z)) :=
  fail? longer token (12 * 1024) || contains_any token (white_cut +:+ ",") with err_token in
  match split_byte "." token with
  | [header; payload; signature] =>
      let? kid := parse_header header in
      let? claims := parse_claims payload in
      fail? negb (lifetime_ok claims (Unix now)) with err_lifetime in
      fail? negb (workflow_ok claims) with err_workflow in
      match base64_decode signature with
      | None => Err err_signature_encoding
      | Some signature => Ok (kid, claims, (header +:+ "." +:+ payload, signature))
      end
  | _ => Err err_jwt
  end.

Definition verify (io : verify_io) (v : ciVerifier) (token : string) : ciVerifier * result ciClaims :=
  match read_token (vio_now io) token with
  | Err err => (v, Err err)
  | Ok (kid, claims, (signed, signature)) =>
      match signingKey (vio_fetch io) (vio_now_key io) v kid with
      | (v, Err err) => (v, Err err)
      | (v, Ok key) =>
          (v, fail? negb (VerifyPKCS1v15 key (Sum256 signed) signature) with err_signature in Ok claims)
      end
  end.
End oidc.

(** ** matchingPublisher *)

Definition publisher_matches (c : Config) (claims : ciClaims) (p : CIPublisher) : bool :=
  bool_decide (Publisher_Audience p = Claims_Audience claims) &&
  bool_decide (Publisher_Subject p = Claims_Subject claims) &&
  bool_decide (Publisher_Repository p = Claims_Repository claims) &&
  bool_decide (Publisher_RepositoryID p = Claims_RepositoryID claims) &&
  bool_decide (Publisher_RepositoryOwnerID p = Claims_RepositoryOwnerID claims) &&
  bool_decide (Publisher_WorkflowRef p = Claims_WorkflowRef claims) &&
  bool_decide (Publisher_Ref p = Claims_Ref claims) && ciMembership c p true.

Definition matchingPublisher (c : Config) (claims : ciClaims) : option CIPublisher :=
  snd <$> list_find (λ p, publisher_matches c claims p = true) (Config_CIPublishers c).

(** ** consume *)

Record consume_io := mkConsumeIO {
  cio_lstat : option error;
  cio_open : option error;
  cio_read : option error;
  cio_now : time;
  cio_write : write_outcome;
}.

Definition err_replay_file := ErrMsg "invalid replay ledger".
Definition err_replay_content := ErrMsg "invalid replay ledger content".
Definition err_replay_record := ErrMsg "invalid replay ledger record".
Definition err_replayed := ErrMsg "CI token was already used".
Definition err_replay_capacity := ErrMsg "CI replay capacity reached; wait for token expiry".

Definition token_digest (claims : ciClaims) : string :=
  sha256_hex (githubIssuer +:+ NL +:+ Claims_ID claims).

Definition record_ok (now : Z) (entry : replayRecord) : bool :=
  negb (negb (bool_decide (String.length (replay_Digest entry) = 64)) ||
        negb (workspacePattern (replay_Publisher entry)) || bool_decide (replay_Expires entry ≤ 0)%Z ||
        bool_decide (now + 630 < replay_Expires entry)%Z).

(** The records that are still live, unless one of them is the token's *)
Fixpoint replay_loop (now : Z) (hash : string) (entries active : list replayRecord) :
    result (list replayRecord) :=
  match entries with
  | [] => Ok active
  | entry :: entries =>
      fail? negb (record_ok now entry) with err_replay_record in
      if bool_decide (replay_Expires entry ≤ now)%Z then replay_loop now hash entries active
      else
        fail? bool_decide (replay_Digest entry = hash) with err_replayed in
        replay_loop now hash entries (active ++ [entry])
  end.

(** [count]: the live records of the publisher *)
Definition publisher_count (publisher : string) (entries : list replayRecord) : nat :=
  length (filter (λ entry, replay_Publisher entry = publisher) entries).

Section consume.
Context `{!Json (list replayRecord)}.

Definition read_ledger (io : consume_io) (t : gmap string root_entry) : result (list replayRecord) :=
  match cio_lstat io, t !! replayFilename with
  | Some err, _ => Err err
  | None, None => Ok []
  | None, Some (RootDir _) => Err err_replay_file
  | None, Some (RootFile f) =>
      fail? negb (private f) || longer (file_content f) (256 * 1024) with err_replay_file in
      match cio_open io with
      | Some err => Err err
      | None =>
          match cio_read io, json_strict (file_content f) with
          | None, Ok entries => fail? bool_decide (1000 < length entries) with err_replay_content in Ok entries
          | _, _ => Err err_replay_content
          end
      end
  end.

Definition consume (io : consume_io) (t : gmap string root_entry) (claims : ciClaims)
    (publisher : CIPublisher) : gmap string root_entry * result unit :=
  let reserved :=
    let? entries := read_ledger io t in
    let hash := token_digest claims in
    let? active := replay_loop (Unix (cio_now io)) hash entries [] in
    fail? bool_decide (1000 ≤ length active) ||
          bool_decide (32 ≤ publisher_count (Publisher_SubjectID publisher) active)
      with err_replay_capacity in
    Ok (active ++ [mkReplay hash (Publisher_SubjectID publisher) (Claims_Expires claims)]) in
  match reserved with
  | Err err => (t, Err err)
  | Ok active =>
      atomicWrite t (<[replayFilename := RootFile (mkPrivateFile true 384 (json_encode active))]> t)
        (cio_write io)
  end.
End consume.

(** ** The signing keys *)

(** RSA moduli that the verifier accepts: odd, 2048 to 4096 bits *)
Definition strong_modulus (n : Z) : Prop := (2 ^ 2047 ≤ n < 2 ^ 4096)%Z ∧ Z.Odd n.
Definition verifier_ok (v : ciVerifier) : Prop := map_Forall (λ _, strong_modulus) (ci_keys v).

Lemma BitLen_bounds n : (0 ≤ n)%Z → (2048 ≤ BitLen n ≤ 4096)%Z → (2 ^ 2047 ≤ n < 2 ^ 4096)%Z.
Proof.
  unfold BitLen. intros Hn. case_bool_decide; [lia|]. intros Hb.
  destruct (Z.log2_spec n) as [Hlo Hhi]; [lia|]. split.
  - eapply Z.le_trans; [|exact Hlo]. apply Z.pow_le_mono_r; lia.
  - eapply Z.lt_le_trans; [exact Hhi|]. apply Z.pow_le_mono_r; lia.
Qed.

Lemma SetBytes_nonneg bytes : ∀ n, (0 ≤ n)%Z → Forall (λ b, 0 ≤ b)%Z bytes →
  (0 ≤ foldl (λ n b, n * 256 + b) n bytes)%Z.
Proof.
  induction bytes as [|b bytes IH]; intros n Hn Hb; [done|]. apply Forall_cons in Hb as [Hb Hbs].
  cbn. apply IH; [lia|done].
Qed.

Section keys.
Context `{PObjects : !JsonObjects, PRsa : !Rsa, !Json string, !Json ciClaims, !Json key_set, !Json signing_key}.

Lemma parse_key_strong keys e kid n : parse_key keys e = Ok (kid, n) → strong_modulus n.
Proof.
  unfold parse_key. intros Hp. destruct (objectJSON e) as [key|]; [|done]. step_ok Hp.
  destruct (base64_decode (jwk_N key)) as [bytes|] eqn:Hn; [|done]. step_all Hp.
  cbn zeta in Hp. step_all Hp. injection Hp as _ <-.
  bool_prop. split; [apply BitLen_bounds; [|lia]|].
  - apply SetBytes_nonneg; [done|]. by eapply base64_groups_nonneg.
  - apply Z.odd_spec. by rewrite <-Z.bit0_odd.
Qed.

Lemma parse_keys_loop_strong l : ∀ keys keys', map_Forall (λ _, strong_modulus) keys →
  parse_keys_loop keys l = Ok keys' → map_Forall (λ _, strong_modulus) keys'.
Proof.
  induction l as [|e l IH]; intros keys keys' Hk Hp; [by injection Hp as <-|].
  cbn [parse_keys_loop] in Hp. step_ok Hp. destruct x as [kid n].
  eapply IH; [|exact Hp]. apply map_Forall_insert_2; [by eapply parse_key_strong|done].
Qed.

Lemma fetch_keys_strong io keys : fetch_keys io = Ok keys → map_Forall (λ _, strong_modulus) keys.
Proof.
  unfold fetch_keys, parseSigningKeys. intros Hp. destruct (fetch_request io); [done|].
  destruct (fetch_do io); [done|]. step_ok Hp. destruct (fetch_body io); [|done]. step_ok Hp.
  destruct (objectJSON _); [|done]. step_ok Hp. by eapply parse_keys_loop_strong; [apply map_Forall_empty|].
Qed.

(** Where a signing key comes from: the cache, if it is less than ten minutes
    old, or the key set fetched now *)
Definition key_source (io : fetch_io) (now : time) (v : ciVerifier) (kid : string) (key : Z) : Prop :=
  ci_keys v !! kid = Some key ∧ (now - ci_fetched v < 10 * Minute)%Z ∨
  ∃ keys, fetch_keys io = Ok keys ∧ keys !! kid = Some key.

Lemma signingKey_spec io now v kid v' r : verifier_ok v → signingKey io now v kid = (v', r) →
  verifier_ok v' ∧ ∀ key, r = Ok key → key_source io now v kid key ∧ strong_modulus key.
Proof.
  unfold signingKey. intros Hv. destruct (cached_key v now kid) as [key|] eqn:Hc.
  - unfold cached_key in Hc. case_bool_decide; [|done].
    intros [= <- <-]. split; [done|]. intros key' [= <-]. split; [by left|by eapply Hv].
  - destruct (_ && _); [by intros [= <- <-]|].
    destruct (fetch_keys io) as [keys|err] eqn:Hf; [|by intros [= <- <-]].
    intros [= <- <-]. pose proof (fetch_keys_strong _ _ Hf) as Hs. split; [exact Hs|].
    intros key. destruct (keys !! kid) as [k|] eqn:Hkid; [|done]. intros [= <-].
    split; [right; by exists keys|by eapply Hs].
Qed.
End keys.

(** ** Verified tokens *)

(** The limits on an accepted token at the Unix time [now] *)
Definition live_token (c : ciClaims) (now : Z) : Prop :=
  (0 < Claims_NotBefore c ≤ now + 30 ∧ Claims_NotBefore c ≤ Claims_IssuedAt c + 30 ∧
   0 < Claims_IssuedAt c ∧ now - 600 ≤ Claims_IssuedAt c ≤ now + 30 ∧
   now < Claims_Expires c ∧ Claims_IssuedAt c < Claims_Expires c ≤ Claims_IssuedAt c + 600)%Z.

(** What the claims must say about the job that got the token *)
Record push_job (c : ciClaims) : Prop := {
  job_issuer : Claims_Issuer c = githubIssuer;
  job_id : 8 ≤ String.length (Claims_ID c) ≤ 128;
  job_event : Claims_EventName c = "push" ∧ Claims_RefType c = "branch";
  job_runner : Claims_RunnerEnvironment c = "github-hosted";
  job_no_pull_request : Claims_HeadRef c = "" ∧ Claims_BaseRef c = "";
  job_workflow : Claims_JobWorkflowRef c = "" ∨ Claims_JobWorkflowRef c = Claims_WorkflowRef c;
  job_commit : commitPattern (Claims_SHA c) = true;
  job_run : decimalID (Claims_RunID c) = true ∧ decimalID (Claims_RunAttempt c) = true;
}.

(** The [int64] fields of decoded claims *)
Definition int64_claims (c : ciClaims) : Prop :=
  Forall (λ n, - 2 ^ 63 ≤ n < 2 ^ 63)%Z [Claims_IssuedAt c; Claims_NotBefore c; Claims_Expires c].


Lemma lifetime_ok_spec c now : int64_claims c → (now < 2 ^ 62)%Z → lifetime_ok c now = true →
  Claims_Issuer c = githubIssuer ∧ live_token c now.
Proof.
  unfold int64_claims. rewrite !Forall_cons. intros (Hi & Hn & He & _) Hnow Hok.
  unfold lifetime_ok in Hok. bool_prop. rewrite wrap_int64_id in * by lia.
  split; [done|]. unfold live_token. lia.
Qed.

Lemma workflow_ok_spec c now : lifetime_ok c now = true → workflow_ok c = true → push_job c.
Proof.
  intros Hl Hok. unfold lifetime_ok in Hl. unfold workflow_ok in Hok. bool_prop. split; try done. lia.
Qed.

Section verified.
Context `{PObjects : !JsonObjects, PRsa : !Rsa, !Json string, !Json ciClaims, !Json key_set, !Json signing_key}.

(** C20: an accepted identity token was signed by GitHub for a push job and is
    fresh.  Whatever [verify] is given, the claims it returns are those of the
    token's payload, the token's first two parts carry a valid RSA signature
    under a key of GitHub's key set - a key of 2048 to 4096 bits that was
    cached less than ten minutes ago or fetched for this token - and the
    claims are those of a branch push on a hosted runner, issued at most ten
    minutes ago, valid for at most ten minutes, not yet expired. *)
Theorem verify_sound io v token v' claims (Hv : verifier_ok v)
    (Hint : ∀ part c, parse_claims part = Ok c → int64_claims c) (Hnow : (Unix (vio_now io) < 2 ^ 62)%Z)
    (Hrun : verify io v token = (v', Ok claims)) :
  ∃ header payload encoded kid key signature,
    split_byte "." token = [header; payload; encoded] ∧
    parse_header header = Ok kid ∧ parse_claims payload = Ok claims ∧
    base64_decode encoded = Some signature ∧
    VerifyPKCS1v15 key (Sum256 (header +:+ "." +:+ payload)) signature = true ∧
    key_source (vio_fetch io) (vio_now_key io) v kid key ∧ strong_modulus key ∧ verifier_ok v' ∧
    push_job claims ∧ live_token claims (Unix (vio_now io)).
Proof.
  unfold verify, read_token in Hrun. destruct (_ || contains_any token _); [done|].
  destruct (split_byte "." token) as [|header [|payload [|encoded [|]]]]; try done.
  destruct (parse_header header) as [kid|] eqn:Hh; [|done].
  destruct (parse_claims payload) as [c|] eqn:Hc; [|done]. cbn [rbind] in Hrun.
  destruct (lifetime_ok c _) eqn:Hl; [|done]. destruct (workflow_ok c) eqn:Hw; [|done]. cbn [negb] in Hrun.
  destruct (base64_decode encoded) as [signature|] eqn:He; [|done].
  destruct (signingKey _ _ _ _) as [v1 [key|]] eqn:Hk; [|done].
  apply signingKey_spec in Hk as [Hv1 Hkey]; [|done]. destruct (Hkey key) as [Hsource Hstrong]; [done|].
  destruct (VerifyPKCS1v15 _ _ _) eqn:Hsig; [|done]. injection Hrun as <- <-.
  exists header, payload, encoded, kid, key, signature. split_and!; try done.
  - by eapply workflow_ok_spec.
  - eapply lifetime_ok_spec; [by eapply Hint|done..].
Qed.
End verified.

(** The claims of an accepted token come from its payload and were checked. *)
Lemma verify_claims `{!JsonObjects, !Rsa, !Json string, !Json ciClaims, !Json key_set, !Json signing_key}
    io v token v' claims : verify io v token = (v', Ok claims) →
  lifetime_ok claims (Unix (vio_now io)) = true ∧ ∃ part, parse_claims part = Ok claims.
Proof.
  unfold verify, read_token. intros Hrun. destruct (_ || contains_any token _); [done|].
  destruct (split_byte "." token) as [|header [|payload [|encoded [|]]]]; try done.
  destruct (parse_header header) as [kid|]; [|done].
  destruct (parse_claims payload) as [c|] eqn:Hc; [|done]. cbn [rbind] in Hrun.
  destruct (lifetime_ok c _) eqn:Hl; [|done]. destruct (workflow_ok c); [|done]. cbn [negb] in Hrun.
  destruct (base64_decode encoded); [|done]. destruct (signingKey _ _ _ _) as [v1 [key|]]; [|done].
  destruct (VerifyPKCS1v15 _ _ _); [|done]. injection Hrun as _ <-. split; [done|by exists payload].
Qed.

(** ** Publisher rules *)

Lemma publishers_loop_subjects `{!Urls} c l : ∀ seen, publishers_loop c seen l = Ok tt →
  ∀ p, p ∈ l → workspacePattern (Publisher_SubjectID p) = true.
Proof.
  induction l as [|p l IH]; intros seen Hl q Hq; [by apply elem_of_nil in Hq|].
  cbn [publishers_loop] in Hl. step_ok Hl. step_ok Hl. cbn zeta in Hl. step_all Hl.
  apply elem_of_cons in Hq as [->|Hq]; [|by eapply IH]. by bool_prop.
Qed.

Lemma matching_subject `{!Urls} c claims p : Validate c = Ok tt → matchingPublisher c claims = Some p →
  workspacePattern (Publisher_SubjectID p) = true.
Proof.
  intros Hvalid Hm. unfold Validate in Hvalid. step_all Hvalid.
  unfold ValidateCIPublishers in Hvalid. step_all Hvalid.
  eapply publishers_loop_subjects; [exact Hvalid|].
  unfold matchingPublisher in Hm. destruct (list_find _ _) as [[k q]|] eqn:Hf; simplify_eq/=.
  apply list_find_Some in Hf as (Hk & _). by eapply list_elem_of_lookup_2.
Qed.

Lemma publishers_loop_bindings `{!Urls} c l : ∀ seen, publishers_loop c seen l = Ok tt →
  NoDup (ci_binding <$> l) ∧ ∀ p, p ∈ l → ci_binding p ∉ seen.
Proof.
  induction l as [|p l IH]; intros seen Hl; [split; [constructor|]; by intros p ?%elem_of_nil|].
  cbn [publishers_loop] in Hl. step_all Hl. cbn zeta in Hl. step_all Hl.
  apply IH in Hl as [Hnd Hout].
  match goal with E : bool_decide (ci_binding p ∈ seen) = false |- _ => apply bool_decide_eq_false in E as Hp end.
  split.
  - cbn. apply NoDup_cons. split; [|done]. intros (q & Heq & Hq)%list_elem_of_fmap.
    apply (Hout q Hq). rewrite <-Heq. set_solver.
  - intros q [->|Hq]%elem_of_cons; [done|]. intros Hin. apply (Hout q Hq). set_solver.
Qed.

(** an identity has one publisher rule.  In a validated configuration at
    most one rule matches a token, so the workspace and the principal a token
    acts for do not depend on the order of the rules; and a rule only matches
    while its service subject is enabled and a publisher or editor of the
    workspace. *)
Theorem matching_unique `{!Urls} c claims p (Hvalid : Validate c = Ok tt)
    (Hp : matchingPublisher c claims = Some p) :
  p ∈ Config_CIPublishers c ∧ ciMembership c p true = true ∧
  Publisher_Repository p = Claims_Repository claims ∧
  ∀ i j q q', Config_CIPublishers c !! i = Some q → Config_CIPublishers c !! j = Some q' →
    publisher_matches c claims q = true → publisher_matches c claims q' = true →
    i = j ∧ q = p ∧ q' = p.
Proof.
  assert (NoDup (ci_binding <$> Config_CIPublishers c)) as Hnd.
  { unfold Validate in Hvalid. step_all Hvalid. unfold ValidateCIPublishers in Hvalid. step_all Hvalid.
    by apply publishers_loop_bindings in Hvalid as [? _]. }
  assert (∀ q q', publisher_matches c claims q = true → publisher_matches c claims q' = true →
    ci_binding q = ci_binding q') as Hsame.
  { intros q q' Hq Hq'. unfold publisher_matches in *. bool_prop. unfold ci_binding. congruence. }
  unfold matchingPublisher in Hp. destruct (list_find _ _) as [[k x]|] eqn:Hf; simplify_eq/=.
  apply list_find_Some in Hf as (Hk & Hm & _).
  assert (∀ j q, Config_CIPublishers c !! j = Some q → publisher_matches c claims q = true → j = k ∧ q = p)
    as Hone.
  { intros j q Hj Hq. assert (j = k) as ->; [|split; congruence].
    eapply (NoDup_lookup (ci_binding <$> Config_CIPublishers c) j k (ci_binding q)); [done|..].
    - by rewrite list_lookup_fmap, Hj.
    - rewrite list_lookup_fmap, Hk. cbn. by rewrite (Hsame q p). }
  split; [by eapply list_elem_of_lookup_2|].
  pose proof Hm as Hm'. unfold publisher_matches in Hm'. bool_prop. split_and!; [done..|].
  intros i j q q' Hi Hj Hq Hq'. destruct (Hone i q Hi Hq), (Hone j q' Hj Hq'). split_and!; congruence.
Qed.

(** ** The replay ledger *)

(** What the ledger relies on of its JSON: the records of a decoded ledger,
    and the records that [consume] adds, can be written and read back. *)
Class LedgerJson `{!Json (list replayRecord)} := {
  ledger_record : replayRecord → Prop;
  ledger_decoded s l : json_strict s = Ok l → Forall ledger_record l;
  ledger_encodable l : Forall ledger_record l → json_valid l;
  ledger_new text publisher expires : workspacePattern publisher = true → (0 < expires < 2 ^ 63)%Z →
    ledger_record (mkReplay (sha256_hex text) publisher expires);
}.

(** A workspace directory is not the ledger. *)
Lemma dir_name_not_ledger workspace : dir_name workspace ≠ replayFilename.
Proof.
  intros Heq%(f_equal String.length). unfold dir_name in Heq. by rewrite sha256_hex_length in Heq.
Qed.

Section ledger.
Context `{!Json (list replayRecord)} `{!LedgerJson}.
Implicit Types (t : gmap string root_entry).

Lemma replay_loop_spec now hash entries : ∀ active active', replay_loop now hash entries active = Ok active' →
  active' = active ++ filter (λ e, now < replay_Expires e)%Z entries ∧
  Forall (λ e, record_ok now e = true) entries ∧
  Forall (λ e, (now < replay_Expires e)%Z → replay_Digest e ≠ hash) entries.
Proof.
  induction entries as [|e entries IH]; intros active active' Hl.
  { injection Hl as <-. rewrite filter_nil, app_nil_r. by repeat constructor. }
  cbn [replay_loop] in Hl. step_ok Hl. case_bool_decide as Hexp.
  - apply IH in Hl as (-> & ? & ?). rewrite filter_cons_False by lia.
    split_and!; [done|constructor; [by bool_prop|done]|constructor; [lia|done]].
  - step_ok Hl. apply IH in Hl as (-> & ? & ?). rewrite filter_cons_True by lia.
    rewrite <-app_assoc. bool_prop.
    split_and!; [done|by constructor|by constructor].
Qed.

(** The ledger file holds a live record of the token. *)
Definition reserved t (hash : string) (expires : Z) : Prop :=
  ∃ f entries, t !! replayFilename = Some (RootFile f) ∧ file_content f = json_encode entries ∧
    Forall ledger_record entries ∧
    ∃ e, e ∈ entries ∧ replay_Digest e = hash ∧ replay_Expires e = expires.

Definition may_consume (claims : ciClaims) (publisher : CIPublisher) : Prop :=
  workspacePattern (Publisher_SubjectID publisher) = true ∧ (0 < Claims_Expires claims < 2 ^ 63)%Z.

(** Either nothing changes, or the ledger is replaced by its live records and
    the new one. *)
Lemma consume_inv io t claims p t' r : consume io t claims p = (t', r) →
  t' = t ∧ r ≠ Ok tt ∨
  ∃ entries active, read_ledger io t = Ok entries ∧
    replay_loop (Unix (cio_now io)) (token_digest claims) entries [] = Ok active ∧
    length active < 1000 ∧ publisher_count (Publisher_SubjectID p) active < 32 ∧
    t' = <[replayFilename := RootFile (mkPrivateFile true 384 (json_encode
           (active ++ [mkReplay (token_digest claims) (Publisher_SubjectID p) (Claims_Expires claims)])))]> t ∧
    (r = Ok tt → cio_write io = Written).
Proof.
  unfold consume. intros Hc. destruct (read_ledger io t) as [entries|]; [|left; by simplify_eq/=].
  cbn [rbind] in Hc. destruct (replay_loop _ _ _ _) as [active|] eqn:Hl; [|left; by simplify_eq/=].
  cbn [rbind] in Hc. destruct (_ || _) eqn:Hcap; [left; by simplify_eq/=|]. bool_prop.
  destruct (cio_write io); cbn in Hc; simplify_eq; [right|by left|right]; exists entries, active;
    split_and!; (done || lia).
Qed.

Lemma consume_frame io t claims p t' r : consume io t claims p = (t', r) →
  ∀ name, name ≠ replayFilename → t' !! name = t !! name.
Proof.
  intros [[-> _]|(? & ? & _ & _ & _ & _ & -> & _)]%consume_inv name Hne; [done|by rewrite lookup_insert_ne].
Qed.

Lemma read_ledger_entries io t f entries entries' : t !! replayFilename = Some (RootFile f) →
  file_content f = json_encode entries → Forall ledger_record entries →
  read_ledger io t = Ok entries' → entries' = entries.
Proof.
  intros Hf Hcontent Hrec Hr. unfold read_ledger in Hr. rewrite Hf in Hr.
  destruct (cio_lstat io); [done|]. step_ok Hr. destruct (cio_open io); [done|].
  rewrite Hcontent, json_strict_roundtrip in Hr by (by apply ledger_encodable).
  destruct (cio_read io); [done|]. step_ok Hr. by injection Hr as <-.
Qed.

Lemma read_ledger_records io t entries : read_ledger io t = Ok entries → Forall ledger_record entries.
Proof.
  unfold read_ledger. intros Hr. destruct (cio_lstat io); [done|].
  destruct (t !! replayFilename) as [[d|f]|]; [done| |by injection Hr as <-].
  step_ok Hr. destruct (cio_open io); [done|]. destruct (cio_read io); [done|].
  destruct (json_strict _) as [l|] eqn:Hj; [|done]. step_ok Hr. injection Hr as <-. by eapply ledger_decoded.
Qed.

Lemma consume_reserves io t claims p t' : may_consume claims p → consume io t claims p = (t', Ok tt) →
  reserved t' (token_digest claims) (Claims_Expires claims).
Proof.
  intros [Hp He] Hc. apply consume_inv in Hc as [[_ ?]|(entries & active & Hr & Hl & _ & _ & -> & _)]; [done|].
  eexists _, _. split_and!; [apply lookup_insert_eq|done| |].
  - apply Forall_app. split; [|repeat constructor; by apply ledger_new].
    apply replay_loop_spec in Hl as (-> & _). apply read_ledger_records in Hr.
    apply Forall_forall. intros e [_ He']%list_elem_of_filter. rewrite Forall_forall in Hr. by apply Hr.
  - eexists. split; [apply elem_of_app; right; by left|done].
Qed.

Lemma consume_keeps_reserved io t claims p t' r hash expires : may_consume claims p →
  consume io t claims p = (t', r) → (Unix (cio_now io) < expires)%Z →
  reserved t hash expires → reserved t' hash expires ∧ (token_digest claims = hash → r ≠ Ok tt).
Proof.
  intros [Hp He] Hc Hnow Hres. pose proof Hres as (f & entries & Hf & Hcontent & Hrec & e & Hin & Hd & Hx).
  apply consume_inv in Hc as [[-> Hr]|(entries' & active & Hr & Hl & _ & _ & -> & _)]; [done|].
  assert (entries' = entries) as -> by (by eapply read_ledger_entries).
  apply replay_loop_spec in Hl as (-> & _ & Hnot). split.
  - eexists _, _. split_and!; [apply lookup_insert_eq|done| |].
    + apply Forall_app. split; [|repeat constructor; by apply ledger_new].
      apply Forall_forall. intros x [_ Hx']%list_elem_of_filter. rewrite Forall_forall in Hrec. by apply Hrec.
    + exists e. split_and!; [|done..]. apply elem_of_app. left. cbn. apply list_elem_of_filter. split; [lia|done].
  - intros <- _. rewrite Forall_forall in Hnot. apply (Hnot e Hin); [lia|done].
Qed.

(** Any sequence of reservations and other operations on the data directory,
    in the order of the hub's clock *)
Inductive ledger_steps : Z → gmap string root_entry → Z → gmap string root_entry → Prop :=
  | steps_refl now t : ledger_steps now t now t
  | steps_consume start t now t1 io claims p t2 r :
      ledger_steps start t now t1 → (now ≤ Unix (cio_now io))%Z → may_consume claims p →
      consume io t1 claims p = (t2, r) → ledger_steps start t (Unix (cio_now io)) t2
  | steps_other start t now t1 t2 :
      ledger_steps start t now t1 → t2 !! replayFilename = t1 !! replayFilename → ledger_steps start t now t2.

Lemma ledger_steps_reserved start t now t' hash expires : ledger_steps start t now t' →
  (now < expires)%Z → reserved t hash expires → reserved t' hash expires.
Proof.
  induction 1 as [|start t now t1 io claims p t2 r Hs IH Hle Hmay Hc|start t now t1 t2 Hs IH Heq];
    intros Hnow Hres; [done| |].
  - eapply consume_keeps_reserved in Hc; [by destruct Hc|done|done|]. apply IH; [lia|done].
  - destruct (IH Hnow Hres) as (f & entries & Hf & ?). exists f, entries. by rewrite Heq.
Qed.

(** a token is used at most once.  After a token has been reserved, and
    whatever other reservations (accepted, refused, or failed half way) and
    other operations follow while the hub's clock does not go backwards, every
    later attempt to reserve a token with the same identifier is refused
    without a change until the first token has expired - and an expired token
    is not accepted anyway. *)
Theorem token_single_use io t claims p t1 now t2 io' claims' p' t3 r
    (Hmay : may_consume claims p) (Hmay' : may_consume claims' p')
    (Hfirst : consume io t claims p = (t1, Ok tt))
    (Hbetween : ledger_steps (Unix (cio_now io)) t1 now t2)
    (Hlater : (now ≤ Unix (cio_now io') < Claims_Expires claims)%Z)
    (Hsame : Claims_ID claims' = Claims_ID claims)
    (Hsecond : consume io' t2 claims' p' = (t3, r)) :
  t3 = t2 ∧ r ≠ Ok tt.
Proof.
  apply consume_reserves in Hfirst; [|done].
  eapply ledger_steps_reserved in Hfirst; [|done|lia].
  assert (token_digest claims' = token_digest claims) as Hd by (unfold token_digest; by rewrite Hsame).
  pose proof Hfirst as (f & entries & Hf & Hcontent & Hrec & e & Hin & He & Hx).
  apply consume_inv in Hsecond as [?|(entries' & active & Hr & Hl & _)]; [done|].
  assert (entries' = entries) as -> by (by eapply read_ledger_entries).
  apply replay_loop_spec in Hl as (_ & _ & Hnot). rewrite Forall_forall in Hnot.
  destruct (Hnot e Hin); [lia|congruence].
Qed.

(** No file operation fails. *)
Definition ledger_reads (io : consume_io) : Prop :=
  cio_lstat io = None ∧ cio_open io = None ∧ cio_read io = None.

Lemma read_ledger_fine io t : ledger_reads io → 
  read_ledger io t = match t !! replayFilename with
    | None => Ok []
    | Some (RootDir _) => Err err_replay_file
    | Some (RootFile f) =>
        fail? negb (private f) || longer (file_content f) (256 * 1024) with err_replay_file in
        match json_strict (file_content f) with
        | Ok entries => fail? bool_decide (1000 < length entries) with err_replay_content in Ok entries
        | Err _ => Err err_replay_content
        end
    end.
Proof. intros (H1 & H2 & H3). unfold read_ledger. by rewrite H1, H2, H3. Qed.

Lemma replay_loop_expired now hash entries : ∀ active,
  Forall (λ e, record_ok now e = true ∧ (replay_Expires e ≤ now)%Z) entries →
  replay_loop now hash entries active = Ok active.
Proof.
  induction entries as [|e entries IH]; intros active Hall; [done|].
  apply Forall_cons in Hall as [[He Hx] Hall]. cbn [replay_loop]. rewrite He, bool_decide_eq_true_2 by done.
  by apply IH.
Qed.

Lemma record_ok_later now now' e : (now ≤ now')%Z → record_ok now e = true → record_ok now' e = true.
Proof.
  unfold record_ok. intros Hle Hok. bool_prop. split_and!; (done || lia).
Qed.

(** the capacity of the ledger comes back.  A token that is refused because
    its publisher, or the ledger as a whole, has too many live records gets
    through once 630 seconds have passed: with the ledger as it was, and
    unless a file operation fails, every token is then reserved, and no other
    file is touched. *)
Theorem capacity_recovers io io' t t1 claims claims' p p' (Hreads : ledger_reads io)
    (Hfull : consume io t claims p = (t1, Err err_replay_capacity))
    (Hlive : cio_write io = Written) (Hreads' : ledger_reads io') (Hwrite' : cio_write io' = Written)
    (Hwait : (Unix (cio_now io) + 630 ≤ Unix (cio_now io'))%Z) :
  t1 = t ∧ ∃ t', consume io' t claims' p' = (t', Ok tt) ∧
    (∀ name, name ≠ replayFilename → t' !! name = t !! name) ∧
    (may_consume claims' p' → reserved t' (token_digest claims') (Claims_Expires claims')).
Proof.
  unfold consume in Hfull. rewrite Hlive in Hfull.
  destruct (read_ledger io t) as [entries|err] eqn:Hr.
  2: { exfalso. cbn in Hfull. injection Hfull as _ ->. rewrite read_ledger_fine in Hr by done.
    destruct (t !! replayFilename) as [[d|f]|]; [done| |done]. destruct (_ || longer _ _); [done|].
    destruct (json_strict _); [|done]. by destruct (bool_decide _). }
  cbn [rbind] in Hfull. destruct (replay_loop _ _ _ _) as [active|err] eqn:Hl.
  2: { exfalso. cbn in Hfull. injection Hfull as _ ->. clear Hr. revert Hl. generalize (@nil replayRecord).
    induction entries as [|e entries IH]; intros active Hl; [done|]. cbn [replay_loop] in Hl.
    destruct (negb _); [done|]. destruct (bool_decide _); [by eapply IH|].
    destruct (bool_decide _); [done|]. by eapply IH. }
  assert (t1 = t) as -> by (cbn [rbind] in Hfull; destruct (_ || _); by simplify_eq/=).
  split; [done|]. apply replay_loop_spec in Hl as (_ & Hok & _).
  assert (consume io' t claims' p' = (<[replayFilename := RootFile (mkPrivateFile true 384
    (json_encode [mkReplay (token_digest claims') (Publisher_SubjectID p') (Claims_Expires claims')]))]> t, Ok tt))
    as Hdone.
  { unfold consume. rewrite (read_ledger_fine io' t Hreads'), <-(read_ledger_fine io t Hreads), Hr. cbn [rbind].
    rewrite replay_loop_expired.
    - cbn. by rewrite Hwrite'.
    - eapply Forall_impl; [exact Hok|]. intros e He. split; [eapply record_ok_later; [|exact He]; lia|].
      unfold record_ok in He. bool_prop. lia. }
  eexists. split; [exact Hdone|]. split; [by intros name Hne; rewrite lookup_insert_ne|].
  intros Hmay. by eapply consume_reserves.
Qed.
End ledger.

(** ** Witnesses *)

Definition demo_time (seconds : Z) : time := ((62135596800 + seconds) * Second)%Z.

Definition demo_claims : ciClaims :=
  mkClaims githubIssuer "repo:o/r:ref:refs/heads/main" "https://hub.example" "token-0001" 1000000 1000000 1000300
    "o/r" "11" "12" "o/r/.github/workflows/ci.yml@refs/heads/main" "refs/heads/main" "branch" "push"
    "github-hosted" "0123456789012345678901234567890123456789" "77" "1" "" "" "".

Definition demo_members : JsonObjects := {| json_members b :=
  if bool_decide (b = "H") then Ok [("alg", "RS256"); ("typ", "JWT"); ("kid", "key")]
  else if bool_decide (b = "C") then Ok [("iss", githubIssuer)] else Err err_member |}.
Definition demo_rsa : Rsa := {| VerifyPKCS1v15 key digest signature := bool_decide (signature = [1; 0; 1]%Z) |}.
Definition text_json : Json string.
Proof.
  refine {| json_encode s := s; json_marshal s := s; json_decode := Ok; json_strict := Ok;
            json_valid _ := True |}; done.
Defined.
Definition claims_json : Json ciClaims := single_json demo_claims.
Definition keys_json : Json key_set := single_json [].
Definition key_json : Json signing_key := single_json (mkSigningKey "" "" "" "" "" "").

Definition demo_verifier : ciVerifier :=
  mkVerifier {["key" := (2 ^ 2047 + 1)%Z]} (demo_time 999900) (demo_time 999900).
Definition demo_fetch : fetch_io := mkFetchIO None None 503 (Ok "").
Definition demo_verify_io : verify_io := mkVerifyIO (demo_time 1000010) (demo_time 1000011) demo_fetch.

Lemma demo_verifier_ok : verifier_ok demo_verifier.
Proof.
  apply map_Forall_singleton. split; [vm_compute; split; [discriminate|reflexivity]|].
  exists (2 ^ 2046)%Z. vm_compute. reflexivity.
Defined.

Lemma demo_claims_int64 part c : @parse_claims demo_members claims_json part = Ok c → int64_claims c.
Proof.
  unfold parse_claims. destruct (base64_decode part); [|done]. unfold objectJSON.
  destruct (object_members _); [|done]. intros [= <-]. unfold int64_claims. rewrite !Forall_cons. unfold demo_claims. cbn [Claims_IssuedAt Claims_NotBefore Claims_Expires]. split_and!; (done || lia || constructor).
Qed.

Lemma verify_sound_witness :
  ∃ header payload encoded kid key signature,
    split_byte "." "SA.Qw.AQAB" = [header; payload; encoded] ∧
    @parse_header demo_members text_json header = Ok kid ∧
    @parse_claims demo_members claims_json payload = Ok demo_claims ∧
    base64_decode encoded = Some signature ∧
    @VerifyPKCS1v15 demo_rsa key (Sum256 (header +:+ "." +:+ payload)) signature = true ∧
    @key_source demo_members keys_json key_json demo_fetch (demo_time 1000011) demo_verifier kid key ∧
    strong_modulus key ∧ verifier_ok demo_verifier ∧ push_job demo_claims ∧
    live_token demo_claims (Unix (demo_time 1000010)).
Proof.
  apply (@verify_sound demo_members demo_rsa text_json claims_json keys_json key_json demo_verify_io
    demo_verifier "SA.Qw.AQAB" demo_verifier demo_claims).
  - exact demo_verifier_ok.
  - exact demo_claims_int64.
  - vm_compute. reflexivity.
  - reflexivity.
Defined.

Definition demo_publisher : CIPublisher :=
  mkCIPublisher "bot" "team" "https://hub.example" "o/r" "11" "12"
    "o/r/.github/workflows/ci.yml@refs/heads/main" "refs/heads/main" "repo:o/r:ref:refs/heads/main".
Definition demo_ci_config : Config :=
  mkConfig [mkSubject "bot" "service" false] [mkMembership "bot" "team" "publisher"] None [demo_publisher]
    7 2 7 500 [].

Lemma matching_unique_witness :
  demo_publisher ∈ Config_CIPublishers demo_ci_config ∧ ciMembership demo_ci_config demo_publisher true = true ∧
  Publisher_Repository demo_publisher = Claims_Repository demo_claims ∧
  ∀ i j q q', Config_CIPublishers demo_ci_config !! i = Some q →
    Config_CIPublishers demo_ci_config !! j = Some q' →
    publisher_matches demo_ci_config demo_claims q = true →
    publisher_matches demo_ci_config demo_claims q' = true → i = j ∧ q = demo_publisher ∧ q' = demo_publisher.
Proof.
  apply (@matching_unique simple_urls demo_ci_config demo_claims demo_publisher).
  - vm_compute. reflexivity.
  - vm_compute. reflexivity.
Defined.

#[export] Instance replayRecord_countable : Countable replayRecord.
Proof.
  refine (inj_countable' (λ r, (replay_Digest r, replay_Publisher r, replay_Expires r))
    (λ '(d, p, e), mkReplay d p e) _).
  by intros [].
Defined.
Definition ledger_json : Json (list replayRecord) := countable_json (list replayRecord).
#[export] Instance demo_ledger : @LedgerJson ledger_json.
Proof. by refine {| ledger_record _ := True |}; try done; intros; apply Forall_true. Defined.

Definition demo_consume_io (seconds : Z) : consume_io := mkConsumeIO None None None (demo_time seconds) Written.
Definition demo_consumed : gmap string root_entry * result unit :=
  @consume ledger_json (demo_consume_io 1000010) ∅ demo_claims demo_publisher.

Lemma consume_parts (r : gmap string root_entry * result unit) :
  match r.2 with Ok _ => true | Err _ => false end = true → r = (r.1, Ok tt).
Proof. by destruct r as [? [[]|]]. Qed.

Lemma token_single_use_witness :
  let again := @consume ledger_json (demo_consume_io 1000020) demo_consumed.1 demo_claims demo_publisher in
  again.1 = demo_consumed.1 ∧ again.2 ≠ Ok tt.
Proof.
  intros again. apply (@token_single_use ledger_json demo_ledger (demo_consume_io 1000010) ∅ demo_claims
    demo_publisher demo_consumed.1 1000010 demo_consumed.1 (demo_consume_io 1000020) demo_claims demo_publisher
    again.1 again.2).
  - split; [vm_compute; reflexivity|vm_compute; split; reflexivity].
  - split; [vm_compute; reflexivity|vm_compute; split; reflexivity].
  - refine (consume_parts demo_consumed _). vm_compute. reflexivity.
  - apply steps_refl.
  - vm_compute. split; [discriminate|reflexivity].
  - reflexivity.
  - apply surjective_pairing.
Defined.

(** A ledger with 32 live records of one publisher; its file is the text
    "full". *)
Definition full_ledger : list replayRecord :=
  repeat (mkReplay "0123456789012345678901234567890123456789012345678901234567890123" "bot" 1000300) 32.
Definition full_decode (s : string) : result (list replayRecord) :=
  if bool_decide (s = "full") then Ok full_ledger else countable_decode s.
Definition full_json : Json (list replayRecord).
Proof.
  refine {| json_encode l := string_of_pos (encode l); json_marshal l := string_of_pos (encode l);
            json_decode := full_decode; json_strict := full_decode; json_valid _ := True |}.
  all: intros l _; unfold full_decode; rewrite bool_decide_eq_false_2 by (by destruct (encode l)).
  all: unfold countable_decode; rewrite pos_of_string_of_pos; cbn; by rewrite decode_encode.
Defined.
#[export] Instance full_ledger_json : @LedgerJson full_json.
Proof. by refine {| ledger_record _ := True |}; try done; intros; apply Forall_true. Defined.
Definition full_tree : gmap string root_entry :=
  {[replayFilename := RootFile (mkPrivateFile true 384 "full")]}.

Lemma capacity_recovers_witness :
  full_tree = full_tree ∧ ∃ t', @consume full_json (demo_consume_io 1000640) full_tree demo_claims demo_publisher
      = (t', Ok tt) ∧
    (∀ name, name ≠ replayFilename → t' !! name = full_tree !! name) ∧
    (may_consume demo_claims demo_publisher →
       @reserved full_json full_ledger_json t' (token_digest demo_claims) (Claims_Expires demo_claims)).
Proof.
  apply (@capacity_recovers full_json full_ledger_json (demo_consume_io 1000010) (demo_consume_io 1000640)
    full_tree full_tree demo_claims demo_claims demo_publisher demo_publisher).
  - split_and!; reflexivity.
  - vm_compute. reflexivity.
  - reflexivity.
  - split_and!; reflexivity.
  - reflexivity.
  - vm_compute. discriminate.
Defined.
