(* ===== verification/HubServer.v ===== *)
(** * HubServer: the HTTP handlers of the team hub

    Models [src/internal/hub/server.go] and [handleCI] of [oidc.go]: bearer
    authentication, rate limiting, the two kinds of request slots, the routes
    and their operations with the audit events around them, the publishing of
    reports by CI jobs, and reloading the configuration.

    A request is handled in phases: it is admitted (authenticated, limited,
    given its slots), it may verify a CI token, its body is read, and its
    operation runs under the read lock of the configuration.  Every phase is a
    function on the server's state; [hub_step] interleaves the phases of
    different requests and reloads.  Two phases that both hold the read lock
    are run one after the other.  Clock readings, random bytes and the outcomes
    of file operations are inputs ([request_io]). *)

From Stdlib Require Import SpecFloat.
From S2P Require Import Prelude Sha256 Json Text HubConfig HubStore HubAudit HubOidc.

(** ** The rate limiter

    Tokens are a [float64]; its arithmetic is the IEEE 754 binary64 arithmetic
    of the standard library's [SpecFloat]. *)

Definition float64 : Type := spec_float.
Definition of_Z (n : Z) : float64 := binary_normalize 53 1024 n 0 false.
Definition float_add : float64 → float64 → float64 := SFadd 53 1024.
Definition float_sub : float64 → float64 → float64 := SFsub 53 1024.
Definition float_div : float64 → float64 → float64 := SFdiv 53 1024.

(** time.Duration.Seconds *)
Definition Seconds (d : Z) : float64 :=
  float_add (of_Z (Z.quot d Second)) (float_div (of_Z (Z.rem d Second)) (of_Z Second)).

(** time.Time.Sub, which saturates *)
Definition Sub (t u : time) : Z := Z.max (- 2 ^ 63) (Z.min (2 ^ 63 - 1) (t - u)).

(** The conversion to [int64] of a float in its range *)
Definition float_to_int (f : float64) : Z :=
  match f with
  | S754_finite sign m e =>
      let n := Z.shiftl (Z.pos m) e in if sign then (- n)%Z else n
  | _ => 0%Z
  end.

Record rateBucket := mkBucket {
  bucket_tokens : float64;
  bucket_updated : time;
}.
Abbreviation buckets := (gmap string rateBucket) (only parsing).

(** The order in which [range] visits a map *)
Abbreviation map_order := (list (string * rateBucket) → list (string * rateBucket)) (only parsing).

Fixpoint oldest_loop (entries : list (string * rateBucket)) (oldest : string) (when : time) : string :=
  match entries with
  | [] => oldest
  | (candidate, bucket) :: entries =>
      if bool_decide (oldest = "") || Before (bucket_updated bucket) when
      then oldest_loop entries candidate (bucket_updated bucket)
      else oldest_loop entries oldest when
  end.

Definition refill (b : rateBucket) (now : time) : float64 :=
  let tokens := float_add (bucket_tokens b) (float_div (Seconds (Sub now (bucket_updated b))) (of_Z 2)) in
  if SFltb (of_Z 30) tokens then of_Z 30 else tokens.

(** The bucket after one request, and whether the request is allowed *)
Definition take_token (b : rateBucket) (now : time) : rateBucket * bool :=
  let tokens := refill b now in
  if SFleb (of_Z 1) tokens then (mkBucket (float_sub tokens (of_Z 1)) now, true)
  else (mkBucket tokens now, false).

Definition allow (order : map_order) (now : time) (l : buckets) (key : string) : buckets * bool :=
  match l !! key with
  | Some b => let '(b, allowed) := take_token b now in (<[key := b]> l, allowed)
  | None =>
      let l := if bool_decide (128 <= size l) then delete (oldest_loop (order (map_to_list l)) "" 0) l else l in
      let '(b, allowed) := take_token (mkBucket (of_Z 30) now) now in (<[key := b]> l, allowed)
  end.

Definition retain (c : Config) (l : buckets) : buckets :=
  filter (λ '(key, _), key = "anonymous-auth" ∨ key ∈ Key_TokenSHA256 <$> Config_Keys c) l.

(** [allowPublisher]: buckets of workspaces without a publisher are dropped. *)
Definition allowPublisher (order : map_order) (now : time) (c : Config) (l : buckets) (workspace : string) :
    buckets * bool :=
  allow order now (filter (λ '(existing, _), existing ∈ Publisher_Workspace <$> Config_CIPublishers c) l)
    workspace.

(** ** Requests and replies *)

Record Request := mkRequest {
  req_Method : string;
  req_Path : string;
  req_RawQuery : string;
  req_Authorization : list string;
  req_ContentType : string;
  (** the bytes that can be read from the body, and the failure after them *)
  req_Body : string;
  req_BodyFail : option error;
}.

(** mime.ParseMediaType, its first result *)
Class Mime := { ParseMediaType : string → result string }.

Record session := mkSession {
  session_workspace : string;
  session_permission : string;
  session_subject : string;
  session_kind : string;
  session_credential : string;
  session_scopes : list string;
  session_role : string;
}.

(** What a reply carries; [PAssets] leaves the reply to the asset handler. *)
Inductive payload :=
  | PError (message : string)
  | PHealth
  | PSession (s : session)
  | PReports (reports : list HubStore.Report)
  | PReport (report : HubStore.Report)
  | PEmpty
  | PAssets
  | PNotFound.

(** The status, the headers set besides those of [common_headers], the body *)
Record reply := mkReply {
  reply_Status : Z;
  reply_Headers : list (string * string);
  reply_Payload : payload;
}.

Definition common_headers : list (string * string) :=
  [("X-Content-Type-Options", "nosniff"); ("X-Frame-Options", "DENY"); ("Referrer-Policy", "no-referrer");
   ("Content-Security-Policy", "default-src 'self'; script-src 'self'; style-src 'self'; img-src 'self' data:; connect-src 'self'; object-src 'none'; base-uri 'none'; frame-ancestors 'none'; form-action 'none'");
   ("Cache-Control", "no-store")].

Definition writeJSON (headers : list (string * string)) (status : Z) (value : payload) : reply :=
  mkReply status (headers ++ [("Content-Type", "application/json; charset=utf-8")]) value.
Definition writeError (headers : list (string * string)) (status : Z) (message : string) : reply :=
  writeJSON headers status (PError message).
Definition methodNotAllowed (methods : string) : reply :=
  writeError [("Allow", methods)] 405 "method not allowed".
Definition retry_after (seconds : string) (status : Z) (message : string) : reply :=
  writeError [("Retry-After", seconds)] status message.

Record operationResult := mkResult {
  result_status : Z;
  result_value : payload;
  result_reportID : string;
}.

Definition operationError (err : error) : operationResult :=
  match err with
  | ErrNotFound => mkResult 404 (PError "report not found") ""
  | ErrQuota => mkResult 409 (PError (error_text ErrQuota)) ""
  | _ => mkResult 500
      (PError "report storage is unavailable; ask the hub operator to check the data directory") ""
  end.

Definition storeError (err : error) : reply :=
  let result := operationError err in writeJSON [] (result_status result) (result_value result).

(** ** authenticate *)

Definition bearer (headers : list string) : option string :=
  match headers with
  | [header] => if has_prefix header "Bearer " then Some (trim_prefix header "Bearer ") else None
  | _ => None
  end.

(** The last key with the token's hash; [Validate] allows only one. *)
Definition authenticate (r : Request) (c : Config) : option Key :=
  match bearer (req_Authorization r) with
  | None => None
  | Some token =>
      if bool_decide (String.length token < 32) || longer token 256 || contains_any token (white_cut +:+ ",")
      then None
      else last (filter (λ key, Key_TokenSHA256 key = sha256_hex token) (Config_Keys c))
  end.

(** The key and the principal of a request, as [ServeHTTP] and [authorized]
    look them up *)
Definition credential (r : Request) (c : Config) (now : time) : option (Key * Principal) :=
  match authenticate r c with
  | None => None
  | Some key => match principalForKey c key now with Some p => Some (key, p) | None => None end
  end.

(** ** The server *)

Record Server := mkServer {
  (** [Reload] and [NewServer] give the store the server's configuration. *)
  srv_config : Config;
  srv_closed : bool;
  srv_tree : gmap string root_entry;
  srv_audit : option AuditLog;
  srv_disk : audit_disk;
  srv_ci : ciVerifier;
  srv_ci_buckets : buckets;
  srv_ci_slots : nat;
  srv_buckets : buckets;
  srv_slots : nat;
  (** the channel of every workspace, and how many requests each holds *)
  srv_channels : gmap string nat;
  srv_load : gmap nat nat;
}.

Definition set_tree (s : Server) (t : gmap string root_entry) : Server :=
  mkServer (srv_config s) (srv_closed s) t (srv_audit s) (srv_disk s) (srv_ci s) (srv_ci_buckets s)
    (srv_ci_slots s) (srv_buckets s) (srv_slots s) (srv_channels s) (srv_load s).
Definition set_audit (s : Server) (a : option AuditLog) (d : audit_disk) : Server :=
  mkServer (srv_config s) (srv_closed s) (srv_tree s) a d (srv_ci s) (srv_ci_buckets s)
    (srv_ci_slots s) (srv_buckets s) (srv_slots s) (srv_channels s) (srv_load s).
Definition set_ci (s : Server) (v : ciVerifier) (l : buckets) (slots : nat) : Server :=
  mkServer (srv_config s) (srv_closed s) (srv_tree s) (srv_audit s) (srv_disk s) v l slots
    (srv_buckets s) (srv_slots s) (srv_channels s) (srv_load s).
Definition set_buckets (s : Server) (l : buckets) : Server :=
  mkServer (srv_config s) (srv_closed s) (srv_tree s) (srv_audit s) (srv_disk s) (srv_ci s) (srv_ci_buckets s)
    (srv_ci_slots s) l (srv_slots s) (srv_channels s) (srv_load s).
Definition set_slots (s : Server) (slots : nat) (load : gmap nat nat) : Server :=
  mkServer (srv_config s) (srv_closed s) (srv_tree s) (srv_audit s) (srv_disk s) (srv_ci s) (srv_ci_buckets s)
    (srv_ci_slots s) (srv_buckets s) slots (srv_channels s) load.

(** *** Slots *)

Definition load_of (load : gmap nat nat) (channel : nat) : nat := default 0 (load !! channel).

(** A send to a channel with room for two; a missing channel is nil and never
    ready. *)
Definition acquire_workspace (s : Server) (workspace : string) : option (Server * nat) :=
  match srv_channels s !! workspace with
  | Some channel =>
      if bool_decide (load_of (srv_load s) channel < 2) then
        Some (set_slots s (srv_slots s) (<[channel := S (load_of (srv_load s) channel)]> (srv_load s)), channel)
      else None
  | None => None
  end.
Definition release_workspace (s : Server) (channel : nat) : Server :=
  set_slots s (srv_slots s) (<[channel := pred (load_of (srv_load s) channel)]> (srv_load s)).
Definition acquire_slot (s : Server) : option Server :=
  if bool_decide (srv_slots s < 16) then Some (set_slots s (S (srv_slots s)) (srv_load s)) else None.
Definition release_slot (s : Server) : Server := set_slots s (pred (srv_slots s)) (srv_load s).

(** The two slots of a request, or the reply that refuses it; [busy] and
    [full] are the replies for the two limits. *)
Definition acquire_slots (s : Server) (workspace : string) (busy full : reply) : Server * (reply + nat) :=
  match acquire_workspace s workspace with
  | None => (s, inl busy)
  | Some (s, channel) =>
      match acquire_slot s with
      | None => (release_workspace s channel, inl full)
      | Some s => (s, inr channel)
      end
  end.
Definition release_slots (s : Server) (channel : nat) : Server := release_workspace (release_slot s) channel.

(** A channel for every workspace of the configuration: the one it has, or a
    fresh one *)
Fixpoint channels_loop (old : gmap string nat) (load : gmap nat nat) (next : gmap string nat)
    (workspaces : list string) : gmap string nat * gmap nat nat :=
  match workspaces with
  | [] => (next, load)
  | workspace :: workspaces =>
      match old !! workspace with
      | Some channel => channels_loop old load (<[workspace := channel]> next) workspaces
      | None =>
          let channel := fresh (dom load) in
          channels_loop old (<[channel := 0]> load) (<[workspace := channel]> next) workspaces
      end
  end.

Definition config_workspaces (c : Config) : list string :=
  (Key_Workspace <$> Config_Keys c) ++ (Membership_Workspace <$> Config_Memberships c).

Definition resetWorkspaceSlots (s : Server) (c : Config) : Server :=
  let '(channels, load) := channels_loop (srv_channels s) (srv_load s) ∅ (config_workspaces c) in
  mkServer (srv_config s) (srv_closed s) (srv_tree s) (srv_audit s) (srv_disk s) (srv_ci s) (srv_ci_buckets s)
    (srv_ci_slots s) (srv_buckets s) (srv_slots s) channels load.

(** ** Handlers *)

(** The inputs of one phase *)
Record request_io := mkRequestIO {
  rio_now : time;
  rio_limit_order : map_order;
  rio_limit_now : time;
  rio_fail_order : map_order;
  rio_fail_now : time;
  rio_intent : audit_io;
  rio_outcome : audit_io;
  rio_store : store_io;
  rio_verify : verify_io;
  rio_quarantine_now : time;
  rio_expiry_now : time;
  rio_consume : consume_io;
}.

(** A request that holds slots: its principal at admission or its CI claims,
    and the channel of its workspace; or a CI token still to be verified *)
Inductive pending :=
  | PendingApi (p : Principal) (channel : nat)
  | PendingToken (token : string)
  | PendingCI (claims : ciClaims) (channel : nat).

Definition reports_prefix : string := "/api/v1/reports/".
Definition path_id (r : Request) : string := trim_prefix (req_Path r) reports_prefix.

Definition audit_unavailable : reply := writeError [] 503 "audit storage unavailable".
Definition unauthorized_reply : reply :=
  writeError [("WWW-Authenticate", "Bearer realm=" +:+ String "034" ("worldbisect-hub" +:+ String "034" ""))] 401
    "a valid, unexpired workspace bearer token is required".
Definition quarantine_message : string :=
  "CI publishing is temporarily paused after a restore; obtain a new identity token after the retry interval".

(** [ciQuarantined], as the reply it writes *)
Definition ciQuarantined (until : option time) (now : time) : option reply :=
  match until with
  | None => None
  | Some until =>
      if negb (Before now until) then None
      else Some (retry_after (show_Z (wrap_int64 (float_to_int (Seconds (Sub until now)) + 1))) 503
                   quarantine_message)
  end.

Section handlers.
Context `{PUrls : !Urls, PMime : !Mime, PObjects : !JsonObjects, PRsa : !Rsa, !Json string, !Json ciClaims, !Json key_set, !Json signing_key}.
Context `{!Json (list replayRecord), !Json HubStore.Report, !Json Submission, !Json auditEntry, !Json auditState}.

(** [AuditLog.Append]; without a log nothing is recorded. *)
Definition audit_append (io : audit_io) (s : Server) (event : AuditEvent) : Server * result unit :=
  match srv_audit s with
  | None => (s, Ok tt)
  | Some a => let '(a, d, r) := Append io a (srv_disk s) event in (set_audit s (Some a) d, r)
  end.

Definition authFailure (io : request_io) (s : Server) : Server * reply :=
  let '(l, allowed) := allow (rio_fail_order io) (rio_fail_now io) (srv_buckets s) "anonymous-auth" in
  let s := set_buckets s l in
  if allowed then
    match audit_append (rio_intent io) s
            (mkAuditEvent "anonymous" "anonymous" "" "" "auth.failure" "denied" "") with
    | (s, Err _) => (s, audit_unavailable)
    | (s, Ok _) => (s, unauthorized_reply)
    end
  else (s, unauthorized_reply).

(** *** Bodies *)

Inductive body_read :=
  | BodyRead (b : string)
  | BodyTooLarge
  | BodyFailed (err : error).

(** [io.ReadAll(http.MaxBytesReader(w, r.Body, MaxBodyBytes))] *)
Definition read_body (r : Request) : body_read :=
  if longer (req_Body r) MaxBodyBytes then BodyTooLarge
  else match req_BodyFail r with Some err => BodyFailed err | None => BodyRead (req_Body r) end.

Definition is_json_request (r : Request) : bool :=
  match ParseMediaType (req_ContentType r) with
  | Ok mediaType => bool_decide (mediaType = "application/json")
  | Err _ => false
  end.

Definition readSubmission (r : Request) : reply + Submission :=
  if negb (is_json_request r) then inl (writeError [] 415 "Content-Type must be application/json")
  else
    match read_body r with
    | BodyTooLarge => inl (writeError [] 413 "summary exceeds the 16 KiB request limit")
    | BodyFailed _ => inl (writeError [] 400 "could not read JSON request")
    | BodyRead b =>
        match json_strict b with
        | Err _ => inl (writeError [] 400 "invalid summary JSON: use only documented fields and one object")
        | Ok submission =>
            match Submission_Validate submission with
            | Err err => inl (writeError [] 422 (error_text err))
            | Ok _ => inr submission
            end
        end
    end.

(** *** authorized *)

Definition operation : Type := Principal → Server → Server * operationResult.

Definition event_of (p : Principal) (action outcome reportID : string) : AuditEvent :=
  mkAuditEvent (Principal_SubjectID p) (Principal_Kind p) (Principal_Workspace p) (Principal_CredentialID p)
    action outcome reportID.

Definition result_reply (result : operationResult) : reply :=
  let headers := if bool_decide (result_status result = 201%Z)
                 then [("Location", reports_prefix +:+ result_reportID result)] else [] in
  if bool_decide (result_status result = 204%Z) then mkReply 204 headers PEmpty
  else writeJSON headers (result_status result) (result_value result).

Definition authorized (io : request_io) (s : Server) (r : Request) (scope action : string)
    (op : option operation) : Server * reply :=
  match credential r (srv_config s) (rio_now io) with
  | None => authFailure io s
  | Some (_, p) =>
      let id := if idPattern (path_id r) then path_id r else "" in
      if negb (bool_decide (scope = "")) && negb (bool_decide (scope ∈ Principal_Scopes p)) then
        match audit_append (rio_intent io) s (event_of p action "denied" id) with
        | (s, Err _) => (s, audit_unavailable)
        | (s, Ok _) => (s, writeError [] 403 "this credential does not permit the requested action")
        end
      else
        match op with
        | None => (s, writeError [] 403 "action is not allowed")
        | Some op =>
            match audit_append (rio_intent io) s (event_of p action "intent" id) with
            | (s, Err _) => (s, audit_unavailable)
            | (s, Ok _) =>
                let '(s, result) := op p s in
                match audit_append (rio_outcome io) s
                        (event_of p action (show_Z (result_status result)) (result_reportID result)) with
                | (s, Err _) => (s, writeError [] 503
                    "audit completion unavailable; check the recorded intent before retrying a mutation")
                | (s, Ok _) => (s, result_reply result)
                end
            end
        end
  end.

(** *** Operations *)

Definition on_store {A} (run : Config → gmap string root_entry → gmap string root_entry * result A)
    (success : A → operationResult) (s : Server) : Server * operationResult :=
  let '(t, r) := run (srv_config s) (srv_tree s) in
  (set_tree s t, match r with Ok a => success a | Err err => operationError err end).

Definition session_of (c : Config) (p : Principal) : session :=
  mkSession (Principal_Workspace p)
    (if bool_decide ("reports:write" ∈ Principal_Scopes p) then "write" else "read")
    (Principal_SubjectID p) (Principal_Kind p) (Principal_CredentialID p) (Principal_Scopes p)
    (principalRole c p).

Definition session_operation : operation := λ p s,
  (s, mkResult 200 (PSession (session_of (srv_config s) p)) "").
Definition list_operation (io : store_io) : operation := λ p s,
  on_store (λ c t, HubStore.List io (srv_closed s) c t (Principal_Workspace p))
    (λ reports, mkResult 200 (PReports reports) "") s.
Definition create_operation (io : store_io) (submission : Submission) : operation := λ p s,
  on_store (λ c t, Create io (srv_closed s) c t (Principal_Workspace p) submission)
    (λ report, mkResult 201 (PReport report) (HubStore.Report_ID report)) s.
Definition get_operation (io : store_io) (id : string) : operation := λ p s,
  on_store (λ c t, Get io (srv_closed s) c t (Principal_Workspace p) id)
    (λ report, mkResult 200 (PReport report) id) s.
Definition delete_operation (io : store_io) (id : string) : operation := λ p s,
  on_store (λ c t, Delete io (srv_closed s) c t (Principal_Workspace p) id)
    (λ _, mkResult 204 PEmpty id) s.

(** *** Routes

    What [ServeHTTP] does with an admitted request; [principal] is the one of
    its admission. *)
Definition route (io : request_io) (s : Server) (r : Request) (principal : Principal) : Server * reply :=
  let is_method m := bool_decide (req_Method r = m) in
  if negb (bool_decide (req_RawQuery r = "")) then
    (s, writeError [] 400 "API query parameters are not supported")
  else if bool_decide (req_Path r = "/api/v1/session") then
    if negb (is_method "GET") then (s, methodNotAllowed "GET")
    else authorized io s r "" "auth.success" (Some session_operation)
  else if bool_decide (req_Path r = "/api/v1/reports") then
    if is_method "GET" then
      authorized io s r "reports:read" "reports.list" (Some (list_operation (rio_store io)))
    else if is_method "POST" then
      if negb (bool_decide ("reports:write" ∈ Principal_Scopes principal)) then
        authorized io s r "reports:write" "reports.create" None
      else
        match readSubmission r with
        | inl refused => (s, refused)
        | inr submission =>
            authorized io s r "reports:write" "reports.create"
              (Some (create_operation (rio_store io) submission))
        end
    else (s, methodNotAllowed "GET, POST")
  else if has_prefix (req_Path r) reports_prefix && idPattern (path_id r) then
    if is_method "GET" then
      authorized io s r "reports:read" "reports.get" (Some (get_operation (rio_store io) (path_id r)))
    else if is_method "DELETE" then
      authorized io s r "reports:delete" "reports.delete"
        (Some (delete_operation (rio_store io) (path_id r)))
    else (s, methodNotAllowed "GET, DELETE")
  else (s, writeError [] 404 "API route not found").

(** The admission of a request for the API *)
Definition arrive_api (io : request_io) (s : Server) (r : Request) : Server * (reply + pending) :=
  match credential r (srv_config s) (rio_now io) with
  | None => let '(s, refused) := authFailure io s in (s, inl refused)
  | Some (key, p) =>
      let '(l, allowed) := allow (rio_limit_order io) (rio_limit_now io) (srv_buckets s) (Key_TokenSHA256 key) in
      let s := set_buckets s l in
      if negb allowed then
        (s, inl (retry_after "2" 429 "request rate exceeded; retry after two seconds"))
      else
        let '(s, slots) := acquire_slots s (Key_Workspace key)
          (retry_after "1" 429 "workspace already has two requests in progress; retry after one second")
          (retry_after "1" 503 "hub is busy; retry after one second") in
        (s, match slots with inl refused => inl refused | inr channel => inr (PendingApi p channel) end)
  end.

Definition finish_api (io : request_io) (s : Server) (r : Request) (p : Principal) (channel : nat) :
    Server * reply :=
  let '(s, answer) := route io s r p in (release_slots s channel, answer).

(** *** handleCI *)

Definition arrive_ci (io : request_io) (s : Server) (r : Request) : Server * (reply + pending) :=
  if negb (bool_decide (req_Method r = "POST")) then (s, inl (methodNotAllowed "POST"))
  else if negb (bool_decide (req_RawQuery r = "")) then
    (s, inl (writeError [] 400 "CI query parameters are not supported"))
  else if bool_decide (length (Config_CIPublishers (srv_config s)) = 0) then
    (s, inl (writeError [] 404 "CI publishing is not enabled"))
  else
    match ciQuarantined (Config_CIQuarantineUntil (srv_config s)) (rio_quarantine_now io) with
    | Some paused => (s, inl paused)
    | None =>
        if bool_decide (2 <= srv_ci_slots s) then (s, inl (retry_after "1" 429 "CI publisher is busy"))
        else
          match bearer (req_Authorization r) with
          | None => (s, inl (writeError [] 401 "a GitHub Actions identity token is required"))
          | Some token =>
              (set_ci s (srv_ci s) (srv_ci_buckets s) (S (srv_ci_slots s)), inr (PendingToken token))
          end
    end.

(** The verification and what follows up to the slots of the workspace *)
Definition verify_ci (io : request_io) (s : Server) (token : string) : Server * (reply + pending) :=
  let '(v, verified) := verify (rio_verify io) (srv_ci s) token in
  let s := set_ci s v (srv_ci_buckets s) (pred (srv_ci_slots s)) in
  match verified with
  | Err _ => (s, inl (writeError [] 401 "GitHub Actions identity could not be verified"))
  | Ok claims =>
      match matchingPublisher (srv_config s) claims with
      | None => (s, inl (writeError [] 403 "CI identity is not authorized for a workspace"))
      | Some publisher =>
          let '(l, allowed) := allowPublisher (rio_limit_order io) (rio_limit_now io) (srv_config s)
            (srv_ci_buckets s) (Publisher_Workspace publisher) in
          let s := set_ci s (srv_ci s) l (srv_ci_slots s) in
          if negb allowed then (s, inl (retry_after "2" 429 "CI workspace request rate exceeded"))
          else
            let '(s, slots) := acquire_slots s (Publisher_Workspace publisher)
              (retry_after "1" 429 "workspace already has two requests in progress")
              (retry_after "1" 503 "hub is busy") in
            (s, match slots with inl refused => inl refused | inr channel => inr (PendingCI claims channel) end)
      end
  end.

Definition read_ci_submission (r : Request) : reply + Submission :=
  if negb (is_json_request r) then inl (writeError [] 415 "Content-Type must be application/json")
  else
    match read_body r with
    | BodyTooLarge => inl (writeError [] 413 "summary exceeds 16 KiB")
    | BodyFailed _ => inl (writeError [] 400 "could not read CI summary")
    | BodyRead b =>
        match json_strict b with
        | Err _ => inl (writeError [] 400 "invalid CI summary JSON")
        | Ok submission =>
            match Submission_Validate submission with
            | Err err => inl (writeError [] 422 (error_text err))
            | Ok _ => inr submission
            end
        end
    end.

(** The summary is about the commit and the run of the token. *)
Definition same_run (submission : Submission) (claims : ciClaims) : bool :=
  bool_decide (Submission_Repository submission = Claims_Repository claims) &&
  bool_decide (Submission_CommitSHA submission = Claims_SHA claims) &&
  bool_decide (Submission_RunURL submission = run_url (Claims_Repository claims) (Claims_RunID claims)).

Definition identity_of (publisher : CIPublisher) (claims : ciClaims) : PublisherIdentity :=
  mkPublisherIdentity "github-actions-oidc" (Publisher_SubjectID publisher) (Claims_RepositoryID claims)
    (Claims_RepositoryOwnerID claims) (Claims_WorkflowRef claims) (Claims_Ref claims) (Claims_RunID claims)
    (Claims_RunAttempt claims).

Definition ci_event (publisher : CIPublisher) (outcome reportID : string) : AuditEvent :=
  mkAuditEvent (Publisher_SubjectID publisher) "service" (Publisher_Workspace publisher) "github-actions-oidc"
    "report.create.ci" outcome reportID.

(** The part under the read lock: trust is checked again, the intent is
    recorded, the token is reserved, the report is stored. *)
Definition publish_ci (io : request_io) (s : Server) (claims : ciClaims) (submission : Submission) :
    Server * reply :=
  match ciQuarantined (Config_CIQuarantineUntil (srv_config s)) (rio_quarantine_now io) with
  | Some paused => (s, paused)
  | None =>
      match matchingPublisher (srv_config s) claims,
            bool_decide (Claims_Expires claims ≤ Unix (rio_expiry_now io))%Z with
      | Some publisher, false =>
          match audit_append (rio_intent io) s (ci_event publisher "intent" "") with
          | (s, Err _) => (s, writeError [] 503 "audit storage is unavailable")
          | (s, Ok _) =>
              match consume (rio_consume io) (srv_tree s) claims publisher with
              | (t, Err _) => (set_tree s t, writeError [] 409
                  "CI token cannot be reserved; it may be used already or replay storage is unavailable")
              | (t, Ok _) =>
                  match CreateVerified (rio_store io) (srv_closed s) (srv_config s) t
                          (Publisher_Workspace publisher) submission (Some (identity_of publisher claims)) with
                  | (t, Err err) => (set_tree s t, storeError err)
                  | (t, Ok report) =>
                      match audit_append (rio_outcome io) (set_tree s t)
                              (ci_event publisher "success" (HubStore.Report_ID report)) with
                      | (s, Err _) => (s, writeError [] 503
                          "report was stored but audit completion failed; inspect the workspace before retrying")
                      | (s, Ok _) => (s, writeJSON [("Location", reports_prefix +:+ HubStore.Report_ID report)]
                                           201 (PReport report))
                      end
                  end
              end
          end
      | _, _ => (s, writeError [] 403 "CI identity is not authorized for a workspace")
      end
  end.

Definition finish_ci (io : request_io) (s : Server) (r : Request) (claims : ciClaims) (channel : nat) :
    Server * reply :=
  let '(s, answer) :=
    match read_ci_submission r with
    | inl refused => (s, refused)
    | inr submission =>
        if negb (same_run submission claims) then
          (s, writeError [] 403 "summary repository, commit and run must match the verified CI identity")
        else publish_ci io s claims submission
    end in
  (release_slots s channel, answer).

(** *** ServeHTTP *)

(** The first phase of every request. *)
Definition arrive (assets : bool) (io : request_io) (s : Server) (r : Request) : Server * (reply + pending) :=
  let read_only := bool_decide (req_Method r = "GET") || bool_decide (req_Method r = "HEAD") in
  if bool_decide (req_Path r = "/healthz") then
    (s, inl (if read_only then writeJSON [] 200 PHealth else methodNotAllowed "GET, HEAD"))
  else if negb (has_prefix (req_Path r) "/api/") then
    (s, inl (if negb read_only then methodNotAllowed "GET, HEAD"
             else if assets then mkReply 200 [] PAssets else mkReply 404 [] PNotFound))
  else if bool_decide (req_Path r = "/api/v1/ci/reports") then arrive_ci io s r
  else arrive_api io s r.

(** A later phase. *)
Definition advance (io : request_io) (s : Server) (r : Request) (p : pending) : Server * (reply + pending) :=
  match p with
  | PendingApi p channel => let '(s, answer) := finish_api io s r p channel in (s, inl answer)
  | PendingToken token => verify_ci io s token
  | PendingCI claims channel => let '(s, answer) := finish_ci io s r claims channel in (s, inl answer)
  end.

(** A request handled without interruption *)
Definition ServeHTTP (assets : bool) (io : request_io) (s : Server) (r : Request) : Server * reply :=
  match arrive assets io s r with
  | (s, inl answer) => (s, answer)
  | (s, inr p) =>
      match advance io s r p with
      | (s, inl answer) => (s, answer)
      | (s, inr p) =>
          match advance io s r p with
          | (s, inl answer) => (s, answer)
          | (s, inr _) => (s, mkReply 500 [] PEmpty)
          end
      end
  end.

(** *** Reload *)

Definition operator_event (outcome : string) : AuditEvent :=
  mkAuditEvent "operator" "operator" "" "" "config.reload" outcome "".

Definition set_config (s : Server) (c : Config) : Server :=
  mkServer c (srv_closed s) (srv_tree s) (srv_audit s) (srv_disk s) (srv_ci s) (srv_ci_buckets s)
    (srv_ci_slots s) (srv_buckets s) (srv_slots s) (srv_channels s) (srv_load s).

Definition set_retention (s : Server) (days : Z) : Server :=
  set_audit s ((λ a, SetRetention a days) <$> srv_audit s) (srv_disk s).

(** [rio_intent] and [rio_outcome] are the two appends. *)
Definition Reload (io : request_io) (s : Server) (c : Config) : Server * result unit :=
  match Validate c with
  | Err err => ((audit_append (rio_intent io) s (operator_event "rejected")).1, Err err)
  | Ok _ =>
      match audit_append (rio_intent io) s (operator_event "intent") with
      | (s, Err err) => (s, Err err)
      | (s, Ok _) =>
          let s := resetWorkspaceSlots (set_config s c) c in
          let s := set_buckets s (retain c (srv_buckets s)) in
          let s := set_retention s (Config_AuditRetentionDays c) in
          audit_append (rio_outcome io) s (operator_event "applied")
      end
  end.
End handlers.

Definition NewServer (closed : bool) (c : Config) (t : gmap string root_entry) (audit : option AuditLog)
    (d : audit_disk) : Server :=
  resetWorkspaceSlots (mkServer c closed t audit d newCIVerifier ∅ 0 ∅ 0 ∅ ∅) c.

(** ** The rate limiter *)

Lemma size_allow order now l key : (∀ m, order m ≡ₚ m) → size l ≤ 128 →
  (∀ name b, l !! name = Some b → name ≠ "") → size (allow order now l key).1 ≤ 128.
Proof.
  intros Hord Hsize Hnames. unfold allow. destruct (l !! key) as [b|] eqn:Hk.
  { destruct (take_token b now) as [b' allowed]. cbn. rewrite map_size_insert_Some; [done|by rewrite Hk]. }
  destruct (take_token _ now) as [b' allowed]. cbn. case_bool_decide as Hfull; [|].
  - set (old := oldest_loop _ _ _). assert (is_Some (l !! old)) as [b Hold].
    { assert (∀ entries oldest when, (∀ name b, (name, b) ∈ entries → l !! name = Some b) →
        (oldest = "" → entries ≠ []) → (oldest ≠ "" → is_Some (l !! oldest)) →
        is_Some (l !! oldest_loop entries oldest when)) as Hloop.
      { induction entries as [|[name b] entries IH]; intros oldest when Hin Hne Hsome.
        - cbn. apply Hsome. intros ->. by apply Hne.
        - cbn [oldest_loop]. destruct (_ || _) eqn:E.
          + assert (l !! name = Some b) as Hname by (apply Hin; by left).
            apply IH; [intros; apply Hin; by right| |by intros _; eexists].
            intros ->. by apply Hnames in Hname.
          + apply orb_false_iff in E as [E _]. apply bool_decide_eq_false in E.
            apply IH; [intros; apply Hin; by right|done|done]. }
      apply Hloop; [|intros _|done].
      - intros name b Hb. rewrite Hord in Hb. by apply elem_of_map_to_list in Hb.
      - intros Hnil. assert (map_to_list l = []) as Hl by (apply Permutation_nil_r; by rewrite <-Hnil, Hord).
        apply (f_equal length) in Hl. rewrite length_map_to_list in Hl. cbn in Hl. lia. }
    rewrite map_size_insert_None by (by rewrite lookup_delete_None; right).
    rewrite map_size_delete_Some by (by eexists). lia.
  - rewrite map_size_insert_None by done. lia.
Qed.

(** The replies to [n] requests that arrive at the same instant *)
Fixpoint burst (order : map_order) (now : time) (key : string) (n : nat) (l : buckets) : list bool :=
  match n with
  | O => []
  | S n => let '(l, allowed) := allow order now l key in allowed :: burst order now key n l
  end.

(** Every number of tokens from 0 to 30, spent at one instant *)
Definition spent (n : nat) : rateBucket * bool :=
  match n with O => (mkBucket (of_Z 0) 0, false) | S m => (mkBucket (of_Z (Z.of_nat m)) 0, true) end.

Lemma spend_tokens : (λ n, take_token (mkBucket (of_Z (Z.of_nat n)) 0) 0) <$> seq 0 31 = spent <$> seq 0 31.
Proof. vm_compute. reflexivity. Qed.

Lemma take_token_now b now now' : take_token (mkBucket b now) now =
  let '(r, allowed) := take_token (mkBucket b now') now' in (mkBucket (bucket_tokens r) now, allowed).
Proof.
  unfold take_token, refill. cbn [bucket_tokens bucket_updated].
  assert (∀ t, Sub t t = 0%Z) as Hsub by (intros t; unfold Sub; lia). rewrite !Hsub.
  by destruct (SFleb _ _).
Qed.

Lemma take_token_spec n now : n ≤ 30 → take_token (mkBucket (of_Z (Z.of_nat n)) now) now =
  match n with O => (mkBucket (of_Z 0) now, false) | S m => (mkBucket (of_Z (Z.of_nat m)) now, true) end.
Proof.
  intros Hn. assert (take_token (mkBucket (of_Z (Z.of_nat n)) 0) 0 = spent n) as Hspent.
  { pose proof (f_equal (.!! n) spend_tokens) as Hall. rewrite !list_lookup_fmap, lookup_seq_lt in Hall by lia.
    by injection Hall. }
  rewrite (take_token_now _ now 0), Hspent. by destruct n.
Qed.

Lemma burst_known order now key n : ∀ l k, k ≤ 30 → l !! key = Some (mkBucket (of_Z (Z.of_nat k)) now) →
  burst order now key n l = replicate (n `min` k) true ++ replicate (n - k) false.
Proof.
  induction n as [|n IH]; intros l k Hk Hl; [done|]. cbn [burst]. unfold allow. rewrite Hl, take_token_spec by done.
  destruct k as [|k].
  - rewrite (IH _ 0); [|lia|by rewrite lookup_insert_eq]. by rewrite !Nat.min_0_r, !Nat.sub_0_r.
  - rewrite (IH _ k); [done|lia|by rewrite lookup_insert_eq].
Qed.

(** the burst of a caller is bounded.  Of any number of requests that a
    caller without a bucket sends at one instant exactly the first 30 are
    allowed, and the limiter never keeps more than 128 buckets however many
    callers there are. *)
Theorem allow_burst order now l key n (Hord : ∀ m, order m ≡ₚ m) (Hnew : l !! key = None)
    (Hsize : size l ≤ 128) (Hnames : ∀ name b, l !! name = Some b → name ≠ "") :
  burst order now key n l = replicate (n `min` 30) true ++ replicate (n - 30) false ∧
  size (allow order now l key).1 ≤ 128.
Proof.
  split; [|by apply size_allow]. destruct n as [|n]; [done|]. cbn [burst]. unfold allow. rewrite Hnew.
  rewrite (take_token_spec 30) by done.
  by rewrite (burst_known _ _ _ _ _ 29) by (lia || by rewrite lookup_insert_eq).
Qed.

(** ** Runs of the server *)

Record hub := mkHub {
  hub_server : Server;
  hub_requests : gmap nat (Request * pending);
}.

Definition keep_pending (m : gmap nat (Request * pending)) (id : nat) (r : Request) (outcome : reply + pending) :
    gmap nat (Request * pending) :=
  match outcome with inl _ => delete id m | inr p => <[id := (r, p)]> m end.

Section runs.
Context `{PUrls : !Urls, PMime : !Mime, PObjects : !JsonObjects, PRsa : !Rsa, !Json string, !Json ciClaims, !Json key_set, !Json signing_key}.
Context `{!Json (list replayRecord), !Json HubStore.Report, !Json Submission, !Json auditEntry, !Json auditState}.

(** One phase of one request, a reload, or a pass of the purge loops.  The
    label is the Unix time at which the step may reserve a CI token. *)
Definition token_clock (io : request_io) (p : pending) : option Z :=
  match p with PendingCI _ _ => Some (Unix (cio_now (rio_consume io))) | _ => None end.

Inductive hub_step (assets : bool) : option Z → hub → hub → Prop :=
  | step_arrive io s m id r s' outcome : m !! id = None → arrive assets io s r = (s', outcome) →
      hub_step assets None (mkHub s m) (mkHub s' (keep_pending m id r outcome))
  | step_advance io s m id r p s' outcome : m !! id = Some (r, p) → (∀ l, io_order (rio_store io) l ≡ₚ l) →
      advance io s r p = (s', outcome) →
      hub_step assets (token_clock io p) (mkHub s m) (mkHub s' (keep_pending m id r outcome))
  | step_reload io s m c s' res : Reload io s c = (s', res) → hub_step assets None (mkHub s m) (mkHub s' m)
  | step_purge io dir_io order s m t res : (∀ l, order l ≡ₚ l) →
      HubStore.PurgeExpired io dir_io order (srv_closed s) (srv_config s) (srv_tree s) = (t, res) →
      hub_step assets None (mkHub s m) (mkHub (set_tree s t) m)
  | step_purge_audit io s m a a' d res : srv_audit s = Some a →
      HubAudit.PurgeExpired io a (srv_disk s) = (a', d, res) →
      hub_step assets None (mkHub s m) (mkHub (set_audit s (Some a') d) m).

Definition reachable (assets : bool) (start : hub) : hub → Prop :=
  rtc (λ h h', ∃ label, hub_step assets label h h') start.

(** *** The slots *)

Definition on_channel (channel : nat) (p : pending) : bool :=
  match p with
  | PendingApi _ c | PendingCI _ c => bool_decide (c = channel)
  | PendingToken _ => false
  end.
Definition has_slot (p : pending) : bool := match p with PendingToken _ => false | _ => true end.
Definition verifying (p : pending) : bool := match p with PendingToken _ => true | _ => false end.

(** How many of the requests in progress *)
Definition count (P : pending → bool) (m : gmap nat (Request * pending)) : nat :=
  size (filter (λ '(_, (_, p)), P p = true) m).

Lemma count_insert P m id r p : m !! id = None →
  count P (<[id := (r, p)]> m) = (if P p then 1 else 0) + count P m.
Proof.
  intros Hid. unfold count. destruct (P p) eqn:HP.
  - rewrite map_filter_insert_True by done. rewrite map_size_insert_None; [done|].
    apply map_lookup_filter_None. by left.
  - rewrite map_filter_insert_False by (by rewrite HP). by rewrite delete_id.
Qed.

Lemma count_delete P m id r p : m !! id = Some (r, p) →
  count P m = (if P p then 1 else 0) + count P (delete id m).
Proof.
  intros Hid. rewrite <-(count_insert P (delete id m) id r p) by apply lookup_delete_eq.
  by rewrite insert_delete_id.
Qed.

(** The counters of the server: [slots] requests hold one of the 16 slots,
    [verifying] verify a token, and [load] gives the requests per channel. *)
Record holds (s : Server) (slots verifying : nat) (load : nat → nat) : Prop := {
  holds_slots : srv_slots s = slots;
  holds_verifying : srv_ci_slots s = verifying;
  holds_load channel : load_of (srv_load s) channel = load channel;
  holds_channels ws channel : srv_channels s !! ws = Some channel → channel ∈ dom (srv_load s);
}.

(** The counters agree with the requests in progress and are within their
    limits. *)
Definition slots_ok (h : hub) : Prop :=
  let m := hub_requests h in
  holds (hub_server h) (count has_slot m) (count verifying m) (λ channel, count (on_channel channel) m) ∧
  count has_slot m ≤ 16 ∧ count verifying m ≤ 2 ∧ ∀ channel, count (on_channel channel) m ≤ 2.

Lemma holds_same s s' slots verifying load : srv_slots s' = srv_slots s → srv_ci_slots s' = srv_ci_slots s →
  srv_channels s' = srv_channels s → srv_load s' = srv_load s →
  holds s slots verifying load → holds s' slots verifying load.
Proof. intros H1 H2 H3 H4 [? ? Hl Hc]. split; [congruence..| |]; intros; rewrite H4, ?H3 in *; eauto. Qed.

Lemma audit_append_set io s event s' r : audit_append io s event = (s', r) →
  ∃ a d, s' = set_audit s a d.
Proof.
  unfold audit_append. destruct (srv_audit s) as [a|] eqn:Ha.
  - destruct (Append io a (srv_disk s) event) as [[a' d] r']. intros [= <- <-]. by eexists _, _.
  - intros [= <- <-]. exists None, (srv_disk s). destruct s; cbn in *. by subst.
Qed.

Lemma authFailure_set io s s' ans : authFailure io s = (s', ans) →
  ∃ l a d, s' = set_audit (set_buckets s l) a d.
Proof.
  unfold authFailure. destruct (allow _ _ _ _) as [l [|]].
  - destruct (audit_append _ _ _) as [s1 [[]|]] eqn:Ha; intros [= <- <-];
      apply audit_append_set in Ha as (a & d & ->); by eexists _, _, _.
  - intros [= <- <-]. exists l, (srv_audit s), (srv_disk s). by destruct s.
Qed.

(** An operation only changes the data directory. *)
Definition tree_only (op : operation) : Prop := ∀ p s, ∃ t, (op p s).1 = set_tree s t.

Lemma on_store_tree {A} run success s : ∃ t, (@on_store A run success s).1 = set_tree s t.
Proof. unfold on_store. destruct (run _ _) as [t r]. by exists t. Qed.

Lemma operations_tree_only : tree_only session_operation ∧ (∀ io, tree_only (list_operation io)) ∧
  (∀ io x, tree_only (create_operation io x)) ∧ (∀ io id, tree_only (get_operation io id)) ∧
  (∀ io id, tree_only (delete_operation io id)).
Proof.
  split_and!; try (intros ??? *; apply on_store_tree); try (intros ?? *; apply on_store_tree).
  intros p s. exists (srv_tree s). by destruct s.
Qed.

(** *** What an authorized operation did *)

Definition request_event (r : Request) (p : Principal) (action : string) : AuditEvent :=
  event_of p action "intent" (if idPattern (path_id r) then path_id r else "").

(** The operation ran: the credential was valid when it ran, it has the scope,
    and the intent was recorded before. *)
Definition ran (io : request_io) (s : Server) (r : Request) (scope action : string) (op : operation)
    (s' : Server) (ans : reply) : Prop :=
  ∃ key p s1 s2 result a d,
    credential r (srv_config s) (rio_now io) = Some (key, p) ∧
    (scope = "" ∨ scope ∈ Principal_Scopes p) ∧
    audit_append (rio_intent io) s (request_event r p action) = (s1, Ok tt) ∧
    op p s1 = (s2, result) ∧ s' = set_audit s2 a d ∧
    (reply_Status ans = 503%Z ∨ ans = result_reply result).

(** Nothing but the audit log and the limiter changed, and the reply is an
    error. *)
Definition refused (s s' : Server) (ans : reply) : Prop :=
  (∃ l a d, s' = set_audit (set_buckets s l) a d) ∧ (400 ≤ reply_Status ans)%Z.

Lemma refused_same s ans : (400 ≤ reply_Status ans)%Z → refused s s ans.
Proof.
  intros Hst. split; [|done]. exists (srv_buckets s), (srv_audit s), (srv_disk s). by destruct s.
Qed.

Lemma refused_audit s a d ans : (400 ≤ reply_Status ans)%Z → refused s (set_audit s a d) ans.
Proof. intros Hst. split; [|done]. exists (srv_buckets s), a, d. by destruct s. Qed.

Lemma authFailure_refused io s s' ans : authFailure io s = (s', ans) → refused s s' ans.
Proof.
  intros Hf. pose proof Hf as (l & a & d & ->)%authFailure_set. split; [by eexists _, _, _|].
  unfold authFailure in Hf. apply (f_equal snd) in Hf. cbn [snd] in Hf. rewrite <-Hf.
  destruct (allow _ _ _ _) as [l' [|]]; [|done]. by destruct (audit_append _ _ _) as [s1 [[]|]].
Qed.

Lemma authorized_inv io s r scope action op s' ans : authorized io s r scope action op = (s', ans) →
  refused s s' ans ∨ ∃ op', op = Some op' ∧ ran io s r scope action op' s' ans.
Proof.
  unfold authorized. destruct (credential _ _ _) as [[key p]|] eqn:Hc.
  2: { intros Hf. left. by eapply authFailure_refused. }
  destruct (_ && _) eqn:Hscope.
  { destruct (audit_append _ _ _) as [s1 [[]|]] eqn:Ha; intros [= <- <-];
      apply audit_append_set in Ha as (a & d & ->); left; by apply refused_audit. }
  destruct op as [op|]; [|intros [= <- <-]; left; by apply refused_same].
  destruct (audit_append (rio_intent io) _ _) as [s1 [[]|]] eqn:Ha.
  2: { intros [= <- <-]. apply audit_append_set in Ha as (a & d & ->). left. by apply refused_audit. }
  destruct (op p s1) as [s2 result] eqn:Hop.
  destruct (audit_append (rio_outcome io) _ _) as [s3 w] eqn:Hout. intros Hans. right. exists op. split; [done|].
  pose proof Hout as (a & d & ->)%audit_append_set. exists key, p, s1, s2, result, a, d.
  apply andb_false_iff in Hscope. rewrite !negb_false_iff, !bool_decide_eq_true in Hscope.
  destruct w as [[]|]; apply pair_equal_spec in Hans as [<- <-]; split_and!; try done; [by right|by left].
Qed.

(** The operation on the store that a request asks for, and the scope for it *)
Inductive asks (r : Request) : string → store_op → Prop :=
  | asks_list : req_Method r = "GET" → req_Path r = "/api/v1/reports" → asks r "reports:read" OpList
  | asks_create submission : req_Method r = "POST" → req_Path r = "/api/v1/reports" →
      readSubmission r = inr submission → asks r "reports:write" (OpCreate submission None)
  | asks_get : req_Method r = "GET" → has_prefix (req_Path r) reports_prefix = true →
      idPattern (path_id r) = true → asks r "reports:read" (OpGet (path_id r))
  | asks_delete : req_Method r = "DELETE" → has_prefix (req_Path r) reports_prefix = true →
      idPattern (path_id r) = true → asks r "reports:delete" (OpDelete (path_id r)).

Definition runs_op (io : request_io) (op : operation) (sop : store_op) : Prop := ∀ p s,
  (op p s).1 = set_tree s (run_store_op (rio_store io) (srv_closed s) (srv_config s) (srv_tree s)
                             (Principal_Workspace p) sop).1.

Lemma operations_run io : runs_op io (list_operation (rio_store io)) OpList ∧
  (∀ x, runs_op io (create_operation (rio_store io) x) (OpCreate x None)) ∧
  (∀ id, runs_op io (get_operation (rio_store io) id) (OpGet id)) ∧
  (∀ id, runs_op io (delete_operation (rio_store io) id) (OpDelete id)).
Proof.
  split_and!.
  - intros p s. unfold list_operation, on_store. cbn. by destruct (HubStore.List _ _ _ _ _).
  - intros submission p s. unfold create_operation, on_store, Create. cbn.
    by destruct (CreateVerified _ _ _ _ _ _ _).
  - intros id p s. unfold get_operation, on_store. cbn. by destruct (Get _ _ _ _ _ _).
  - intros id p s. unfold delete_operation, on_store. cbn. by destruct (Delete _ _ _ _ _ _).
Qed.

(** A routed request is refused, describes its session, or runs its operation. *)
Lemma route_inv io s r p s' ans : route io s r p = (s', ans) →
  refused s s' ans ∨ ran io s r "" "auth.success" session_operation s' ans ∨
  ∃ scope action op sop, asks r scope sop ∧ scope ≠ "" ∧ runs_op io op sop ∧ ran io s r scope action op s' ans.
Proof.
  pose proof (operations_run io) as (Hlist & Hcreate & Hget & Hdelete).
  assert (∀ scope action op sop s' ans, asks r scope sop → scope ≠ "" → runs_op io op sop →
    authorized io s r scope action (Some op) = (s', ans) →
    refused s s' ans ∨ ran io s r "" "auth.success" session_operation s' ans ∨
    ∃ scope action op sop, asks r scope sop ∧ scope ≠ "" ∧ runs_op io op sop ∧ ran io s r scope action op s' ans)
    as Hauth.
  { intros scope action op sop s0 a0 Hasks Hscope Hruns Ha.
    apply authorized_inv in Ha as [?|(op' & [= <-] & Hran)]; [by left|right; right].
    by exists scope, action, op, sop. }
  unfold route. destruct (negb _); [intros [= <- <-]; left; by apply refused_same|].
  case_bool_decide as Hsession.
  { destruct (negb _); [intros [= <- <-]; left; by apply refused_same|].
    intros Ha. apply authorized_inv in Ha as [?|(op' & [= <-] & Hran)]; [by left|by right; left]. }
  case_bool_decide as Hreports.
  { case_bool_decide as HGET; [by apply Hauth with OpList; [constructor|..]|].
    case_bool_decide as HPOST; [|intros [= <- <-]; left; by apply refused_same].
    destruct (negb _).
    { intros Ha. apply authorized_inv in Ha as [?|(op' & ? & _)]; [by left|done]. }
    destruct (readSubmission r) as [no|submission] eqn:Hsub.
    - intros [= <- <-]. left. apply refused_same. unfold readSubmission in Hsub.
      destruct (negb _); [by injection Hsub as <-|]. destruct (read_body r); [|by injection Hsub as <-..].
      destruct (json_strict b); [|by injection Hsub as <-].
      destruct (Submission_Validate value); [done|by injection Hsub as <-].
    - by apply Hauth with (OpCreate submission None); [constructor|..]. }
  destruct (has_prefix _ _ && _) eqn:Hid; [|intros [= <- <-]; left; by apply refused_same].
  apply andb_prop in Hid as [Hprefix Hid].
  case_bool_decide as HGET; [by apply Hauth with (OpGet (path_id r)); [constructor|..]|].
  case_bool_decide as HDELETE; [by apply Hauth with (OpDelete (path_id r)); [constructor|..]|].
  intros [= <- <-]. left. by apply refused_same.
Qed.

Lemma audit_append_view io s event s' r : audit_append io s event = (s', r) →
  srv_tree s' = srv_tree s ∧ srv_config s' = srv_config s ∧ srv_closed s' = srv_closed s.
Proof. by intros (a & d & ->)%audit_append_set. Qed.

(** C16: no request reaches the reports without permission.  When an admitted
    request is finished, either the data directory is untouched and the reply
    is an error or describes the caller's own session, or all of this holds at
    that moment, under the configuration then in force: the bearer token
    belongs to a credential that has not expired and whose subject is enabled,
    the credential has the scope that the request needs, the intent of the
    action was recorded in the audit log first, and what changed in the data
    directory is exactly one operation on the workspace of the credential. *)
Theorem changes_are_authorized io s r p channel s' ans (Hord : ∀ l, io_order (rio_store io) l ≡ₚ l)
    (Hrun : finish_api io s r p channel = (s', ans)) :
  (srv_tree s' = srv_tree s ∧
     ((400 ≤ reply_Status ans)%Z ∨
      ∃ key q, credential r (srv_config s) (rio_now io) = Some (key, q) ∧
        reply_Payload ans = PSession (session_of (srv_config s) q))) ∨
  ∃ key q scope action sop s1, asks r scope sop ∧
    credential r (srv_config s) (rio_now io) = Some (key, q) ∧
    key ∈ Config_Keys (srv_config s) ∧ principalForKey (srv_config s) key (rio_now io) = Some q ∧
    scope ∈ Principal_Scopes q ∧
    audit_append (rio_intent io) s (request_event r q action) = (s1, Ok tt) ∧
    srv_tree s' = (run_store_op (rio_store io) (srv_closed s) (srv_config s) (srv_tree s)
                     (Principal_Workspace q) sop).1 ∧
    (∀ other, other ≠ Principal_Workspace q →
       directory_of (srv_tree s') other = directory_of (srv_tree s) other ∨
       sha256_hex other = sha256_hex (Principal_Workspace q)).
Proof.
  unfold finish_api in Hrun. destruct (route io s r p) as [s2 a2] eqn:Hroute. injection Hrun as <- <-.
  change (srv_tree (release_slots s2 channel)) with (srv_tree s2).
  apply route_inv in Hroute as [[(l & a & d & ->) Hst]|[Hsession|Hop]].
  - left. split; [done|by left].
  - destruct Hsession as (key & q & s1 & s3 & result & a & d & Hc & _ & Ha & Hop & -> & Hans).
    apply audit_append_view in Ha as (Ht & Hconf & _). injection Hop as <- <-. left. cbn. split; [done|].
    destruct Hans as [Hans| ->]; [left; lia|right]. exists key, q. split; [done|]. cbn. by rewrite Hconf.
  - destruct Hop as (scope & action & op & sop & Hasks & Hscope & Hruns & key & q & s1 & s3 & result & a & d &
      Hc & Hin & Ha & Hop & -> & _).
    pose proof Ha as (Ht & Hconf & Hclosed)%audit_append_view. specialize (Hruns q s1). rewrite Hop in Hruns.
    cbn in Hruns. rewrite Ht, Hconf, Hclosed in Hruns. subst s3. right. exists key, q, scope, action, sop, s1.
    pose proof Hc as Hcred. unfold credential in Hc. destruct (authenticate r _) as [k|] eqn:Hk; [|done].
    destruct (principalForKey _ k _) as [q'|] eqn:Hq; [|done]. injection Hc as -> ->.
    assert (key ∈ Config_Keys (srv_config s)) as Hkey.
    { unfold authenticate in Hk. destruct (bearer _); [|done]. destruct (_ || _); [done|].
      apply last_Some_elem_of in Hk. by apply list_elem_of_filter in Hk as [_ ?]. }
    destruct Hin as [|Hin]; [done|]. split_and!; try done.
    intros other _. apply other_directory. intros name Hname. cbn.
    destruct (run_store_op _ _ _ _ _ sop) as [t res] eqn:Hop'. cbn.
    apply run_store_op_spec in Hop' as [Hframe _]; [|done]. by apply Hframe.
Qed.

(** *** CI reports *)

(** The report of a job is stored: everything that must hold at that moment *)
Definition published (io : request_io) (s : Server) (r : Request) (claims : ciClaims) (t : gmap string root_entry)
    (report : HubStore.Report) : Prop :=
  ∃ submission publisher s1 t1,
    read_ci_submission r = inr submission ∧ same_run submission claims = true ∧
    ciQuarantined (Config_CIQuarantineUntil (srv_config s)) (rio_quarantine_now io) = None ∧
    matchingPublisher (srv_config s) claims = Some publisher ∧
    (Unix (rio_expiry_now io) < Claims_Expires claims)%Z ∧
    audit_append (rio_intent io) s (ci_event publisher "intent" "") = (s1, Ok tt) ∧
    consume (rio_consume io) (srv_tree s) claims publisher = (t1, Ok tt) ∧
    CreateVerified (rio_store io) (srv_closed s) (srv_config s) t1 (Publisher_Workspace publisher) submission
      (Some (identity_of publisher claims)) = (t, Ok report).

(** The token was reserved, or nothing was written. *)
Lemma publish_ci_inv io s claims submission s' ans : publish_ci io s claims submission = (s', ans) →
  (∃ a d, s' = set_audit (set_tree s (srv_tree s')) a d) ∧
  (srv_tree s' = srv_tree s ∧ reply_Status ans ≠ 201%Z ∨
   ∃ publisher s1 t1 consumed,
     ciQuarantined (Config_CIQuarantineUntil (srv_config s)) (rio_quarantine_now io) = None ∧
     matchingPublisher (srv_config s) claims = Some publisher ∧
     (Unix (rio_expiry_now io) < Claims_Expires claims)%Z ∧
     audit_append (rio_intent io) s (ci_event publisher "intent" "") = (s1, Ok tt) ∧
     consume (rio_consume io) (srv_tree s) claims publisher = (t1, consumed) ∧
     (consumed ≠ Ok tt ∧ srv_tree s' = t1 ∧ reply_Status ans ≠ 201%Z ∨
      consumed = Ok tt ∧ ∃ created,
        CreateVerified (rio_store io) (srv_closed s) (srv_config s) t1 (Publisher_Workspace publisher) submission
          (Some (identity_of publisher claims)) = (srv_tree s', created) ∧
        (reply_Status ans = 201%Z → ∃ report, created = Ok report ∧ reply_Payload ans = PReport report))).
Proof.
  assert (∀ s, ∃ a d, s = set_audit (set_tree s (srv_tree s)) a d) as Hself.
  { intros [????????????]. by eexists _, _. }
  assert (∀ a d, ∃ a' d', set_audit s a d = set_audit (set_tree s (srv_tree (set_audit s a d))) a' d') as Haud.
  { intros a d. by eexists _, _. }
  assert (∀ err, reply_Status (storeError err) ≠ 201%Z) as Hstore by (by intros []).
  unfold publish_ci. destruct (ciQuarantined _ _) as [paused|] eqn:Hq.
  { intros [= <- <-]. split; [done|left]. split; [done|]. unfold ciQuarantined in Hq.
    destruct (Config_CIQuarantineUntil _); [|done]. destruct (negb _); [done|]. by injection Hq as <-. }
  destruct (matchingPublisher _ _) as [publisher|] eqn:Hm; [|intros [= <- <-]; by split; [|left]].
  case_bool_decide as Hexp; [intros [= <- <-]; by split; [|left]|].
  destruct (audit_append (rio_intent io) _ _) as [s1 [[]|err]] eqn:Ha.
  2: { intros [= <- <-]. apply audit_append_set in Ha as (a & d & ->). split; [done|by left]. }
  pose proof Ha as (a1 & d1 & ->)%audit_append_set. cbn [srv_tree srv_closed srv_config set_audit].
  destruct (consume _ _ _ _) as [t1 [[]|err]] eqn:Hc.
  2: { intros [= <- <-]. split; [by eexists _, _|right]. exists publisher, (set_audit s a1 d1), t1, (Err err).
    split_and!; try done; [lia|by left]. }
  destruct (CreateVerified _ _ _ _ _ _ _) as [t2 [report|err]] eqn:Hv.
  - destruct (audit_append (rio_outcome io) _ _) as [s3 w] eqn:Hout. intros Hans.
    pose proof Hout as (a & d & ->)%audit_append_set.
    assert (s' = set_audit (set_tree (set_audit s a1 d1) t2) a d) as ->
      by (by destruct w as [[]|]; apply pair_equal_spec in Hans as [<- _]).
    split; [by eexists _, _|right]. exists publisher, (set_audit s a1 d1), t1, (Ok tt).
    split_and!; try done; [lia|right]. split; [done|]. exists (Ok report). split; [done|].
    intros Hst. exists report. split; [done|]. by destruct w as [[]|]; apply pair_equal_spec in Hans as [_ <-].
  - intros [= <- <-]. split; [by eexists _, _|right]. exists publisher, (set_audit s a1 d1), t1, (Ok tt).
    split_and!; try done; [lia|right]. split; [done|]. exists (Err err). split; [done|].
    intros Hst. by destruct (Hstore err).
Qed.

Lemma finish_ci_inv io s r claims channel s' ans : finish_ci io s r claims channel = (s', ans) →
  (srv_tree s' = srv_tree s ∧ reply_Status ans ≠ 201%Z) ∨
  ∃ submission s1, read_ci_submission r = inr submission ∧ same_run submission claims = true ∧
    publish_ci io s claims submission = (s1, ans) ∧ s' = release_slots s1 channel.
Proof.
  unfold finish_ci. destruct (read_ci_submission r) as [no|submission] eqn:Hsub.
  - intros [= <- <-]. left. split; [done|]. unfold read_ci_submission in Hsub.
    destruct (negb _); [by injection Hsub as <-|]. destruct (read_body r); [|by injection Hsub as <-..].
    destruct (json_strict b); [|by injection Hsub as <-].
    destruct (Submission_Validate value); [done|by injection Hsub as <-].
  - destruct (same_run submission claims) eqn:Hsame; [|intros [= <- <-]; by left].
    destruct (publish_ci _ _ _ _) as [s1 a1] eqn:Hp. intros [= <- <-]. right. by exists submission, s1.
Qed.

(** a published CI report is the verified job's own.  If the hub answers a
    CI request with 201, then at that moment, under the configuration then in
    force, publishing was not paused, a rule matched the token's claims, the
    token had not expired, the intent was recorded, and the token was reserved
    before the report was stored; the report is the submitted summary, which
    names the repository, the commit and the run of the claims, stored with the
    identity of the claims in the workspace of the rule, and no other
    workspace changed. *)
Theorem published_report_matches_token io s r claims channel s' ans
    (Hord : ∀ l, io_order (rio_store io) l ≡ₚ l)
    (Hrun : finish_ci io s r claims channel = (s', ans)) (Hcreated : reply_Status ans = 201%Z) :
  ∃ report publisher,
    reply_Payload ans = PReport report ∧ published io s r claims (srv_tree s') report ∧
    matchingPublisher (srv_config s) claims = Some publisher ∧
    Submission_Repository (HubStore.Report_Submission report) = Claims_Repository claims ∧
    Submission_CommitSHA (HubStore.Report_Submission report) = Claims_SHA claims ∧
    Submission_RunURL (HubStore.Report_Submission report) =
      run_url (Claims_Repository claims) (Claims_RunID claims) ∧
    Report_Publisher report = Some (identity_of publisher claims) ∧
    (∀ other, other ≠ Publisher_Workspace publisher →
       directory_of (srv_tree s') other = directory_of (srv_tree s) other ∨
       sha256_hex other = sha256_hex (Publisher_Workspace publisher)).
Proof.
  apply finish_ci_inv in Hrun as [[_ ?]|(submission & s1 & Hsub & Hsame & Hp & ->)]; [done|].
  change (srv_tree (release_slots s1 channel)) with (srv_tree s1).
  apply publish_ci_inv in Hp as [_ [[_ ?]|Hp]]; [done|].
  destruct Hp as (publisher & s2 & t1 & consumed & Hq & Hm & Hexp & Ha & Hc & [(_ & _ & ?)|[-> Hv]]); [done|].
  destruct Hv as (created & Hv & Hans). destruct (Hans Hcreated) as (report & -> & Hpayload).
  pose proof Hv as (random & dir & _ & Hreport & _)%CreateVerified_inv; [|done].
  exists report, publisher. pose proof Hsame as Hs. unfold same_run in Hs. bool_prop.
  split_and!; try done.
  - by exists submission, publisher, s2, t1.
  - by rewrite Hreport.
  - by rewrite Hreport.
  - by rewrite Hreport.
  - by rewrite Hreport.
  - intros other _. destruct (decide (dir_name other = dir_name (Publisher_Workspace publisher))) as [|Hne];
      [by right|left].
    assert (run_store_op (rio_store io) (srv_closed s) (srv_config s) t1 (Publisher_Workspace publisher)
      (OpCreate submission (Some (identity_of publisher claims))) = (srv_tree s1, Ok [report])) as Hop
      by (unfold run_store_op; by rewrite Hv).
    apply run_store_op_spec in Hop as [Hframe _]; [|done].
    unfold directory_of. rewrite Hframe by done. by rewrite (consume_frame _ _ _ _ _ _ Hc) by apply dir_name_not_ledger.
Qed.

(** *** The limits on requests in progress *)

Lemma holds_proper s slots verifying load load' : (∀ c, load c = load' c) →
  holds s slots verifying load → holds s slots verifying load'.
Proof. intros Hl [? ? Hs ?]. split; try done. intros c. by rewrite Hs. Qed.

Lemma acquire_slots_holds s ws busy full s' out slots verifying load : holds s slots verifying load →
  acquire_slots s ws busy full = (s', out) →
  match out with
  | inl _ => holds s' slots verifying load
  | inr channel => slots < 16 ∧ load channel < 2 ∧
      holds s' (S slots) verifying (λ c, (if bool_decide (channel = c) then 1 else 0) + load c)
  end.
Proof.
  intros [Hs Hv Hl Hc] Ha. unfold acquire_slots, acquire_workspace in Ha.
  destruct (srv_channels s !! ws) as [channel|] eqn:Hch; [|injection Ha as <- <-; by split].
  pose proof (Hc _ _ Hch) as Hdom.
  case_bool_decide as Hload; [|injection Ha as <- <-; by split]. unfold acquire_slot in Ha.
  cbn [srv_slots set_slots] in Ha. case_bool_decide as Hslots; injection Ha as <- <-.
  - rewrite Hs in Hslots. rewrite Hl in Hload. split_and!; [done..|]. split; cbn; [by rewrite Hs|done| |].
    + intros c. unfold load_of. destruct (decide (channel = c)) as [<-|].
      * rewrite lookup_insert_eq, bool_decide_eq_true_2 by done. cbn. f_equal. apply Hl.
      * rewrite lookup_insert_ne, bool_decide_eq_false_2 by done. apply Hl.
    + intros ws' c' Hws. rewrite dom_insert. apply elem_of_union_r. by eapply Hc.
  - split; cbn; [done|done| |].
    + intros c. unfold load_of. destruct (decide (channel = c)) as [<-|].
      * rewrite !lookup_insert_eq. cbn. apply Hl.
      * rewrite !lookup_insert_ne by done. apply Hl.
    + intros ws' c' Hws. rewrite !dom_insert. do 2 apply elem_of_union_r. by eapply Hc.
Qed.

Lemma release_slots_holds s channel slots verifying load : 0 < load channel →
  holds s (S slots) verifying load →
  holds (release_slots s channel) slots verifying (λ c, if bool_decide (channel = c) then pred (load c) else load c).
Proof.
  intros Hpos [Hs Hv Hl Hc]. split; cbn; [by rewrite Hs|done| |].
  - intros c. unfold load_of at 1. destruct (decide (channel = c)) as [<-|].
    + rewrite lookup_insert_eq, bool_decide_eq_true_2 by done. cbn. f_equal. apply Hl.
    + rewrite lookup_insert_ne, bool_decide_eq_false_2 by done. apply Hl.
  - intros ws c Hws. rewrite dom_insert. apply elem_of_union_r. by eapply Hc.
Qed.

Lemma ran_holds io s r scope action op s' ans slots verifying load : tree_only op →
  ran io s r scope action op s' ans → holds s slots verifying load → holds s' slots verifying load.
Proof.
  intros Hop (key & p & s1 & s2 & result & a & d & _ & _ & Ha & Hrun & -> & _).
  apply audit_append_set in Ha as (a1 & d1 & ->). destruct (Hop p (set_audit s a1 d1)) as [t Ht].
  rewrite Hrun in Ht. cbn in Ht. subst s2. by apply holds_same.
Qed.

Lemma refused_holds s s' ans slots verifying load : refused s s' ans →
  holds s slots verifying load → holds s' slots verifying load.
Proof. intros [(l & a & d & ->) _]. by apply holds_same. Qed.

Lemma route_holds io s r p s' ans slots verifying load : route io s r p = (s', ans) →
  holds s slots verifying load → holds s' slots verifying load.
Proof.
  intros [Href|[Hran|(scope & action & op & sop & _ & _ & Hruns & Hran)]]%route_inv.
  - by eapply refused_holds.
  - eapply ran_holds; [|done]. intros q s0. exists (srv_tree s0). by destruct s0.
  - eapply ran_holds; [|done]. intros q s0. eexists. apply Hruns.
Qed.

Lemma finish_ci_holds io s r claims channel s' ans slots verifying load : 0 < load channel →
  finish_ci io s r claims channel = (s', ans) → holds s (S slots) verifying load →
  holds s' slots verifying (λ c, if bool_decide (channel = c) then pred (load c) else load c).
Proof.
  intros Hpos Hf Hh. unfold finish_ci in Hf. destruct (read_ci_submission r) as [no|submission].
  { injection Hf as <- <-. by apply release_slots_holds. }
  destruct (negb _); [injection Hf as <- <-; by apply release_slots_holds|].
  destruct (publish_ci _ _ _ _) as [s1 a1] eqn:Hp. injection Hf as <- <-. apply release_slots_holds; [done|].
  apply publish_ci_inv in Hp as [(a & d & ->) _]. by apply (holds_same s).
Qed.

Lemma authFailure_holds io s s' ans slots verifying load : authFailure io s = (s', ans) →
  holds s slots verifying load → holds s' slots verifying load.
Proof. intros (l & a & d & ->)%authFailure_set. by apply holds_same. Qed.

Lemma arrive_holds assets io s r s' out slots verifying load : holds s slots verifying load →
  arrive assets io s r = (s', out) →
  match out with
  | inl _ => holds s' slots verifying load
  | inr (PendingToken _) => verifying < 2 ∧ holds s' slots (S verifying) load
  | inr (PendingApi _ channel) | inr (PendingCI _ channel) => slots < 16 ∧ load channel < 2 ∧
      holds s' (S slots) verifying (λ c, (if bool_decide (channel = c) then 1 else 0) + load c)
  end.
Proof.
  intros Hh Ha. unfold arrive in Ha. case_bool_decide; [by injection Ha as <- <-|].
  destruct (negb _); [by injection Ha as <- <-|]. case_bool_decide.
  - unfold arrive_ci in Ha. repeat (case_match; [by simplify_eq|]).
    destruct (bearer _) as [token|]; [|by simplify_eq].
    match goal with H : bool_decide (2 ≤ _) = false |- _ => apply bool_decide_eq_false in H as Hci end.
    injection Ha as <- <-. destruct Hh as [? Hv ? ?]. split; [lia|]. split; cbn; try done. by rewrite Hv.
  - unfold arrive_api in Ha. destruct (credential _ _ _) as [[key p]|].
    2: { destruct (authFailure io s) as [s1 no] eqn:Hf. injection Ha as <- <-. by eapply authFailure_holds. }
    destruct (allow _ _ _ _) as [l [|]]; cbn [negb] in Ha; [|injection Ha as <- <-; by apply (holds_same s)].
    destruct (acquire_slots _ _ _ _) as [s1 [no|channel]] eqn:Hacq; injection Ha as <- <-;
      (eapply acquire_slots_holds in Hacq; [exact Hacq|by apply (holds_same s)]).
Qed.

Lemma verify_ci_holds io s token s' out slots verifying load : holds s slots (S verifying) load →
  verify_ci io s token = (s', out) →
  match out with
  | inl _ => holds s' slots verifying load
  | inr (PendingCI _ channel) => slots < 16 ∧ load channel < 2 ∧
      holds s' (S slots) verifying (λ c, (if bool_decide (channel = c) then 1 else 0) + load c)
  | inr _ => False
  end.
Proof.
  intros Hh Ha. unfold verify_ci in Ha. destruct (verify _ _ _) as [v verified].
  set (s1 := set_ci s v _ _) in Ha. assert (holds s1 slots verifying load) as H1.
  { destruct Hh as [? Hv ? ?]. split; cbn; try done. by rewrite Hv. }
  destruct verified as [claims|]; [|by injection Ha as <- <-].
  destruct (matchingPublisher _ _) as [publisher|]; [|by injection Ha as <- <-].
  destruct (allowPublisher _ _ _ _ _) as [l [|]]; cbn [negb] in Ha; [|injection Ha as <- <-; by apply (holds_same s1)].
  destruct (acquire_slots _ _ _ _) as [s2 [no|channel]] eqn:Hacq; injection Ha as <- <-;
    (eapply acquire_slots_holds in Hacq; [exact Hacq|by apply (holds_same s1)]).
Qed.

Lemma channels_loop_spec old workspaces : ∀ load next channels load',
  (∀ ws c, old !! ws = Some c → c ∈ dom load) → (∀ ws c, next !! ws = Some c → c ∈ dom load) →
  channels_loop old load next workspaces = (channels, load') →
  (∀ c, load_of load' c = load_of load c) ∧ (∀ ws c, channels !! ws = Some c → c ∈ dom load') ∧
  (∀ ws c, ws ∈ workspaces → old !! ws = Some c → channels !! ws = Some c) ∧
  (∀ ws, ws ∉ workspaces → channels !! ws = next !! ws).
Proof.
  induction workspaces as [|w workspaces IH]; intros load next channels load' Hold Hnext Hc.
  { injection Hc as <- <-. split_and!; try done. by intros ws c ?%elem_of_nil. }
  cbn [channels_loop] in Hc. destruct (old !! w) as [channel|] eqn:Hw.
  - apply IH in Hc as (Hl & Hch & Hkeep & Hother); [|done|].
    2: { intros ws c. destruct (decide (w = ws)) as [<-|]; [|rewrite lookup_insert_ne by done; apply Hnext].
      rewrite lookup_insert_eq. intros [= <-]. by eapply Hold. }
    split_and!; [done|done| |].
    + intros ws c [->|Hin]%elem_of_cons Hows; [|by apply Hkeep].
      destruct (decide (w ∈ workspaces)); [by apply Hkeep|]. rewrite Hother, lookup_insert_eq by done. congruence.
    + intros ws [Hne Hin]%not_elem_of_cons. by rewrite Hother, lookup_insert_ne.
  - set (channel := fresh (dom load)) in *.
    assert (load !! channel = None) as Hfresh by (apply not_elem_of_dom, is_fresh).
    apply IH in Hc as (Hl & Hch & Hkeep & Hother).
    + split_and!; [|done| |].
      * intros c. rewrite Hl. unfold load_of. destruct (decide (channel = c)) as [<-|].
        -- by rewrite lookup_insert_eq, Hfresh.
        -- by rewrite lookup_insert_ne.
      * intros ws c [->|Hin]%elem_of_cons Hows; [congruence|by apply Hkeep].
      * intros ws [Hne Hin]%not_elem_of_cons. by rewrite Hother, lookup_insert_ne.
    + intros ws c Hows. rewrite dom_insert. apply elem_of_union_r. by eapply Hold.
    + intros ws c. rewrite dom_insert. destruct (decide (w = ws)) as [<-|].
      * rewrite lookup_insert_eq. intros [= <-]. by apply elem_of_union_l, elem_of_singleton.
      * rewrite lookup_insert_ne by done. intros Hn. apply elem_of_union_r. by eapply Hnext.
Qed.

Lemma reset_holds s c slots verifying load : holds s slots verifying load →
  holds (resetWorkspaceSlots s c) slots verifying load.
Proof.
  intros [Hs Hv Hl Hc]. unfold resetWorkspaceSlots.
  destruct (channels_loop _ _ _ _) as [channels load'] eqn:Hloop.
  apply channels_loop_spec in Hloop as (Hload & Hch & _); [|done|by intros ? ?].
  split; cbn; try done. intros channel. by rewrite Hload.
Qed.

Lemma Reload_holds io s c s' res slots verifying load : Reload io s c = (s', res) →
  holds s slots verifying load → holds s' slots verifying load.
Proof.
  unfold Reload. intros Hr Hh. destruct (Validate c).
  2: { destruct (audit_append _ _ _) as [s1 x] eqn:Ha. injection Hr as <- <-.
    apply audit_append_set in Ha as (a & d & ->). by apply (holds_same s). }
  destruct (audit_append _ _ _) as [s1 [[]|]] eqn:Ha; apply audit_append_set in Ha as (a & d & ->).
  2: { injection Hr as <- <-. by apply (holds_same s). }
  apply audit_append_set in Hr as (a' & d' & ->).
  apply (holds_same (resetWorkspaceSlots (set_config (set_audit s a d) c) c)); [done..|].
  apply reset_holds. by apply (holds_same s).
Qed.

Lemma count_pos P m id r p : m !! id = Some (r, p) → P p = true → 0 < count P m.
Proof. intros Hid HP. rewrite (count_delete _ _ _ _ _ Hid), HP. lia. Qed.

(** A request enters or leaves with the slots of its phase. *)
Lemma slots_insert s m id r p : m !! id = None →
  match p with
  | PendingToken _ => count verifying m < 2 ∧ holds s (count has_slot m) (S (count verifying m))
      (λ c, count (on_channel c) m)
  | PendingApi _ channel | PendingCI _ channel =>
      count has_slot m < 16 ∧ count (on_channel channel) m < 2 ∧
      holds s (S (count has_slot m)) (count verifying m)
        (λ c, (if bool_decide (channel = c) then 1 else 0) + count (on_channel c) m)
  end → (count has_slot m ≤ 16 ∧ count verifying m ≤ 2 ∧ ∀ c, count (on_channel c) m ≤ 2) →
  slots_ok (mkHub s (<[id := (r, p)]> m)).
Proof.
  intros Hid Hp (H16 & H2 & Hch). unfold slots_ok. cbn [hub_requests hub_server].
  rewrite !count_insert by done. destruct p as [p channel|token|claims channel]; cbn [has_slot verifying].
  2: { destruct Hp as [Hlt Hh]. split_and!; [|lia|lia|].
    - eapply holds_proper; [|exact Hh]. intros c. cbn. by rewrite count_insert.
    - intros c. rewrite count_insert by done. apply Hch. }
  all: destruct Hp as (Hs & Hc & Hh); split_and!; [|lia|lia|].
  1, 3: eapply holds_proper; [|exact Hh]; intros c; cbn; by rewrite count_insert.
  all: intros c; rewrite count_insert by done; cbn [on_channel]; specialize (Hch c);
    case_bool_decide; subst; lia.
Qed.

Lemma slots_keep s m id r p (Hid : m !! id = Some (r, p)) load :
  (∀ c, load c = count (on_channel c) (delete id m)) →
  holds s (count has_slot (delete id m)) (count verifying (delete id m)) load →
  (count has_slot m ≤ 16 ∧ count verifying m ≤ 2 ∧ ∀ c, count (on_channel c) m ≤ 2) →
  slots_ok (mkHub s (delete id m)).
Proof.
  intros Hl Hh (H16 & H2 & Hch). unfold slots_ok. cbn [hub_requests hub_server].
  rewrite (count_delete has_slot _ _ _ _ Hid) in H16. rewrite (count_delete verifying _ _ _ _ Hid) in H2.
  split_and!; [by eapply holds_proper|lia|lia|].
  intros c. specialize (Hch c). rewrite (count_delete (on_channel c) _ _ _ _ Hid) in Hch. lia.
Qed.

Lemma slots_step assets label h h' : hub_step assets label h h' → slots_ok h → slots_ok h'.
Proof.
  intros Hstep. destruct Hstep as [io s m id r s' out Hid Hrun|io s m id r p s' out Hid Hord Hrun|
    io s m c s' res Hrun|io dir_io order s m t res Hord Hrun|io s m a a' d res Ha Hrun]; intros [Hh Hmax].
  - eapply arrive_holds in Hrun; [|exact Hh]. destruct out as [ans|p]; cbn [keep_pending].
    + by rewrite delete_id.
    + apply slots_insert; [done|by destruct p|done].
  - cbn [hub_requests hub_server] in *. destruct p as [p channel|token|claims channel]; cbn [advance] in Hrun.
    + unfold finish_api in Hrun. destruct (route io s r p) as [s1 ans] eqn:Hr. injection Hrun as <- <-.
      eapply route_holds in Hr; [|exact Hh]. rewrite (count_delete has_slot _ _ _ _ Hid) in Hr.
      rewrite (count_delete verifying _ _ _ _ Hid) in Hr. eapply slots_keep; [exact Hid| |
        apply release_slots_holds; [|exact Hr]|done].
      * intros c. cbn. rewrite (count_delete (on_channel c) _ _ _ _ Hid). cbn.
        repeat case_bool_decide; (done || lia).
      * apply (count_pos _ _ _ _ _ Hid). by apply bool_decide_eq_true.
    + rewrite (count_delete verifying _ _ _ _ Hid), (count_delete has_slot _ _ _ _ Hid) in Hh. cbn in Hh.
      eapply (holds_proper _ _ _ _ (λ c, count (on_channel c) (delete id m))) in Hh;
        [|intros c; by rewrite (count_delete (on_channel c) _ _ _ _ Hid)].
      eapply verify_ci_holds in Hrun; [|exact Hh].
      destruct out as [ans|[| |claims channel]]; try done; cbn [keep_pending].
      * by eapply slots_keep; [exact Hid| |exact Hrun|].
      * rewrite <-(insert_delete_eq m id). apply slots_insert; [by rewrite lookup_delete_eq|done|].
        destruct Hmax as (H16 & H2 & Hch). rewrite (count_delete has_slot _ _ _ _ Hid) in H16.
        rewrite (count_delete verifying _ _ _ _ Hid) in H2. split_and!; [lia|lia|].
        intros c. specialize (Hch c). rewrite (count_delete (on_channel c) _ _ _ _ Hid) in Hch. lia.
    + destruct (finish_ci io s r claims channel) as [s1 ans] eqn:Hf. injection Hrun as <- <-.
      rewrite (count_delete verifying _ _ _ _ Hid), (count_delete has_slot _ _ _ _ Hid) in Hh.
      eapply finish_ci_holds in Hf; [| |exact Hh].
      * eapply slots_keep; [exact Hid| |exact Hf|done].
        intros c. cbn. rewrite (count_delete (on_channel c) _ _ _ _ Hid). cbn.
        repeat case_bool_decide; (done || lia).
      * apply (count_pos _ _ _ _ _ Hid). by apply bool_decide_eq_true.
  - split; [|done]. by eapply Reload_holds.
  - split; [|done]. by apply (holds_same s).
  - split; [|done]. by apply (holds_same s).
Qed.

(** C18: the limits on requests in progress hold in every reachable state.
    However admissions, verifications, bodies, operations, refusals, reloads
    and purges interleave, at most 16 requests hold a slot of the hub, at most
    two of them a slot of the same workspace, and at most two CI tokens are
    verified at a time; and the server's counters are exact, so a finished or
    refused request never leaks or frees a slot of another. *)
Theorem requests_in_progress_bounded assets closed c t audit d h ws channel
    (Hreach : reachable assets (mkHub (NewServer closed c t audit d) ∅) h)
    (Hws : srv_channels (hub_server h) !! ws = Some channel) :
  count has_slot (hub_requests h) ≤ 16 ∧ count verifying (hub_requests h) ≤ 2 ∧
  count (on_channel channel) (hub_requests h) ≤ 2 ∧
  srv_slots (hub_server h) = count has_slot (hub_requests h) ∧
  srv_ci_slots (hub_server h) = count verifying (hub_requests h) ∧
  load_of (srv_load (hub_server h)) channel = count (on_channel channel) (hub_requests h).
Proof.
  assert (slots_ok (mkHub (NewServer closed c t audit d) ∅)) as Hstart.
  { assert (∀ P, count P ∅ = 0) as H0 by (intros P; unfold count; by rewrite map_filter_empty, map_size_empty).
    unfold slots_ok. cbn [hub_requests hub_server]. rewrite !H0. split; [|split_and!; [lia|lia|]].
    - unfold NewServer. apply reset_holds. by split.
    - intros c'. rewrite H0. lia. }
  assert (slots_ok h) as [[Hs Hv Hl _] (H1 & H2 & H3)].
  { induction Hreach as [|h1 h2 h3 [label Hstep] _ IH]; [done|]. apply IH; [done|]. by eapply slots_step. }
  split_and!; auto.
Qed.

(** *** The replay ledger in a run *)

Lemma arrive_tree assets io s r s' out : arrive assets io s r = (s', out) →
  srv_tree s' = srv_tree s ∧ srv_config s' = srv_config s ∧ (∀ claims channel, out ≠ inr (PendingCI claims channel)).
Proof.
  intros Ha. unfold arrive in Ha. case_bool_decide; [by injection Ha as <- <-|].
  destruct (negb _); [by injection Ha as <- <-|]. case_bool_decide.
  - unfold arrive_ci in Ha. repeat (case_match; [by simplify_eq|]). by repeat case_match; simplify_eq.
  - unfold arrive_api in Ha. destruct (credential _ _ _) as [[key p]|].
    2: { destruct (authFailure io s) as [s1 no] eqn:Hf. injection Ha as <- <-.
      by apply authFailure_set in Hf as (l & a & d & ->). }
    destruct (allow _ _ _ _) as [l [|]]; cbn [negb] in Ha; [|by injection Ha as <- <-].
    unfold acquire_slots, acquire_workspace, acquire_slot in Ha.
    destruct (srv_channels _ !! _); [|by injection Ha as <- <-].
    case_bool_decide; [|by injection Ha as <- <-]. case_bool_decide; by injection Ha as <- <-.
Qed.

Lemma acquire_slots_view s ws busy full s' out : acquire_slots s ws busy full = (s', out) →
  srv_tree s' = srv_tree s ∧ srv_config s' = srv_config s.
Proof.
  intros Ha. unfold acquire_slots, acquire_workspace, acquire_slot in Ha.
  destruct (srv_channels _ !! _); [|by injection Ha as <- <-].
  case_bool_decide; [|by injection Ha as <- <-]. case_bool_decide; by injection Ha as <- <-.
Qed.

Lemma verify_ci_tree io s token s' out : verify_ci io s token = (s', out) →
  srv_tree s' = srv_tree s ∧ srv_config s' = srv_config s ∧
  (∀ claims channel, out = inr (PendingCI claims channel) →
     ∃ v, verify (rio_verify io) (srv_ci s) token = (v, Ok claims)).
Proof.
  intros Ha. unfold verify_ci in Ha. destruct (verify _ _ _) as [v [claims|]]; [|by injection Ha as <- <-].
  destruct (matchingPublisher _ _); [|by injection Ha as <- <-].
  destruct (allowPublisher _ _ _ _ _) as [l [|]]; cbn [negb] in Ha; [|by injection Ha as <- <-].
  destruct (acquire_slots _ _ _ _) as [s2 [no|channel]] eqn:Hacq; injection Ha as <- <-;
    apply acquire_slots_view in Hacq as [-> ->]; (split_and!; [done..|]); [done|].
  intros ? ? [= <- _]. by exists v.
Qed.

Lemma finish_api_view io s r p channel s' ans : (∀ l, io_order (rio_store io) l ≡ₚ l) →
  finish_api io s r p channel = (s', ans) →
  srv_config s' = srv_config s ∧ srv_tree s' !! replayFilename = srv_tree s !! replayFilename.
Proof.
  intros Hord Hrun. unfold finish_api in Hrun. destruct (route io s r p) as [s2 a2] eqn:Hroute.
  injection Hrun as <- <-. change (srv_config (release_slots s2 channel)) with (srv_config s2).
  change (srv_tree (release_slots s2 channel)) with (srv_tree s2).
  apply route_inv in Hroute as [[(l & a & d & ->) _]|[Hran|Hran]]; [done| |].
  - destruct Hran as (key & q & s1 & s3 & result & a & d & _ & _ & Ha & Hop & -> & _). injection Hop as <- _.
    by apply audit_append_set in Ha as (a1 & d1 & ->).
  - destruct Hran as (scope & action & op & sop & _ & _ & Hruns & key & q & s1 & s3 & result & a & d & _ & _ &
      Ha & Hop & -> & _).
    specialize (Hruns q s1). rewrite Hop in Hruns. cbn in Hruns. subst s3.
    apply audit_append_set in Ha as (a1 & d1 & ->). cbn. split; [done|].
    destruct (run_store_op _ _ _ _ _ _) as [t res] eqn:Hop'. cbn.
    apply run_store_op_spec in Hop' as [Hframe _]; [|done]. apply Hframe. intros Heq.
    by apply (dir_name_not_ledger (Principal_Workspace q)).
Qed.

Lemma Reload_view io s c s' res : Reload io s c = (s', res) →
  srv_tree s' = srv_tree s ∧
  (srv_config s' = srv_config s ∧ res ≠ Ok tt ∨ srv_config s' = c ∧ Validate c = Ok tt).
Proof.
  unfold Reload. intros Hr. destruct (Validate c) as [[]|] eqn:Hv.
  2: { destruct (audit_append _ _ _) as [s1 x] eqn:Ha. injection Hr as <- <-.
    apply audit_append_set in Ha as (a & d & ->). split; [done|by left]. }
  destruct (audit_append _ _ _) as [s1 [[]|]] eqn:Ha; apply audit_append_set in Ha as (a & d & ->).
  2: { injection Hr as <- <-. split; [done|by left]. }
  apply audit_append_set in Hr as (a' & d' & ->). unfold resetWorkspaceSlots.
  destruct (channels_loop _ _ _ _). split; [done|by right].
Qed.

(** *** A token in a run *)

Context `{PLedger : !LedgerJson} (Hint : ∀ part c, parse_claims part = Ok c → int64_claims c).

Definition hub_ok (h : hub) : Prop :=
  Validate (srv_config (hub_server h)) = Ok tt ∧
  ∀ id r claims channel, hub_requests h !! id = Some (r, PendingCI claims channel) →
    (0 < Claims_Expires claims < 2 ^ 63)%Z.

(** A run whose reservations happen in the order of the hub's clock *)
Inductive hub_run (assets : bool) : Z → hub → Z → hub → Prop :=
  | run_refl now h : hub_run assets now h now h
  | run_step start h now h1 label h2 : hub_run assets start h now h1 → hub_step assets label h1 h2 →
      (∀ t, label = Some t → (now ≤ t)%Z) → hub_run assets start h (default now label) h2.

Lemma keep_pending_lookup m id r out id' x : keep_pending m id r out !! id' = Some x →
  m !! id' = Some x ∨ ∃ p, out = inr p ∧ x = (r, p).
Proof.
  destruct out as [ans|p]; cbn [keep_pending]; [intros [_ ?]%lookup_delete_Some; by left|].
  intros [[_ <-]|[_ ?]]%lookup_insert_Some; [right; by exists p|by left].
Qed.

Lemma verified_expiry io v token v' claims : verify io v token = (v', Ok claims) →
  (0 < Claims_Expires claims < 2 ^ 63)%Z.
Proof.
  intros (Hl & part & Hp)%verify_claims. apply Hint in Hp. unfold int64_claims in Hp.
  rewrite !Forall_cons in Hp. unfold lifetime_ok in Hl. bool_prop. lia.
Qed.

Lemma finish_ci_ledger io s r claims channel s' ans now start t :
  Validate (srv_config s) = Ok tt → (0 < Claims_Expires claims < 2 ^ 63)%Z →
  (∀ l, io_order (rio_store io) l ≡ₚ l) →
  finish_ci io s r claims channel = (s', ans) → (now ≤ Unix (cio_now (rio_consume io)))%Z →
  ledger_steps start t now (srv_tree s) →
  srv_config s' = srv_config s ∧
  ∃ now', (now' = now ∨ now' = Unix (cio_now (rio_consume io))) ∧ ledger_steps start t now' (srv_tree s').
Proof.
  intros Hvalid Hexp Hord Hf Hnow Hsteps. unfold finish_ci in Hf.
  destruct (read_ci_submission r) as [no|submission]; [injection Hf as <- <-; split; [done|]; exists now; by split; [left|]|].
  destruct (negb _); [injection Hf as <- <-; split; [done|]; exists now; by split; [left|]|].
  destruct (publish_ci _ _ _ _) as [s1 a1] eqn:Hp. injection Hf as <- <-.
  change (srv_tree (release_slots s1 channel)) with (srv_tree s1).
  change (srv_config (release_slots s1 channel)) with (srv_config s1).
  apply publish_ci_inv in Hp as [(a & d & Hs1) Hp]. split; [by rewrite Hs1|].
  destruct Hp as [[-> _]|(publisher & s2 & t1 & consumed & _ & Hm & _ & _ & Hc & Hrest)];
    [exists now; by split; [left|]|].
  exists (Unix (cio_now (rio_consume io))). split; [by right|].
  assert (ledger_steps start t (Unix (cio_now (rio_consume io))) t1) as Ht1.
  { eapply steps_consume; [done|done| |exact Hc]. split; [by eapply matching_subject|done]. }
  destruct Hrest as [(_ & -> & _)|(_ & created & Hv & _)]; [done|].
  eapply steps_other; [done|].
  assert (run_store_op (rio_store io) (srv_closed s) (srv_config s) t1 (Publisher_Workspace publisher)
    (OpCreate submission (Some (identity_of publisher claims))) =
    (srv_tree s1, let? x := created in Ok [x])) as Hop by (unfold run_store_op; by rewrite Hv).
  apply run_store_op_spec in Hop as [Hframe _]; [|done]. apply Hframe. intros Heq.
  by apply (dir_name_not_ledger (Publisher_Workspace publisher)).
Qed.

Lemma hub_step_ledger assets label h h' start t now : hub_step assets label h h' → hub_ok h →
  (∀ clock, label = Some clock → (now ≤ clock)%Z) → ledger_steps start t now (srv_tree (hub_server h)) →
  hub_ok h' ∧ ∃ now', (now' ≤ default now label)%Z ∧ ledger_steps start t now' (srv_tree (hub_server h')).
Proof.
  intros Hstep [Hvalid Hexp] Hclock Hsteps. unfold hub_ok.
  destruct Hstep as [io s m id r s' out Hid Hrun|io s m id r p s' out Hid Hord Hrun|
    io s m c s' res Hrun|io dir_io order s m t' res Hord Hrun|io s m a a' d res Ha Hrun];
    cbn [hub_server hub_requests] in *.
  - apply arrive_tree in Hrun as (Ht & Hc & Hno). rewrite Ht, Hc. split; [|by exists now].
    split; [done|]. intros id' r' claims channel [?|(p & -> & [= -> <-])]%keep_pending_lookup; [by eapply Hexp|].
    by destruct (Hno claims channel).
  - destruct p as [p channel|token|claims channel]; cbn [advance] in Hrun; cbn [token_clock].
    + destruct (finish_api io s r p channel) as [s1 ans] eqn:Hf. injection Hrun as <- <-.
      apply finish_api_view in Hf as [-> Ht]; [|done]. split.
      * split; [done|]. intros id' r' claims ch [?|(q & ? & _)]%keep_pending_lookup; [by eapply Hexp|done].
      * exists now. split; [done|by eapply steps_other].
    + apply verify_ci_tree in Hrun as (-> & -> & Hout). split; [|by exists now]. split; [done|].
      intros id' r' claims ch [?|(q & -> & [= -> <-])]%keep_pending_lookup; [by eapply Hexp|].
      destruct (Hout claims ch) as [v Hv]; [done|]. by eapply verified_expiry.
    + destruct (finish_ci io s r claims channel) as [s1 ans] eqn:Hf. injection Hrun as <- <-.
      pose proof (Hclock _ eq_refl) as Hnow.
      eapply finish_ci_ledger in Hf as (-> & now' & Hnow' & Hsteps'); [| |by eapply Hexp|done|done|done]; [|done].
      split; [split; [done|]|].
      * intros id' r' claims' ch [?|(q & ? & _)]%keep_pending_lookup; [by eapply Hexp|done].
      * exists now'. split; [|done]. cbn. destruct Hnow' as [->| ->]; lia.
  - apply Reload_view in Hrun as [-> [[-> _]|[-> Hv]]]; (split; [by split|by exists now]).
  - split; [by split|]. exists now. split; [done|]. eapply steps_other; [done|]. by eapply purge_keeps_ledger.
  - split; [by split|by exists now].
Qed.

Lemma hub_run_ledger assets start h now h' : hub_run assets start h now h' → hub_ok h →
  hub_ok h' ∧ ∃ now', (now' ≤ now)%Z ∧ ledger_steps start (srv_tree (hub_server h)) now' (srv_tree (hub_server h')).
Proof.
  induction 1 as [now h|start h now h1 label h2 Hrun IH Hstep Hle]; intros Hok.
  { split; [done|]. exists now. split; [done|apply steps_refl]. }
  destruct (IH Hok) as (Hok1 & now1 & Hnow1 & Hsteps).
  eapply hub_step_ledger in Hstep as (Hok2 & now2 & Hnow2 & Hsteps2); [|done| |exact Hsteps].
  - split; [done|]. exists now2. split; [|done]. destruct label as [clock|]; cbn in *; [|lia].
    specialize (Hle _ eq_refl). lia.
  - intros clock ->. specialize (Hle _ eq_refl). lia.
Qed.

(** C17: a CI token publishes one report.  Once a request with a token was
    answered with 201, then in every run of the hub from there - with any other
    requests, crashes of file operations, reloads and purges, as long as the
    hub's clock does not go backwards - no later request with the same token
    identifier is answered with 201 or changes the data directory, until the
    ledger's clock has passed the expiry of the token. *)
Theorem ci_token_published_once assets io s m id r claims channel s1 ans now h io' r' claims' channel' s2 ans'
    (Hok : hub_ok (mkHub s m)) (Hid : m !! id = Some (r, PendingCI claims channel))
    (Hord : ∀ l, io_order (rio_store io) l ≡ₚ l)
    (Hfirst : finish_ci io s r claims channel = (s1, ans)) (Hcreated : reply_Status ans = 201%Z)
    (Hrun : hub_run assets (Unix (cio_now (rio_consume io))) (mkHub s1 (delete id m)) now h)
    (Hpending : ∃ id', hub_requests h !! id' = Some (r', PendingCI claims' channel'))
    (Hsame : Claims_ID claims' = Claims_ID claims)
    (Hclock : (now ≤ Unix (cio_now (rio_consume io')) < Claims_Expires claims)%Z)
    (Hsecond : finish_ci io' (hub_server h) r' claims' channel' = (s2, ans')) :
  srv_tree s2 = srv_tree (hub_server h) ∧ reply_Status ans' ≠ 201%Z.
Proof.
  destruct Hok as [Hvalid Hexp]. pose proof (Hexp _ _ _ _ Hid) as Hclaims. cbn [hub_server] in Hvalid.
  apply finish_ci_inv in Hfirst as [[_ ?]|(submission & s3 & _ & _ & Hp & ->)]; [done|].
  pose proof Hp as [(a & d & Hs3) [[_ ?]|(publisher & s4 & t1 & consumed & _ & Hm & _ & _ & Hc & Hrest)]]%publish_ci_inv;
    [done|].
  destruct Hrest as [(_ & _ & ?)|(-> & created & Hv & _)]; [done|].
  assert (may_consume claims publisher) as Hmay by (split; [by eapply matching_subject|done]).
  apply consume_reserves in Hc as Hres; [|done].
  assert (reserved (srv_tree s3) (token_digest claims) (Claims_Expires claims)) as Hres3.
  { destruct Hres as (f & entries & Hf & Hrest). exists f, entries. split; [|done]. rewrite <-Hf.
    assert (run_store_op (rio_store io) (srv_closed s) (srv_config s) t1 (Publisher_Workspace publisher)
      (OpCreate submission (Some (identity_of publisher claims))) =
      (srv_tree s3, let? x := created in Ok [x])) as Hop by (unfold run_store_op; by rewrite Hv).
    apply run_store_op_spec in Hop as [Hframe _]; [|done]. apply Hframe. intros Heq.
    by apply (dir_name_not_ledger (Publisher_Workspace publisher)). }
  assert (hub_ok (mkHub (release_slots s3 channel) (delete id m))) as Hok1.
  { split; [by rewrite Hs3|]. cbn [hub_requests]. intros id' r0 c0 ch0 [_ Hl]%lookup_delete_Some. by eapply Hexp. }
  destruct (hub_run_ledger _ _ _ _ _ Hrun Hok1) as ([Hvalid' Hexp'] & now' & Hnow' & Hsteps).
  destruct Hpending as [id' Hid']. apply Hexp' in Hid' as Hclaims'.
  assert (now' < Claims_Expires claims)%Z as Hlt by lia.
  eapply ledger_steps_reserved in Hsteps; [|exact Hlt|exact Hres3].
  apply finish_ci_inv in Hsecond as [?|(submission' & s5 & _ & _ & Hp' & ->)]; [done|].
  change (srv_tree (release_slots s5 channel')) with (srv_tree s5).
  apply publish_ci_inv in Hp' as [_ [?|(publisher' & s6 & t2 & consumed' & _ & Hm' & _ & _ & Hc' & Hrest')]]; [done|].
  assert (may_consume claims' publisher') as Hmay' by (split; [by eapply matching_subject|done]).
  destruct (consume_keeps_reserved _ _ _ _ _ _ _ _ Hmay' Hc' (proj2 Hclock) Hsteps) as [_ Hkeep].
  assert (consumed' ≠ Ok tt) as Hno by (apply Hkeep; unfold token_digest; by rewrite Hsame).
  destruct Hrest' as [(_ & -> & ?)|(? & _)]; [|done]. split; [|done].
  apply consume_inv in Hc' as [[? _]|(entries & active & Hr & Hl & _)]; [done|].
  destruct Hsteps as (f & es & Hf & Hcontent & Hrec & e & Hin & He & Hx).
  assert (entries = es) as -> by (by eapply read_ledger_entries).
  apply replay_loop_spec in Hl as (_ & _ & Hnot). rewrite Forall_forall in Hnot.
  destruct (Hnot e Hin); [lia|]. rewrite He. unfold token_digest. by rewrite Hsame.
Qed.
End runs.

(** ** Witnesses *)

Definition demo_mime : Mime := {| ParseMediaType := Ok |}.
Definition demo_ci_submission : Submission :=
  mkSubmission "o/r" "unit tests" (Claims_SHA demo_claims) (run_url "o/r" "77") "PROVEN" "A setting differs."
    "Both settings" "Fix it." 3 "".
Definition demo_submissions : Json Submission := single_json demo_ci_submission.

#[local] Existing Instances simple_urls demo_mime demo_members demo_rsa text_json claims_json keys_json key_json
  ledger_json demo_reports demo_submissions demo_entries demo_states.

(** A request whose clocks all show [seconds] *)
Definition demo_request_io (seconds : Z) : request_io :=
  let now := demo_time seconds in
  mkRequestIO now id now id now (demo_audit_io LineWritten) (demo_audit_io LineWritten) (demo_store_io now)
    demo_verify_io now now (demo_consume_io seconds).
Definition demo_ci_request : Request :=
  mkRequest "POST" "/api/v1/ci/reports" "" ["Bearer SA.Qw.AQAB"] "application/json" "{}" None.
Definition demo_ci_server : Server := NewServer false demo_ci_config ∅ None (mkAuditDisk None ∅).

Lemma allow_burst_witness :
  burst id 5 "key" 40 ∅ = replicate 30 true ++ replicate 10 false ∧ size (allow id 5 ∅ "key").1 ≤ 128.
Proof.
  apply (allow_burst id 5 ∅ "key" 40).
  - done.
  - reflexivity.
  - apply (bool_decide_unpack _). vm_compute. exact I.
  - intros name b Hb. by rewrite lookup_empty in Hb.
Defined.

(** A caller with the write key lists the reports of its workspace. *)
Definition demo_secret : string := "wbh_0123456789012345678901234567890123456789".
Definition demo_api_config : Config := initial_config "wbh_read" demo_secret.
Definition demo_api_request : Request :=
  mkRequest "GET" "/api/v1/reports" "" ["Bearer " +:+ demo_secret] "" "" None.
Definition demo_api_server : Server := NewServer false demo_api_config ∅ None (mkAuditDisk None ∅).
Definition demo_principal : Principal := mkPrincipal "default-write" "service" "default" "default-write-key" [].
Definition demo_listed : Server * reply :=
  finish_api (demo_request_io 1000010) demo_api_server demo_api_request demo_principal 0.

Lemma changes_are_authorized_witness :
  reply_Status demo_listed.2 = 200%Z ∧
  ((srv_tree demo_listed.1 = srv_tree demo_api_server ∧
     ((400 ≤ reply_Status demo_listed.2)%Z ∨
      ∃ key q, credential demo_api_request demo_api_config (demo_time 1000010) = Some (key, q) ∧
        reply_Payload demo_listed.2 = PSession (session_of demo_api_config q))) ∨
  ∃ key q scope action sop s1, asks demo_api_request scope sop ∧
    credential demo_api_request demo_api_config (demo_time 1000010) = Some (key, q) ∧
    key ∈ Config_Keys demo_api_config ∧ principalForKey demo_api_config key (demo_time 1000010) = Some q ∧
    scope ∈ Principal_Scopes q ∧
    audit_append (demo_audit_io LineWritten) demo_api_server (request_event demo_api_request q action) = (s1, Ok tt) ∧
    srv_tree demo_listed.1 = (run_store_op (demo_store_io (demo_time 1000010)) false demo_api_config ∅
                     (Principal_Workspace q) sop).1 ∧
    (∀ other, other ≠ Principal_Workspace q →
       directory_of (srv_tree demo_listed.1) other = directory_of ∅ other ∨
       sha256_hex other = sha256_hex (Principal_Workspace q))).
Proof.
  split; [vm_compute; reflexivity|].
  apply (changes_are_authorized (demo_request_io 1000010) demo_api_server demo_api_request demo_principal 0
    demo_listed.1 demo_listed.2).
  - intros l. reflexivity.
  - apply surjective_pairing.
Defined.

(** A job publishes its report; a second request with its token is pending. *)
Definition demo_published : Server * reply :=
  finish_ci (demo_request_io 1000010) demo_ci_server demo_ci_request demo_claims 0.

Lemma published_report_matches_token_witness :
  ∃ report publisher,
    reply_Payload demo_published.2 = PReport report ∧
    published (demo_request_io 1000010) demo_ci_server demo_ci_request demo_claims (srv_tree demo_published.1) report ∧
    matchingPublisher demo_ci_config demo_claims = Some publisher ∧
    Submission_Repository (HubStore.Report_Submission report) = Claims_Repository demo_claims ∧
    Submission_CommitSHA (HubStore.Report_Submission report) = Claims_SHA demo_claims ∧
    Submission_RunURL (HubStore.Report_Submission report) =
      run_url (Claims_Repository demo_claims) (Claims_RunID demo_claims) ∧
    Report_Publisher report = Some (identity_of publisher demo_claims) ∧
    (∀ other, other ≠ Publisher_Workspace publisher →
       directory_of (srv_tree demo_published.1) other = directory_of ∅ other ∨
       sha256_hex other = sha256_hex (Publisher_Workspace publisher)).
Proof.
  apply (published_report_matches_token (demo_request_io 1000010) demo_ci_server demo_ci_request demo_claims 0
    demo_published.1 demo_published.2).
  - intros l. reflexivity.
  - apply surjective_pairing.
  - vm_compute. reflexivity.
Defined.

Definition demo_pending : gmap nat (Request * pending) :=
  {[0 := (demo_ci_request, PendingCI demo_claims 0); 1 := (demo_ci_request, PendingCI demo_claims 0)]}.
Definition demo_again : Server * reply :=
  finish_ci (demo_request_io 1000020) demo_published.1 demo_ci_request demo_claims 0.

Lemma ci_token_published_once_witness :
  srv_tree demo_again.1 = srv_tree demo_published.1 ∧ reply_Status demo_again.2 ≠ 201%Z.
Proof.
  apply (ci_token_published_once demo_claims_int64 true (demo_request_io 1000010) demo_ci_server demo_pending 0
    demo_ci_request demo_claims 0 demo_published.1 demo_published.2 1000010
    (mkHub demo_published.1 (delete 0 demo_pending)) (demo_request_io 1000020) demo_ci_request demo_claims 0
    demo_again.1 demo_again.2).
  - split; [vm_compute; reflexivity|]. cbn [hub_requests]. intros id r claims channel Hin.
    assert (claims = demo_claims) as ->; [|split; reflexivity]. unfold demo_pending in Hin.
    apply lookup_insert_Some in Hin as [[_ Heq]|[_ [_ Heq]%lookup_singleton_Some]]; by injection Heq.
  - reflexivity.
  - intros l. reflexivity.
  - apply surjective_pairing.
  - vm_compute. reflexivity.
  - apply run_refl.
  - exists 1. reflexivity.
  - reflexivity.
  - vm_compute. split; [discriminate|reflexivity].
  - apply surjective_pairing.
Defined.

(** A request is admitted. *)
Definition demo_admitted : Server * (reply + pending) :=
  arrive true (demo_request_io 1000010) demo_api_server demo_api_request.

Lemma requests_in_progress_bounded_witness :
  let h := mkHub demo_admitted.1 (keep_pending ∅ 0 demo_api_request demo_admitted.2) in
  count has_slot (hub_requests h) = 1 ∧
  count has_slot (hub_requests h) ≤ 16 ∧ count verifying (hub_requests h) ≤ 2 ∧
  count (on_channel 3) (hub_requests h) ≤ 2 ∧
  srv_slots (hub_server h) = count has_slot (hub_requests h) ∧
  srv_ci_slots (hub_server h) = count verifying (hub_requests h) ∧
  load_of (srv_load (hub_server h)) 3 = count (on_channel 3) (hub_requests h).
Proof.
  intros h. split; [vm_compute; reflexivity|].
  apply (requests_in_progress_bounded true false demo_api_config ∅ None (mkAuditDisk None ∅) h "default" 3).
  - eapply rtc_l; [|apply rtc_refl]. exists None.
    refine (step_arrive true (demo_request_io 1000010) demo_api_server ∅ 0 demo_api_request demo_admitted.1
      demo_admitted.2 _ _); [reflexivity|apply surjective_pairing].
  - vm_compute. reflexivity.
Defined.

(** The replay window.  The expiry of a token is read before the intent is
    recorded, the clock of the ledger after it: a job whose second request
    passes the first reading at the last second of its token and the second
    one a second later finds its record pruned. *)
Definition demo_late_io : request_io :=
  let io := demo_request_io 1000299 in
  mkRequestIO (rio_now io) (rio_limit_order io) (rio_limit_now io) (rio_fail_order io) (rio_fail_now io)
    (rio_intent io) (rio_outcome io)
    (mkStoreIO id (λ _, None) (λ _, None) (λ _, None) None None None (Ok (replicate 16 172%Z)) Written None
      (demo_time 1000300) (λ _, demo_time 1000300) (demo_time 1000300))
    (rio_verify io) (rio_quarantine_now io) (rio_expiry_now io) (demo_consume_io 1000300).
Example token_published_twice :
  reply_Status demo_published.2 = 201%Z ∧
  (Unix (rio_expiry_now demo_late_io) < Claims_Expires demo_claims)%Z ∧
  reply_Status (finish_ci demo_late_io demo_published.1 demo_ci_request demo_claims 0).2 = 201%Z.
Proof. split_and!; vm_compute; reflexivity. Qed.
