(* ===== verification/Net.v ===== *)
(** * Net: addresses

    What the hub uses of Go's package [net] to decide where it may listen:
    [SplitHostPort], [ParseIP] and [IP.IsLoopback].  An [IP] is the list of its
    sixteen bytes; an IPv4 address is the one that is mapped into IPv6. *)

From S2P Require Import Prelude Text Paths.

(** ** SplitHostPort *)

(** The text before and after the last occurrence of a byte *)
Definition cut_last (sep : ascii) (s : string) : option (string * string) :=
  match reverse (split_byte sep s) with
  | after :: (_ :: _) as rest => Some (join (String sep "") (reverse rest), after)
  | _ => None
  end.

Definition has_byte (c : ascii) (s : string) : bool := string_existsb (λ d, bool_decide (d = c)) s.

Definition err_missing_port : error := ErrMsg "missing port in address".
Definition err_many_colons : error := ErrMsg "too many colons in address".
Definition err_missing_bracket : error := ErrMsg "missing ']' in address".
Definition err_open_bracket : error := ErrMsg "unexpected '[' in address".
Definition err_close_bracket : error := ErrMsg "unexpected ']' in address".

Definition SplitHostPort (hostport : string) : result (string * string) :=
  match cut_last ":" hostport with
  | None => Err err_missing_port
  | Some (before, port) =>
      let brackets (opening closing : string) (host : string) :=
        fail? has_byte "[" opening with err_open_bracket in
        fail? has_byte "]" closing with err_close_bracket in
        Ok (host, port) in
      match hostport with
      | String "[" rest =>
          match cut rest "]" with
          | None => Err err_missing_bracket
          | Some (host, EmptyString) => Err err_missing_port
          | Some (host, String c after) =>
              if bool_decide (c = ":"%char) then
                (** the first closing bracket must stand before the last colon *)
                if has_byte ":" after then Err err_many_colons else brackets rest (String c after) host
              else Err err_missing_port
          end
      | _ => if has_byte ":" before then Err err_many_colons else brackets hostport hostport before
      end
  end.

(** ** ParseIP *)

(** A decimal octet without leading zeros *)
Definition octet (s : string) : option Z :=
  match s with
  | EmptyString => None
  | String "0" (String _ _) => None
  | _ => n ← digits_value 0 s; if bool_decide (n ≤ 255)%Z then Some n else None
  end.

Definition parse_ipv4 (s : string) : option (list Z) :=
  match split_byte "." s with
  | [a; b; c; d] => a ← octet a; b ← octet b; c ← octet c; d ← octet d; Some [a; b; c; d]
  | _ => None
  end.

Fixpoint hex_prefix (s : string) : string * string :=
  match s with
  | String c rest => if is_hex c then let '(digits, rest) := hex_prefix rest in (String c digits, rest) else (EmptyString, s)
  | EmptyString => (EmptyString, EmptyString)
  end.
Fixpoint hex_number (acc : Z) (s : string) : Z :=
  match s with EmptyString => acc | String c s => hex_number (16 * acc + default 0%Z (hex_value c)) s end.

(** The loop over the groups of an IPv6 address: the bytes so far, the place of
    the double colon, and the text that is left; at most eight groups *)
Fixpoint groups_loop (fuel : nat) (ip : list Z) (ellipsis : option nat) (s : string) : option (list Z * option nat) :=
  match fuel with
  | O => match s with EmptyString => Some (ip, ellipsis) | _ => None end
  | S fuel =>
      let '(digits, rest) := hex_prefix s in
      if bool_decide (digits = "") || bool_decide (4 < String.length digits) then None
      else
        let value := hex_number 0 digits in
        let ip' := ip ++ [Z.shiftr value 8; Z.land value 255] in
        match rest with
        | EmptyString => Some (ip', ellipsis)
        | String "." _ =>
            if (bool_decide (ellipsis = None) && negb (bool_decide (length ip = 12))) || bool_decide (16 < length ip + 4) then None
            else v4 ← parse_ipv4 s; Some (ip ++ v4, ellipsis)
        | String ":" EmptyString => None
        | String ":" (String ":" rest) =>
            match ellipsis with
            | Some _ => None
            | None => match rest with
                      | EmptyString => Some (ip', Some (length ip'))
                      | _ => groups_loop fuel ip' (Some (length ip')) rest
                      end
            end
        | String ":" rest => groups_loop fuel ip' ellipsis rest
        | String _ _ => None
        end
  end.

(** The zeros of the double colon *)
Definition expand (ip : list Z) (ellipsis : option nat) : option (list Z) :=
  match ellipsis with
  | None => if bool_decide (length ip < 16) then None else Some ip
  | Some at_ => if bool_decide (length ip < 16) then Some (take at_ ip ++ replicate (16 - length ip) 0%Z ++ drop at_ ip) else None
  end.

Definition parse_ipv6 (s : string) : option (list Z) :=
  match s with
  | String ":" (String ":" EmptyString) => Some (replicate 16 0%Z)
  | String ":" (String ":" rest) => '(ip, ellipsis) ← groups_loop 8 [] (Some 0) rest; expand ip ellipsis
  | _ => '(ip, ellipsis) ← groups_loop 8 [] None s; expand ip ellipsis
  end.

Definition mapped (v4 : list Z) : list Z := replicate 10 0%Z ++ [255; 255]%Z ++ v4.

(** The first dot, colon or percent sign *)
Fixpoint first_mark (s : string) : option ascii :=
  match s with
  | EmptyString => None
  | String c s => if char_in c ".:%" then Some c else first_mark s
  end.

(** The first mark decides; an address with a zone is none. *)
Definition ParseIP (s : string) : option (list Z) :=
  match first_mark s with
  | Some "."%char => mapped <$> parse_ipv4 s
  | Some ":"%char => parse_ipv6 s
  | _ => None
  end.

Definition IPv6loopback : list Z := replicate 15 0%Z ++ [1%Z].
Definition To4 (ip : list Z) : option (list Z) :=
  if bool_decide (take 12 ip = mapped []) then Some (drop 12 ip) else None.
Definition IsLoopback (ip : list Z) : bool :=
  match To4 ip with
  | Some (a :: _) => bool_decide (a = 127%Z)
  | Some [] => false
  | None => bool_decide (ip = IPv6loopback)
  end.

Example ParseIP_examples :
  ParseIP "127.0.0.1" = Some (mapped [127; 0; 0; 1]%Z) ∧ ParseIP "127.1" = None ∧ ParseIP "127.0.0.01" = None ∧
  ParseIP "256.0.0.1" = None ∧ ParseIP "localhost" = None ∧ ParseIP "" = None ∧
  ParseIP "::1" = Some IPv6loopback ∧ ParseIP "0:0:0:0:0:0:0:1" = Some IPv6loopback ∧ ParseIP "::1%lo" = None ∧
  ParseIP "::ffff:127.0.0.1" = Some (mapped [127; 0; 0; 1]%Z) ∧ ParseIP "1::2::3" = None ∧
  ParseIP "fe80::1:2" = Some (([254; 128] ++ replicate 10 0 ++ [0; 1; 0; 2])%Z) ∧ ParseIP "1:2:3:4:5:6:7:8::" = None ∧
  ParseIP "1:2:3:4:5:6:7::" = Some [0; 1; 0; 2; 0; 3; 0; 4; 0; 5; 0; 6; 0; 7; 0; 0]%Z.
Proof. by vm_compute. Qed.

Example SplitHostPort_examples :
  SplitHostPort "127.0.0.1:8090" = Ok ("127.0.0.1", "8090") ∧ SplitHostPort "[::1]:8090" = Ok ("::1", "8090") ∧
  SplitHostPort ":8090" = Ok ("", "8090") ∧ SplitHostPort "localhost" = Err err_missing_port ∧
  SplitHostPort "::1:8090" = Err err_many_colons ∧ SplitHostPort "[::1]" = Err err_missing_port ∧
  SplitHostPort "[a]:1:2" = Err err_many_colons ∧ SplitHostPort "[a:1" = Err err_missing_bracket ∧
  SplitHostPort "a]:1" = Err err_close_bracket ∧ SplitHostPort "[[a]:1" = Err err_open_bracket.
Proof. by vm_compute. Qed.

(** ** Lemmas *)

Definition is_octet (n : Z) : Prop := (0 ≤ n < 256)%Z.

(** [P] holds of all octets when it can be computed for each of them. *)
Lemma octet_cases (P : Z → bool) : forallb P (seqZ 0 256) = true → ∀ n, is_octet n → P n = true.
Proof. intros Hall n Hn. rewrite forallb_forall in Hall. apply Hall, list_elem_of_In, elem_of_seqZ. unfold is_octet in Hn. lia. Qed.

Lemma octet_show n : is_octet n → octet (show_Z n) = Some n.
Proof.
  intros Hn. eapply bool_decide_eq_true_1. revert n Hn. apply (octet_cases (λ n, bool_decide (octet (show_Z n) = Some n))).
  by vm_compute.
Qed.

Lemma show_octet_marks n : is_octet n → count_byte "." (show_Z n) = 0 ∧ contains_any (show_Z n) ".:%[]" = false.
Proof.
  intros Hn. eapply bool_decide_eq_true_1. revert n Hn.
  apply (octet_cases (λ n, bool_decide (count_byte "." (show_Z n) = 0 ∧ contains_any (show_Z n) ".:%[]" = false))). by vm_compute.
Qed.

(** The text of an IPv4 address *)
Definition ipv4_text (a b c d : Z) : string :=
  show_Z a +:+ String "." (show_Z b +:+ String "." (show_Z c +:+ String "." (show_Z d))).

Lemma parse_ipv4_text a b c d : Forall is_octet [a; b; c; d] → parse_ipv4 (ipv4_text a b c d) = Some [a; b; c; d].
Proof.
  rewrite !Forall_cons. intros (Ha & Hb & Hc & Hd & _). unfold parse_ipv4, ipv4_text.
  rewrite !(split_byte_app "."%char) by by apply show_octet_marks. rewrite split_byte_none by by apply show_octet_marks.
  by rewrite !octet_show.
Qed.

Lemma first_mark_app s c t : contains_any s ".:%" = false → char_in c ".:%" = true → first_mark (s +:+ String c t) = Some c.
Proof.
  intros Hs Hc. induction s as [|x s IH]; rewrite ?string_app_cons.
  - change ("" +:+ String c t) with (String c t). cbn [first_mark]. by rewrite Hc.
  - unfold contains_any, string_existsb in *. cbn [string_forallb] in Hs. apply negb_false_iff, andb_true_iff in Hs as [Hx Hs].
    apply negb_true_iff in Hx. cbn [first_mark]. rewrite Hx. apply IH. by rewrite Hs.
Qed.

Lemma ParseIP_ipv4 a b c d : Forall is_octet [a; b; c; d] → ParseIP (ipv4_text a b c d) = Some (mapped [a; b; c; d]).
Proof.
  intros Hall. unfold ParseIP. assert (first_mark (ipv4_text a b c d) = Some "."%char) as ->.
  { unfold ipv4_text. apply first_mark_app; [|done]. rewrite !Forall_cons in Hall. destruct Hall as (Ha & _).
    eapply bool_decide_eq_true_1. clear -Ha. revert a Ha.
    apply (octet_cases (λ n, bool_decide (contains_any (show_Z n) ".:%" = false))). by vm_compute. }
  by rewrite parse_ipv4_text.
Qed.

(** *** Sixteen octets *)

Lemma octet_bound s n : octet s = Some n → is_octet n.
Proof.
  assert (∀ s acc n, (0 ≤ acc)%Z → digits_value acc s = Some n → (0 ≤ n)%Z) as Hpos.
  { clear. induction s as [|c s IH]; intros acc n Hacc; cbn; [by intros [= <-]|]. destruct (is_digit c) eqn:Hc; [|done].
    apply IH. apply andb_true_iff in Hc as [Hc%N.leb_le _].
    change (Ascii.N_of_ascii "0") with 48%N in Hc. lia. }
  unfold octet. intros H.
  assert (∃ m, digits_value 0 s = Some m ∧ (m ≤ 255)%Z ∧ m = n) as (m & Hm & Hle & ->).
  { destruct s as [|c s]; [done|]. destruct (digits_value 0 (String c s)) as [m|] eqn:Hm.
    - exists m. destruct (Ascii.eqb_spec c "0"); subst; destruct s; try done; revert H; cbn [mbind option_bind]; 
        repeat (case_match; try done); intros [= ->]; bool_prop; done.
    - exfalso. revert H. repeat (case_match; try done). }
  split; [by eapply Hpos|lia].
Qed.

Lemma hex_value_bound c n : hex_value c = Some n → (0 ≤ n < 16)%Z.
Proof.
  unfold hex_value, is_digit, in_range.
  change (Ascii.N_of_ascii "0") with 48%N. change (Ascii.N_of_ascii "9") with 57%N. change (Ascii.N_of_ascii "a") with 97%N.
  change (Ascii.N_of_ascii "f") with 102%N. change (Ascii.N_of_ascii "A") with 65%N. change (Ascii.N_of_ascii "F") with 70%N.
  repeat case_match; intros [= <-]; rewrite ?andb_true_iff, ?N.leb_le in *; lia.
Qed.

Lemma hex_number_bound s : ∀ acc, (0 ≤ acc)%Z →
  (0 ≤ hex_number acc s < (acc + 1) * 16 ^ Z.of_nat (String.length s))%Z.
Proof.
  induction s as [|c s IH]; intros acc Hacc; cbn [hex_number String.length]; [lia|].
  assert (0 ≤ default 0 (hex_value c) < 16)%Z as Hc.
  { destruct (hex_value c) eqn:Hv; [by apply hex_value_bound in Hv|cbn; lia]. }
  rewrite Nat2Z.inj_succ, Z.pow_succ_r by lia. specialize (IH (16 * acc + default 0 (hex_value c))%Z ltac:(lia)). nia.
Qed.

Lemma group_octets digits : String.length digits ≤ 4 →
  let value := hex_number 0 digits in Forall is_octet [Z.shiftr value 8; Z.land value 255].
Proof.
  intros Hlen. cbn zeta. pose proof (hex_number_bound digits 0 ltac:(lia)) as Hb.
  assert (16 ^ Z.of_nat (String.length digits) ≤ 16 ^ 4)%Z by (apply Z.pow_le_mono_r; lia).
  assert (hex_number 0 digits < 65536)%Z as Hlt by (change (16 ^ 4)%Z with 65536%Z in *; lia).
  rewrite !Forall_cons. split_and!; [| |by constructor]; split.
  - apply Z.shiftr_nonneg. lia.
  - rewrite Z.shiftr_div_pow2 by lia. apply Z.div_lt_upper_bound; [done|]. change (2 ^ 8 * 256)%Z with 65536%Z. lia.
  - apply Z.land_nonneg. by right.
  - change 255%Z with (Z.ones 8). rewrite Z.land_ones by lia. by apply Z.mod_pos_bound.
Qed.

Lemma parse_ipv4_octets s v4 : parse_ipv4 s = Some v4 → length v4 = 4 ∧ Forall is_octet v4.
Proof.
  unfold parse_ipv4. destruct (split_byte _ _) as [|a [|b [|c [|d [|]]]]]; try done.
  destruct (octet a) eqn:Ha; [|done]. destruct (octet b) eqn:Hb; [|done]. destruct (octet c) eqn:Hc; [|done].
  destruct (octet d) eqn:Hd; [|done]. intros [= <-]. split; [done|]. repeat constructor; by eapply octet_bound.
Qed.

Lemma groups_loop_octets fuel : ∀ ip ellipsis s ip' ellipsis',
  Forall is_octet ip → length ip + 2 * fuel ≤ 16 → groups_loop fuel ip ellipsis s = Some (ip', ellipsis') →
  Forall is_octet ip' ∧ length ip' ≤ 16.
Proof.
  induction fuel as [|fuel IH]; intros ip ellipsis s ip' ellipsis' Hip Hlen; cbn [groups_loop].
  { destruct s; [|done]. intros [= <- <-]. split; [done|lia]. }
  destruct (hex_prefix s) as [digits rest]. destruct (_ || _) eqn:Hd; [done|]. bool_prop.
  pose proof (group_octets digits ltac:(lia)) as Hg. cbn zeta in Hg.
  set (group := [Z.shiftr (hex_number 0 digits) 8; Z.land (hex_number 0 digits) 255]) in *.
  assert (Forall is_octet (ip ++ group)) as Hall by by apply Forall_app.
  assert (length (ip ++ group) + 2 * fuel ≤ 16) as Hlen' by (rewrite length_app; cbn; lia).
  destruct rest as [|c rest]; [intros [= <- <-]; split; [done|lia]|].
  destruct (ascii_dec c "."); [subst c|destruct (ascii_dec c ":"); [subst c|]].
  - cbn beta iota. destruct (_ || _) eqn:Hfull; [done|]. destruct (parse_ipv4 s) as [v4|] eqn:Hv; [|done].
    intros [= <- <-]. apply parse_ipv4_octets in Hv as [Hlv Hv]. split; [by apply Forall_app|]. apply orb_false_iff in Hfull as [_ Hf].
    apply bool_decide_eq_false in Hf. rewrite length_app. lia.
  - cbn beta iota. destruct rest as [|c rest]; [done|]. destruct (ascii_dec c ":") as [->|Hne].
    + destruct ellipsis; [done|]. destruct rest; [intros [= <- <-]; split; [done|lia]|by apply IH].
    + intros Hrun. apply (IH (ip ++ group) ellipsis (String c rest) ip' ellipsis'); [done..|]. revert Hrun.
      destruct c as [[] [] [] [] [] [] [] []]; try done.
  - intros Hrun. exfalso. revert Hrun. destruct c as [[] [] [] [] [] [] [] []]; done.
Qed.

Lemma expand_octets ip ellipsis ip' : Forall is_octet ip → length ip ≤ 16 → expand ip ellipsis = Some ip' →
  length ip' = 16 ∧ Forall is_octet ip'.
Proof.
  intros Hip Hlen. unfold expand. destruct ellipsis as [at_|]; case_bool_decide; intros [= <-].
  - split; [rewrite !length_app, length_replicate, length_take, length_drop; lia|].
    rewrite !Forall_app. split_and!; [by apply Forall_take| |by apply Forall_drop]. apply Forall_replicate. by split.
  - split; [lia|done].
Qed.

Lemma ParseIP_octets s ip : ParseIP s = Some ip → length ip = 16 ∧ Forall is_octet ip.
Proof.
  assert (∀ ellipsis s, ('(ip, ellipsis) ← groups_loop 8 [] ellipsis s; expand ip ellipsis) = Some ip →
    length ip = 16 ∧ Forall is_octet ip) as Hloop.
  { intros ellipsis t. destruct (groups_loop 8 [] ellipsis t) as [[ip' e]|] eqn:Hg; [|done]. cbn.
    apply groups_loop_octets in Hg as [? ?]; [|by constructor|cbn; lia]. by apply expand_octets. }
  assert (parse_ipv6 s = Some ip → length ip = 16 ∧ Forall is_octet ip) as H6.
  { unfold parse_ipv6. repeat case_match; try apply Hloop. intros [= <-]. split; [done|]. by repeat constructor. }
  unfold ParseIP. destruct (first_mark s) as [c|]; [|done].
  destruct (ascii_dec c "."); [subst c|destruct (ascii_dec c ":"); [by subst c|]].
  - destruct (parse_ipv4 s) as [v4|] eqn:Hv; [|done]. intros [= <-]. apply parse_ipv4_octets in Hv as [Hl Hv].
    unfold mapped. rewrite !length_app, Hl. split; [done|]. rewrite !Forall_app. split_and!; [by apply Forall_replicate| |done].
    by repeat constructor.
  - intros H. exfalso. revert H. destruct c as [[] [] [] [] [] [] [] []]; done.
Qed.

(** The loopback addresses: 127.0.0.0/8, mapped or not, and ::1 *)
Lemma IsLoopback_iff ip : length ip = 16 → Forall is_octet ip →
  IsLoopback ip = true ↔ ip = IPv6loopback ∨ ∃ b c d, Forall is_octet [b; c; d] ∧ ip = mapped [127; b; c; d]%Z.
Proof.
  intros Hlen Hip. unfold IsLoopback, To4. case_bool_decide as Hm.
  - assert (ip = mapped [] ++ drop 12 ip) as Heq by (rewrite <-Hm; symmetry; apply take_drop).
    destruct (drop 12 ip) as [|a [|b [|c [|d [|]]]]]; subst ip; try done. apply Forall_app in Hip as [_ Hip].
    change (mapped [] ++ [a; b; c; d]) with (mapped [a; b; c; d]). rewrite Forall_cons in Hip. split.
    + intros ->%bool_decide_eq_true. right. exists b, c, d. by split; [destruct Hip|].
    + intros [Heq|(b' & c' & d' & _ & Heq)]; [discriminate|]. injection Heq as -> _ _ _. done.
  - rewrite bool_decide_eq_true. split; [by left|]. intros [->|(b & c & d & _ & ->)]; [done|]. by destruct Hm.
Qed.

(** *** Addresses with a port *)

Lemma has_byte_app c s t : has_byte c (s +:+ t) = has_byte c s || has_byte c t.
Proof.
  unfold has_byte, string_existsb. induction s as [|x s IH]; [done|]. rewrite string_app_cons. cbn [string_forallb].
  rewrite !negb_andb, negb_involutive. rewrite <-orb_assoc. by rewrite IH.
Qed.

Lemma has_byte_count c s : has_byte c s = false → count_byte c s = 0.
Proof.
  unfold has_byte, string_existsb. intros H%negb_false_iff. induction s as [|x s IH]; [done|]. cbn in *.
  apply andb_true_iff in H as [Hx Hs]. rewrite IH by done. apply negb_true_iff, bool_decide_eq_false in Hx.
  by rewrite bool_decide_eq_false_2.
Qed.

Lemma cut_last_app sep s t : has_byte sep s = false → has_byte sep t = false → cut_last sep (s +:+ String sep t) = Some (s, t).
Proof.
  intros Hs%has_byte_count Ht%has_byte_count. unfold cut_last. by rewrite split_byte_app, split_byte_none.
Qed.

(** A host without a colon or brackets and a port *)
Lemma SplitHostPort_app host port : contains_any host ":[]" = false → contains_any port ":[]" = false →
  SplitHostPort (host +:+ String ":" port) = Ok (host, port).
Proof.
  assert (∀ s, contains_any s ":[]" = false → has_byte ":" s = false ∧ has_byte "[" s = false ∧ has_byte "]" s = false) as Hsplit.
  { intros s. unfold contains_any, has_byte, string_existsb. rewrite !negb_false_iff. induction s as [|c s IH]; [done|]. cbn.
    rewrite !andb_true_iff. intros [Hc Hs]. destruct (IH Hs) as (-> & -> & ->). by repeat case_bool_decide. }
  intros (Hh1 & Hh2 & Hh3)%Hsplit (Hp1 & Hp2 & Hp3)%Hsplit. unfold SplitHostPort. rewrite cut_last_app by done.
  assert (has_byte "[" (host +:+ String ":" port) = false) as H2 by by rewrite has_byte_app, Hh2.
  assert (has_byte "]" (host +:+ String ":" port) = false) as H3 by by rewrite has_byte_app, Hh3.
  rewrite Hh1, H2, H3. destruct host as [|c host]; [done|]. destruct (ascii_dec c "[") as [->|Hne]; [done|].
  rewrite string_app_cons. destruct c as [[] [] [] [] [] [] [] []]; done.
Qed.
