(* ===== verification/AtomicFile.v ===== *)
(** * AtomicFile: files that are replaced whole

    Models the four writers that put a file in place through a temporary one:
    [writeFileAtomic] ([src/internal/store/store.go]), [atomicWrite]
    ([src/cmd/worldbisectd/main.go]), [atomicWriteFile]
    ([src/internal/artifact/bundle.go]) and [atomicWrite]
    ([src/internal/hub/store.go]), call by call, on a directory that knows what
    has reached the disk.  The other files of the development write a file in
    one step that happens or fails; the theorems show that these writers do so,
    for readers, after a crash of the process and after a loss of power. *)

From S2P Require Import Prelude HubConfig Bundle.

(** ** A directory and what the disk holds of it

    The content of an inode is on the disk once it was synced; of the names the
    disk holds, one by one, the present state or one of those since the last
    sync of the directory. *)

Record inode := mkInode {
  inode_mode : Z;
  inode_content : string;
  inode_synced : bool;
}.

Abbreviation names := (gmap string nat) (only parsing).

Record disk_dir := mkDiskDir {
  dir_inodes : gmap nat inode;
  dir_names : gmap string nat;
  dir_past : list (gmap string nat);
}.

Definition set_inode (d : disk_dir) (i : nat) (n : inode) : disk_dir :=
  mkDiskDir (<[i := n]> (dir_inodes d)) (dir_names d) (dir_past d).
Definition set_names (d : disk_dir) (m : gmap string nat) : disk_dir :=
  mkDiskDir (dir_inodes d) m (dir_names d :: dir_past d).

(** The content and the mode that a reader finds *)
Definition read_name (d : disk_dir) (name : string) : option out_file :=
  i ← dir_names d !! name; n ← dir_inodes d !! i; Some (inode_content n, inode_mode n).

Definition states (d : disk_dir) : list (gmap string nat) := dir_names d :: dir_past d.

(** [d'] may be what is left of [d] after a loss of power. *)
Record power_loss (d d' : disk_dir) : Prop := {
  loss_names name : ∃ m, m ∈ states d ∧ dir_names d' !! name = m !! name;
  loss_inodes i n : dir_inodes d !! i = Some n →
    ∃ n', dir_inodes d' !! i = Some n' ∧ (inode_synced n = true → n' = n);
}.

(** Every name that the disk may hold has an inode. *)
Definition well_formed (d : disk_dir) : Prop := ∀ m name i, m ∈ states d → m !! name = Some i → i ∈ dom (dir_inodes d).

(** ** System calls

    A computation gives the states after each of its calls, the last state and
    its result. *)

Definition W (A : Type) : Type := disk_dir → list disk_dir * disk_dir * result A.

Definition wbind {A B} (m : W A) (k : A → W B) : W B := λ d,
  let '(trace, d, r) := m d in
  match r with
  | Err err => (trace, d, Err err)
  | Ok a => let '(trace', d, r) := k a d in (trace ++ trace', d, r)
  end.
#[local] Notation "'call' x '<-' m ';' k" := (wbind m (λ x, k)) (at level 200, x pattern, m at level 100, k at level 200).
#[local] Notation "'call_' m ';' k" := (wbind m (λ _, k)) (at level 200, m at level 100, k at level 200).

Definition wret {A} (a : A) : W A := λ d, ([], d, Ok a).
(** A call that does [f] or fails *)
Definition does (fail : option error) (f : disk_dir → disk_dir) : W unit := λ d,
  match fail with Some err => ([], d, Err err) | None => ([f d], f d, Ok tt) end.
(** [defer], for a call whose error is ignored *)
Definition deferred {A} (final : W unit) (m : W A) : W A := λ d,
  let '(trace, d, r) := m d in
  let '(trace', d, _) := final d in
  (trace ++ trace', d, r).

(** What the calls answer.  The name of the temporary file is the choice of
    [os.CreateTemp]; a write that fails may have written a part. *)
Record write_io := mkWriteIO {
  wio_temp : string;
  wio_mkdir : option error;
  wio_create : option error;
  wio_chmod : option error;
  wio_write : option (nat * error);
  wio_sync : option error;
  wio_close : option error;
  wio_rename : option error;
  wio_syncdir : option error;
  wio_remove : option error;
}.

Section calls.
Context (io : write_io).

Definition mkdirAll : W unit := does (wio_mkdir io) id.

Definition createTemp : W nat := λ d,
  match wio_create io with
  | Some err => ([], d, Err err)
  | None =>
      let i := fresh (dom (dir_inodes d)) in
      let d := set_inode (set_names d (<[wio_temp io := i]> (dir_names d))) i (mkInode 384 "" false) in
      ([d], d, Ok i)
  end.

Definition on_inode (f : inode → inode) (i : nat) (d : disk_dir) : disk_dir :=
  match dir_inodes d !! i with Some n => set_inode d i (f n) | None => d end.

Definition chmod (i : nat) (mode : Z) : W unit :=
  does (wio_chmod io) (on_inode (λ n, mkInode mode (inode_content n) false) i).
Definition write (i : nat) (content : string) : W unit := λ d,
  let append s := on_inode (λ n, mkInode (inode_mode n) (inode_content n +:+ s) false) i d in
  match wio_write io with
  | Some (part, err) => let d := append (string_take part content) in ([d], d, Err err)
  | None => ([append content], append content, Ok tt)
  end.
Definition sync (i : nat) : W unit :=
  does (wio_sync io) (on_inode (λ n, mkInode (inode_mode n) (inode_content n) true) i).
Definition close : W unit := does (wio_close io) id.
Definition rename (path : string) : W unit :=
  does (wio_rename io) (λ d,
    match dir_names d !! wio_temp io with
    | Some i => set_names d (<[path := i]> (delete (wio_temp io) (dir_names d)))
    | None => d
    end).
Definition remove : W unit := λ d,
  match dir_names d !! wio_temp io with
  | None => ([], d, Err ErrNotExist)
  | Some _ => does (wio_remove io) (λ d, set_names d (delete (wio_temp io) (dir_names d))) d
  end.
Definition syncDirectory : W unit := does (wio_syncdir io) (λ d, mkDiskDir (dir_inodes d) (dir_names d) []).

(** ** The writers *)

(** What they share; [set_mode] and [finish] are what they do after creating
    the temporary file and after renaming it. *)
Definition replace (set_mode : nat → W unit) (path content : string) (finish : W unit) : W unit :=
  call i <- createTemp;
  deferred remove
    (call_ set_mode i;
     call_ write i content;
     call_ sync i;
     call_ close;
     call_ rename path;
     finish).

Definition writeFileAtomic (path content : string) (mode : Z) : W unit :=
  call_ mkdirAll; replace (λ i, chmod i mode) path content (wret tt).
Definition daemon_atomicWrite (path content : string) (mode : Z) : W unit :=
  replace (λ i, chmod i mode) path content (wret tt).
Definition artifact_atomicWriteFile (path content : string) (mode : Z) : W unit :=
  call_ mkdirAll; replace (λ i, chmod i mode) path content (wret tt).
Definition hub_atomicWrite (name content : string) : W unit :=
  replace (λ _, wret tt) name content syncDirectory.
End calls.

(** ** The states of a run *)

Section proofs.
Context (io : write_io) (d : disk_dir) (path content : string) (mode : Z).
Context (Hwf : well_formed d) (Htemp : wio_temp io ≠ path) (Hfresh : dir_names d !! wio_temp io = None).

Let temp := wio_temp io.
Let i := fresh (dom (dir_inodes d)).

Local Lemma new_inode : dir_inodes d !! i = None.
Proof. apply not_elem_of_dom. apply is_fresh. Qed.

(** The temporary file in place, renamed, and renamed with a synced directory *)
Definition with_temp (n : inode) : disk_dir :=
  mkDiskDir (<[i := n]> (dir_inodes d)) (<[temp := i]> (dir_names d)) (states d).
Definition with_file (past : list (gmap string nat)) : disk_dir :=
  mkDiskDir (<[i := mkInode mode content true]> (dir_inodes d)) (<[path := i]> (dir_names d)) past.
Definition without_temp (n : inode) : disk_dir :=
  mkDiskDir (<[i := n]> (dir_inodes d)) (dir_names d) (<[temp := i]> (dir_names d) :: states d).

Definition renamed : disk_dir := with_file (<[temp := i]> (dir_names d) :: states d).

Inductive state_of_run : disk_dir → Prop :=
  | run_start : state_of_run d
  | run_temp n : state_of_run (with_temp n)
  | run_gone n : state_of_run (without_temp n)
  | run_renamed : state_of_run renamed
  | run_synced : state_of_run (with_file []).
#[local] Hint Constructors state_of_run : core.

Lemma read_other s name m n : name ≠ temp → dir_inodes s = <[i := n]> (dir_inodes d) →
  dir_names s !! name = m !! name → m ∈ states d → read_name s name = read_name (mkDiskDir (dir_inodes d) m []) name.
Proof.
  intros Hname Hi Hm Hin. unfold read_name. cbn. rewrite Hm, Hi. destruct (m !! name) as [j|] eqn:Hj; [|done]. cbn.
  rewrite lookup_insert_ne; [done|]. intros <-. pose proof (Hwf _ _ _ Hin Hj) as Hdom. apply elem_of_dom in Hdom.
  rewrite new_inode in Hdom. by destruct Hdom.
Qed.

(** The file as it may be after a loss of power *)
Definition after_loss (name : string) (v : option out_file) : Prop := ∃ d', power_loss d d' ∧ read_name d' name = v.

Lemma loss_other s s' m name n : (∀ j, j ≠ i → dir_inodes s !! j = dir_inodes d !! j) →
  power_loss s s' → dir_names s' !! name = m !! name → m ∈ states d → dir_inodes s !! i = n →
  after_loss name (read_name s' name).
Proof.
  intros Hj [_ Hi] Hm Hin _. exists (mkDiskDir (dir_inodes s') m []). split.
  - split; [intros name'; by exists m|]. cbn. intros j nj Hlook.
    assert (j ≠ i) by (intros ->; by rewrite new_inode in Hlook). apply Hi. by rewrite Hj.
  - unfold read_name. cbn. by rewrite Hm.
Qed.

Lemma state_reads s name : state_of_run s → name ≠ temp →
  read_name s name = read_name d name ∨ name = path ∧ read_name s name = Some (content, mode).
Proof.
  intros Hs Hname.
  destruct Hs as [|n|n| |]; [by left|left|left|..]; try (eapply (read_other _ _ (dir_names d)); [done|done| |by left]; cbn;
    by rewrite ?lookup_insert_ne by done).
  all: destruct (decide (name = path)) as [->|Hp]; [right; split; [done|]; unfold read_name; cbn;
      rewrite lookup_insert_eq; cbn; by rewrite lookup_insert_eq
    |left; eapply (read_other _ _ (dir_names d)); [done|done| |by left]; cbn; by rewrite lookup_insert_ne].
Qed.

Lemma state_loses s s' name : state_of_run s → power_loss s s' → name ≠ temp →
  after_loss name (read_name s' name) ∨ name = path ∧ read_name s' name = Some (content, mode).
Proof.
  intros Hs Hloss Hname. pose proof (loss_names _ _ Hloss name) as (m & Hm & Heq).
  assert (∀ j, j ≠ i → dir_inodes s !! j = dir_inodes d !! j) as Hj
    by (intros j Hne; destruct Hs; cbn; [done|by rewrite lookup_insert_ne..]).
  assert (dir_names s' !! name = dir_names d !! name ∨ (∃ m, m ∈ states d ∧ dir_names s' !! name = m !! name) ∨
    name = path ∧ dir_names s' !! name = Some i ∧ dir_inodes s !! i = Some (mkInode mode content true)) as [H|[H|H]].
  { assert (∀ m, m ∈ dir_past d → m ∈ states d) as Hpast by (intros; by apply elem_of_cons; right).
    destruct Hs; unfold states in Hm; cbn in Hm; unfold states in Hm; rewrite ?elem_of_cons in Hm.
    - right. left. exists m. split; [by apply elem_of_cons|done].
    - destruct Hm as [->|[->|Hm]]; [left; by rewrite Heq, lookup_insert_ne|by left|right; left; eauto].
    - destruct Hm as [->|[->|[->|Hm]]]; [by left|left; by rewrite Heq, lookup_insert_ne|by left|right; left; eauto].
    - destruct Hm as [->|[->|[->|Hm]]]; [|left; by rewrite Heq, lookup_insert_ne|by left|right; left; eauto].
      destruct (decide (name = path)) as [->|Hp]; [|left; by rewrite Heq, lookup_insert_ne].
      right. right. rewrite Heq, lookup_insert_eq. split_and!; [done..|]. cbn. by rewrite lookup_insert_eq.
    - destruct Hm as [->|Hm]; [|by apply elem_of_nil in Hm].
      destruct (decide (name = path)) as [->|Hp]; [|left; by rewrite Heq, lookup_insert_ne].
      right. right. rewrite Heq, lookup_insert_eq. split_and!; [done..|]. cbn. by rewrite lookup_insert_eq. }
  - left. eapply loss_other; [done|done|exact H|by left|done].
  - left. destruct H as (m' & Hm' & Heq'). by eapply loss_other.
  - right. destruct H as (-> & Hi & Hn). split; [done|]. apply (loss_inodes _ _ Hloss) in Hn as (n' & Hn' & Hsame). rewrite Hsame in Hn' by done.
    unfold read_name. rewrite Hi. cbn. by rewrite Hn'.
Qed.

(** *** The calls on these states *)

Lemma on_inode_temp f n : on_inode f i (with_temp n) = with_temp (f n).
Proof. unfold on_inode, with_temp, set_inode. cbn. rewrite lookup_insert_eq. cbn. by rewrite insert_insert_eq. Qed.

Lemma createTemp_run : createTemp io d =
  match wio_create io with
  | Some err => ([], d, Err err)
  | None => let s := with_temp (mkInode 384 "" false) in ([s], s, Ok i)
  end.
Proof. unfold createTemp. by destruct (wio_create io). Qed.

Lemma rename_run : rename io path (with_temp (mkInode mode content true)) =
  match wio_rename io with
  | Some err => ([], with_temp (mkInode mode content true), Err err)
  | None => ([renamed], renamed, Ok tt)
  end.
Proof.
  unfold rename, does. destruct (wio_rename io); [done|]. cbn. rewrite lookup_insert_eq. unfold set_names, renamed, with_file. cbn.
  by rewrite delete_insert_id.
Qed.

Lemma remove_temp n : remove io (with_temp n) =
  match wio_remove io with
  | Some err => ([], with_temp n, Err err)
  | None => ([without_temp n], without_temp n, Ok tt)
  end.
Proof.
  unfold remove, does. cbn. rewrite lookup_insert_eq. destruct (wio_remove io); [done|]. cbn.
  unfold set_names, without_temp. cbn. by rewrite delete_insert_id.
Qed.

Lemma remove_done past : remove io (with_file past) = ([], with_file past, Err ErrNotExist).
Proof. unfold remove. cbn. rewrite lookup_insert_ne by done. by rewrite Hfresh. Qed.

(** *** Whole runs *)

Inductive ended (syncs : bool) : disk_dir → result unit → Prop :=
  | ended_done : ended syncs (if syncs then with_file [] else renamed) (Ok tt)
  | ended_unsynced err : syncs = true → ended syncs renamed (Err err)
  | ended_unchanged err : ended syncs d (Err err)
  | ended_removed n err : ended syncs (without_temp n) (Err err)
  | ended_leftover n err : wio_remove io ≠ None → ended syncs (with_temp n) (Err err).

Definition body (chmods syncs : bool) (j : nat) : W unit :=
  call_ (if chmods then chmod io j mode else wret tt);
  call_ write io j content;
  call_ sync io j;
  call_ close io;
  call_ rename io path;
  if syncs then syncDirectory io else wret tt.

#[local] Hint Constructors state_of_run : core.

Lemma body_run (chmods syncs : bool) trace s r : (chmods = false → mode = 384%Z) →
  body chmods syncs i (with_temp (mkInode 384 "" false)) = (trace, s, r) →
  Forall state_of_run trace ∧
  (r = Ok tt ∧ s = (if syncs then with_file [] else renamed) ∨
   ∃ err, r = Err err ∧ (syncs = true ∧ s = renamed ∨ ∃ n, s = with_temp n)).
Proof.
  intros Hmode. unfold body.
  assert (∃ trace, Forall state_of_run trace ∧
    ((∃ n err, (if chmods then chmod io i mode else wret tt) (with_temp (mkInode 384 "" false)) = (trace, with_temp n, Err err)) ∨
     (∃ b, (if chmods then chmod io i mode else wret tt) (with_temp (mkInode 384 "" false)) =
       (trace, with_temp (mkInode mode "" b), Ok tt)))) as (tr0 & Htr0 & [(n & err & H)|(b & H)]).
  { destruct chmods; [|rewrite Hmode by done; exists []; split; [done|right; by eexists]].
    unfold chmod, does. destruct (wio_chmod io); [exists []; split; [done|left; by eexists _, _]|].
    rewrite on_inode_temp. eexists. split; [|right; by eexists]. by repeat constructor. }
  { unfold wbind at 1. rewrite H. intros [= <- <- <-]. split; [done|]. right. exists err. eauto. }
  unfold wbind at 1. rewrite H. unfold wbind at 1. unfold write. rewrite on_inode_temp. cbn [inode_mode inode_content].
  destruct (wio_write io) as [[part err]|].
  { rewrite on_inode_temp. intros [= <- <- <-]. split; [apply Forall_app; split; [done|by repeat constructor]|]. right. exists err. eauto. }
  unfold wbind at 1. unfold sync, does. rewrite on_inode_temp. cbn [inode_mode inode_content].
  destruct (wio_sync io) as [err|].
  { intros [= <- <- <-]. split; [repeat (apply Forall_app; split); by repeat constructor|]. right. exists err. eauto. }
  change ("" +:+ content) with content. unfold wbind at 1. unfold close, does.
  destruct (wio_close io) as [err|].
  { intros [= <- <- <-]. split; [repeat (apply Forall_app; split); by repeat constructor|]. right. exists err. eauto. }
  unfold id. unfold wbind at 1. rewrite rename_run. destruct (wio_rename io) as [err|].
  { intros [= <- <- <-]. split; [repeat (apply Forall_app; split); by repeat constructor|]. right. exists err. eauto. }
  destruct syncs; [unfold syncDirectory, does; destruct (wio_syncdir io) as [err|]|];
    (intros [= <- <- <-]; split; [repeat (apply Forall_app; split); by repeat constructor|]); [right; eauto|left; done..].
Qed.

Lemma replace_run (chmods syncs : bool) trace d' r : (chmods = false → mode = 384%Z) →
  replace io (λ j, if chmods then chmod io j mode else wret tt) path content (if syncs then syncDirectory io else wret tt) d =
    (trace, d', r) →
  Forall state_of_run trace ∧ ended syncs d' r.
Proof.
  intros Hmode. unfold replace. unfold wbind at 1. rewrite createTemp_run. destruct (wio_create io) as [err|].
  { intros [= <- <- <-]. split; [done|constructor]. }
  cbn zeta. unfold deferred. change (wbind _ _) with (body chmods syncs i).
  destruct (body chmods syncs i _) as [[tr s] r0] eqn:Hb. apply body_run in Hb as [Htr Hend]; [|done].
  destruct Hend as [[-> ->]|(err & -> & [[Hs ->]|[n ->]])].
  - assert (remove io (if syncs then with_file [] else renamed) = ([], if syncs then with_file [] else renamed, Err ErrNotExist)) as ->
      by (destruct syncs; apply remove_done).
    intros [= <- <- <-]. split; [constructor; [done|by rewrite app_nil_r]|constructor].
  - unfold renamed at 1. rewrite remove_done. intros [= <- <- <-]. split; [constructor; [done|by rewrite app_nil_r]|by constructor].
  - rewrite remove_temp. destruct (wio_remove io) eqn:Hr; intros [= <- <- <-].
    + split; [constructor; [done|by rewrite app_nil_r]|by constructor; rewrite Hr].
    + split; [constructor; [done|]; apply Forall_app; split; [done|by repeat constructor]|constructor].
Qed.
End proofs.

(** ** Properties *)

(** What a writer does to the directory, whatever its calls answer *)
Record replaced (io : write_io) (d : disk_dir) (path content : string) (mode : Z) (trace : list disk_dir) (d' : disk_dir)
    (r : result unit) : Prop := {
  (** a reader finds the old file or the new one, at any moment *)
  re_reads s name : s ∈ trace → name ≠ wio_temp io →
    read_name s name = read_name d name ∨ name = path ∧ read_name s name = Some (content, mode);
  (** and so it is after a loss of power at any moment *)
  re_losses s s' name : s ∈ trace → power_loss s s' → name ≠ wio_temp io →
    after_loss d name (read_name s' name) ∨ name = path ∧ read_name s' name = Some (content, mode);
  (** at the end the file is the new one, or nothing has changed *)
  re_path : ∃ outcome, HubConfig.atomicWrite (read_name d path) (Some (content, mode)) outcome = (read_name d' path, r);
  re_others name : name ≠ path → name ≠ wio_temp io → read_name d' name = read_name d name;
  re_temp : wio_remove io = None → read_name d' (wio_temp io) = None;
  re_wf : well_formed d';
}.

Section writers.
Context (io : write_io) (d : disk_dir) (path content : string) (mode : Z).
Context (Hwf : well_formed d) (Htemp : wio_temp io ≠ path) (Hfresh : dir_names d !! wio_temp io = None).

Local Notation state_of_run := (state_of_run io d path content mode).
Local Notation ended := (ended io d path content mode).

Lemma state_names s : state_of_run s → s = d ∨
  (∃ n, dir_inodes s = <[fresh (dom (dir_inodes d)) := n]> (dir_inodes d)) ∧
  ∀ m, m ∈ states s → m ∈ states d ∨ ∃ name, m = <[name := fresh (dom (dir_inodes d))]> (dir_names d).
Proof.
  intros Hs. destruct Hs; [by left|right..]; (split; [by eexists|]); intros m Hm; unfold states in Hm |- *; cbn in Hm;
    unfold states in Hm; rewrite ?elem_of_cons, ?elem_of_nil in Hm; rewrite ?elem_of_cons; destruct_or? Hm; subst; eauto 10.
Qed.

Lemma state_wf s : state_of_run s → well_formed s.
Proof.
  intros Hs. apply state_names in Hs as [->|[[n Hn] Hs]]; [done|]. intros m name j Hm Hj. rewrite Hn, dom_insert_L.
  apply elem_of_union. apply Hs in Hm as [Hm|[name' ->]]; [right; by eapply Hwf|].
  apply lookup_insert_Some in Hj as [[_ <-]|[_ Hj]]; [left; by apply elem_of_singleton|right].
  eapply Hwf; [by left|exact Hj].
Qed.

Lemma read_fresh n past : read_name (with_file d path content mode past) path = Some (content, mode) ∧
  read_name (with_file d path content mode past) (wio_temp io) = None ∧
  read_name (without_temp io d n) path = read_name d path ∧ read_name (without_temp io d n) (wio_temp io) = None ∧
  read_name (with_temp io d n) path = read_name d path.
Proof.
  assert (∀ m past', m !! path = dir_names d !! path →
    read_name (mkDiskDir (<[fresh (dom (dir_inodes d)) := n]> (dir_inodes d)) m past') path = read_name d path) as Hold.
  { intros m past' Hm. unfold read_name. cbn. rewrite Hm. destruct (dir_names d !! path) as [j|] eqn:Hj; [|done]. cbn.
    rewrite lookup_insert_ne; [done|]. intros <-. apply (Hwf (dir_names d)) in Hj; [|by left]. by apply is_fresh in Hj. }
  split_and!.
  - unfold read_name. cbn. rewrite lookup_insert_eq. cbn. by rewrite lookup_insert_eq.
  - unfold read_name. cbn. rewrite lookup_insert_ne by done. by rewrite Hfresh.
  - by apply Hold.
  - unfold read_name. cbn. by rewrite Hfresh.
  - apply Hold. cbn. by rewrite lookup_insert_ne.
Qed.

Lemma replace_replaced (chmods syncs : bool) trace d' r : (chmods = false → mode = 384%Z) →
  replace io (λ j, if chmods then chmod io j mode else wret tt) path content (if syncs then syncDirectory io else wret tt) d =
    (trace, d', r) →
  replaced io d path content mode trace d' r ∧
  (syncs = false → ∃ fail, atomicWriteFile (read_name d path) fail content mode = (read_name d' path, r)) ∧
  (syncs = true → r = Ok tt → d' = with_file d path content mode []).
Proof.
  intros Hmode Hrun. apply replace_run in Hrun as [Htrace Hend]; [|done..]. rewrite Forall_forall in Htrace.
  assert (state_of_run d') as Hd'.
  { destruct Hend; [destruct syncs|..]; constructor. }
  destruct (read_fresh (mkInode 0 "" false) []) as (Hnew & Hnone & _).
  destruct (read_fresh (mkInode 0 "" false) (<[wio_temp io := fresh (dom (dir_inodes d))]> (dir_names d) :: states d)) as (Hnew' & Hnone' & _).
  split; [split|].
  - intros s name Hs Hname. apply Htrace in Hs. by eapply state_reads.
  - intros s s' name Hs Hloss Hname. apply Htrace in Hs. by eapply state_loses.
  - destruct Hend as [|err Hs|err|n err|n err Hr].
    + exists Written. unfold HubConfig.atomicWrite. destruct syncs; [by rewrite Hnew|]. unfold renamed. by rewrite Hnew'.
    + exists (WrittenUnsynced err). unfold HubConfig.atomicWrite. unfold renamed. by rewrite Hnew'.
    + by exists (NotWritten err).
    + exists (NotWritten err). unfold HubConfig.atomicWrite. destruct (read_fresh n []) as (_ & _ & -> & _). done.
    + exists (NotWritten err). unfold HubConfig.atomicWrite. destruct (read_fresh n []) as (_ & _ & _ & _ & ->). done.
  - intros name Hp Ht. eapply state_reads in Hd' as [H|[H _]]; done.
  - intros Hremove. destruct Hend as [|err Hs|err|n err|n err Hr]; [|done| | |done].
    + by destruct syncs.
    + unfold read_name. by rewrite Hfresh.
    + by destruct (read_fresh n []) as (_ & _ & _ & -> & _).
  - by apply state_wf.
  - split.
    + intros ->. destruct Hend as [|err Hs|err|n err|n err Hr]; [exists None|done|exists (Some err)..].
      * unfold renamed. by rewrite Hnew'.
      * done.
      * destruct (read_fresh n []) as (_ & _ & -> & _). done.
      * destruct (read_fresh n []) as (_ & _ & _ & _ & ->). done.
    + intros -> ->. by inversion Hend.
Qed.
End writers.

(** C31: the writers are atomic.  Whatever the system calls answer, every reader
    at every moment finds the old file or the complete new one, and so does
    everybody after a loss of power at any moment, with the disk holding any
    mixture of the unsynced names and contents; at the end the writer has done
    what the one-step models of this development say: the new file and success,
    or an error and no change.  No other file changes, and the temporary one is
    gone unless removing it failed. *)
Theorem writers_atomic io d path content mode writer trace d' r
    (Hwriter : writer ∈ [writeFileAtomic io path content mode; daemon_atomicWrite io path content mode;
      artifact_atomicWriteFile io path content mode])
    (Hwf : well_formed d) (Htemp : wio_temp io ≠ path) (Hfresh : dir_names d !! wio_temp io = None)
    (Hrun : writer d = (trace, d', r)) :
  replaced io d path content mode trace d' r ∧
  ∃ fail, atomicWriteFile (read_name d path) fail content mode = (read_name d' path, r).
Proof.
  assert (∀ trace d' r, daemon_atomicWrite io path content mode d = (trace, d', r) →
    replaced io d path content mode trace d' r ∧
    ∃ fail, atomicWriteFile (read_name d path) fail content mode = (read_name d' path, r)) as Hdirect.
  { intros tr s r0 H0. destruct (replace_replaced io d path content mode Hwf Htemp Hfresh true false tr s r0) as (H1 & H2 & _);
      [done|exact H0|]. split; [done|by apply H2]. }
  assert (writeFileAtomic io path content mode d = (trace, d', r) → 
    replaced io d path content mode trace d' r ∧
    ∃ fail, atomicWriteFile (read_name d path) fail content mode = (read_name d' path, r)) as Hmkdir.
  { unfold writeFileAtomic. unfold wbind at 1. unfold mkdirAll, does. destruct (wio_mkdir io) as [err|].
    - intros [= <- <- <-]. split; [|by exists (Some err)]. split; try done; [by intros ? ? []%elem_of_nil|by intros ? ? ? []%elem_of_nil|by exists (NotWritten err)|].
      intros _. unfold read_name. by rewrite Hfresh.
    - unfold id. change (replace io (λ i, chmod io i mode) path content (wret tt) d) with (daemon_atomicWrite io path content mode d).
      destruct (daemon_atomicWrite io path content mode d) as [[tr s] r0]. intros [= <- <- <-].
      destruct (Hdirect _ _ _ eq_refl) as [[] Hfail]. split; [|done]. split; try done.
      + intros s0 name [->|Hs]%elem_of_cons Hname; [by left|by apply re_reads0].
      + intros s0 s' name [->|Hs]%elem_of_cons Hloss Hname; [left; by exists s'|by eapply re_losses0]. }
  rewrite !elem_of_cons, elem_of_nil in Hwriter. destruct_or? Hwriter; subst writer; [by apply Hmkdir|by apply Hdirect|by apply Hmkdir].
Qed.

(** the hub's writer is atomic and durable.  It does what the other writers
    do, and what it has reported as written is the file that is found after any
    later loss of power; an error of the last call, the sync of the directory,
    is reported although the new file is in place. *)
Theorem hub_atomicWrite_durable io d name content trace d' r
    (Hwf : well_formed d) (Htemp : wio_temp io ≠ name) (Hfresh : dir_names d !! wio_temp io = None)
    (Hrun : hub_atomicWrite io name content d = (trace, d', r)) :
  replaced io d name content 384 trace d' r ∧
  (r = Ok tt → ∀ s, power_loss d' s → read_name s name = Some (content, 384%Z)).
Proof.
  destruct (replace_replaced io d name content 384 Hwf Htemp Hfresh false true trace d' r) as (H1 & _ & H3); [done|exact Hrun|].
  split; [done|]. intros -> s Hloss. rewrite (H3 eq_refl eq_refl) in Hloss. destruct Hloss as [Hnames Hinodes].
  destruct (Hnames name) as (m & Hm & Hlook). unfold states in Hm. cbn in Hm. apply list_elem_of_singleton in Hm as ->.
  rewrite lookup_insert_eq in Hlook. destruct (Hinodes (fresh (dom (dir_inodes d))) (mkInode 384 content true)) as (n & Hn & Hsame).
  { cbn. by rewrite lookup_insert_eq. }
  rewrite Hsame in Hn by done. unfold read_name. rewrite Hlook. cbn. by rewrite Hn.
Qed.

(** ** Witnesses *)

Definition fine_calls : write_io := mkWriteIO ".tmp-1" None None None None None None None None None.
Definition full_disk : write_io := mkWriteIO ".tmp-1" None None None (Some (2, ErrMsg "no space left on device")) None None None None None.
Definition old_dir : disk_dir := mkDiskDir {[0 := mkInode 384 "old" true]} {["a.json" := 0]} [].

Lemma old_dir_wf : well_formed old_dir.
Proof.
  intros m name i [->|[]%elem_of_nil]%elem_of_cons Hi. cbn in Hi |- *. apply lookup_singleton_Some in Hi as [_ <-]. set_solver.
Qed.

Definition run_state {A} (run : list disk_dir * disk_dir * result A) : disk_dir := run.1.2.

Example full_disk_keeps_file :
  let run := writeFileAtomic full_disk "a.json" "new" 416 old_dir in
  run.2 = Err (ErrMsg "no space left on device") ∧ read_name (run_state run) "a.json" = Some ("old", 384%Z) ∧
  length run.1.1 = 5 ∧ dir_names (run_state run) !! ".tmp-1" = None.
Proof. by vm_compute. Qed.

Lemma writers_atomic_witness :
  let run := writeFileAtomic fine_calls "a.json" "new" 416 old_dir in
  replaced fine_calls old_dir "a.json" "new" 416 run.1.1 run.1.2 run.2 ∧
  ∃ fail, atomicWriteFile (read_name old_dir "a.json") fail "new" 416 = (read_name run.1.2 "a.json", run.2).
Proof.
  apply (writers_atomic fine_calls old_dir "a.json" "new" 416 (writeFileAtomic fine_calls "a.json" "new" 416)).
  - left.
  - exact old_dir_wf.
  - done.
  - vm_compute. reflexivity.
  - by destruct (writeFileAtomic _ _ _ _ _) as [[? ?] ?].
Defined.

Lemma hub_atomicWrite_durable_witness :
  let run := hub_atomicWrite fine_calls "a.json" "new" old_dir in
  replaced fine_calls old_dir "a.json" "new" 384 run.1.1 run.1.2 run.2 ∧
  (run.2 = Ok tt → ∀ s, power_loss run.1.2 s → read_name s "a.json" = Some ("new", 384%Z)).
Proof.
  apply (hub_atomicWrite_durable fine_calls old_dir "a.json" "new").
  - exact old_dir_wf.
  - done.
  - vm_compute. reflexivity.
  - by destruct (hub_atomicWrite _ _ _ _) as [[? ?] ?].
Defined.

(** The other writers do not sync the directory: a loss of power can take back
    what they have reported as written. *)
Lemma store_write_not_durable :
  let run := writeFileAtomic fine_calls "a.json" "new" 416 old_dir in
  run.2 = Ok tt ∧ ∃ s, power_loss (run_state run) s ∧ read_name s "a.json" = Some ("old", 384%Z).
Proof.
  split; [by vm_compute|]. exists (mkDiskDir (dir_inodes (run_state (writeFileAtomic fine_calls "a.json" "new" 416 old_dir))) (dir_names old_dir) []).
  split; [|by vm_compute]. split; [|by eauto]. intros name. exists (dir_names old_dir). split; [|done].
  assert (last (states (run_state (writeFileAtomic fine_calls "a.json" "new" 416 old_dir))) = Some (dir_names old_dir)) as H
    by (vm_compute; reflexivity).
  apply last_Some in H as [l ->]. apply elem_of_app. right. by apply list_elem_of_singleton.
Qed.
