(* ===== verification/HubMain.v ===== *)
(** * HubMain: the program of the team hub

    Models [src/cmd/worldbisect-hub/main.go]: the commands that prepare and
    check a hub, the start of the server, and the loop that serves requests,
    reloads the configuration, sweeps expired records and stops.  The machine
    is what the commands find and leave: configuration files, data directories
    and audit directories, by path.  A request is served in the phases of
    [HubServer]; a run of the loop is a list of events. *)

From S2P Require Import Prelude Sha256 Json Text Flags Net HubConfig HubStore HubAudit HubOidc HubServer.

(** ** State *)

Inductive line :=
  | UsageText
  | Created (configPath : string) (readToken writeToken : string)
  | CreatedCredential (key : Key) (token : string)
  | AuditHead (status : AuditStatus)
  | ListeningOn (address : string).

Record machine := mkMachine {
  m_configs : gmap string private_file;
  m_data : gmap string (gmap string root_entry);
  m_audit : gmap string audit_disk;
  m_output : list line;
}.

Definition set_configs (m : machine) (path : string) (file : option private_file) : machine :=
  mkMachine (partial_alter (λ _, file) path (m_configs m)) (m_data m) (m_audit m) (m_output m).
Definition set_data (m : machine) (path : string) (t : gmap string root_entry) : machine :=
  mkMachine (m_configs m) (<[path := t]> (m_data m)) (m_audit m) (m_output m).
Definition set_disk (m : machine) (path : string) (d : audit_disk) : machine :=
  mkMachine (m_configs m) (m_data m) (<[path := d]> (m_audit m)) (m_output m).
Definition say (m : machine) (l : line) : machine := mkMachine (m_configs m) (m_data m) (m_audit m) (m_output m ++ [l]).

Definition data_of (m : machine) (path : string) : gmap string root_entry := default ∅ (m_data m !! path).
Definition audit_of (m : machine) (path : string) : audit_disk := default (mkAuditDisk None ∅) (m_audit m !! path).

(** What the machine answers to a command *)
Record main_io := mkMainIO {
  mio_init : init_io;
  mio_provision : provision_io;
  mio_load : option error;
  mio_audit : audit_io;
  mio_audit_dir : result unit;
  mio_store : store_io;
  mio_dir : string → store_io;
  mio_order : list (string * root_entry) → list (string * root_entry);
  mio_root : result unit;
  mio_lock : result unit;
  mio_start : audit_io;
  mio_listen : option error;
}.

(** ** The hub in service *)

Inductive log_line :=
  | ReloadRejected (err : error)
  | ReloadFailed (err : error)
  | Reloaded (summary : string)
  | AuditSweepFailed (err : error)
  | SweepFailed (err : error).

Record serving := mkServing {
  sv_hub : hub;
  sv_address : string;
  sv_config : option private_file;       (** the configuration file as it is now *)
  sv_log : list log_line;
}.

(** [AccessSummary] *)
Definition AccessSummary (c : Config) : string :=
  show_nat (length (Config_Subjects c)) +:+ " subjects, " +:+ show_nat (length (Config_Memberships c)) +:+ " memberships, " +:+
  show_nat (length (Config_Keys c)) +:+ " opaque credentials".

Definition err_listen_address (err : error) : error := ErrMsg ("invalid listen address: " +:+ error_text err).
Definition err_listen_remote : error :=
  ErrMsg "use a loopback IP or explicitly set --allow-remote-listen behind a trusted TLS reverse proxy".

Definition validateListen (address : string) (allowRemote : bool) : result unit :=
  match SplitHostPort address with
  | Err err => Err (err_listen_address err)
  | Ok (host, _) =>
      let loopback := match ParseIP host with Some ip => IsLoopback ip | None => false end in
      fail? negb allowRemote && negb loopback with err_listen_remote in
      Ok tt
  end.

Section hub_main.
Context `{PUrls : !Urls, PMime : !Mime, PObjects : !JsonObjects, PRsa : !Rsa, !Json string, !Json ciClaims, !Json key_set, !Json signing_key}.
Context `{!Json (list replayRecord), !Json HubStore.Report, !Json Submission, !Json auditEntry, !Json auditState, !Json Config}.
Context `{PText : !FlagText}.

(** ** Commands *)

Definition err_arguments (command : string) : error := ErrMsg ("unexpected " +:+ command +:+ " arguments").
Definition err_commands : error := ErrMsg "expected init, credential, audit-verify or serve; use --help for usage".

Definition init_flags : flag_set := flag_list [("config", VString "hub.json")].
Definition credential_flags : flag_set := flag_list
  [("config", VString "hub.json"); ("subject", VString ""); ("kind", VString "user"); ("workspace", VString "default");
   ("role", VString "viewer"); ("expires-in", VDuration (30 * 24 * Hour))].
Definition audit_verify_flags : flag_set := flag_list [("audit-dir", VString "hub-data.audit"); ("expected-head", VString "")].
Definition serve_flags : flag_set := flag_list
  [("config", VString "hub.json"); ("data", VString "hub-data"); ("audit-dir", VString ""); ("listen", VString "127.0.0.1:8090");
   ("allow-remote-listen", VBool false)].

(** The flags of a command that takes no other arguments *)
Definition parse_only (command : string) (args : list string) (flags : flag_set) : result flag_set :=
  let? (f, rest) := Flags.Parse args flags in
  fail? negb (bool_decide (rest = [])) with err_arguments command in
  Ok f.

Definition run_init (io : main_io) (args : list string) (m : machine) : machine * result unit :=
  match parse_only "init" args init_flags with
  | Err err => (m, Err err)
  | Ok f =>
      let configPath := flag_string f "config" in
      let '(file, tokens) := Initialize (m_configs m !! configPath) (mio_init io) in
      let m := set_configs m configPath file in
      match tokens with
      | Err err => (m, Err err)
      | Ok tokens => (say m (Created configPath (default "" (tokens !! "read")) (default "" (tokens !! "write"))), Ok tt)
      end
  end.

Definition credential_options (f : flag_set) : CredentialOptions :=
  mkCredentialOptions (flag_string f "subject") (flag_string f "kind") (flag_string f "workspace") (flag_string f "role")
    (flag_duration f "expires-in").

Definition run_credential (io : main_io) (args : list string) (m : machine) : machine * result unit :=
  match parse_only "credential" args credential_flags with
  | Err err => (m, Err err)
  | Ok f =>
      let configPath := flag_string f "config" in
      let '(file, r) := ProvisionCredential (m_configs m !! configPath) (mio_provision io) (credential_options f) in
      let m := set_configs m configPath file in
      match r with
      | Err err => (m, Err err)
      | Ok (key, token) => (say m (CreatedCredential key token), Ok tt)
      end
  end.

Definition run_audit_verify (io : main_io) (args : list string) (m : machine) : machine * result unit :=
  match parse_only "audit-verify" args audit_verify_flags with
  | Err err => (m, Err err)
  | Ok f =>
      let auditDir := flag_string f "audit-dir" in
      let '(d, (status, failure)) :=
        VerifyAudit (mio_audit io) (mio_audit_dir io) (audit_of m auditDir) (flag_string f "expected-head") in
      let m := set_disk m auditDir d in
      match failure with
      | Some err => (m, Err err)
      | None => (say m (AuditHead status), Ok tt)
      end
  end.

Definition start_event : AuditEvent := mkAuditEvent "operator" "operator" "" "" "server.start" "accepted" "".

(** Everything before the loop, for parsed flags; the result holds the hub that
    listens. *)
Definition start_serving (io : main_io) (f : flag_set) (m : machine) : machine * result serving :=
  let configPath := flag_string f "config" in
  let dataDir := flag_string f "data" in
  let listen := flag_string f "listen" in
  match validateListen listen (flag_bool f "allow-remote-listen") with
  | Err err => (m, Err err)
  | Ok _ =>
      match LoadConfig (m_configs m !! configPath) (mio_load io) with
      | Err err => (m, Err err)
      | Ok config =>
          let '(t, opened) := OpenStore (mio_store io) (mio_dir io) (mio_order io) (mio_root io) (mio_lock io) config
                                (data_of m dataDir) in
          let m := set_data m dataDir t in
          match opened with
          | Err err => (m, Err err)
          | Ok _ =>
              let auditDir := if bool_decide (flag_string f "audit-dir" = "") then dataDir +:+ ".audit" else flag_string f "audit-dir" in
              let '(d, audit) := OpenAudit (mio_audit io) (mio_audit_dir io) (audit_of m auditDir) (Config_AuditRetentionDays config) in
              match audit with
              | Err err => (set_disk m auditDir d, Err err)
              | Ok audit =>
                  let '(audit, d, started) := Append (mio_start io) audit d start_event in
                  let m := set_disk m auditDir d in
                  match started with
                  | Err err => (m, Err err)
                  | Ok _ =>
                      match mio_listen io with
                      | Some err => (m, Err err)
                      | None =>
                          (say m (ListeningOn listen),
                           Ok (mkServing (mkHub (NewServer false config t (Some audit) d) ∅) listen (m_configs m !! configPath) []))
                      end
                  end
              end
          end
      end
  end.

Definition run_serve (io : main_io) (args : list string) (m : machine) : machine * result serving :=
  match parse_only "serve" args serve_flags with
  | Err err => (m, Err err)
  | Ok f => start_serving io f m
  end.

(** [run], up to the loop of serve: the hub that serves, if it is to *)
Definition run (io : main_io) (args : list string) (m : machine) : machine * result (option serving) :=
  let finished (outcome : machine * result unit) := (outcome.1, let? _ := outcome.2 in Ok None) in
  match args with
  | [] => (say m UsageText, Ok None)
  | command :: args =>
      if bool_decide (command ∈ ["--help"; "-h"]) then (say m UsageText, Ok None)
      else if bool_decide (command = "init") then finished (run_init io args m)
      else if bool_decide (command = "credential") then finished (run_credential io args m)
      else if bool_decide (command = "audit-verify") then finished (run_audit_verify io args m)
      else if bool_decide (command = "serve") then
        let '(m, r) := run_serve io args m in (m, let? sv := r in Ok (Some sv))
      else (m, Err err_commands)
  end.

(** ** The loop *)

(** What can happen to a hub in service: a phase of a request, somebody writes
    the configuration file, a signal to reload it, the ticker *)
Inductive event :=
  | EvRequest (id : nat) (r : Request) (io : request_io)
  | EvAdvance (id : nat) (io : request_io)
  | EvConfigFile (file : option private_file)
  | EvReload (fail : option error) (io : request_io)
  | EvTick (audit : audit_io) (io : store_io) (dir_io : string → store_io)
      (order : list (string * root_entry) → list (string * root_entry)).

Definition with_hub (sv : serving) (s : Server) (m : gmap nat (Request * pending)) : serving :=
  mkServing (mkHub s m) (sv_address sv) (sv_config sv) (sv_log sv).
Definition log (sv : serving) (l : log_line) : serving := mkServing (sv_hub sv) (sv_address sv) (sv_config sv) (sv_log sv ++ [l]).
Definition log_failure (sv : serving) (r : result unit) (l : error → log_line) : serving :=
  match r with Err err => log sv (l err) | Ok _ => sv end.

Definition on_reload (fail : option error) (io : request_io) (sv : serving) : serving :=
  let '(mkHub s m) := sv_hub sv in
  match LoadConfig (sv_config sv) fail with
  | Err err => log (with_hub sv (audit_append (rio_intent io) s (operator_event "rejected")).1 m) (ReloadRejected err)
  | Ok next =>
      let '(s, r) := Reload io s next in
      match r with
      | Err err => log (with_hub sv s m) (ReloadFailed err)
      | Ok _ => log (with_hub sv s m) (Reloaded (AccessSummary next))
      end
  end.

Definition on_tick (audit : audit_io) (io : store_io) (dir_io : string → store_io)
    (order : list (string * root_entry) → list (string * root_entry)) (sv : serving) : serving :=
  let '(mkHub s m) := sv_hub sv in
  let '(s, swept) :=
    match srv_audit s with
    | None => (s, Ok tt)
    | Some a => let '(a, d, r) := HubAudit.PurgeExpired audit a (srv_disk s) in (set_audit s (Some a) d, r)
    end in
  let '(t, purged) := HubStore.PurgeExpired io dir_io order (srv_closed s) (srv_config s) (srv_tree s) in
  log_failure (log_failure (with_hub sv (set_tree s t) m) swept AuditSweepFailed) purged SweepFailed.

(** A request whose identifier is in use, or one to advance that is not there,
    does nothing. *)
Definition on_event (assets : bool) (e : event) (sv : serving) : serving :=
  let '(mkHub s m) := sv_hub sv in
  match e with
  | EvRequest id r io =>
      match m !! id with
      | Some _ => sv
      | None => let '(s, outcome) := arrive assets io s r in with_hub sv s (keep_pending m id r outcome)
      end
  | EvAdvance id io =>
      match m !! id with
      | None => sv
      | Some (r, p) => let '(s, outcome) := advance io s r p in with_hub sv s (keep_pending m id r outcome)
      end
  | EvConfigFile file => mkServing (sv_hub sv) (sv_address sv) file (sv_log sv)
  | EvReload fail io => on_reload fail io sv
  | EvTick audit io dir_io order => on_tick audit io dir_io order sv
  end.

Definition serve (assets : bool) (events : list event) (sv : serving) : serving :=
  foldl (λ sv e, on_event assets e sv) sv events.

(** [AuditLog.Close]; closing the lock file is not modelled. *)
Definition AuditLog_Close (a : AuditLog) : AuditLog :=
  mkAuditLog (log_state a) (log_retention a) (log_segmentBytes a) (log_maxSegments a) (log_fault a) true.

(** The deferred calls, when the loop returns: [audit.Close] and [store.Close] *)
Definition close_hub (s : Server) : Server :=
  mkServer (srv_config s) true (srv_tree s) (AuditLog_Close <$> srv_audit s)
    (srv_disk s) (srv_ci s) (srv_ci_buckets s) (srv_ci_slots s) (srv_buckets s) (srv_slots s) (srv_channels s) (srv_load s).
End hub_main.

(** ** Lemmas *)

Section lemmas.
Context `{PUrls : !Urls, PMime : !Mime, PObjects : !JsonObjects, PRsa : !Rsa, !Json string, !Json ciClaims, !Json key_set, !Json signing_key}.
Context `{!Json (list replayRecord), !Json HubStore.Report, !Json Submission, !Json auditEntry, !Json auditState, !Json Config}.
Context `{PText : !FlagText}.

(** The orders in which directories are listed *)
Definition event_ok (e : event) : Prop :=
  match e with
  | EvAdvance _ io => ∀ l, io_order (rio_store io) l ≡ₚ l
  | EvTick _ _ _ order => ∀ l, order l ≡ₚ l
  | _ => True
  end.

Definition step (assets : bool) (h h' : hub) : Prop := ∃ label, hub_step assets label h h'.

Lemma log_failure_hub sv r l : sv_hub (log_failure sv r l) = sv_hub sv.
Proof. by destruct r. Qed.

(** A configuration that is refused when the file is read is refused by
    [Reload], which records the same event. *)
Lemma rejected_step assets io s m :
  step assets (mkHub s m) (mkHub (audit_append (rio_intent io) s (operator_event "rejected")).1 m).
Proof.
  assert (∃ err, Validate zero_config = Err err) as [err Hv] by (eexists; reflexivity).
  exists None. apply (step_reload assets io s m zero_config _ (Err err)). unfold Reload. by rewrite Hv.
Qed.

Lemma on_tick_steps assets audit io dir_io order sv : (∀ l, order l ≡ₚ l) →
  rtc (step assets) (sv_hub sv) (sv_hub (on_tick audit io dir_io order sv)).
Proof.
  intros Hord. unfold on_tick. destruct sv as [[s m] address config lines]. cbn [sv_hub].
  assert (∀ s', rtc (step assets) (mkHub s m) (mkHub s' m) → ∀ swept,
    rtc (step assets) (mkHub s m) (sv_hub
      (let '(t, purged) := HubStore.PurgeExpired io dir_io order (srv_closed s') (srv_config s') (srv_tree s') in
       log_failure (log_failure (with_hub (mkServing (mkHub s m) address config lines) (set_tree s' t) m) swept AuditSweepFailed)
         purged SweepFailed))) as Hpurge.
  { intros s' Hs swept. destruct (HubStore.PurgeExpired _ _ _ _ _ _) as [t purged] eqn:Hp. rewrite !log_failure_hub. cbn [with_hub sv_hub].
    eapply rtc_r; [exact Hs|]. exists None. by eapply step_purge. }
  destruct (srv_audit s) as [a|] eqn:Ha; [|by apply Hpurge].
  destruct (HubAudit.PurgeExpired audit a (srv_disk s)) as [[a' d] r] eqn:Hp. apply Hpurge. apply rtc_once. exists None.
  by eapply step_purge_audit.
Qed.

(** Every event is a sequence of steps of the hub. *)
Lemma on_event_steps assets e sv : event_ok e → rtc (step assets) (sv_hub sv) (sv_hub (on_event assets e sv)).
Proof.
  intros Hok. destruct sv as [[s m] address config lines]. unfold on_event. cbn [sv_hub].
  destruct e as [id r io|id io|file|fail io|audit io dir_io order]; cbn [event_ok] in Hok.
  - destruct (m !! id) as [x|] eqn:Hid; [done|]. destruct (arrive assets io s r) as [s' outcome] eqn:Hrun. apply rtc_once.
    exists None. by eapply step_arrive.
  - destruct (m !! id) as [[r p]|] eqn:Hid; [|done]. destruct (advance io s r p) as [s' outcome] eqn:Hrun. apply rtc_once.
    eexists. by eapply step_advance.
  - done.
  - unfold on_reload. cbn [sv_hub sv_config]. destruct (LoadConfig config fail) as [next|err]; [|apply rtc_once, rejected_step].
    destruct (Reload io s next) as [s' r] eqn:Hr. apply rtc_once. exists None. destruct r; by eapply step_reload.
  - by apply (on_tick_steps assets audit io dir_io order (mkServing (mkHub s m) address config lines)).
Qed.

(** The configuration in effect was read from a private file. *)
Definition was_loaded (c : Config) : Prop := ∃ file fail, LoadConfig file fail = Ok c.

Lemma finish_ci_config io s r claims channel s' ans : finish_ci io s r claims channel = (s', ans) →
  srv_config s' = srv_config s.
Proof.
  unfold finish_ci. intros Hf. destruct (read_ci_submission r) as [no|submission]; [by injection Hf as <- _|].
  destruct (negb _); [by injection Hf as <- _|]. destruct (publish_ci _ _ _ _) as [s1 a1] eqn:Hp. injection Hf as <- _.
  apply publish_ci_inv in Hp as [(a & d & Hs1) _]. change (srv_config s1 = srv_config s). by rewrite Hs1.
Qed.

Lemma on_event_config assets e sv : event_ok e →
  srv_config (hub_server (sv_hub (on_event assets e sv))) = srv_config (hub_server (sv_hub sv)) ∨
  ∃ fail io next, e = EvReload fail io ∧ LoadConfig (sv_config sv) fail = Ok next ∧
    srv_config (hub_server (sv_hub (on_event assets e sv))) = next.
Proof.
  intros Hok. destruct sv as [[s m] address config lines]. unfold on_event. cbn [sv_hub].
  destruct e as [id r io|id io|file|fail io|audit io dir_io order]; cbn [event_ok] in Hok.
  - left. destruct (m !! id); [done|]. destruct (arrive assets io s r) as [s' outcome] eqn:Hrun.
    by apply arrive_tree in Hrun as (_ & ? & _).
  - left. destruct (m !! id) as [[r p]|]; [|done]. destruct (advance io s r p) as [s' outcome] eqn:Hrun. cbn.
    destruct p as [p channel|token|claims channel]; cbn [advance] in Hrun.
    + destruct (finish_api io s r p channel) as [s1 ans] eqn:Hf. injection Hrun as <- <-. by apply finish_api_view in Hf as [-> _].
    + by apply verify_ci_tree in Hrun as (_ & ? & _).
    + destruct (finish_ci io s r claims channel) as [s1 ans] eqn:Hf. injection Hrun as <- <-. by eapply finish_ci_config.
  - by left.
  - unfold on_reload. cbn [sv_hub sv_config]. destruct (LoadConfig config fail) as [next|err] eqn:Hl.
    + destruct (Reload io s next) as [s' r] eqn:Hr. pose proof (Reload_view _ _ _ _ _ Hr) as [_ [[Hc _]|[Hc _]]].
      * left. by destruct r.
      * right. exists fail, io, next. split_and!; [done..|]. by destruct r.
    + left. cbn. destruct (audit_append _ _ _) as [s' r] eqn:Ha. by apply audit_append_set in Ha as (a & d & ->).
  - left. unfold on_tick. cbn [sv_hub].
    destruct (srv_audit s) as [a|]; [destruct (HubAudit.PurgeExpired _ _ _) as [[a' d] r]|];
      (destruct (HubStore.PurgeExpired _ _ _ _ _ _) as [t purged]); by rewrite !log_failure_hub.
Qed.

Lemma on_event_address assets e sv : sv_address (on_event assets e sv) = sv_address sv.
Proof.
  destruct sv as [[s m] address config lines]. unfold on_event, on_reload, on_tick. cbn [sv_hub].
  destruct e; repeat case_match; try done; unfold log_failure; by repeat case_match.
Qed.
End lemmas.

(** An address whose host is the text of a loopback address *)
Definition loopback_address (address : string) : Prop := ∃ host port, SplitHostPort address = Ok (host, port) ∧
  (ParseIP host = Some IPv6loopback ∨ ∃ b c d, Forall is_octet [b; c; d] ∧ ParseIP host = Some (mapped [127; b; c; d]%Z)).

Lemma validateListen_spec address allowRemote : validateListen address allowRemote = Ok tt ↔
  (∃ host port, SplitHostPort address = Ok (host, port)) ∧ (allowRemote = true ∨ loopback_address address).
Proof.
  unfold validateListen, loopback_address. destruct (SplitHostPort address) as [[host port]|err]; [|split; [done|by intros [(?&?&?) _]]].
  assert ((match ParseIP host with Some ip => IsLoopback ip | None => false end) = true ↔
    (ParseIP host = Some IPv6loopback ∨ ∃ b c d, Forall is_octet [b; c; d] ∧ ParseIP host = Some (mapped [127; b; c; d]%Z))) as Hl.
  { destruct (ParseIP host) as [ip|] eqn:Hip; [|split; [done|by intros [?|(?&?&?&_&?)]]].
    apply ParseIP_octets in Hip as [? ?]. rewrite IsLoopback_iff by done. split.
    - intros [->|(b & c & d & ? & ->)]; [by left|right; by exists b, c, d].
    - intros [[= ->]|(b & c & d & ? & [= ->])]; [by left|right; by exists b, c, d]. }
  destruct allowRemote; cbn [negb andb]; [split; [intros _; split; [by eexists _, _|by left]|done]|].
  destruct (match ParseIP host with Some ip => IsLoopback ip | None => false end) eqn:He; cbn [negb].
  - split; [|done]. intros _. split; [by eexists _, _|right]. exists host, port. split; [done|]. by apply Hl.
  - split; [done|]. intros [_ [?|(h & p & [= <- <-] & H)]]; [done|]. by apply Hl in H.
Qed.

(** ** Properties *)

(** the hub listens locally unless it was told otherwise.  Without
    [--allow-remote-listen] an address is accepted exactly when its host is the
    text of a loopback address - of 127.0.0.0/8, plain or mapped into IPv6, or
    ::1; so of the IPv4 addresses exactly those that begin with 127, and no
    host name. *)
Theorem validateListen_loopback address a b c d port (Hoctets : Forall is_octet [a; b; c; d])
    (Hport : contains_any port ":[]" = false) :
  (validateListen address false = Ok tt ↔ loopback_address address) ∧
  (validateListen (ipv4_text a b c d +:+ String ":" port) false = Ok tt ↔ a = 127%Z).
Proof.
  split.
  - rewrite validateListen_spec. split; [by intros [_ [?|?]]|]. intros H. split; [|by right].
    destruct H as (host & p & ? & _). by exists host, p.
  - assert (contains_any (ipv4_text a b c d) ":[]" = false) as Hhost.
    { rewrite !Forall_cons in Hoctets. destruct Hoctets as (Ha & Hb & Hc & Hd & _).
      assert (∀ s t, contains_any s ":[]" = false → contains_any t ":[]" = false → contains_any (s +:+ String "." t) ":[]" = false) as Happ.
      { intros s t Hs Ht. unfold contains_any, string_existsb in *. induction s as [|x s IH]; rewrite ?string_app_cons; cbn in *; [done|].
        apply negb_false_iff, andb_true_iff in Hs as [Hx Hs]. rewrite Hx. apply IH. by rewrite Hs. }
      assert (∀ n, is_octet n → contains_any (show_Z n) ":[]" = false) as Hn.
      { intros n H. eapply bool_decide_eq_true_1. revert n H.
        apply (octet_cases (λ n, bool_decide (contains_any (show_Z n) ":[]" = false))). by vm_compute. }
      unfold ipv4_text. by auto. }
    unfold validateListen. rewrite (SplitHostPort_app _ _ Hhost Hport), (ParseIP_ipv4 _ _ _ _ Hoctets).
    assert (IsLoopback (mapped [a; b; c; d]) = bool_decide (a = 127%Z)) as -> by done.
    case_bool_decide; [by split|]. by split.
Qed.

(** C32: the running hub is the hub of the model.  When [serve] gets as far as
    listening, the configuration was read from a private file and is valid, the
    start is recorded in the audit log, and the address is local unless remote
    listening was allowed.  Whatever requests, signals, sweeps and changes of
    the configuration file follow, the loop of the program only takes steps of
    the hub from its initial state, so what holds of the reachable states of the
    hub holds of the program; and at every moment the configuration in effect is
    valid and was read whole from a private file. *)
Theorem serve_refines_hub `{PUrls : !Urls, PMime : !Mime, PObjects : !JsonObjects, PRsa : !Rsa, !Json string, !Json ciClaims,
    !Json key_set, !Json signing_key, !Json (list replayRecord), !Json HubStore.Report, !Json Submission, !Json auditEntry,
    !Json auditState, !Json Config} assets io f m m' sv events
    (Hstart : start_serving io f m = (m', Ok sv)) (Hevents : Forall event_ok events) :
  (flag_bool f "allow-remote-listen" = true ∨ loopback_address (sv_address (serve assets events sv))) ∧
  (∃ c t a d before disk,
    LoadConfig (m_configs m !! flag_string f "config") (mio_load io) = Ok c ∧
    Append (mio_start io) before disk start_event = (a, d, Ok tt) ∧
    reachable assets (mkHub (NewServer false c t (Some a) d) ∅) (sv_hub (serve assets events sv))) ∧
  (let c := srv_config (hub_server (sv_hub (serve assets events sv))) in was_loaded c ∧ Validate c = Ok tt).
Proof.
  assert (∃ c t a d before disk, validateListen (flag_string f "listen") (flag_bool f "allow-remote-listen") = Ok tt ∧
    LoadConfig (m_configs m !! flag_string f "config") (mio_load io) = Ok c ∧
    Append (mio_start io) before disk start_event = (a, d, Ok tt) ∧
    sv_hub sv = mkHub (NewServer false c t (Some a) d) ∅ ∧ sv_address sv = flag_string f "listen")
    as (c & t & a & d & before & disk & Hlisten & Hload & Happend & Hhub & Haddress).
  { unfold start_serving in Hstart. destruct (validateListen _ _) as [[]|]; [|done].
    destruct (LoadConfig _ _) as [c|] eqn:Hl; [|done]. destruct (OpenStore _ _ _ _ _ _ _) as [t [[]|]]; [|done].
    destruct (OpenAudit _ _ _ _) as [d0 [a0|]]; [|done]. destruct (Append _ _ _ _) as [[a d] [[]|]] eqn:Ha; [|done].
    destruct (mio_listen io); [done|]. injection Hstart as <- <-. by exists c, t, a, d, a0, d0. }
  assert (sv_address (serve assets events sv) = sv_address sv ∧
    rtc (step assets) (sv_hub sv) (sv_hub (serve assets events sv)) ∧
    (was_loaded (srv_config (hub_server (sv_hub sv))) → was_loaded (srv_config (hub_server (sv_hub (serve assets events sv))))))
    as (Haddr & Hsteps & Hconfig).
  { clear -Hevents. revert sv. induction Hevents as [|e events He _ IH]; intros sv; [done|].
    change (serve assets (e :: events) sv) with (serve assets events (on_event assets e sv)).
    destruct (IH (on_event assets e sv)) as (Ha & Hs & Hc). rewrite Ha, on_event_address. split_and!; [done| |].
    - etrans; [by apply on_event_steps|done].
    - intros Hl. apply Hc. destruct (on_event_config assets e sv He) as [->|(fail & io & next & _ & Hload & ->)]; [done|].
      by eexists _, _. }
  rewrite Haddr, Haddress. split_and!.
  - apply validateListen_spec in Hlisten as [_ ?]. done.
  - exists c, t, a, d, before, disk. split_and!; [done..|]. by rewrite <-Hhub.
  - cbn zeta. assert (was_loaded (srv_config (hub_server (sv_hub (serve assets events sv))))) as Hl.
    { apply Hconfig. rewrite Hhub. cbn. unfold NewServer, resetWorkspaceSlots. destruct (channels_loop _ _ _ _). by eexists _, _. }
    split; [done|]. destruct Hl as (file & fail & Hl). by apply LoadConfig_valid in Hl as [? _].
Qed.

(** ** Credentials *)

(** A byte as [crypto/rand] gives it *)
Definition is_byte (b : Z) : Prop := (0 ≤ b < 256)%Z.

Lemma lower_hex_plain s : string_forallb is_lower_hex s = true → contains_any s (white_cut +:+ ",") = false.
Proof.
  intros Hs. unfold contains_any, string_existsb. apply negb_false_iff. induction s as [|c s IH]; [done|]. cbn [string_forallb] in *.
  apply andb_true_iff in Hs as [Hc Hs]. rewrite IH, andb_true_r by done. destruct c as [[] [] [] [] [] [] [] []]; done.
Qed.

Lemma raw_token_bearer random : Forall is_byte random → length random = 32 →
  (bool_decide (String.length (raw_token random) < 32) || longer (raw_token random) 256 ||
   contains_any (raw_token random) (white_cut +:+ ",")) = false.
Proof.
  intros Hr Hl. assert (String.length (raw_token random) = 68) as Hlen.
  { unfold raw_token. rewrite string_length_append, length_EncodeToString, Hl. done. }
  unfold longer. rewrite Hlen. cbn [orb]. apply EncodeToString_lower, lower_hex_plain in Hr. unfold raw_token.
  revert Hr. generalize (EncodeToString random). intros s Hs. exact Hs.
Qed.

Section credentials.
Context `{PUrls : !Urls}.

(** The credential of a token whose key is the last one with its hash *)
Lemma authenticate_last r c token keys key : bearer (req_Authorization r) = Some token →
  (bool_decide (String.length token < 32) || longer token 256 || contains_any token (white_cut +:+ ",")) = false →
  Config_Keys c = keys ++ [key] → Key_TokenSHA256 key = token_hash token → authenticate r c = Some key.
Proof.
  intros Hb Hok Hk Hh. unfold authenticate. rewrite Hb, Hok, Hk, filter_app, filter_cons_True, filter_nil by done. by rewrite last_snoc.
Qed.

Lemma authenticate_old r c c' key : Config_Keys c' = Config_Keys c ++ [key] →
  (∀ token, bearer (req_Authorization r) = Some token → sha256_hex token ≠ Key_TokenSHA256 key) →
  authenticate r c' = authenticate r c.
Proof.
  intros Hk Hne. unfold authenticate. destruct (bearer _) as [token|]; [|done]. destruct (_ || _ || _); [done|].
  specialize (Hne token eq_refl). rewrite Hk, filter_app, filter_cons_False, filter_nil by (intros ?; by apply Hne).
  by rewrite app_nil_r.
Qed.

Lemma authenticate_key r c key : authenticate r c = Some key → key ∈ Config_Keys c.
Proof.
  unfold authenticate. destruct (bearer _); [|done]. destruct (_ || _ || _); [done|].
  intros [l Hl]%last_Some. apply (list_elem_of_filter (λ key, Key_TokenSHA256 key = sha256_hex s)). rewrite Hl. set_solver.
Qed.
End credentials.

(** a new credential works, and the others work as before.  When
    [credential] succeeds it has printed a token; the configuration file then
    loads, and under the loaded configuration a request with this token, until
    the credential expires, is the requested subject with the scopes of the
    requested role in the requested workspace, while a request with any other
    token has the credential it had. *)
Theorem credential_works `{PUrls : !Urls, !Json Config, PText : !FlagText} io args m m'
    (Hnewline : ∀ c : Config, json_valid c → json_strict (json_encode c +:+ NL) = Ok c)
    (Hrandom : ∀ bs, prov_random (mio_provision io) = Ok bs → Forall is_byte bs ∧ length bs = 32)
    (Hrun : run_credential io args m = (m', Ok tt)) :
  ∃ f old c key token, parse_only "credential" args credential_flags = Ok f ∧
    LoadConfig (m_configs m !! flag_string f "config") (prov_read_fail (mio_provision io)) = Ok old ∧
    m_output m' = m_output m ++ [CreatedCredential key token] ∧
    (json_valid c → LoadConfig (m_configs m' !! flag_string f "config") None = Ok c) ∧
    (∀ r now, bearer (req_Authorization r) = Some token → key_expired key now = false →
       credential r c now = Some (key, mkPrincipal (flag_string f "subject") (flag_string f "kind") (flag_string f "workspace")
                                         (Key_ID key) (roleScopes (flag_string f "role")))) ∧
    (∀ r now, (∀ other, bearer (req_Authorization r) = Some other → sha256_hex other ≠ sha256_hex token) →
       credential r c now = credential r old now).
Proof.
  unfold run_credential in Hrun. destruct (parse_only _ _ _) as [f|] eqn:Hf; [|done].
  destruct (ProvisionCredential _ _ _) as [file r] eqn:Hp. destruct r as [[key token]|]; [|done]. injection Hrun as <-.
  apply ProvisionCredential_inv in Hp as (old & c & Hold & Hp & -> & Hlong).
  assert (∃ random, token = raw_token random ∧ Forall is_byte random ∧ length random = 32) as (random & -> & Hbytes & Hlen).
  { unfold provision_config in Hp. do 3 step_ok Hp. step_ok Hp. step_ok Hp. step_ok Hp. step_ok Hp. step_ok Hp.
    injection Hp as _ _ <-. destruct (Hrandom _ eq_refl). by eexists. }
  apply LoadConfig_valid in Hold as Hvalid. destruct Hvalid as [Hvalid _].
  destruct (provisioned_principals _ _ _ _ _ _ _ _ Hvalid Hp) as (Hc & Hkeys & Hhash & _ & Hothers & Hnew).
  exists f, old, c, key, (raw_token random). split_and!; [done|done|done| | |].
  - intros Hj. cbn [m_configs say set_configs]. rewrite lookup_partial_alter_eq. unfold LoadConfig. change (private _) with true.
    cbn [negb file_content]. rewrite Hlong, (Hnewline _ Hj), Hc. done.
  - intros r now Hb Hexp. unfold credential. rewrite (authenticate_last r c _ _ _ Hb (raw_token_bearer _ Hbytes Hlen) Hkeys Hhash).
    by rewrite (Hnew now Hexp).
  - intros r now Hother. unfold credential. rewrite (authenticate_old r old c key Hkeys) by (intros t Ht; rewrite Hhash; by apply Hother).
    destruct (authenticate r old) as [k|] eqn:Hk; [|done]. apply authenticate_key in Hk. by rewrite Hothers.
Qed.

(** ** Witnesses *)

Definition no_text : FlagText := {| parse_int _ := Err err_parse; parse_duration _ := Err err_parse |}.
Definition served_configs : Json Config := single_json demo_api_config.
#[local] Existing Instances simple_urls demo_mime demo_members demo_rsa text_json claims_json keys_json key_json
  ledger_json demo_reports demo_submissions demo_entries demo_states served_configs no_text.

Definition operator_io : main_io :=
  mkMainIO (mkInitIO (Ok (replicate 32 7%Z)) (Ok (replicate 32 9%Z)) None None)
    (mkProvisionIO None None (Ok (replicate 32 11%Z)) (Ok [7]%Z) 1000 Written) None (demo_audit_io LineWritten) (Ok tt)
    (demo_store_io (demo_time 1000000)) (λ _, demo_store_io (demo_time 1000000)) id (Ok tt) (Ok tt) (demo_audit_io LineWritten) None.
Definition operator_machine : machine := mkMachine {["hub.json" := mkPrivateFile true 384 "{}"]} ∅ ∅ [].

Example commands_run :
  (run operator_io ["init"; "--config=new.json"] operator_machine).2 = Ok None ∧
  (run operator_io ["init"] operator_machine).2 = Err (ErrMsg "file exists") ∧
  (run operator_io ["init"; "now"] operator_machine).2 = Err (err_arguments "init") ∧
  (run operator_io ["serve"; "--listen"; "0.0.0.0:8090"] operator_machine).2 = Err err_listen_remote.
Proof. split_and!; vm_compute; reflexivity. Qed.

Lemma validateListen_loopback_witness :
  (validateListen "192.0.2.1:8090" false = Ok tt ↔ loopback_address "192.0.2.1:8090") ∧
  (validateListen (ipv4_text 192 0 2 1 +:+ String ":" "8090") false = Ok tt ↔ 192%Z = 127%Z).
Proof.
  apply (validateListen_loopback "192.0.2.1:8090" 192 0 2 1 "8090").
  - repeat constructor; lia.
  - reflexivity.
Defined.

(** Alice gets a credential as a viewer. *)
Definition credential_arguments : list string := ["--subject"; "alice"; "--workspace=default"].
Definition credential_run : machine * result unit := run_credential operator_io credential_arguments operator_machine.
Definition alice_token : string := raw_token (replicate 32 11%Z).

Example credential_succeeds : credential_run.2 = Ok tt ∧ length (m_output credential_run.1) = 1.
Proof. split; vm_compute; reflexivity. Qed.

Lemma credential_works_witness : (∃ key token,
  m_output credential_run.1 = [CreatedCredential key token]) ∧ credential_run.2 = Ok tt.
Proof.
  pose proof (proj1 credential_succeeds) as Hok. split; [|exact Hok].
  destruct (credential_works operator_io credential_arguments operator_machine credential_run.1)
    as (f & old & c & key & token & _ & _ & Hout & _).
  - intros c Hc. symmetry. exact (f_equal Ok Hc).
  - intros bs Hbs. injection Hbs as <-. split; [repeat constructor; discriminate|reflexivity].
  - rewrite <-Hok. apply surjective_pairing.
  - exists key, token. exact Hout.
Defined.

(** A hub starts, admits a request, reloads its configuration and sweeps. *)
Definition served_flags : flag_set := serve_flags.
Definition started : machine * result serving := start_serving operator_io served_flags operator_machine.
Definition started_hub : serving :=
  match started.2 with Ok sv => sv | Err _ => mkServing (mkHub demo_api_server ∅) "" None [] end.
Definition served_events : list event :=
  [EvRequest 0 demo_api_request (demo_request_io 1000010); EvReload None (demo_request_io 1000011);
   EvTick (demo_audit_io LineWritten) (demo_store_io (demo_time 1000012)) (λ _, demo_store_io (demo_time 1000012)) id;
   EvAdvance 0 (demo_request_io 1000013)].
Definition served : serving := serve true served_events started_hub.

Example served_log : sv_log served = [Reloaded "2 subjects, 2 memberships, 2 opaque credentials"] ∧
  size (hub_requests (sv_hub served)) = 0.
Proof. split; vm_compute; reflexivity. Qed.

Lemma started_eq : started = (started.1, Ok started_hub).
Proof.
  assert (∃ sv, started.2 = Ok sv) as [sv Hsv] by (vm_compute; by eexists). unfold started_hub. rewrite Hsv. rewrite <-Hsv.
  apply surjective_pairing.
Qed.

Lemma serve_refines_hub_witness :
  (flag_bool served_flags "allow-remote-listen" = true ∨ loopback_address (sv_address served)) ∧
  Validate (srv_config (hub_server (sv_hub served))) = Ok tt.
Proof.
  destruct (serve_refines_hub true operator_io served_flags operator_machine started.1 started_hub served_events started_eq)
    as (Hlisten & _ & _ & Hvalid).
  - repeat constructor; intros l; reflexivity.
  - exact (conj Hlisten Hvalid).
Defined.
